(** * The theater queueing simulation of [real-python_simpy.ipynb]

    A shallow embedding of the notebook's code cells: [Theater],
    [go_to_movies], [run_theater], [get_average_wait_time],
    [calculate_wait_time], [get_user_input] and [main], together with the
    parts of Python and of SimPy they call.

    Conventions of the embedding.
    - A Python [str] is a list of Unicode code points; text the program
      prints is ASCII and kept as a [string].
    - A Python [int] is a [Z].
    - A Python [float] is idealised as an exact rational ([Q]): simulated
      times and wait-time samples carry no rounding error here.
    - A Python object that is mutated keeps its identity: every SimPy event
      lives in the store [objects] and is referred to by its index.
    - A generator is its suspension point together with its live locals. *)

From Stdlib Require Import String Ascii.
From Stdlib Require Import ZArith NArith QArith Qround Qabs List Lia.
From Stdlib Require Import Permutation DecimalString Bool Arith Lqa.
From Stdlib Require DecimalPos.
From stdpp Require Import base list.
Import ListNotations.

Local Open Scope Z_scope.

(** ** Exceptions *)

Inductive Exception : Type :=
| ValueError (msg : string)
| EOFError
| StatisticsError (msg : string)
| RuntimeError (msg : string)
| StopSimulation
| EmptySchedule.

(** A pure computation that may raise. *)
Inductive Try (A : Type) : Type :=
| Returns (a : A)
| Raises (e : Exception).
Arguments Returns {A} a.
Arguments Raises {A} e.

(** ** Python strings and the builtins [str.isdigit] and [int] *)

Module Py.

Definition str := list N.

(** An ASCII literal as a Python string. *)
Definition lit (s : string) : str := map N_of_ascii (list_ascii_of_string s).

(** Characters with Numeric_Type=Decimal (Unicode 14.0.0), as runs
    (first code point, length); inside a run the decimal value of a
    character is its offset modulo 10. *)
Definition decimal_runs : list (N * N) :=
  [(48, 10); (1632, 10); (1776, 10); (1984, 10); (2406, 10); (2534, 10);
   (2662, 10); (2790, 10); (2918, 10); (3046, 10); (3174, 10); (3302, 10);
   (3430, 10); (3558, 10); (3664, 10); (3792, 10); (3872, 10); (4160, 10);
   (4240, 10); (6112, 10); (6160, 10); (6470, 10); (6608, 10); (6784, 10);
   (6800, 10); (6992, 10); (7088, 10); (7232, 10); (7248, 10); (42528, 10);
   (43216, 10); (43264, 10); (43472, 10); (43504, 10); (43600, 10);
   (44016, 10); (65296, 10); (66720, 10); (68912, 10); (69734, 10);
   (69872, 10); (69942, 10); (70096, 10); (70384, 10); (70736, 10);
   (70864, 10); (71248, 10); (71360, 10); (71472, 10); (71904, 10);
   (72016, 10); (72784, 10); (73040, 10); (73120, 10); (92768, 10);
   (92864, 10); (93008, 10); (120782, 50); (123200, 10); (123632, 10);
   (125264, 10); (130032, 10)]%N.

(** Characters with Numeric_Type=Digit that are not decimal (superscripts,
    subscripts, circled digits, ...), as inclusive ranges. *)
Definition digit_only_ranges : list (N * N) :=
  [(178, 179); (185, 185); (4969, 4977); (6618, 6618); (8304, 8304);
   (8308, 8313); (8320, 8329); (9312, 9320); (9332, 9340); (9352, 9360);
   (9450, 9450); (9461, 9469); (9471, 9471); (10102, 10110);
   (10112, 10120); (10122, 10130); (68160, 68163); (69216, 69224);
   (69714, 69722); (127232, 127242)]%N.

(** Characters for which [str.isspace] holds. *)
Definition whitespace : list N :=
  [9; 10; 11; 12; 13; 28; 29; 30; 31; 32; 133; 160; 5760; 8192; 8193; 8194;
   8195; 8196; 8197; 8198; 8199; 8200; 8201; 8202; 8232; 8233; 8239; 8287;
   12288]%N.

(** [Py_UNICODE_TODECIMAL]: the decimal value of a character, if any. *)
Fixpoint to_decimal_in (runs : list (N * N)) (c : N) : option N :=
  match runs with
  | [] => None
  | (first, len) :: rest =>
      if ((first <=? c) && (c <? first + len))%N
      then Some ((c - first) mod 10)%N
      else to_decimal_in rest c
  end.

Definition to_decimal (c : N) : option N := to_decimal_in decimal_runs c.

Definition in_range (c : N) (r : N * N) : bool :=
  ((fst r <=? c) && (c <=? snd r))%N.

(** [Py_UNICODE_ISDIGIT]: Numeric_Type is Digit or Decimal. *)
Definition isdigit_char (c : N) : bool :=
  match to_decimal c with
  | Some _ => true
  | None => existsb (in_range c) digit_only_ranges
  end.

Definition isspace_char (c : N) : bool := existsb (N.eqb c) whitespace.

(** [str.isdigit()]: every character is a digit and there is at least one. *)
Definition isdigit (s : str) : bool :=
  match s with
  | [] => false
  | _ => forallb isdigit_char s
  end.

(** [int(s)] in base 10, first stage: code points below 127 are kept, other
    whitespace becomes a blank, other decimal digits become ASCII digits,
    and the first character that is none of these becomes a question mark
    that ends the buffer. *)
Fixpoint transform_decimal_and_space (s : str) : list N :=
  match s with
  | [] => []
  | c :: rest =>
      if (c <? 127)%N then c :: transform_decimal_and_space rest
      else if isspace_char c then 32%N :: transform_decimal_and_space rest
      else match to_decimal c with
           | Some d => (48 + d)%N :: transform_decimal_and_space rest
           | None => [63%N]
           end
  end.

(** [Py_ISSPACE] on the transformed buffer. *)
Definition c_isspace (c : N) : bool :=
  ((9 <=? c) && (c <=? 13) || (c =? 32))%N.

Fixpoint skip_spaces (b : list N) : list N :=
  match b with
  | c :: rest => if c_isspace c then skip_spaces rest else b
  | [] => []
  end.

Definition ascii_digit (c : N) : option Z :=
  if ((48 <=? c) && (c <=? 57))%N then Some (Z.of_N (c - 48)) else None.

(** The digit scan of [PyLong_FromString]: digits with single underscores
    between them.  [acc] is the value read so far, [prev_underscore] tells
    whether the previous character was an underscore.  The result is the
    value and the unread rest of the buffer, or [None] when an underscore is
    doubled or trailing. *)
Fixpoint scan_digits (b : list N) (acc : Z) (prev_underscore : bool)
  : option (Z * list N) :=
  match b with
  | [] => if prev_underscore then None else Some (acc, [])
  | c :: rest =>
      if (c =? 95)%N then
        if prev_underscore then None else scan_digits rest acc true
      else
        match ascii_digit c with
        | Some d => scan_digits rest (10 * acc + d) false
        | None => if prev_underscore then None else Some (acc, b)
        end
  end.

Definition invalid_literal : Exception :=
  ValueError "invalid literal for int() with base 10".

(** The second stage: blanks, an optional sign, the digits, blanks, and
    nothing else. *)
Definition long_from_string (b : list N) : Try Z :=
  let b1 := skip_spaces b in
  let '(sign, b2) :=
    match b1 with
    | 43%N :: r => (1, r)
    | 45%N :: r => (-1, r)
    | _ => (1, b1)
    end in
  match b2 with
  | [] => Raises invalid_literal
  | c :: _ =>
      match ascii_digit c with
      | None => Raises invalid_literal
      | Some _ =>
          match scan_digits b2 0 false with
          | None => Raises invalid_literal
          | Some (v, rest) =>
              match skip_spaces rest with
              | [] => Returns (sign * v)
              | _ :: _ => Raises invalid_literal
              end
          end
      end
  end.

Definition int (s : str) : Try Z :=
  long_from_string (transform_decimal_and_space s).

(** [str(n)] for an integer. *)
Definition str_of_int (n : Z) : string := NilZero.string_of_int (Z.to_int n).

End Py.


(** ** Floats as exact rationals: [divmod], [round], [statistics.mean] *)

Local Open Scope Q_scope.

(** [divmod(x, y)] on floats: the floored quotient and the remainder, which
    has the sign of [y]. *)
Definition divmod (x y : Q) : Q * Q :=
  let q := Qfloor (x / y) in (inject_Z q, x - inject_Z q * y).

(** [round(x)] with one argument: the nearest integer, ties going to the even
    one. *)
Definition round (x : Q) : Z :=
  let f := Qfloor x in
  match Qcompare (x - inject_Z f) (1 # 2) with
  | Lt => f
  | Gt => (f + 1)%Z
  | Eq => if Z.even f then f else (f + 1)%Z
  end.

Definition sum (data : list Q) : Q := fold_right Qplus 0 data.

(** [statistics.mean(data)]. *)
Definition statistics_mean (data : list Q) : Try Q :=
  let n := length data in
  if (n <? 1)%nat then Raises (StatisticsError "mean requires at least one data point")
  else Returns (sum data / inject_Z (Z.of_nat n)).

(** ** The two reporting functions of the notebook *)

Definition get_average_wait_time (wait_times : list Q) : Try Q :=
  statistics_mean wait_times.

Definition calculate_wait_time (wait_times : list Q) : Try (Z * Z) :=
  match get_average_wait_time wait_times with
  | Raises e => Raises e
  | Returns average_wait =>
      let '(minutes, frac_minutes) := divmod average_wait 1 in
      let seconds := frac_minutes * 60 in
      Returns (round minutes, round seconds)
  end.


(** ** SimPy objects *)

(** [URGENT = 0] and [NORMAL = 1]. *)
Inductive Priority : Type := URGENT | NORMAL.

Definition priority_value (p : Priority) : Z :=
  match p with URGENT => 0%Z | NORMAL => 1%Z end.

(** The three attributes of a [Theater] that hold a [simpy.Resource]. *)
Inductive Attr : Type := attr_cashier | attr_usher | attr_server.

(** The bound methods that are registered as callbacks of events. *)
Inductive Callback : Type :=
| Process_resume (process : nat)
| Resource_trigger_put (resource : Attr)
| Resource_trigger_get (resource : Attr)
| StopSimulation_callback.

(** The generator functions of the notebook. *)
Inductive Function : Type :=
| code_run_theater
| code_go_to_movies
| code_purchase_ticket
| code_check_ticket
| code_sell_food.

(** A generator object: the suspension point and the locals that are live
    there.  The [..._start] states are generators that have not run yet,
    the others are suspended at the [yield] their name tells.  The [env]
    and [theater] arguments are left out: there is one environment and one
    theater. *)
Inductive Generator : Type :=
| run_theater_start (num_cashiers num_servers num_ushers : Z)
| run_theater_timeout (moviegoer : Z)
| go_to_movies_start (moviegoer : Z)
| go_to_movies_cashier_request (moviegoer : Z) (arrival_time : Q) (request : nat)
| go_to_movies_cashier_process (moviegoer : Z) (arrival_time : Q) (request : nat)
| go_to_movies_usher_request (moviegoer : Z) (arrival_time : Q) (request : nat)
| go_to_movies_usher_process (moviegoer : Z) (arrival_time : Q) (request : nat)
| go_to_movies_server_request (moviegoer : Z) (arrival_time : Q) (request : nat)
| go_to_movies_server_process (moviegoer : Z) (arrival_time : Q) (request : nat)
| purchase_ticket_start (moviegoer : Z)
| purchase_ticket_timeout (moviegoer : Z)
| check_ticket_start (moviegoer : Z)
| check_ticket_timeout (moviegoer : Z)
| sell_food_start (moviegoer : Z)
| sell_food_timeout (moviegoer : Z)
| finished (code : Function).

Definition gi_code (g : Generator) : Function :=
  match g with
  | run_theater_start _ _ _ | run_theater_timeout _ => code_run_theater
  | go_to_movies_start _
  | go_to_movies_cashier_request _ _ _ | go_to_movies_cashier_process _ _ _
  | go_to_movies_usher_request _ _ _ | go_to_movies_usher_process _ _ _
  | go_to_movies_server_request _ _ _ | go_to_movies_server_process _ _ _ =>
      code_go_to_movies
  | purchase_ticket_start _ | purchase_ticket_timeout _ => code_purchase_ticket
  | check_ticket_start _ | check_ticket_timeout _ => code_check_ticket
  | sell_food_start _ | sell_food_timeout _ => code_sell_food
  | finished code => code
  end.

(** The classes of events.  A [Process] carries its generator and two
    history variables that SimPy does not keep: the time at which the
    generator was first resumed ([started]) and the time at which it
    returned ([returned]). *)
Inductive EventClass : Type :=
| Event_
| Timeout (delay : Q)
| Initialize (process : nat)
| Process (generator : Generator) (started returned : option Q)
| Request (resource : Attr)
| Release (resource : Attr) (request : nat).

(** [_value] and [_ok] of an event: pending, succeeded (with value [None]),
    or failed with an exception. *)
Inductive EventValue : Type :=
| PENDING
| succeeded
| failed (e : Exception).

Record Event : Type := mkEvent {
  class : EventClass;
  callbacks : option (list Callback);   (* [None] once processed *)
  value : EventValue;
  defused : bool
}.

Definition triggered (ev : Event) : bool :=
  match value ev with PENDING => false | _ => true end.

Definition set_class (c : EventClass) (ev : Event) : Event :=
  mkEvent c (callbacks ev) (value ev) (defused ev).
Definition set_callbacks (c : option (list Callback)) (ev : Event) : Event :=
  mkEvent (class ev) c (value ev) (defused ev).
Definition set_value (v : EventValue) (ev : Event) : Event :=
  mkEvent (class ev) (callbacks ev) v (defused ev).
Definition set_defused (ev : Event) : Event :=
  mkEvent (class ev) (callbacks ev) (value ev) true.

(** [simpy.Resource]: the requests that hold a slot and the requests and
    releases that wait. *)
Record Resource : Type := mkResource {
  capacity : Z;
  users : list nat;
  put_queue : list nat;
  get_queue : list nat
}.

Record Theater : Type := mkTheater {
  cashier : Resource;
  usher : Resource;
  server : Resource
}.

Definition getattr (a : Attr) (t : Theater) : Resource :=
  match a with
  | attr_cashier => cashier t
  | attr_usher => usher t
  | attr_server => server t
  end.

Definition setattr (a : Attr) (r : Resource) (t : Theater) : Theater :=
  match a with
  | attr_cashier => mkTheater r (usher t) (server t)
  | attr_usher => mkTheater (cashier t) r (server t)
  | attr_server => mkTheater (cashier t) (usher t) r
  end.

(** ** The state of a session *)

(** An entry of the event queue: time, priority, event id, event. *)
Definition Entry : Type := Q * Priority * nat * nat.

Definition entry_time (x : Entry) : Q := fst (fst (fst x)).
Definition entry_priority (x : Entry) : Priority := snd (fst (fst x)).
Definition entry_eid (x : Entry) : nat := snd (fst x).
Definition entry_event (x : Entry) : nat := snd x.

(** The console, the module [random], the module-level list [wait_times],
    and the environment with the objects that hang from it.

    The generator of [random] is a tape of raw draws and a position on it:
    [_randbelow(n)] is the draw at the position reduced modulo [n].  Every
    sequence of results the real generator can give is the one of some
    tape. *)
Record State : Type := mkState {
  stdin : list Py.str;
  stdout : string;
  random_tape : nat -> N;
  random_pos : nat;
  wait_times : list Q;
  now : Q;
  queue : list Entry;
  eid : nat;
  objects : list Event;
  theater : option Theater
}.

Definition set_stdin v (s : State) : State :=
  mkState v (stdout s) (random_tape s) (random_pos s) (wait_times s)
    (now s) (queue s) (eid s) (objects s) (theater s).
Definition set_stdout v (s : State) : State :=
  mkState (stdin s) v (random_tape s) (random_pos s) (wait_times s)
    (now s) (queue s) (eid s) (objects s) (theater s).
Definition set_random tape pos (s : State) : State :=
  mkState (stdin s) (stdout s) tape pos (wait_times s)
    (now s) (queue s) (eid s) (objects s) (theater s).
Definition set_wait_times v (s : State) : State :=
  mkState (stdin s) (stdout s) (random_tape s) (random_pos s) v
    (now s) (queue s) (eid s) (objects s) (theater s).
Definition set_now v (s : State) : State :=
  mkState (stdin s) (stdout s) (random_tape s) (random_pos s) (wait_times s)
    v (queue s) (eid s) (objects s) (theater s).
Definition set_queue v (s : State) : State :=
  mkState (stdin s) (stdout s) (random_tape s) (random_pos s) (wait_times s)
    (now s) v (eid s) (objects s) (theater s).
Definition set_eid v (s : State) : State :=
  mkState (stdin s) (stdout s) (random_tape s) (random_pos s) (wait_times s)
    (now s) (queue s) v (objects s) (theater s).
Definition set_objects v (s : State) : State :=
  mkState (stdin s) (stdout s) (random_tape s) (random_pos s) (wait_times s)
    (now s) (queue s) (eid s) v (theater s).
Definition set_theater v (s : State) : State :=
  mkState (stdin s) (stdout s) (random_tape s) (random_pos s) (wait_times s)
    (now s) (queue s) (eid s) (objects s) v.

(** ** Computations on the state *)

(** A computation returns, raises, or runs out of the steps it was given. *)
Inductive Result (A : Type) : Type :=
| Return (a : A) (s : State)
| Raise (e : Exception) (s : State)
| OutOfFuel (s : State).
Arguments Return {A} a s.
Arguments Raise {A} e s.
Arguments OutOfFuel {A} s.

Definition final_state {A} (r : Result A) : State :=
  match r with Return _ s | Raise _ s | OutOfFuel s => s end.

Definition M (A : Type) : Type := State -> Result A.

Definition ret {A} (a : A) : M A := fun s => Return a s.

Definition bind {A B} (m : M A) (k : A -> M B) : M B :=
  fun s =>
    match m s with
    | Return a s' => k a s'
    | Raise e s' => Raise e s'
    | OutOfFuel s' => OutOfFuel s'
    end.

Definition raise {A} (e : Exception) : M A := fun s => Raise e s.

Definition get : M State := fun s => Return s s.

Definition modify (f : State -> State) : M unit := fun s => Return tt (f s).

Definition lift {A} (t : Try A) : M A :=
  match t with Returns a => ret a | Raises e => raise e end.

Notation "'let*' x ':=' c 'in' k" := (bind c (fun x => k))
  (at level 10, x name, c at level 100, k at level 200).
Notation "'let*' ' p ':=' c 'in' k" := (bind c (fun x => match x with p => k end))
  (at level 10, p pattern, c at level 100, k at level 200).
Notation "c >> k" := (bind c (fun _ => k))
  (at level 100, k at level 200, right associativity).

(** A [for] loop over a list. *)
Fixpoint for_ {A} (l : list A) (body : A -> M unit) : M unit :=
  match l with
  | [] => ret tt
  | x :: rest => body x >> for_ rest body
  end.

(** ** Console and [random] *)

Definition newline : string := String (ascii_of_nat 10) EmptyString.

Definition write (text : string) : M unit :=
  modify (fun s => set_stdout (stdout s ++ text)%string s).

(** [print(a)] and [print(a, b)]. *)
Definition print (text : string) : M unit := write (text ++ newline)%string.
Definition print2 (a b : string) : M unit :=
  write (a ++ " " ++ b ++ newline)%string.

(** [input(prompt)]: the prompt is written and a line is read. *)
Definition input (prompt : string) : M Py.str :=
  write prompt >>
  let* s := get in
  match stdin s with
  | [] => raise EOFError
  | line :: rest => modify (set_stdin rest) >> ret line
  end.

Definition randbelow (n : Z) : M Z :=
  let* s := get in
  modify (set_random (random_tape s) (S (random_pos s))) >>
  ret (Z.of_N (random_tape s (random_pos s)) mod n)%Z.

(** [random.randint(a, b)]: an integer from [a] to [b], both included. *)
Definition randint (a b : Z) : M Z :=
  let* k := randbelow (b - a + 1)%Z in ret (a + k)%Z.

(** [random.choice([True, False])]. *)
Definition choice_True_False : M bool :=
  let* i := randbelow 2 in ret (nth (Z.to_nat i) [true; false] true).

(** ** The environment: [simpy.Environment] *)

(** The order of the heap: by time, then priority, then event id. *)
Definition entry_le (a b : Entry) : bool :=
  match Qcompare (entry_time a) (entry_time b) with
  | Lt => true
  | Gt => false
  | Eq =>
      match Z.compare (priority_value (entry_priority a))
                      (priority_value (entry_priority b)) with
      | Lt => true
      | Gt => false
      | Eq => (entry_eid a <=? entry_eid b)%nat
      end
  end.

(** [heappop]: the least entry of [x :: q] and the entries that stay. *)
Fixpoint heappop (x : Entry) (q : list Entry) : Entry * list Entry :=
  match q with
  | [] => (x, [])
  | y :: rest =>
      let '(m, rest') := heappop y rest in
      if entry_le x m then (x, q) else (m, x :: rest')
  end.

(** [env.schedule(event, priority, delay)]. *)
Definition schedule (event : nat) (priority : Priority) (delay : Q) : M unit :=
  modify (fun s =>
    set_eid (S (eid s))
      (set_queue ((Qred (now s + delay), priority, eid s, event) :: queue s) s)).

(** A new object gets the next free index of the store. *)
Definition new_object (ev : Event) : M nat :=
  let* s := get in
  modify (set_objects (objects s ++ [ev])) >> ret (length (objects s)).

Definition no_object : Exception := RuntimeError "no such object".

Definition get_event (event : nat) : M Event :=
  let* s := get in
  match objects s !! event with
  | Some ev => ret ev
  | None => raise no_object
  end.

Definition update_event (event : nat) (f : Event -> Event) : M unit :=
  let* ev := get_event event in
  modify (fun s => set_objects (<[event := f ev]> (objects s)) s).

(** [event.callbacks.append(callback)]. *)
Definition callbacks_append (event : nat) (callback : Callback) : M unit :=
  let* ev := get_event event in
  match callbacks ev with
  | Some cbs => update_event event (set_callbacks (Some (cbs ++ [callback])))
  | None => raise (RuntimeError "callbacks is None")
  end.

(** [event.succeed()]. *)
Definition succeed (event : nat) : M unit :=
  let* ev := get_event event in
  if triggered ev then raise (RuntimeError "event has already been triggered")
  else update_event event (set_value succeeded) >> schedule event NORMAL 0.

(** [env.timeout(delay)]. *)
Definition env_timeout (delay : Q) : M nat :=
  match Qcompare delay 0 with
  | Lt => raise (ValueError "Negative delay")
  | _ =>
      let* t := new_object (mkEvent (Timeout delay) (Some []) succeeded false) in
      schedule t NORMAL delay >> ret t
  end.

(** [env.process(generator)]: the process and the [Initialize] event that
    will start it. *)
Definition env_process (generator : Generator) : M nat :=
  let* p := new_object (mkEvent (Process generator None None) (Some []) PENDING false) in
  let* i := new_object (mkEvent (Initialize p) (Some [Process_resume p]) succeeded false) in
  schedule i URGENT 0 >> ret p.

(** ** Resources: [simpy.Resource] *)

Definition get_theater : M Theater :=
  let* s := get in
  match theater s with
  | Some t => ret t
  | None => raise no_object
  end.

Definition get_resource (r : Attr) : M Resource :=
  let* t := get_theater in ret (getattr r t).

Definition update_resource (r : Attr) (f : Resource -> Resource) : M unit :=
  let* t := get_theater in
  modify (set_theater (Some (setattr r (f (getattr r t)) t))).

(** [simpy.Resource(env, capacity)]. *)
Definition Resource_init (capacity : Z) : M Resource :=
  if (capacity <=? 0)%Z then raise (ValueError "capacity must be > 0.")
  else ret (mkResource capacity [] [] []).

(** [list.remove(x)]: the first occurrence goes. *)
Fixpoint list_remove (x : nat) (l : list nat) : list nat :=
  match l with
  | [] => []
  | y :: rest => if (x =? y)%nat then rest else y :: list_remove x rest
  end.

(** [Resource._do_put]: the request gets a slot if one is free. *)
Definition do_put (r : Attr) (event : nat) : M unit :=
  let* res := get_resource r in
  if (Z.of_nat (length (users res)) <? capacity res)%Z then
    update_resource r (fun res =>
      mkResource (capacity res) (users res ++ [event]) (put_queue res) (get_queue res)) >>
    succeed event
  else ret tt.

(** [Resource._do_get]: the released request leaves the users. *)
Definition do_get (r : Attr) (event : nat) : M unit :=
  let* ev := get_event event in
  match class ev with
  | Release _ request =>
      update_resource r (fun res =>
        mkResource (capacity res) (list_remove request (users res))
          (put_queue res) (get_queue res)) >>
      succeed event
  | _ => raise no_object
  end.

(** [BaseResource._trigger_put]: [_do_put] returns [None], so the loop over
    the queue is left after its first round, which looks at the head. *)
Definition trigger_put (r : Attr) : M unit :=
  let* res := get_resource r in
  match put_queue res with
  | [] => ret tt
  | put_ev :: _ =>
      do_put r put_ev >>
      let* ev := get_event put_ev in
      if triggered ev then
        update_resource r (fun res =>
          mkResource (capacity res) (users res) (tail (put_queue res)) (get_queue res))
      else ret tt
  end.

(** [BaseResource._trigger_get], likewise. *)
Definition trigger_get (r : Attr) : M unit :=
  let* res := get_resource r in
  match get_queue res with
  | [] => ret tt
  | get_ev :: _ =>
      do_get r get_ev >>
      let* ev := get_event get_ev in
      if triggered ev then
        update_resource r (fun res =>
          mkResource (capacity res) (users res) (put_queue res) (tail (get_queue res)))
      else ret tt
  end.

(** [resource.request()]. *)
Definition request (r : Attr) : M nat :=
  let* req := new_object (mkEvent (Request r) (Some []) PENDING false) in
  update_resource r (fun res =>
    mkResource (capacity res) (users res) (put_queue res ++ [req]) (get_queue res)) >>
  callbacks_append req (Resource_trigger_get r) >>
  trigger_put r >>
  ret req.

(** [resource.release(request)]. *)
Definition release (r : Attr) (req : nat) : M nat :=
  let* rel := new_object (mkEvent (Release r req) (Some []) PENDING false) in
  update_resource r (fun res =>
    mkResource (capacity res) (users res) (put_queue res) (get_queue res ++ [rel])) >>
  callbacks_append rel (Resource_trigger_put r) >>
  trigger_get r >>
  ret rel.

(** [Request.__exit__] at the end of a [with] block: a request that was
    not granted leaves the queue, and the resource is released. *)
Definition Request_exit (r : Attr) (req : nat) : M unit :=
  let* ev := get_event req in
  (if triggered ev then ret tt
   else update_resource r (fun res =>
     mkResource (capacity res) (users res) (list_remove req (put_queue res))
       (get_queue res))) >>
  release r req >> ret tt.

(** ** The notebook: [Theater] and the generators *)

(** [Theater.__init__(self, env, num_cashiers, num_ushers, num_servers)]. *)
Definition Theater_init (num_cashiers num_ushers num_servers : Z) : M Theater :=
  let* c := Resource_init num_cashiers in
  let* u := Resource_init num_ushers in
  let* sv := Resource_init num_servers in
  ret (mkTheater c u sv).

(** [wait_times.append(x)]. *)
Definition wait_times_append (x : Q) : M unit :=
  modify (fun s => set_wait_times (wait_times s ++ [x]) s).

(** Resuming a generator runs it to its next [yield]: the result is the new
    generator and the event it yields, or [None] when it returns. *)
Definition Resumption : Type := M (Generator * option nat).

Definition stop_iteration (code : Function) : Resumption :=
  ret (finished code, None).

(** [Theater.purchase_ticket]. *)
Definition purchase_ticket (g : Generator) : Resumption :=
  match g with
  | purchase_ticket_start moviegoer =>
      let* d := randint 1 3 in
      let* t := env_timeout (inject_Z d) in
      ret (purchase_ticket_timeout moviegoer, Some t)
  | _ => stop_iteration code_purchase_ticket
  end.

(** [Theater.check_ticket]. *)
Definition check_ticket (g : Generator) : Resumption :=
  match g with
  | check_ticket_start moviegoer =>
      let* t := env_timeout (3 / 60) in
      ret (check_ticket_timeout moviegoer, Some t)
  | _ => stop_iteration code_check_ticket
  end.

(** [Theater.sell_food]. *)
Definition sell_food (g : Generator) : Resumption :=
  match g with
  | sell_food_start moviegoer =>
      let* d := randint 1 5 in
      let* t := env_timeout (inject_Z d) in
      ret (sell_food_timeout moviegoer, Some t)
  | _ => stop_iteration code_sell_food
  end.

(** [go_to_movies(env, moviegoer, theater)]. *)
Definition go_to_movies (g : Generator) : Resumption :=
  match g with
  | go_to_movies_start moviegoer =>
      (* Arrive at the theatre. *)
      let* s := get in
      let arrival_time := now s in
      (* Purchase a ticket. *)
      let* req := request attr_cashier in
      ret (go_to_movies_cashier_request moviegoer arrival_time req, Some req)
  | go_to_movies_cashier_request moviegoer arrival_time req =>
      let* p := env_process (purchase_ticket_start moviegoer) in
      ret (go_to_movies_cashier_process moviegoer arrival_time req, Some p)
  | go_to_movies_cashier_process moviegoer arrival_time req =>
      Request_exit attr_cashier req >>
      (* Check the ticket. *)
      let* req := request attr_usher in
      ret (go_to_movies_usher_request moviegoer arrival_time req, Some req)
  | go_to_movies_usher_request moviegoer arrival_time req =>
      let* p := env_process (check_ticket_start moviegoer) in
      ret (go_to_movies_usher_process moviegoer arrival_time req, Some p)
  | go_to_movies_usher_process moviegoer arrival_time req =>
      Request_exit attr_usher req >>
      (* Maybe get some food. *)
      let* b := choice_True_False in
      if b then
        let* req := request attr_server in
        ret (go_to_movies_server_request moviegoer arrival_time req, Some req)
      else
        (* Head into the theatre. *)
        let* s := get in
        wait_times_append (now s - arrival_time) >>
        stop_iteration code_go_to_movies
  | go_to_movies_server_request moviegoer arrival_time req =>
      let* p := env_process (sell_food_start moviegoer) in
      ret (go_to_movies_server_process moviegoer arrival_time req, Some p)
  | go_to_movies_server_process moviegoer arrival_time req =>
      Request_exit attr_server req >>
      (* Head into the theatre. *)
      let* s := get in
      wait_times_append (now s - arrival_time) >>
      stop_iteration code_go_to_movies
  | _ => stop_iteration code_go_to_movies
  end.

(** [range(n)]. *)
Definition range (n : nat) : list Z := map Z.of_nat (seq 0 n).

(** [run_theater(env, num_cashiers, num_servers, num_ushers)]. *)
Definition run_theater (g : Generator) : Resumption :=
  match g with
  | run_theater_start num_cashiers num_servers num_ushers =>
      (* Create the theater. *)
      let* t := Theater_init num_cashiers num_servers num_ushers in
      modify (set_theater (Some t)) >>
      (* Three moviegoers waiting in line before the box office opens. *)
      for_ (range 3) (fun moviegoer =>
        env_process (go_to_movies_start moviegoer) >> ret tt) >>
      let moviegoer := 2%Z in
      let* t := env_timeout (12 / 60) in
      ret (run_theater_timeout moviegoer, Some t)
  | run_theater_timeout moviegoer =>
      let moviegoer := (moviegoer + 1)%Z in
      env_process (go_to_movies_start moviegoer) >>
      (* Customers arrive every 12 sec, on average. *)
      let* t := env_timeout (12 / 60) in
      ret (run_theater_timeout moviegoer, Some t)
  | _ => stop_iteration code_run_theater
  end.

(** [generator.send(None)]. *)
Definition send (g : Generator) : Resumption :=
  match gi_code g with
  | code_run_theater => run_theater g
  | code_go_to_movies => go_to_movies g
  | code_purchase_ticket => purchase_ticket g
  | code_check_ticket => check_ticket g
  | code_sell_food => sell_food g
  end.

(** [generator.throw(e)]: none of the generators catches an exception, but
    one that is suspended inside a [with] block leaves the block first. *)
Definition throw (g : Generator) (e : Exception) : Resumption :=
  match g with
  | go_to_movies_cashier_request _ _ req | go_to_movies_cashier_process _ _ req =>
      Request_exit attr_cashier req >> raise e
  | go_to_movies_usher_request _ _ req | go_to_movies_usher_process _ _ req =>
      Request_exit attr_usher req >> raise e
  | go_to_movies_server_request _ _ req | go_to_movies_server_process _ _ req =>
      Request_exit attr_server req >> raise e
  | _ => raise e
  end.

(** ** Processes and the event loop *)

(** The [try] statement of [Process._resume], once the generator has been
    resumed with outcome [r]: when it has yielded, the process registers
    itself with the yielded event; when it has returned or raised, the
    process is triggered and scheduled.  The generators here yield only
    events they have just created, so the yielded event still has its
    callbacks: the branch of SimPy's loop that resumes the generator again
    at once is not taken. *)
Definition process_outcome (process : nat) (generator : Generator)
    (started returned : option Q) (r : Result (Generator * option nat))
  : Result unit :=
  match r with
  | Return (generator', Some target) s =>
      (update_event process (set_class (Process generator' started returned)) >>
       let* tv := get_event target in
       match callbacks tv with
       | Some _ => callbacks_append target (Process_resume process)
       | None => raise (RuntimeError "yielded event was processed")
       end) s
  | Return (generator', None) s =>
      let returned :=
        match generator with
        | finished _ => returned
        | _ => Some (now s)
        end in
      (update_event process (fun p =>
         set_value succeeded (set_class (Process generator' started returned) p)) >>
       schedule process NORMAL 0) s
  | Raise e s =>
      (update_event process (fun p =>
         set_value (failed e)
           (set_class (Process (finished (gi_code generator)) started returned) p)) >>
       schedule process NORMAL 0) s
  | OutOfFuel s => OutOfFuel s
  end.

(** [Process._resume(event)]: the generator is resumed with the outcome of
    the event, by [send] or, when the event has failed, by [throw]. *)
Definition resume (process : nat) (event : nat) : M unit :=
  let* p := get_event process in
  match class p with
  | Process generator started returned =>
      let* s := get in
      let started := Some (default (now s) started) in
      let* ev := get_event event in
      let body :=
        match value ev with
        | failed e => update_event event set_defused >> throw generator e
        | _ => send generator
        end in
      fun s => process_outcome process generator started returned (body s)
  | _ => raise no_object
  end.

(** Calling a callback with the event that is processed. *)
Definition call (cb : Callback) (event : nat) : M unit :=
  match cb with
  | Process_resume process => resume process event
  | Resource_trigger_put r => trigger_put r
  | Resource_trigger_get r => trigger_get r
  | StopSimulation_callback =>
      let* ev := get_event event in
      match value ev with
      | failed e => raise e
      | _ => raise StopSimulation
      end
  end.

(** [env.step()]: the next event is taken from the queue, the clock moves
    to its time, and its callbacks run. *)
Definition step : M unit :=
  let* s := get in
  match queue s with
  | [] => raise EmptySchedule
  | x :: q =>
      let '(m, rest) := heappop x q in
      modify (fun s => set_queue rest (set_now (entry_time m) s)) >>
      let event := entry_event m in
      let* ev := get_event event in
      update_event event (set_callbacks None) >>
      for_ (default [] (callbacks ev)) (fun cb => call cb event) >>
      let* ev := get_event event in
      match value ev with
      | failed e => if defused ev then ret tt else raise e
      | _ => ret tt
      end
  end.

(** [while True: self.step()], for at most [fuel] steps. *)
Fixpoint step_loop (fuel : nat) : M unit :=
  match fuel with
  | O => fun s => OutOfFuel s
  | S fuel => step >> step_loop fuel
  end.

(** [env.run(until)] for a number [until]. *)
Definition run (until : Q) (fuel : nat) : M unit :=
  let* s := get in
  if Qle_bool until (now s)
  then raise (ValueError "until should be > the current simulation time.")
  else
    let* u := new_object (mkEvent Event_ (Some []) succeeded false) in
    schedule u URGENT (until - now s) >>
    callbacks_append u StopSimulation_callback >>
    fun s =>
      match step_loop fuel s with
      | Raise StopSimulation s' => Return tt s'
      | Raise EmptySchedule s' =>
          Raise (RuntimeError "No scheduled events left but until event was not triggered") s'
      | r => r
      end.

(** ** The notebook: input and [main] *)

(** The session right after the cell [wait_times = []]: nothing printed,
    the generator of [random] in some state, and [typed] on the console. *)
Definition session (tape : nat -> N) (typed : list Py.str) : State :=
  mkState typed "" tape 0%nat [] 0 [] 0%nat [] None.

Fixpoint map_int (params : list Py.str) : Try (list Z) :=
  match params with
  | [] => Returns []
  | x :: rest =>
      match Py.int x with
      | Raises e => Raises e
      | Returns n =>
          match map_int rest with
          | Raises e => Raises e
          | Returns ns => Returns (n :: ns)
          end
      end
  end.

Definition get_user_input : M (list Z) :=
  let* num_cashiers := input "# of cashiers: " in
  let* num_servers := input "# of servers: " in
  let* num_ushers := input "# of ushers: " in
  let params := [num_cashiers; num_servers; num_ushers] in
  if forallb Py.isdigit params then
    lift (map_int params)
  else
    print2 "Could not parse input. The simulation will use default values:"
           (newline ++ "1 cashier, 1 server, 1 usher.") >>
    ret [1; 1; 1]%Z.

(** [simpy.Environment()]: a new environment, with the clock at 0 and
    nothing scheduled. *)
Definition Environment : M unit :=
  modify (fun s =>
    set_theater None (set_objects [] (set_eid 0%nat (set_queue [] (set_now 0 s))))).

Section Notebook.

(** The tape of raw draws that [random.seed(a)] selects. *)
Variable mersenne_twister : Z -> nat -> N.

(** [random.seed(a)]. *)
Definition random_seed (a : Z) : M unit :=
  modify (set_random (mersenne_twister a) 0%nat).

(** The three parts of [main], named after its comments. *)

(** [# Setup.] *)
Definition main_setup : M (list Z) :=
  random_seed 0 >>
  get_user_input.

(** [# Run the simulation.] *)
Definition main_run_the_simulation (params : list Z) (fuel : nat) : M unit :=
  match params with
  | [num_cashiers; num_servers; num_ushers] =>
      print "Running simulation..." >>
      Environment >>
      env_process (run_theater_start num_cashiers num_servers num_ushers) >>
      run 90 fuel
  | _ => raise (ValueError "not enough values to unpack")
  end.

(** [# View the results.] *)
Definition main_view_the_results : M unit :=
  let* s := get in
  let* '(mins, secs) := lift (calculate_wait_time (wait_times s)) in
  print ("The average wait time is " ++ Py.str_of_int mins ++ " min. and "
         ++ Py.str_of_int secs ++ " sec.").

Definition main (fuel : nat) : M unit :=
  let* params := main_setup in
  main_run_the_simulation params fuel >>
  main_view_the_results.

End Notebook.



(** * Properties *)

(** ** Input validation *)

Definition prompts : string := "# of cashiers: # of servers: # of ushers: ".

Definition warning : string :=
  ("Could not parse input. The simulation will use default values: "
   ++ newline ++ "1 cashier, 1 server, 1 usher." ++ newline)%string.

Lemma string_app_assoc (a b c : string) :
  ((a ++ b) ++ c = a ++ (b ++ c))%string.
Proof. induction a as [|ch a IH]; cbn; [reflexivity | now rewrite IH]. Qed.

(** Reading three lines. *)
Lemma get_user_input_unfold s a b c rest :
  stdin s = a :: b :: c :: rest ->
  get_user_input s =
    (if forallb Py.isdigit [a; b; c] then lift (map_int [a; b; c])
     else print2 "Could not parse input. The simulation will use default values:"
                 (newline ++ "1 cashier, 1 server, 1 usher.") >> ret [1; 1; 1]%Z)
      (set_stdin rest (set_stdout (stdout s ++ prompts) s)).
Proof.
  intros H. unfold get_user_input, input, bind, write, modify, get, ret.
  cbn. rewrite H. cbn.
  rewrite !string_app_assoc. reflexivity.
Qed.

(** When one of the entries fails [isdigit], the three parameters are 1 and
    the warning is printed, whatever the other entries are. *)
Lemma get_user_input_default s a b c rest :
  stdin s = a :: b :: c :: rest ->
  forallb Py.isdigit [a; b; c] = false ->
  get_user_input s =
    Return [1; 1; 1]%Z
      (set_stdout (stdout s ++ prompts ++ warning) (set_stdin rest s)).
Proof.
  intros H Hd. rewrite (get_user_input_unfold _ _ _ _ _ H), Hd.
  unfold print2, write, bind, modify, ret. cbn. f_equal.
  unfold set_stdout, set_stdin; cbn. f_equal.
  unfold warning. rewrite !string_app_assoc. reflexivity.
Qed.

(** C1 (defect of the code).  The claim wants every triple of entries to
    give either the defaults with the warning or the three parsed integers.
    [str.isdigit] accepts characters that [int] rejects: with the
    superscript two (U+00B2) as first entry the validation passes, [int]
    raises ValueError, and [get_user_input] returns nothing and prints no
    warning. *)
Theorem get_user_input_superscript_two_raises (tape : nat -> N) :
  forallb Py.isdigit [[178%N]; Py.lit "1"; Py.lit "1"] = true /\
  get_user_input (session tape [[178%N]; Py.lit "1"; Py.lit "1"]) =
    Raise Py.invalid_literal (mkState [] prompts tape 0%nat [] 0 [] 0%nat [] None).
Proof. split; reflexivity. Qed.

(** C9.  With "0" typed three times the validation succeeds:
    [get_user_input] returns [0, 0, 0] and prints no warning.  [main] hands
    the zeros to the simulation, where the construction of the first
    resource (capacity 0) raises ValueError: the run ends with that
    exception as soon as two events have been processed. *)
Theorem zero_staffing_passes_validation (mt : Z -> nat -> N) (tape : nat -> N) (fuel : nat) :
  let typed := [Py.lit "0"; Py.lit "0"; Py.lit "0"] in
  get_user_input (session tape typed) =
    Return [0; 0; 0]%Z (mkState [] prompts tape 0%nat [] 0 [] 0%nat [] None) /\
  exists s',
    main mt (S (S fuel)) (session tape typed) =
      Raise (ValueError "capacity must be > 0.") s' /\
    wait_times s' = [] /\
    objects s' !! 0%nat =
      Some (mkEvent (Process (finished code_run_theater) (Some 0) None) None
              (failed (ValueError "capacity must be > 0.")) false).
Proof.
  split; [vm_compute; reflexivity|].
  exists (final_state
    (main mt (S (S fuel)) (session tape [Py.lit "0"; Py.lit "0"; Py.lit "0"]))).
  split; [|split]; vm_compute; reflexivity.
Qed.

(** ** The resource pools *)

(** C2 (defect of the code).  [run_theater] passes its arguments to
    [Theater] in the order cashiers, servers, ushers, while [Theater] takes
    them in the order cashiers, ushers, servers: the usher pool gets the
    number of servers and the concession pool the number of ushers. *)
Theorem run_theater_swaps_servers_and_ushers
    (num_cashiers num_servers num_ushers : Z) (s : State) :
  (0 < num_cashiers)%Z -> (0 < num_servers)%Z -> (0 < num_ushers)%Z ->
  exists g y s' t,
    run_theater (run_theater_start num_cashiers num_servers num_ushers) s
      = Return (g, y) s' /\
    theater s' = Some t /\
    capacity (cashier t) = num_cashiers /\
    capacity (usher t) = num_servers /\
    capacity (server t) = num_ushers.
Proof.
  intros Hc Hs Hu.
  unfold run_theater, Theater_init, Resource_init, bind.
  rewrite (proj2 (Z.leb_gt num_cashiers 0)) by lia.
  rewrite (proj2 (Z.leb_gt num_servers 0)) by lia.
  rewrite (proj2 (Z.leb_gt num_ushers 0)) by lia.
  cbn. do 4 eexists. split; [reflexivity|]. cbn. repeat split; reflexivity.
Qed.

(** The notebook's own run, with 10 cashiers, 10 servers and 5 ushers: the
    usher pool has capacity 10 and the concession pool capacity 5. *)
Lemma run_theater_swaps_servers_and_ushers_witness :
  exists g y s' t,
    run_theater (run_theater_start 10 10 5) (session (fun _ => 0%N) [])
      = Return (g, y) s' /\
    theater s' = Some t /\
    capacity (cashier t) = 10%Z /\
    capacity (usher t) = 10%Z /\
    capacity (server t) = 5%Z.
Proof.
  apply (run_theater_swaps_servers_and_ushers 10 10 5); reflexivity.
Defined.

(** ** The reported average *)

(** The words of the specification: the arithmetic mean, its integer part
    and its fractional part. *)
Definition arithmetic_mean (samples : list Q) : Q :=
  sum samples / inject_Z (Z.of_nat (length samples)).

Definition integer_part (x : Q) : Q := inject_Z (Qfloor x).

Definition fractional_part (x : Q) : Q := x - integer_part x.

Definition summary (minutes seconds : Z) : string :=
  ("The average wait time is " ++ Py.str_of_int minutes ++ " min. and "
   ++ Py.str_of_int seconds ++ " sec." ++ newline)%string.

Lemma round_comp (x y : Q) : x == y -> round x = round y.
Proof.
  intros H. unfold round. rewrite (Qfloor_comp _ _ H).
  assert (E : x - inject_Z (Qfloor y) == y - inject_Z (Qfloor y)) by (rewrite H; reflexivity).
  rewrite (Qcompare_comp _ _ E (1 # 2) (1 # 2) (Qeq_refl _)). reflexivity.
Qed.

Lemma round_inject_Z (z : Z) : round (inject_Z z) = z.
Proof.
  unfold round. rewrite Qfloor_Z.
  assert (E : inject_Z z - inject_Z z == 0) by ring.
  rewrite (Qcompare_comp _ _ E (1 # 2) (1 # 2) (Qeq_refl _)). reflexivity.
Qed.

Lemma statistics_mean_nonempty (samples : list Q) :
  samples <> [] -> statistics_mean samples = Returns (arithmetic_mean samples).
Proof.
  intros H. unfold statistics_mean, arithmetic_mean.
  destruct samples as [|x l]; [congruence|]. reflexivity.
Qed.

Lemma calculate_wait_time_nonempty (samples : list Q) :
  samples <> [] ->
  calculate_wait_time samples =
    Returns (round (integer_part (arithmetic_mean samples)),
             round (fractional_part (arithmetic_mean samples) * 60)).
Proof.
  intros H. unfold calculate_wait_time, get_average_wait_time.
  rewrite (statistics_mean_nonempty _ H). unfold divmod.
  set (m := arithmetic_mean samples).
  assert (E : m / 1 == m) by (field).
  rewrite (Qfloor_comp _ _ E). f_equal. f_equal.
  apply round_comp. unfold fractional_part, integer_part. ring.
Qed.



Lemma Qfloor_between (x : Q) (z : Z) :
  inject_Z z <= x -> x < inject_Z (z + 1) -> Qfloor x = z.
Proof.
  intros Hl Hu.
  pose proof (Qfloor_resp_le _ _ Hl) as H1. rewrite Qfloor_Z in H1.
  pose proof (Qfloor_le x) as H2.
  assert (H3 : inject_Z (Qfloor x) < inject_Z (z + 1)) by (eapply Qle_lt_trans; eauto).
  rewrite <- Zlt_Qlt in H3. lia.
Qed.

Lemma fractional_part_lt_1 (x : Q) : fractional_part x < 1.
Proof.
  unfold fractional_part, integer_part.
  pose proof (Qlt_floor x) as H. rewrite inject_Z_plus in H.
  change (inject_Z 1) with 1 in H. lra.
Qed.

(** C10.  When the fractional part of the mean is at least 59.5/60, the
    seconds round to 60 and the minutes stay the floor of the mean: the pair
    that [calculate_wait_time] returns is not a normalised time. *)
Theorem seconds_component_can_be_60 (samples : list Q) :
  samples <> [] ->
  119 # 120 <= fractional_part (arithmetic_mean samples) ->
  calculate_wait_time samples = Returns (Qfloor (arithmetic_mean samples), 60%Z).
Proof.
  intros Hne Hf. rewrite (calculate_wait_time_nonempty _ Hne).
  unfold integer_part at 1. rewrite round_inject_Z. do 2 f_equal.
  set (f := fractional_part (arithmetic_mean samples)) in *.
  pose proof (fractional_part_lt_1 (arithmetic_mean samples)) as Hlt. fold f in Hlt.
  assert (Hfl : Qfloor (f * 60) = 59%Z).
  { apply Qfloor_between.
    - change (inject_Z 59) with 59. lra.
    - change (inject_Z (59 + 1)) with 60. lra. }
  unfold round. rewrite Hfl.
  assert (Hge : 1 # 2 <= f * 60 - inject_Z 59).
  { change (inject_Z 59) with 59. lra. }
  destruct (Qcompare_spec (f * 60 - inject_Z 59) (1 # 2)) as [E|E|E]; try reflexivity.
  exfalso. apply (Qlt_not_le _ _ E). exact Hge.
Qed.

(** A single sample of 7.995 minutes is reported as 7 min. and 60 sec. *)
Lemma seconds_component_can_be_60_witness :
  calculate_wait_time [7995 # 1000] = Returns (7, 60)%Z.
Proof.
  rewrite (seconds_component_can_be_60 [7995 # 1000]); [reflexivity | discriminate | discriminate].
Defined.

(** ** Reasoning about computations *)

(** [effect R m]: whatever the outcome of [m], the state it ends in is
    related by [R] to the state it started from. *)
Abbreviation effect R m := (forall s : State, R s (final_state (m s))).

Section Effect.
Context (R : State -> State -> Prop) `{!PreOrder R}.

Lemma effect_bind {A B} (m : M A) (k : A -> M B) (s : State) :
  R s (final_state (m s)) ->
  (forall a s', m s = Return a s' -> R s' (final_state (k a s'))) ->
  R s (final_state (bind m k s)).
Proof.
  intros Hm Hk. unfold bind.
  destruct (m s) as [a s'|e s'|s'] eqn:E; cbn in *; try exact Hm.
  etransitivity; [exact Hm | apply Hk; reflexivity].
Qed.

Lemma effect_for {A} (l : list A) (body : A -> M unit) :
  (forall x, effect R (body x)) -> effect R (for_ l body).
Proof.
  intros H. induction l as [|x l IH]; intros s; cbn.
  - reflexivity.
  - apply effect_bind; [apply H | intros; apply IH].
Qed.

End Effect.

(** One step of a proof of [R s (final_state (m s))], along the shape of
    [m]. *)
Ltac effect_step :=
  lazymatch goal with
  | |- ?R ?s (final_state (bind get ?k ?s)) =>
      change (R s (final_state (k s s))); cbv beta
  | |- ?R ?s (final_state (bind _ _ ?s)) =>
      first [ apply effect_bind; [ typeclasses eauto | | intros ? ? _ ]
            | apply effect_bind; [ | intros ? ? _ ] ]
  | |- ?R ?s (final_state (ret _ ?s)) => cbn [final_state ret]; reflexivity
  | |- ?R ?s (final_state (raise _ ?s)) => cbn [final_state raise]; reflexivity
  | |- ?R ?s (final_state (get ?s)) => cbn [final_state get]; reflexivity
  | |- ?R ?s (final_state (lift ?t ?s)) => destruct t; cbn [lift]
  | |- ?R ?s (final_state (for_ _ _ ?s)) =>
      first [ apply effect_for; [ typeclasses eauto | intros ? ? ]
            | apply effect_for; intros ? ? ]
  | |- ?R ?s (final_state (modify ?f ?s)) => cbn [final_state modify]
  | |- ?R ?s (final_state (match ?x with _ => _ end ?s)) =>
      destruct x eqn:?; cbv beta iota
  end.

(** *** What the kernel leaves alone *)

(** The console, [random], [wait_times] and the clock are untouched, and the
    objects keep their class; no object is added. *)
Record keeps (s s' : State) : Prop := mkKeeps {
  keeps_stdin : stdin s' = stdin s;
  keeps_stdout : stdout s' = stdout s;
  keeps_tape : random_tape s' = random_tape s;
  keeps_pos : random_pos s' = random_pos s;
  keeps_wait_times : wait_times s' = wait_times s;
  keeps_now : now s' = now s;
  keeps_classes : class <$> objects s' = class <$> objects s
}.

#[local] Instance keeps_preorder : PreOrder keeps.
Proof.
  split.
  - intros s. split; reflexivity.
  - intros a b c [] []. split; congruence.
Qed.

(** The same, where objects may be added. *)
Record frame (s s' : State) : Prop := mkFrame {
  frame_stdin : stdin s' = stdin s;
  frame_stdout : stdout s' = stdout s;
  frame_tape : random_tape s' = random_tape s;
  frame_pos : random_pos s' = random_pos s;
  frame_wait_times : wait_times s' = wait_times s;
  frame_now : now s' = now s;
  frame_classes : class <$> objects s `prefix_of` class <$> objects s'
}.

#[local] Instance frame_preorder : PreOrder frame.
Proof.
  split.
  - intros s. split; reflexivity.
  - intros a b c [] []. split; try congruence. etransitivity; eassumption.
Qed.

Lemma keeps_frame s s' : keeps s s' -> frame s s'.
Proof. intros []. split; try assumption. rewrite keeps_classes0. reflexivity. Qed.

Create HintDb keeps discriminated.
Create HintDb frame discriminated.

Ltac keeps_tac :=
  repeat first
    [ solve [eauto with keeps]
    | effect_step
    | split; cbn; reflexivity ].

Ltac frame_tac :=
  repeat first
    [ solve [eauto with frame]
    | apply keeps_frame; solve [eauto with keeps]
    | effect_step
    | split; cbn; reflexivity ].

Lemma class_insert_same (l : list Event) (i : nat) (ev ev' : Event) :
  l !! i = Some ev -> class ev' = class ev ->
  class <$> <[i := ev']> l = class <$> l.
Proof.
  intros H E. rewrite list_fmap_insert, E.
  apply list_insert_id. rewrite list_lookup_fmap, H. reflexivity.
Qed.

Lemma keeps_schedule event priority delay : effect keeps (schedule event priority delay).
Proof. intros s. unfold schedule. keeps_tac. Qed.
#[local] Hint Resolve keeps_schedule : keeps.

Lemma keeps_get_event event : effect keeps (get_event event).
Proof. intros s. unfold get_event. keeps_tac. Qed.
#[local] Hint Resolve keeps_get_event : keeps.

Lemma keeps_update_event event f :
  (forall ev, class (f ev) = class ev) -> effect keeps (update_event event f).
Proof.
  intros Hf s. unfold update_event, get_event, bind, get. cbn.
  destruct (objects s !! event) as [ev|] eqn:E; cbn; [|reflexivity].
  split; cbn; try reflexivity.
  apply (class_insert_same _ _ ev); [exact E | apply Hf].
Qed.
#[local] Hint Extern 1 (keeps _ (final_state (update_event _ _ _))) =>
  apply keeps_update_event; reflexivity : keeps.

Lemma keeps_callbacks_append event cb : effect keeps (callbacks_append event cb).
Proof. intros s. unfold callbacks_append. keeps_tac. Qed.
#[local] Hint Resolve keeps_callbacks_append : keeps.

Lemma keeps_succeed event : effect keeps (succeed event).
Proof. intros s. unfold succeed. keeps_tac. Qed.
#[local] Hint Resolve keeps_succeed : keeps.

Lemma keeps_get_theater : effect keeps get_theater.
Proof. intros s. unfold get_theater. keeps_tac. Qed.
#[local] Hint Resolve keeps_get_theater : keeps.

Lemma keeps_get_resource r : effect keeps (get_resource r).
Proof. intros s. unfold get_resource. keeps_tac. Qed.
#[local] Hint Resolve keeps_get_resource : keeps.

Lemma keeps_update_resource r f : effect keeps (update_resource r f).
Proof. intros s. unfold update_resource. keeps_tac. Qed.
#[local] Hint Resolve keeps_update_resource : keeps.

Lemma keeps_do_put r event : effect keeps (do_put r event).
Proof. intros s. unfold do_put. keeps_tac. Qed.
#[local] Hint Resolve keeps_do_put : keeps.

Lemma keeps_do_get r event : effect keeps (do_get r event).
Proof. intros s. unfold do_get. keeps_tac. Qed.
#[local] Hint Resolve keeps_do_get : keeps.

Lemma keeps_trigger_put r : effect keeps (trigger_put r).
Proof. intros s. unfold trigger_put. keeps_tac. Qed.
#[local] Hint Resolve keeps_trigger_put : keeps.

Lemma keeps_trigger_get r : effect keeps (trigger_get r).
Proof. intros s. unfold trigger_get. keeps_tac. Qed.
#[local] Hint Resolve keeps_trigger_get : keeps.

Lemma frame_new_object ev : effect frame (new_object ev).
Proof.
  intros s. unfold new_object. frame_tac.
  split; cbn; try reflexivity.
  rewrite fmap_app. apply prefix_app_r. reflexivity.
Qed.
#[local] Hint Resolve frame_new_object : frame.

Lemma frame_env_timeout delay : effect frame (env_timeout delay).
Proof. intros s. unfold env_timeout. frame_tac. Qed.
#[local] Hint Resolve frame_env_timeout : frame.

Lemma frame_env_process g : effect frame (env_process g).
Proof. intros s. unfold env_process. frame_tac. Qed.
#[local] Hint Resolve frame_env_process : frame.

Lemma frame_request r : effect frame (request r).
Proof. intros s. unfold request. frame_tac. Qed.
#[local] Hint Resolve frame_request : frame.

Lemma frame_release r req : effect frame (release r req).
Proof. intros s. unfold release. frame_tac. Qed.
#[local] Hint Resolve frame_release : frame.

Lemma frame_Request_exit r req : effect frame (Request_exit r req).
Proof. intros s. unfold Request_exit. frame_tac. Qed.
#[local] Hint Resolve frame_Request_exit : frame.

Lemma keeps_Return {A} (m : M A) s a s' :
  effect keeps m -> m s = Return a s' -> keeps s s'.
Proof. intros H E. specialize (H s). rewrite E in H. exact H. Qed.

Lemma bind_Return {A B} (m : M A) (k : A -> M B) s b s' :
  bind m k s = Return b s' ->
  exists a s1, m s = Return a s1 /\ k a s1 = Return b s'.
Proof.
  unfold bind. destruct (m s) as [a s1| |]; try discriminate. eauto.
Qed.

Lemma new_object_bind {B} ev (k : nat -> M B) s :
  (let* x := new_object ev in k x) s =
  k (length (objects s)) (set_objects (objects s ++ [ev]) s).
Proof. reflexivity. Qed.

Lemma frame_new s ev s' :
  keeps (set_objects (objects s ++ [ev]) s) s' ->
  frame s s' /\ class <$> objects s' = (class <$> objects s) ++ [class ev].
Proof.
  intros []. cbn in *. split.
  - split; try assumption. rewrite keeps_classes0, fmap_app.
    apply prefix_app_r. reflexivity.
  - rewrite keeps_classes0, fmap_app. reflexivity.
Qed.

(** [request] adds the request it returns. *)
Lemma request_Return r s req s' :
  request r s = Return req s' ->
  req = length (objects s) /\ frame s s' /\
  class <$> objects s' = (class <$> objects s) ++ [Request r].
Proof.
  unfold request. rewrite new_object_bind. intros H.
  assert (req = length (objects s)).
  { apply bind_Return in H as (? & ? & _ & H). apply bind_Return in H as (? & ? & _ & H).
    apply bind_Return in H as (? & ? & _ & H). unfold ret in H. congruence. }
  split; [assumption|].
  apply (frame_new _ (mkEvent (Request r) (Some []) PENDING false)).
  eapply keeps_Return; [|exact H]. intros s0. keeps_tac.
Qed.

(** [release] adds the release it returns. *)
Lemma release_Return r req s rel s' :
  release r req s = Return rel s' ->
  rel = length (objects s) /\ frame s s' /\
  class <$> objects s' = (class <$> objects s) ++ [Release r req].
Proof.
  unfold release. rewrite new_object_bind. intros H.
  assert (rel = length (objects s)).
  { apply bind_Return in H as (? & ? & _ & H). apply bind_Return in H as (? & ? & _ & H).
    apply bind_Return in H as (? & ? & _ & H). unfold ret in H. congruence. }
  split; [assumption|].
  apply (frame_new _ (mkEvent (Release r req) (Some []) PENDING false)).
  eapply keeps_Return; [|exact H]. intros s0. keeps_tac.
Qed.

Lemma frame_trans_classes s s1 s' news1 news2 :
  frame s s1 -> class <$> objects s1 = (class <$> objects s) ++ news1 ->
  frame s1 s' -> class <$> objects s' = (class <$> objects s1) ++ news2 ->
  frame s s' /\ class <$> objects s' = (class <$> objects s) ++ news1 ++ news2.
Proof.
  intros F1 E1 F2 E2. split; [etransitivity; eassumption|].
  rewrite E2, E1, <- app_assoc. reflexivity.
Qed.

(** Leaving a [with] block adds the release of its request. *)
Lemma Request_exit_Return r req s u s' :
  Request_exit r req s = Return u s' ->
  frame s s' /\ class <$> objects s' = (class <$> objects s) ++ [Release r req].
Proof.
  unfold Request_exit. intros H.
  apply bind_Return in H as (ev & s1 & H1 & H).
  apply bind_Return in H as (? & s2 & H2 & H).
  apply bind_Return in H as (rel & s3 & H3 & H).
  unfold ret in H. injection H as <- <-.
  assert (K1 : keeps s s1) by (eapply keeps_Return; [|exact H1]; intros s0; keeps_tac).
  assert (K2 : keeps s1 s2).
  { eapply keeps_Return; [|exact H2]. intros s0. destruct (triggered ev); keeps_tac. }
  apply release_Return in H3 as (_ & F3 & E3).
  assert (K : keeps s s2) by (etransitivity; eassumption).
  split.
  - etransitivity; [apply keeps_frame; exact K | exact F3].
  - rewrite E3. destruct K. congruence.
Qed.

(** [env.process] always returns: it adds the process and its [Initialize]
    event, which is scheduled at once with priority URGENT. *)
Lemma env_process_Return g s :
  let p := length (objects s) in
  let objs := objects s ++ [mkEvent (Process g None None) (Some []) PENDING false] in
  env_process g s =
    Return p
      (set_eid (S (eid s))
         (set_queue ((Qred (now s + 0), URGENT, eid s, length objs) :: queue s)
            (set_objects
               (objs ++ [mkEvent (Initialize p) (Some [Process_resume p]) succeeded false])
               s))).
Proof. reflexivity. Qed.

Lemma env_process_adds g s p s' :
  env_process g s = Return p s' ->
  p = length (objects s) /\ frame s s' /\
  class <$> objects s' = (class <$> objects s) ++ [Process g None None; Initialize p].
Proof.
  rewrite env_process_Return. intros H. injection H as <- <-.
  split; [reflexivity|]. split.
  - split; cbn; try reflexivity. rewrite !fmap_app, <- app_assoc.
    apply prefix_app_r. reflexivity.
  - cbn. rewrite !fmap_app, <- app_assoc. reflexivity.
Qed.

(** [env.timeout] with a delay that is not negative always returns: it adds
    the timeout and schedules it [delay] from now. *)
Lemma env_timeout_Return delay s :
  0 <= delay ->
  env_timeout delay s =
    Return (length (objects s))
      (set_eid (S (eid s))
         (set_queue ((Qred (now s + delay), NORMAL, eid s, length (objects s)) :: queue s)
            (set_objects (objects s ++ [mkEvent (Timeout delay) (Some []) succeeded false]) s))).
Proof.
  intros H. unfold env_timeout.
  destruct (Qcompare_spec delay 0) as [E|E|E]; try reflexivity.
  exfalso. exact (Qlt_not_le _ _ E H).
Qed.

(** The objects that a computation has created, by class. *)
Definition created (s s' : State) : list EventClass :=
  drop (length (objects s)) (class <$> objects s').

Lemma created_app s s' news :
  class <$> objects s' = (class <$> objects s) ++ news -> created s s' = news.
Proof.
  intros E. unfold created. rewrite E.
  rewrite <- (length_fmap class (objects s)). apply drop_app_length.
Qed.

(** The draw that [random] makes next in state [s], below [n]. *)
Definition next_draw (s : State) (n : Z) : Z :=
  (Z.of_N (random_tape s (random_pos s)) mod n)%Z.

(** The coin of [random.choice([True, False])]. *)
Definition next_coin (s : State) : bool :=
  nth (Z.to_nat (next_draw s 2)) [true; false] true.

(** *** Which resource an operation touches *)

Definition theater_only (r : Attr) (s s' : State) : Prop :=
  forall r', r' <> r -> getattr r' <$> theater s' = getattr r' <$> theater s.

#[local] Instance theater_only_preorder r : PreOrder (theater_only r).
Proof.
  split.
  - intros s r' _. reflexivity.
  - intros a b c H1 H2 r' Hr. rewrite (H2 r' Hr). apply H1, Hr.
Qed.

Create HintDb theater discriminated.

Ltac theater_tac :=
  repeat first
    [ solve [eauto with theater]
    | effect_step
    | intros ? ?; cbn; reflexivity ].

Lemma theater_schedule r event priority delay :
  effect (theater_only r) (schedule event priority delay).
Proof. intros s. unfold schedule. theater_tac. Qed.
#[local] Hint Resolve theater_schedule : theater.

Lemma theater_new_object r ev : effect (theater_only r) (new_object ev).
Proof. intros s. unfold new_object. theater_tac. Qed.
#[local] Hint Resolve theater_new_object : theater.

Lemma theater_get_event r event : effect (theater_only r) (get_event event).
Proof. intros s. unfold get_event. theater_tac. Qed.
#[local] Hint Resolve theater_get_event : theater.

Lemma theater_update_event r event f : effect (theater_only r) (update_event event f).
Proof. intros s. unfold update_event. theater_tac. Qed.
#[local] Hint Resolve theater_update_event : theater.

Lemma theater_callbacks_append r event cb :
  effect (theater_only r) (callbacks_append event cb).
Proof. intros s. unfold callbacks_append. theater_tac. Qed.
#[local] Hint Resolve theater_callbacks_append : theater.

Lemma theater_succeed r event : effect (theater_only r) (succeed event).
Proof. intros s. unfold succeed. theater_tac. Qed.
#[local] Hint Resolve theater_succeed : theater.

Lemma theater_get_theater r : effect (theater_only r) get_theater.
Proof. intros s. unfold get_theater. theater_tac. Qed.
#[local] Hint Resolve theater_get_theater : theater.

Lemma theater_get_resource r r0 : effect (theater_only r) (get_resource r0).
Proof. intros s. unfold get_resource. theater_tac. Qed.
#[local] Hint Resolve theater_get_resource : theater.

Lemma theater_update_resource r f : effect (theater_only r) (update_resource r f).
Proof.
  intros s r' Hr. unfold update_resource, get_theater, bind, get, modify.
  destruct (theater s) as [t|] eqn:E; cbn; rewrite ?E; [|reflexivity].
  cbn. destruct r, r'; cbn; congruence.
Qed.
#[local] Hint Resolve theater_update_resource : theater.

Lemma theater_do_put r event : effect (theater_only r) (do_put r event).
Proof. intros s. unfold do_put. theater_tac. Qed.
#[local] Hint Resolve theater_do_put : theater.

Lemma theater_do_get r event : effect (theater_only r) (do_get r event).
Proof. intros s. unfold do_get. theater_tac. Qed.
#[local] Hint Resolve theater_do_get : theater.

Lemma theater_trigger_put r : effect (theater_only r) (trigger_put r).
Proof. intros s. unfold trigger_put. theater_tac. Qed.
#[local] Hint Resolve theater_trigger_put : theater.

Lemma theater_trigger_get r : effect (theater_only r) (trigger_get r).
Proof. intros s. unfold trigger_get. theater_tac. Qed.
#[local] Hint Resolve theater_trigger_get : theater.

Lemma theater_request r : effect (theater_only r) (request r).
Proof. intros s. unfold request. theater_tac. Qed.
#[local] Hint Resolve theater_request : theater.

Lemma theater_release r req : effect (theater_only r) (release r req).
Proof. intros s. unfold release. theater_tac. Qed.
#[local] Hint Resolve theater_release : theater.

Lemma theater_Request_exit r req : effect (theater_only r) (Request_exit r req).
Proof. intros s. unfold Request_exit. theater_tac. Qed.
#[local] Hint Resolve theater_Request_exit : theater.

(** ** The steps of a customer *)

Lemma choice_True_False_Return s :
  choice_True_False s =
    Return (next_coin s) (set_random (random_tape s) (S (random_pos s)) s).
Proof. reflexivity. Qed.

Lemma next_coin_frame s s' : frame s s' -> next_coin s' = next_coin s.
Proof. intros []. unfold next_coin, next_draw. congruence. Qed.


(** A customer who holds the only usher, at minute 5 after arriving at
    minute 3; the next draw of [random] is [draw]. *)
Definition at_the_usher (draw : N) : State :=
  mkState [] "" (fun _ => draw) 0%nat [] 5 [] 1%nat
    [mkEvent (Request attr_usher) None succeeded false]
    (Some (mkTheater (mkResource 1 [] [] []) (mkResource 1 [0%nat] [] [])
             (mkResource 1 [] [] []))).


(** The number of draws that a computation makes from [random]. *)
Definition draws {A} (m : M A) (s : State) : nat :=
  (random_pos (final_state (m s)) - random_pos s)%nat.

(** The words of the specification: the service time of a step is a
    randomly drawn duration, that is, the generator of the step draws it. *)
Definition service_time_is_drawn (service : Z -> Generator) : Prop :=
  forall moviegoer s, draws (send (service moviegoer)) s = 1%nat.

(** The steps of [go_to_movies], as the objects each resumption creates and
    the event it then waits for. *)
Definition customer_step
    (g : Generator) (s : State) (g' : Generator) (y : option nat) (s' : State) : Prop :=
  let n := length (objects s) in
  match g with
  | go_to_movies_start m =>
      created s s' = [Request attr_cashier] /\
      g' = go_to_movies_cashier_request m (now s) n /\ y = Some n
  | go_to_movies_cashier_request m a r =>
      created s s' = [Process (purchase_ticket_start m) None None; Initialize n] /\
      g' = go_to_movies_cashier_process m a r /\ y = Some n
  | go_to_movies_cashier_process m a r =>
      created s s' = [Release attr_cashier r; Request attr_usher] /\
      g' = go_to_movies_usher_request m a (S n) /\ y = Some (S n)
  | go_to_movies_usher_request m a r =>
      created s s' = [Process (check_ticket_start m) None None; Initialize n] /\
      g' = go_to_movies_usher_process m a r /\ y = Some n
  | go_to_movies_usher_process m a r =>
      if next_coin s then
        created s s' = [Release attr_usher r; Request attr_server] /\
        g' = go_to_movies_server_request m a (S n) /\ y = Some (S n)
      else
        created s s' = [Release attr_usher r] /\
        g' = finished code_go_to_movies /\ y = None
  | go_to_movies_server_request m a r =>
      created s s' = [Process (sell_food_start m) None None; Initialize n] /\
      g' = go_to_movies_server_process m a r /\ y = Some n
  | go_to_movies_server_process m a r =>
      created s s' = [Release attr_server r] /\
      g' = finished code_go_to_movies /\ y = None
  | _ => g' = finished code_go_to_movies /\ y = None /\ s' = s
  end.

Lemma frame_length s s' news :
  class <$> objects s' = (class <$> objects s) ++ news ->
  length (objects s') = (length (objects s) + length news)%nat.
Proof.
  intros E. apply (f_equal length) in E.
  rewrite length_app, !length_fmap in E. exact E.
Qed.

Lemma go_to_movies_step g s g' y s' :
  go_to_movies g s = Return (g', y) s' -> customer_step g s g' y s'.
Proof.
  intros H. destruct g; unfold go_to_movies in H; cbv beta iota in H;
    unfold customer_step;
    try (unfold stop_iteration, ret in H; injection H as <- <- <-; auto; fail).
  - (* start *)
    apply bind_Return in H as (s0 & s0' & H0 & H). injection H0 as <- <-.
    apply bind_Return in H as (r & s1 & H1 & H). unfold ret in H.
    injection H as <- <- <-.
    apply request_Return in H1 as (-> & F & E).
    repeat split; try reflexivity. apply created_app, E.
  - (* cashier_request *)
    unfold bind in H. rewrite env_process_Return in H. unfold ret in H.
    injection H as <- <- <-. repeat split; try reflexivity.
    apply created_app. cbn. rewrite !fmap_app, <- app_assoc. reflexivity.
  - (* cashier_process *)
    apply bind_Return in H as (u & s1 & H1 & H).
    apply bind_Return in H as (r & s2 & H2 & H). unfold ret in H.
    injection H as <- <- <-.
    apply Request_exit_Return in H1 as (F1 & E1).
    apply request_Return in H2 as (-> & F2 & E2).
    rewrite (frame_length _ _ _ E1). cbn. rewrite Nat.add_1_r.
    repeat split; try reflexivity.
    apply created_app. rewrite E2, E1, <- app_assoc. reflexivity.
  - (* usher_request *)
    unfold bind in H. rewrite env_process_Return in H. unfold ret in H.
    injection H as <- <- <-. repeat split; try reflexivity.
    apply created_app. cbn. rewrite !fmap_app, <- app_assoc. reflexivity.
  - (* usher_process *)
    apply bind_Return in H as (u & s1 & H1 & H).
    apply Request_exit_Return in H1 as (F1 & E1).
    unfold bind at 1 in H. rewrite choice_True_False_Return in H.
    rewrite (next_coin_frame _ _ F1) in H.
    destruct (next_coin s).
    + apply bind_Return in H as (r & s2 & H2 & H). unfold ret in H.
      injection H as <- <- <-.
      apply request_Return in H2 as (-> & F2 & E2). cbn in *.
      rewrite (frame_length _ _ _ E1). cbn. rewrite Nat.add_1_r.
      repeat split; try reflexivity.
      apply created_app. rewrite E2, E1, <- app_assoc. reflexivity.
    + unfold bind, get, wait_times_append, modify, stop_iteration, ret in H.
      cbn in H. injection H as <- <- <-.
      repeat split; try reflexivity. apply created_app. exact E1.
  - (* server_request *)
    unfold bind in H. rewrite env_process_Return in H. unfold ret in H.
    injection H as <- <- <-. repeat split; try reflexivity.
    apply created_app. cbn. rewrite !fmap_app, <- app_assoc. reflexivity.
  - (* server_process *)
    apply bind_Return in H as (u & s1 & H1 & H).
    apply Request_exit_Return in H1 as (F1 & E1).
    unfold bind, get, wait_times_append, modify, stop_iteration, ret in H.
    cbn in H. injection H as <- <- <-.
    repeat split; try reflexivity. apply created_app. exact E1.
Qed.

Lemma next_draw_range s n : (0 < n)%Z -> (0 <= next_draw s n < n)%Z.
Proof. intros H. unfold next_draw. apply Z.mod_pos_bound. exact H. Qed.

Lemma randint_Return a b s :
  randint a b s =
    Return (a + next_draw s (b - a + 1))%Z
      (set_random (random_tape s) (S (random_pos s)) s).
Proof. reflexivity. Qed.

Lemma inject_Z_nonneg z : (0 <= z)%Z -> 0 <= inject_Z z.
Proof. intros H. unfold Qle. cbn. lia. Qed.

Lemma purchase_ticket_Return m s :
  exists s',
    send (purchase_ticket_start m) s =
      Return (purchase_ticket_timeout m, Some (length (objects s))) s' /\
    created s s' = [Timeout (inject_Z (1 + next_draw s 3))] /\
    random_pos s' = S (random_pos s).
Proof.
  pose proof (next_draw_range s 3 ltac:(lia)) as R.
  unfold send, purchase_ticket, bind; cbn [gi_code]. rewrite randint_Return.
  change (3 - 1 + 1)%Z with 3%Z.
  rewrite env_timeout_Return by (apply inject_Z_nonneg; lia).
  eexists. split; [reflexivity|]. split; [|reflexivity].
  apply created_app. cbn. rewrite fmap_app. reflexivity.
Qed.

Lemma sell_food_Return m s :
  exists s',
    send (sell_food_start m) s =
      Return (sell_food_timeout m, Some (length (objects s))) s' /\
    created s s' = [Timeout (inject_Z (1 + next_draw s 5))] /\
    random_pos s' = S (random_pos s).
Proof.
  pose proof (next_draw_range s 5 ltac:(lia)) as R.
  unfold send, sell_food, bind; cbn [gi_code]. rewrite randint_Return.
  change (5 - 1 + 1)%Z with 5%Z.
  rewrite env_timeout_Return by (apply inject_Z_nonneg; lia).
  eexists. split; [reflexivity|]. split; [|reflexivity].
  apply created_app. cbn. rewrite fmap_app. reflexivity.
Qed.

Lemma check_ticket_Return m s :
  exists s',
    send (check_ticket_start m) s =
      Return (check_ticket_timeout m, Some (length (objects s))) s' /\
    created s s' = [Timeout (3 / 60)] /\
    random_pos s' = random_pos s /\ random_tape s' = random_tape s.
Proof.
  unfold send, check_ticket, bind; cbn [gi_code].
  rewrite env_timeout_Return by discriminate.
  eexists. split; [reflexivity|]. split; [|split; reflexivity].
  apply created_app. cbn. rewrite fmap_app. reflexivity.
Qed.

(** C5 (counterexample).  The ticket check does not draw its duration: the
    generator of [check_ticket] makes no draw from [random]. *)
Lemma ticket_check_time_is_not_drawn : ~ service_time_is_drawn check_ticket_start.
Proof.
  intros H. specialize (H 0%Z (session (fun _ => 0%N) [])).
  vm_compute in H. discriminate H.
Qed.

(** C5 (amended).  A customer goes through the steps in order: request the
    cashier, wait for [purchase_ticket], release the cashier; request the
    usher, wait for [check_ticket], release the usher; and, when the coin
    says so, request the concession, wait for [sell_food], release it.  The
    service times of the cashier and of the concession are drawn from
    [random] with [randint].  The ticket check is not drawn: it always takes
    3/60 of a minute. *)
Theorem customer_steps_and_service_times :
  (forall g s g' y s',
     go_to_movies g s = Return (g', y) s' -> customer_step g s g' y s') /\
  (forall m s, exists s',
     send (purchase_ticket_start m) s =
       Return (purchase_ticket_timeout m, Some (length (objects s))) s' /\
     created s s' = [Timeout (inject_Z (1 + next_draw s 3))]) /\
  (forall m s, exists s',
     send (sell_food_start m) s =
       Return (sell_food_timeout m, Some (length (objects s))) s' /\
     created s s' = [Timeout (inject_Z (1 + next_draw s 5))]) /\
  (forall m s, exists s',
     send (check_ticket_start m) s =
       Return (check_ticket_timeout m, Some (length (objects s))) s' /\
     created s s' = [Timeout (3 / 60)] /\
     draws (send (check_ticket_start m)) s = 0%nat) /\
  service_time_is_drawn purchase_ticket_start /\
  service_time_is_drawn sell_food_start.
Proof.
  split; [exact go_to_movies_step|].
  split.
  { intros m s. destruct (purchase_ticket_Return m s) as (s' & E & C & _).
    exists s'. split; assumption. }
  split.
  { intros m s. destruct (sell_food_Return m s) as (s' & E & C & _).
    exists s'. split; assumption. }
  split.
  { intros m s. destruct (check_ticket_Return m s) as (s' & E & C & P & _).
    exists s'. repeat split; try assumption.
    unfold draws. rewrite E. cbn. rewrite P. lia. }
  split.
  - intros m s. destruct (purchase_ticket_Return m s) as (s' & E & _ & P).
    unfold draws. rewrite E. cbn. rewrite P. lia.
  - intros m s. destruct (sell_food_Return m s) as (s' & E & _ & P).
    unfold draws. rewrite E. cbn. rewrite P. lia.
Qed.

(** ** Reproducibility *)

Definition map_Result {A} (f : State -> State) (r : Result A) : Result A :=
  match r with
  | Return a s => Return a (f s)
  | Raise e s => Raise e (f s)
  | OutOfFuel s => OutOfFuel (f s)
  end.

(** [commutes f m]: running [m] after the change [f] of the state is
    running [m] and then making the change. *)
Definition commutes {A} (f : State -> State) (m : M A) : Prop :=
  forall s, m (f s) = map_Result f (m s).

Lemma commutes_bind {A B} f (m : M A) (k : A -> M B) :
  commutes f m -> (forall a, commutes f (k a)) -> commutes f (bind m k).
Proof.
  intros Hm Hk s. unfold bind. rewrite Hm.
  destruct (m s); cbn; [apply Hk | reflexivity | reflexivity].
Qed.

(** What [simpy.Environment()] does to the state. *)
Definition fresh_environment (s : State) : State :=
  set_theater None (set_objects [] (set_eid 0%nat (set_queue [] (set_now 0 s)))).

Lemma commutes_write text : commutes fresh_environment (write text).
Proof. intros s. reflexivity. Qed.

Lemma commutes_input prompt : commutes fresh_environment (input prompt).
Proof.
  intros s. unfold input, bind, write, modify, get. cbn.
  destruct (stdin s); reflexivity.
Qed.

Lemma commutes_get_user_input : commutes fresh_environment get_user_input.
Proof.
  unfold get_user_input.
  repeat (apply commutes_bind; [apply commutes_input | intros]).
  destruct (forallb Py.isdigit _).
  - intros s. destruct (map_int _); reflexivity.
  - intros s. reflexivity.
Qed.

(** What can be seen of an execution: how it ends, what it has printed and
    the samples in [wait_times]. *)
Definition ending {A} (r : Result A) : option (Exception + A) :=
  match r with
  | Return a _ => Some (inr a)
  | Raise e _ => Some (inl e)
  | OutOfFuel _ => None
  end.

Definition observed {A} (r : Result A)
  : option (Exception + A) * string * list Q :=
  (ending r, stdout (final_state r), wait_times (final_state r)).

(** The session with the generator of [random] seeded with 0 and a new
    environment. *)
Definition seeded_session (mt : Z -> nat -> N) (s : State) : State :=
  mkState (stdin s) (stdout s) (mt 0%Z) 0%nat (wait_times s) 0 [] 0%nat [] None.

Lemma print_Environment_bind {A} (text : string) (k : M A) s :
  (print text >> Environment >> k) s =
  k (fresh_environment (set_stdout (stdout s ++ text ++ newline) s)).
Proof. reflexivity. Qed.

Lemma fresh_environment_print text s :
  fresh_environment (set_stdout (stdout (fresh_environment s) ++ text) (fresh_environment s)) =
  fresh_environment (set_stdout (stdout s ++ text) s).
Proof. reflexivity. Qed.

Lemma main_unfold mt fuel s :
  main mt fuel s =
  match get_user_input (set_random (mt 0%Z) 0%nat s) with
  | Return params s' =>
      bind (main_run_the_simulation params fuel) (fun _ => main_view_the_results) s'
  | Raise e s' => Raise e s'
  | OutOfFuel s' => OutOfFuel s'
  end.
Proof. reflexivity. Qed.

(** [main] reads nothing of the session but the console and [wait_times]:
    the generator of [random] is seeded anew and the environment is new. *)
Lemma main_reads_console_only mt fuel s :
  observed (main mt fuel s) = observed (main mt fuel (seeded_session mt s)).
Proof.
  rewrite !main_unfold.
  change (set_random (mt 0%Z) 0%nat (seeded_session mt s))
    with (fresh_environment (set_random (mt 0%Z) 0%nat s)).
  rewrite commutes_get_user_input.
  destruct (get_user_input (set_random (mt 0%Z) 0%nat s)) as [params s1|e s1|s1];
    cbn [map_Result]; [|reflexivity|reflexivity].
  destruct params as [|a [|b [|c [|d l]]]]; [reflexivity..| |reflexivity].
  unfold main_run_the_simulation. unfold bind at 1 5.
  rewrite !print_Environment_bind, fresh_environment_print.
  reflexivity.
Qed.

(** C3.  Two executions of [main] with the same entries on the console
    end the same way, record the same samples in [wait_times] and print the
    same text, hence the same average: nothing else of the sessions they
    start in matters, neither the state of the generator of [random] (which
    [main] seeds with 0) nor an earlier environment. *)
Theorem same_seed_same_samples_and_report
    (mt : Z -> nat -> N) (fuel : nat) (s1 s2 : State) :
  stdin s1 = stdin s2 ->
  stdout s1 = stdout s2 ->
  wait_times s1 = wait_times s2 ->
  ending (main mt fuel s1) = ending (main mt fuel s2) /\
  wait_times (final_state (main mt fuel s1)) = wait_times (final_state (main mt fuel s2)) /\
  stdout (final_state (main mt fuel s1)) = stdout (final_state (main mt fuel s2)).
Proof.
  intros H1 H2 H3.
  pose proof (main_reads_console_only mt fuel s1) as E1.
  pose proof (main_reads_console_only mt fuel s2) as E2.
  assert (E : seeded_session mt s1 = seeded_session mt s2).
  { unfold seeded_session. rewrite H1, H2, H3. reflexivity. }
  rewrite E in E1. rewrite <- E2 in E1. unfold observed in E1.
  injection E1 as -> -> ->. repeat split.
Qed.

(** Two sessions that differ in the state of [random], in the clock and in
    what is scheduled, with the same three entries typed. *)
Lemma same_seed_same_samples_and_report_witness :
  let mt : Z -> nat -> N := fun _ i => (N.of_nat i * 7 + 3)%N in
  let typed := [Py.lit "2"; Py.lit "1"; Py.lit "1"] in
  let s1 := session (fun _ => 0%N) typed in
  let s2 := set_now 12 (set_queue [(5, NORMAL, 0%nat, 0%nat)]
              (set_random (fun _ => 1%N) 9%nat (session (fun _ => 5%N) typed))) in
  ending (main mt 100 s1) = ending (main mt 100 s2) /\
  wait_times (final_state (main mt 100 s1)) = wait_times (final_state (main mt 100 s2)) /\
  stdout (final_state (main mt 100 s1)) = stdout (final_state (main mt 100 s2)).
Proof.
  intros mt typed s1 s2.
  apply (same_seed_same_samples_and_report mt 100 s1 s2); reflexivity.
Defined.

(** ** The recorded wait times *)

(** The [arrival_time] of a customer that is under way. *)
Definition arrival_of (g : Generator) : option Q :=
  match g with
  | go_to_movies_cashier_request _ a _ | go_to_movies_cashier_process _ a _
  | go_to_movies_usher_request _ a _ | go_to_movies_usher_process _ a _
  | go_to_movies_server_request _ a _ | go_to_movies_server_process _ a _ => Some a
  | _ => None
  end.

Inductive Phase : Type := not_started | suspended | returned_or_failed.

Definition phase (g : Generator) : Phase :=
  match g with
  | run_theater_start _ _ _ | go_to_movies_start _ | purchase_ticket_start _
  | check_ticket_start _ | sell_food_start _ => not_started
  | finished _ => returned_or_failed
  | _ => suspended
  end.

(** An object as it is created: a process has not started. *)
Definition fresh_class (c : EventClass) : Prop :=
  match c with
  | Process g started returned =>
      phase g = not_started /\ started = None /\ returned = None
  | _ => True
  end.

(** The clock and [wait_times] are untouched, the objects keep their class,
    and the objects added are as created. *)
Record grows (s s' : State) : Prop := mkGrows {
  grows_now : now s' = now s;
  grows_wait_times : wait_times s' = wait_times s;
  grows_fresh : exists news,
    class <$> objects s' = (class <$> objects s) ++ news /\ Forall fresh_class news
}.

#[local] Instance grows_preorder : PreOrder grows.
Proof.
  split.
  - intros s. split; try reflexivity. exists []. rewrite app_nil_r. auto.
  - intros a b c [N1 W1 (n1 & E1 & F1)] [N2 W2 (n2 & E2 & F2)].
    split; try congruence. exists (n1 ++ n2).
    rewrite E2, E1, <- app_assoc. split; [reflexivity|].
    apply Forall_app. auto.
Qed.

Lemma keeps_grows s s' : keeps s s' -> grows s s'.
Proof.
  intros []. split; try assumption. exists []. rewrite app_nil_r. auto.
Qed.

Create HintDb grows discriminated.

Ltac grows_tac :=
  repeat first
    [ solve [eauto with grows]
    | apply keeps_grows; solve [eauto with keeps]
    | effect_step
    | split; cbn;
      [ reflexivity | reflexivity
      | exists []; rewrite app_nil_r; split; [reflexivity | constructor] ] ].

Lemma grows_new_object ev : fresh_class (class ev) -> effect grows (new_object ev).
Proof.
  intros H s. unfold new_object. grows_tac.
  split; cbn; try reflexivity. exists [class ev].
  rewrite fmap_app. split; [reflexivity|]. constructor; [exact H | constructor].
Qed.
#[local] Hint Extern 1 (grows _ (final_state (new_object _ _))) =>
  apply grows_new_object; cbn; auto : grows.

Lemma grows_env_timeout delay : effect grows (env_timeout delay).
Proof. intros s. unfold env_timeout. grows_tac. Qed.
#[local] Hint Resolve grows_env_timeout : grows.

Lemma grows_env_process g : phase g = not_started -> effect grows (env_process g).
Proof. intros H s. unfold env_process. grows_tac. Qed.
#[local] Hint Extern 1 (grows _ (final_state (env_process _ _))) =>
  apply grows_env_process; reflexivity : grows.

Lemma grows_request r : effect grows (request r).
Proof. intros s. unfold request. grows_tac. Qed.
#[local] Hint Resolve grows_request : grows.

Lemma grows_release r req : effect grows (release r req).
Proof. intros s. unfold release. grows_tac. Qed.
#[local] Hint Resolve grows_release : grows.

Lemma grows_Request_exit r req : effect grows (Request_exit r req).
Proof. intros s. unfold Request_exit. grows_tac. Qed.
#[local] Hint Resolve grows_Request_exit : grows.

Lemma grows_randbelow n : effect grows (randbelow n).
Proof. intros s. unfold randbelow. grows_tac. Qed.
#[local] Hint Resolve grows_randbelow : grows.

Lemma grows_randint a b : effect grows (randint a b).
Proof. intros s. unfold randint. grows_tac. Qed.
#[local] Hint Resolve grows_randint : grows.

Lemma grows_choice : effect grows choice_True_False.
Proof. intros s. unfold choice_True_False. grows_tac. Qed.
#[local] Hint Resolve grows_choice : grows.

Lemma grows_Theater_init a b c : effect grows (Theater_init a b c).
Proof. intros s. unfold Theater_init, Resource_init. grows_tac. Qed.
#[local] Hint Resolve grows_Theater_init : grows.

Lemma grows_purchase_ticket g : effect grows (purchase_ticket g).
Proof. intros s. unfold purchase_ticket, stop_iteration. grows_tac. Qed.

Lemma grows_check_ticket g : effect grows (check_ticket g).
Proof. intros s. unfold check_ticket, stop_iteration. grows_tac. Qed.

Lemma grows_sell_food g : effect grows (sell_food g).
Proof. intros s. unfold sell_food, stop_iteration. grows_tac. Qed.

Lemma grows_run_theater g : effect grows (run_theater g).
Proof. intros s. unfold run_theater, stop_iteration. grows_tac. Qed.

Lemma bind_elim {A B} (m : M A) (k : A -> M B) s (P : Result B -> Prop) :
  (forall a s1, m s = Return a s1 -> P (k a s1)) ->
  (forall e s1, m s = Raise e s1 -> P (Raise e s1)) ->
  (forall s1, m s = OutOfFuel s1 -> P (OutOfFuel s1)) ->
  P (bind m k s).
Proof.
  intros H1 H2 H3. unfold bind. destruct (m s); [apply H1 | apply H2 | apply H3]; reflexivity.
Qed.

Lemma effect_at {A} (R : State -> State -> Prop) (m : M A) s r :
  effect R m -> m s = r -> R s (final_state r).
Proof. intros H <-. apply H. Qed.

(** The frames of [go_to_movies] in which the customer is about to leave
    the last [with] block, after which the wait time may be recorded. *)
Definition leaving (g : Generator) : option (Attr * Q * nat) :=
  match g with
  | go_to_movies_usher_process _ a req => Some (attr_usher, a, req)
  | go_to_movies_server_process _ a req => Some (attr_server, a, req)
  | _ => None
  end.

Lemma grows_go_to_movies g : leaving g = None -> effect grows (go_to_movies g).
Proof.
  intros H s. destruct g; try discriminate H;
    unfold go_to_movies, stop_iteration; grows_tac.
Qed.

(** What a resumption appends to [wait_times], given the event it yields
    ([None] when the generator returns) and the time. *)
Definition appended (g : Generator) (y : option nat) (t : Q) : list Q :=
  match y, arrival_of g with
  | None, Some a => [t - a]
  | _, _ => []
  end.

Record grows_by (w : list Q) (s s' : State) : Prop := mkGrowsBy {
  grows_by_now : now s' = now s;
  grows_by_wait_times : wait_times s' = wait_times s ++ w;
  grows_by_fresh : exists news,
    class <$> objects s' = (class <$> objects s) ++ news /\ Forall fresh_class news
}.

Lemma grows_grows_by s s' : grows s s' -> grows_by [] s s'.
Proof. intros []. split; try assumption. rewrite app_nil_r. assumption. Qed.

Lemma grows_by_grows s s' : grows_by [] s s' -> grows s s'.
Proof. intros [? W ?]. rewrite app_nil_r in W. split; assumption. Qed.

(** The effect of a resumption on the clock, [wait_times] and the
    objects. *)
Definition send_effect (g : Generator) (s : State)
    (r : Result (Generator * option nat)) : Prop :=
  match r with
  | Return (_, y) s' => grows_by (appended g y (now s)) s s'
  | Raise _ s' | OutOfFuel s' => grows s s'
  end.

Lemma record_and_leave g a s1 s :
  grows s s1 ->
  arrival_of g = Some a ->
  send_effect g s
    ((let* s0 := get in
      wait_times_append (now s0 - a) >> stop_iteration code_go_to_movies) s1).
Proof.
  intros [N W (news & E & F)] Ha. cbn. unfold appended. rewrite Ha.
  split; cbn; try congruence. eauto.
Qed.

(** Case analysis on the first computation of a [bind], recording what
    the lemma [lem] says of its effect. *)
Tactic Notation "bind_grows" constr(lem) "as" ident(a) ident(s1) ident(G) :=
  apply bind_elim;
  [ intros a s1 G | intros a s1 G | intros s1 G ];
  apply (effect_at grows _ _ _ lem) in G; cbn [final_state] in G.

Ltac grows_chain :=
  cbn [send_effect];
  match goal with
  | |- grows _ _ => idtac
  | |- grows_by [] _ _ => apply grows_grows_by
  end;
  repeat first [ eassumption | etransitivity; [eassumption|] ].

Lemma go_to_movies_effect g s : send_effect g s (go_to_movies g s).
Proof.
  destruct (leaving g) as [[[r a] req]|] eqn:L.
  - destruct g; try discriminate L; unfold go_to_movies.
    + (* at the usher *)
      bind_grows (grows_Request_exit attr_usher request0) as u s1 G1; [|grows_chain..].
      bind_grows grows_choice as b s2 G2; [|grows_chain..].
      assert (G12 : grows s s2) by grows_chain.
      destruct b; [|apply (record_and_leave _ arrival_time); [assumption | reflexivity]].
      bind_grows (grows_request attr_server) as r' s3 G3; [|grows_chain..].
      cbn. grows_chain.
    + (* at the concession *)
      bind_grows (grows_Request_exit attr_server request0) as u s1 G1; [|grows_chain..].
      apply (record_and_leave _ arrival_time); [assumption | reflexivity].
  - pose proof (grows_go_to_movies g L s) as G.
    destruct (go_to_movies g s) as [[g' y] s'|e s'|s'] eqn:E; cbn in *; try exact G.
    replace (appended g y (now s)) with (@nil Q); [apply grows_grows_by, G|].
    unfold appended. destruct y as [t|]; [reflexivity|].
    destruct (arrival_of g) eqn:Ha; [|reflexivity].
    apply go_to_movies_step in E.
    destruct g; try discriminate Ha; try discriminate L; cbn in E; intuition congruence.
Qed.

Lemma grows_is_send_effect g s (r : Result (Generator * option nat)) :
  arrival_of g = None -> grows s (final_state r) -> send_effect g s r.
Proof.
  intros Ha G. destruct r as [[g' y] s'|e s'|s']; cbn in *; try exact G.
  unfold appended. rewrite Ha. destruct y; apply grows_grows_by, G.
Qed.

Lemma send_effect_holds g s : send_effect g s (send g s).
Proof.
  unfold send. destruct (gi_code g) eqn:C.
  - apply grows_is_send_effect; [destruct g; try discriminate C; reflexivity|].
    apply grows_run_theater.
  - apply go_to_movies_effect.
  - apply grows_is_send_effect; [destruct g; try discriminate C; reflexivity|].
    apply grows_purchase_ticket.
  - apply grows_is_send_effect; [destruct g; try discriminate C; reflexivity|].
    apply grows_check_ticket.
  - apply grows_is_send_effect; [destruct g; try discriminate C; reflexivity|].
    apply grows_sell_food.
Qed.

Lemma throw_effect g e s : grows s (final_state (throw g e s)).
Proof. unfold throw. destruct g; grows_tac. Qed.

(** Taking apart an equation [m s = Return _ s'] along the shape of
    [m]. *)
Ltac ret_inv H :=
  repeat first
    [ progress (unfold ret, stop_iteration in H)
    | match type of H with
      | Return _ _ = Return _ _ => injection H as <- <-
      | Return _ _ = Return _ _ => injection H as <- <- <-
      | bind get _ _ = Return _ _ => unfold bind at 1, get at 1 in H
      | bind _ _ _ = Return _ _ =>
          let a := fresh "a" in let s1 := fresh "s" in let E := fresh "E" in
          apply bind_Return in H as (a & s1 & E & H)
      | match ?x with _ => _ end _ = Return _ _ => destruct x eqn:?
      end ].

(** How a generator moves when it is resumed at time [t]: it yields and is
    suspended, or it returns and is finished. *)
Definition send_shape (g g' : Generator) (y : option nat) (t : Q) : Prop :=
  match y with
  | Some _ =>
      phase g' = suspended /\ gi_code g' = gi_code g /\
      phase g <> returned_or_failed /\
      (gi_code g = code_go_to_movies ->
       arrival_of g' = Some (default t (arrival_of g)))
  | None => g' = finished (gi_code g) /\ phase g <> not_started
  end.

Lemma send_shape_holds g s g' y s' :
  send g s = Return (g', y) s' -> send_shape g g' y (now s).
Proof.
  unfold send. intros H. destruct (gi_code g) eqn:C.
  - destruct g; try discriminate C; unfold run_theater in H; ret_inv H;
      cbn in *; repeat split; try discriminate; try reflexivity; congruence.
  - apply go_to_movies_step in H.
    destruct g; try discriminate C; unfold customer_step in H;
      try (destruct (next_coin s));
      destruct H as (? & -> & ?); subst; cbn in *;
      repeat split; try discriminate; try reflexivity; congruence.
  - destruct g; try discriminate C; unfold purchase_ticket in H; ret_inv H;
      cbn in *; repeat split; try discriminate; try reflexivity; congruence.
  - destruct g; try discriminate C; unfold check_ticket in H; ret_inv H;
      cbn in *; repeat split; try discriminate; try reflexivity; congruence.
  - destruct g; try discriminate C; unfold sell_food in H; ret_inv H;
      cbn in *; repeat split; try discriminate; try reflexivity; congruence.
Qed.

(** The sample that a process accounts for: a customer that has returned
    accounts for the time from its start to its return. *)
Definition recorded (c : EventClass) : list Q :=
  match c with
  | Process g (Some a) (Some d) =>
      match gi_code g with
      | code_go_to_movies => [d - a]
      | _ => []
      end
  | _ => []
  end.

(** The history variables agree with the generator: a process that has not
    finished has not returned, a customer under way started at its
    [arrival_time], and a process that has returned had started. *)
Definition process_ok (c : EventClass) : Prop :=
  match c with
  | Process g started returned =>
      match phase g with
      | returned_or_failed => returned = None \/ started <> None
      | _ =>
          returned = None /\
          (gi_code g = code_go_to_movies -> started = arrival_of g)
      end
  | _ => True
  end.

(** The invariant of a run that began with [w0] in [wait_times]. *)
Record recorded_inv (w0 : list Q) (s : State) : Prop := mkRecordedInv {
  inv_wait_times : wait_times s ≡ₚ w0 ++ flat_map recorded (class <$> objects s);
  inv_processes : Forall process_ok (class <$> objects s)
}.

Definition keeps_inv (w0 : list Q) (s s' : State) : Prop :=
  recorded_inv w0 s -> recorded_inv w0 s'.

#[local] Instance keeps_inv_preorder w0 : PreOrder (keeps_inv w0).
Proof. split; unfold keeps_inv; [intros s; auto | intros a b c; auto]. Qed.

Lemma fresh_class_recorded c : fresh_class c -> recorded c = [] /\ process_ok c.
Proof.
  destruct c; cbn; auto. intros (P & -> & ->). rewrite P. split; [reflexivity|].
  split; [reflexivity|]. intros _. destruct generator; try discriminate P; reflexivity.
Qed.

Lemma fresh_classes_recorded news :
  Forall fresh_class news -> flat_map recorded news = [] /\ Forall process_ok news.
Proof.
  induction 1 as [|c l H _ [IH1 IH2]]; [split; constructor|].
  apply fresh_class_recorded in H as [H1 H2]. cbn. rewrite H1, IH1. auto.
Qed.

Lemma grows_keeps_inv w0 s s' : grows s s' -> keeps_inv w0 s s'.
Proof.
  intros [_ W (news & E & F)] [I1 I2].
  apply fresh_classes_recorded in F as [F1 F2]. split.
  - rewrite W, E, flat_map_app, F1, app_nil_r. exact I1.
  - rewrite E. apply Forall_app. auto.
Qed.

Lemma flat_map_insert {A B} (f : A -> list B) (l : list A) i x y :
  l !! i = Some x ->
  flat_map f (<[i := y]> l) ++ f x ≡ₚ flat_map f l ++ f y.
Proof.
  intros H. pose proof (lookup_lt_Some _ _ _ H) as Hlt.
  rewrite (insert_take_drop l i y Hlt).
  rewrite <- (take_drop_middle l i x H) at 3.
  rewrite !flat_map_app. cbn. rewrite <- !app_assoc.
  apply Permutation_app_head.
  rewrite (Permutation_app_comm (f y)), (Permutation_app_comm (f x)).
  rewrite <- !app_assoc. apply Permutation_app_head. apply Permutation_app_comm.
Qed.

Lemma update_event_Return process f s pe :
  objects s !! process = Some pe ->
  update_event process f s =
    Return tt (set_objects (<[process := f pe]> (objects s)) s).
Proof.
  intros H. unfold update_event, get_event, bind, get. rewrite H. reflexivity.
Qed.

(** Changing the class of the object [p], when the samples of the new class
    are those of the old one and what has been appended to [wait_times]. *)
Lemma set_class_inv w0 w s s2 p ev' old :
  recorded_inv w0 s ->
  (class <$> objects s) !! p = Some old ->
  grows_by w s s2 ->
  process_ok (class ev') ->
  recorded (class ev') = recorded old ++ w ->
  recorded_inv w0 (set_objects (<[p := ev']> (objects s2)) s2).
Proof.
  intros [I1 I2] Hp [N W (news & E & F)] Hok Hr.
  apply fresh_classes_recorded in F as [F1 F2].
  assert (Hp' : (class <$> objects s2) !! p = Some old).
  { rewrite E. apply lookup_app_l_Some. exact Hp. }
  split; cbn; rewrite list_fmap_insert.
  - pose proof (flat_map_insert recorded _ _ _ (class ev') Hp') as P.
    set (FM' := flat_map recorded (<[p:=class ev']> (class <$> objects s2))) in *.
    rewrite E, flat_map_app, F1, app_nil_r, Hr in P.
    rewrite W, I1.
    assert (P' : FM' ≡ₚ flat_map recorded (class <$> objects s) ++ w).
    { apply (Permutation_app_inv_r (recorded old)).
      rewrite P, <- !app_assoc. apply Permutation_app_head, Permutation_app_comm. }
    rewrite P', app_assoc. reflexivity.
  - apply Forall_insert; [|exact Hok]. rewrite E. apply Forall_app. auto.
Qed.

Lemma grows_by_lookup w s s2 p old :
  grows_by w s s2 ->
  (class <$> objects s) !! p = Some old ->
  exists pe2, objects s2 !! p = Some pe2 /\ class pe2 = old.
Proof.
  intros [_ _ (news & E & _)] H.
  assert (H2 : (class <$> objects s2) !! p = Some old).
  { rewrite E. apply lookup_app_l_Some. exact H. }
  apply list_lookup_fmap_Some in H2 as (pe2 & -> & H2). eauto.
Qed.

Lemma keeps_keeps_inv w0 s s' : keeps s s' -> keeps_inv w0 s s'.
Proof. intros K. apply grows_keeps_inv, keeps_grows, K. Qed.

(** The outcome of a resumption keeps the invariant. *)
Lemma process_outcome_inv w0 s p g st rt r :
  recorded_inv w0 s ->
  (class <$> objects s) !! p = Some (Process g st rt) ->
  send_effect g s r ->
  (forall g' y s2, r = Return (g', y) s2 -> send_shape g g' y (now s)) ->
  recorded_inv w0
    (final_state (process_outcome p g (Some (default (now s) st)) rt r)).
Proof.
  intros I Hp Heff Hshape.
  pose proof (inv_processes _ _ I) as Hok.
  rewrite Forall_lookup in Hok. specialize (Hok _ _ Hp). cbn in Hok.
  destruct r as [[g' [target|]] s2|e s2|s2]; cbn [process_outcome send_effect] in *.
  - (* the generator yields *)
    specialize (Hshape _ _ _ eq_refl) as (P' & C' & P & A).
    destruct (grows_by_lookup _ _ _ _ _ Heff Hp) as (pe2 & Hp2 & Hc2).
    unfold bind at 1. rewrite (update_event_Return _ _ _ _ Hp2). cbn [final_state].
    assert (I3 : recorded_inv w0
      (set_objects (<[p := set_class (Process g' (Some (default (now s) st)) rt) pe2]>
                      (objects s2)) s2)).
    { refine (set_class_inv w0 _ s s2 p _ (Process g st rt) I Hp Heff _ _).
      - cbn. rewrite P'. destruct (phase g) eqn:Pg; try congruence;
          destruct Hok as [-> Hst]; (split; [reflexivity|]); intros Cg;
          rewrite C' in Cg; rewrite (A Cg), (Hst Cg); destruct (arrival_of g); reflexivity.
      - unfold appended. rewrite app_nil_r. cbn.
        destruct (phase g) eqn:Pg; try congruence; destruct Hok as [-> _];
          destruct st; reflexivity. }
    revert I3. apply (effect_bind (keeps_inv w0)).
    + apply keeps_keeps_inv. apply keeps_get_event.
    + intros tv s3 _. destruct (callbacks tv).
      * apply keeps_keeps_inv. apply keeps_callbacks_append.
      * intros ?; assumption.
  - (* the generator returns *)
    specialize (Hshape _ _ _ eq_refl) as (-> & P).
    destruct (grows_by_lookup _ _ _ _ _ Heff Hp) as (pe2 & Hp2 & Hc2).
    unfold bind at 1. rewrite (update_event_Return _ _ _ _ Hp2). cbn [final_state].
    match goal with
    | |- recorded_inv _ (final_state (schedule _ _ _ ?s3)) =>
        assert (I3 : recorded_inv w0 s3)
    end.
    { pose proof (grows_by_now _ _ _ Heff) as N.
      refine (set_class_inv w0 _ s s2 p _ (Process g st rt) I Hp Heff _ _).
      - cbn. right. discriminate.
      - unfold appended. cbn.
        destruct g; cbn in *; try congruence;
          try (destruct Hok as [-> Hst]; rewrite ?(Hst eq_refl), ?N; destruct st; reflexivity).
        destruct Hok as [->|Hst]; [destruct st; reflexivity|].
        destruct st; [|congruence]. rewrite app_nil_r. reflexivity. }
    revert I3. apply keeps_keeps_inv. apply keeps_schedule.
  - (* the generator raises *)
    destruct (grows_by_lookup _ _ _ _ _ (grows_grows_by _ _ Heff) Hp) as (pe2 & Hp2 & Hc2).
    unfold bind at 1. rewrite (update_event_Return _ _ _ _ Hp2). cbn [final_state].
    match goal with
    | |- recorded_inv _ (final_state (schedule _ _ _ ?s3)) =>
        assert (I3 : recorded_inv w0 s3)
    end.
    { refine (set_class_inv w0 _ s s2 p _ (Process g st rt) I Hp
                (grows_grows_by _ _ Heff) _ _).
      - cbn. right. discriminate.
      - rewrite app_nil_r. cbn.
        destruct (phase g) eqn:Pg.
        + destruct Hok as [-> _]. destruct st; reflexivity.
        + destruct Hok as [-> _]. destruct st; reflexivity.
        + destruct g; try discriminate Pg. cbn.
          destruct Hok as [->|Hst]; [destruct st; reflexivity|].
          destruct st; [reflexivity|congruence]. }
    revert I3. apply keeps_keeps_inv. apply keeps_schedule.
  - (* out of fuel *)
    revert I. apply grows_keeps_inv. exact Heff.
Qed.

Lemma get_event_unfold event s :
  get_event event s =
  match objects s !! event with
  | Some ev => Return ev s
  | None => Raise no_object s
  end.
Proof. unfold get_event, bind, get. destruct (objects s !! event); reflexivity. Qed.

Lemma throw_not_Return g e s a s' : throw g e s <> Return a s'.
Proof.
  unfold throw. destruct g; unfold bind, raise; try discriminate;
    match goal with |- context [Request_exit ?r ?q s] => destruct (Request_exit r q s) end;
    discriminate.
Qed.

(** Resuming a process keeps the invariant. *)
Lemma resume_inv w0 p event : effect (keeps_inv w0) (resume p event).
Proof.
  intros s I. unfold resume. unfold bind at 1. rewrite get_event_unfold.
  destruct (objects s !! p) as [pe|] eqn:Hp; [|exact I].
  cbv beta iota. destruct (class pe) as [| | |g st rt| |] eqn:C; try exact I.
  unfold bind at 1, get at 1. cbv beta iota.
  unfold bind at 1. rewrite get_event_unfold.
  destruct (objects s !! event) as [ev|] eqn:He; [|exact I].
  cbv beta iota.
  assert (Hc : (class <$> objects s) !! p = Some (Process g st rt)).
  { rewrite list_lookup_fmap, Hp. cbn. congruence. }
  apply process_outcome_inv; try assumption.
  - destruct (value ev) as [| |e]; try apply send_effect_holds.
    assert (G : grows s (final_state ((update_event event set_defused >> throw g e) s))).
    { apply (effect_bind grows).
      - apply keeps_grows. apply keeps_update_event. intros []; reflexivity.
      - intros ? s1 _. apply throw_effect. }
    destruct ((update_event event set_defused >> throw g e) s) as [[g' y] s'|e' s'|s'] eqn:E;
      [|exact G..].
    apply bind_Return in E as (? & s1 & _ & E). destruct (throw_not_Return _ _ _ _ _ E).
  - intros g' y s2 E. destruct (value ev) as [| |e];
      try (eapply send_shape_holds; exact E).
    apply bind_Return in E as (? & s1 & _ & E). destruct (throw_not_Return _ _ _ _ _ E).
Qed.

Lemma recorded_inv_ext w0 s s' :
  wait_times s' = wait_times s ->
  class <$> objects s' = class <$> objects s ->
  keeps_inv w0 s s'.
Proof. intros W C [I1 I2]. split; rewrite ?W, C; assumption. Qed.

Lemma call_inv w0 cb event : effect (keeps_inv w0) (call cb event).
Proof.
  intros s. destruct cb; cbn [call].
  - apply resume_inv.
  - apply keeps_keeps_inv, keeps_trigger_put.
  - apply keeps_keeps_inv, keeps_trigger_get.
  - apply keeps_keeps_inv. keeps_tac.
Qed.

(** A step of the event loop keeps the invariant. *)
Lemma step_inv w0 : effect (keeps_inv w0) step.
Proof.
  intros s. unfold step. effect_step.
  destruct (queue s) as [|x q]; [reflexivity|].
  destruct (heappop x q) as [m rest].
  effect_step; [apply recorded_inv_ext; reflexivity|].
  effect_step; [apply keeps_keeps_inv, keeps_get_event|].
  effect_step; [apply keeps_keeps_inv, keeps_update_event; intros []; reflexivity|].
  effect_step; [apply (effect_for (keeps_inv w0)); intros cb; apply call_inv|].
  apply keeps_keeps_inv. keeps_tac.
Qed.

Lemma step_loop_inv w0 fuel : effect (keeps_inv w0) (step_loop fuel).
Proof.
  induction fuel as [|fuel IH]; intros s; cbn [step_loop].
  - reflexivity.
  - effect_step; [apply step_inv | apply IH].
Qed.

Lemma run_inv w0 until fuel : effect (keeps_inv w0) (run until fuel).
Proof.
  intros s. unfold run. effect_step.
  destruct (Qle_bool until (now s)); [reflexivity|].
  effect_step; [apply grows_keeps_inv, grows_new_object; exact I|].
  effect_step; [apply keeps_keeps_inv, keeps_schedule|].
  effect_step; [apply keeps_keeps_inv, keeps_callbacks_append|].
  match goal with
  | |- context [step_loop fuel ?s1] =>
      pose proof (step_loop_inv w0 fuel s1) as L;
      destruct (step_loop fuel s1) as [[] s2|[] s2|s2]; exact L
  end.
Qed.

(** *** The invariant along [main] *)

(** [wait_times] and the objects are untouched. *)
Definition same_store (s s' : State) : Prop :=
  wait_times s' = wait_times s /\ objects s' = objects s.

#[local] Instance same_store_preorder : PreOrder same_store.
Proof.
  split.
  - intros s. split; reflexivity.
  - intros a b c [] []. split; congruence.
Qed.

Ltac same_store_tac :=
  repeat first [ effect_step | split; reflexivity ].

Lemma same_store_input prompt : effect same_store (input prompt).
Proof. intros s. unfold input, write. same_store_tac. Qed.

Lemma same_store_get_user_input : effect same_store get_user_input.
Proof.
  intros s. unfold get_user_input.
  do 3 (effect_step; [apply same_store_input|]).
  unfold print2, write. same_store_tac.
Qed.

Lemma same_store_main_view_the_results : effect same_store main_view_the_results.
Proof. intros s. unfold main_view_the_results, print, write. same_store_tac. Qed.

Lemma same_store_keeps_inv w0 s s' : same_store s s' -> keeps_inv w0 s s'.
Proof. intros [W O]. apply recorded_inv_ext; congruence. Qed.

Lemma main_run_the_simulation_inv params fuel s :
  recorded_inv (wait_times s)
    (final_state (main_run_the_simulation params fuel (set_objects [] s))).
Proof.
  assert (I : recorded_inv (wait_times s) (set_objects [] s)).
  { split; cbn; [rewrite app_nil_r; reflexivity | constructor]. }
  unfold main_run_the_simulation.
  destruct params as [|a [|b [|c [|d l]]]]; try exact I.
  rewrite print_Environment_bind.
  match goal with
  | |- recorded_inv _ (final_state (bind _ _ ?s1)) =>
      assert (I1 : recorded_inv (wait_times s) s1)
        by (split; cbn; [rewrite app_nil_r; reflexivity | constructor]);
      revert I1
  end.
  apply (effect_bind (keeps_inv (wait_times s))).
  - apply grows_keeps_inv, grows_env_process. reflexivity.
  - intros ? s2 _. apply run_inv.
Qed.

(** From a session with no objects, [main] ends with the samples it found
    in [wait_times] and those that the processes account for. *)
Lemma main_inv mt fuel s :
  objects s = [] ->
  recorded_inv (wait_times s) (final_state (main mt fuel s)).
Proof.
  intros O.
  assert (I0 : forall s', same_store s s' -> recorded_inv (wait_times s) s').
  { intros s' [W O']. split; rewrite ?W, O', O; cbn;
      [rewrite app_nil_r; reflexivity | constructor]. }
  rewrite main_unfold.
  pose proof (same_store_get_user_input (set_random (mt 0%Z) 0%nat s)) as S.
  destruct (get_user_input (set_random (mt 0%Z) 0%nat s)) as [params s1|e s1|s1];
    cbn [final_state] in S; try (apply I0; exact S).
  destruct S as [W1 O1]. cbn in W1, O1. rewrite O in O1.
  replace s1 with (set_objects [] s1)
    by (destruct s1; unfold set_objects; cbn in *; congruence).
  rewrite <- W1.
  pose proof (main_run_the_simulation_inv params fuel s1) as I1.
  unfold bind.
  destruct (main_run_the_simulation params fuel (set_objects [] s1)) as [[] s2|e s2|s2];
    cbn [final_state] in I1; try exact I1.
  revert I1. apply same_store_keeps_inv, same_store_main_view_the_results.
Qed.

(** *** The samples and the customers *)

(** The customers are the processes that run [go_to_movies]; a customer has
    been processed when its generator has returned. *)
Definition processed (c : EventClass) : bool :=
  match c with
  | Process g _ (Some _) =>
      match gi_code g with
      | code_go_to_movies => true
      | _ => false
      end
  | _ => false
  end.

(** What an object accounts for in [wait_times]: a customer that has been
    processed, which arrived (was started) at [arrival] and left (returned)
    at [departure], accounts for the one sample [departure - arrival]; a
    customer that is still under way accounts for nothing, and has the time
    it was started at as its [arrival_time]; any other object accounts for
    nothing. *)
Definition accounted (c : EventClass) : Prop :=
  match c with
  | Process g started returned =>
      match gi_code g with
      | code_go_to_movies =>
          match returned with
          | Some departure =>
              exists arrival,
                started = Some arrival /\ g = finished code_go_to_movies /\
                recorded c = [departure - arrival]
          | None =>
              recorded c = [] /\ (phase g = suspended -> started = arrival_of g)
          end
      | _ => recorded c = []
      end
  | _ => recorded c = []
  end.

Lemma process_ok_accounted c : process_ok c -> accounted c.
Proof.
  destruct c as [| | |g st rt| |]; try reflexivity.
  unfold process_ok, accounted. intros H.
  destruct (gi_code g) eqn:C;
    try (unfold recorded; rewrite C; destruct st, rt; reflexivity).
  destruct g; try discriminate C; cbn in H |- *;
    try (destruct H as [-> H]; split;
         [destruct st; reflexivity | intros; try discriminate; auto]).
  cbn in C. subst. destruct rt as [d|].
  - destruct H as [H|H]; [discriminate|]. destruct st as [a|]; [|congruence].
    exists a. auto.
  - split; [destruct st; reflexivity | discriminate].
Qed.

Lemma recorded_length c :
  accounted c -> length (recorded c) = if processed c then 1%nat else 0%nat.
Proof.
  destruct c as [| | |g st rt| |]; try reflexivity.
  unfold accounted, processed. destruct (gi_code g) eqn:C;
    try (intros ->; destruct rt; reflexivity).
  destruct rt.
  - intros (a & _ & _ & ->). reflexivity.
  - intros [-> _]. reflexivity.
Qed.

Lemma recorded_processed cs :
  Forall accounted cs ->
  length (flat_map recorded cs) = length (List.filter processed cs).
Proof.
  induction 1 as [|c cs Hc _ IH]; [reflexivity|].
  cbn [flat_map List.filter]. rewrite length_app, IH, (recorded_length c Hc).
  destruct (processed c); reflexivity.
Qed.

(** C4.  At the end of [main], and at every point of its run ([fuel] is any
    number of steps of the event loop), [wait_times] holds as many samples
    as there are customers that have been processed; up to the order, the
    samples are those the objects account for: one sample
    [departure - arrival] for each customer that has been processed, and
    nothing for a customer still under way. *)
Theorem wait_times_has_one_sample_per_processed_customer
    (mt : Z -> nat -> N) (fuel : nat) (tape : nat -> N) (typed : list Py.str) :
  length (wait_times (final_state (main mt fuel (session tape typed)))) =
  length (List.filter processed
            (class <$> objects (final_state (main mt fuel (session tape typed))))) /\
  wait_times (final_state (main mt fuel (session tape typed))) ≡ₚ
  flat_map recorded
    (class <$> objects (final_state (main mt fuel (session tape typed)))) /\
  Forall accounted
    (class <$> objects (final_state (main mt fuel (session tape typed)))).
Proof.
  destruct (main_inv mt fuel (session tape typed) eq_refl) as [W P].
  change (wait_times (session tape typed)) with (@nil Q) in W.
  rewrite app_nil_l in W.
  assert (A : Forall accounted
    (class <$> objects (final_state (main mt fuel (session tape typed))))).
  { eapply Forall_impl; [exact P | apply process_ok_accounted]. }
  split; [|split]; try assumption.
  rewrite <- (recorded_processed _ A). apply Permutation_length. exact W.
Qed.

(** ** When the customers are injected *)

(** The time at which [run_theater] creates the customer [moviegoer]: the
    first three at once, the others one every 12/60 of a minute. *)
Definition injection_time (moviegoer : Z) : Q :=
  if (moviegoer <? 3)%Z then 0 else inject_Z (moviegoer - 2) * (12 / 60).

(** The time at which a generator is to be resumed, for the generators whose
    resumptions make the arrivals: [run_theater], and a customer that has
    not started. *)
Definition due (g : Generator) : option Q :=
  match g with
  | run_theater_start _ _ _ => Some 0
  | run_theater_timeout moviegoer => Some (inject_Z (moviegoer - 1) * (12 / 60))
  | go_to_movies_start moviegoer => Some (injection_time moviegoer)
  | _ => None
  end.

Definition due_of (c : EventClass) : option Q :=
  match c with
  | Process g _ _ => due g
  | _ => None
  end.

Definition duty (s : State) (p : nat) : option Q :=
  match objects s !! p with
  | Some ev => due_of (class ev)
  | None => None
  end.

(** The callbacks that matter for the arrivals: resuming a process that has
    a due time, and stopping the simulation. *)
Definition special (s : State) (cb : Callback) : bool :=
  match cb with
  | Process_resume p => match duty s p with Some _ => true | None => false end
  | StopSimulation_callback => true
  | _ => false
  end.

(** The entry of the event that stops [env.run(until=90)]: it is the second
    event scheduled, for the third object. *)
Definition until_entry : Entry := (90, URGENT, 1%nat, 2%nat).

(** An entry for an event is [timed] for a callback of the event. *)
Definition timed (s : State) (cb : Callback) (x : Entry) : Prop :=
  match cb with
  | Process_resume p =>
      match duty s p with
      | Some d => entry_time x == d
      | None => True
      end
  | StopSimulation_callback => x = until_entry
  | _ => True
  end.

Definition is_process (c : EventClass) : bool :=
  match c with
  | Process _ _ _ => true
  | _ => false
  end.

Definition code_of (c : EventClass) : option Function :=
  match c with
  | Process g _ _ => Some (gi_code g)
  | _ => None
  end.

Definition is_customer (c : EventClass) : bool :=
  match code_of c with
  | Some code_go_to_movies => true
  | _ => false
  end.

Definition is_run_theater (c : EventClass) : bool :=
  match code_of c with
  | Some code_run_theater => true
  | _ => false
  end.

(** The customers, in the order of their creation. *)
Definition customers (s : State) : list EventClass :=
  List.filter is_customer (class <$> objects s).

(** The time at which a process was first resumed. *)
Definition started_at (c : EventClass) : option Q :=
  match c with
  | Process _ started _ => started
  | _ => None
  end.

(** The [i]-th customer is in order: it is due before the horizon, and it
    either has not started, and is the customer number [i], or started when
    it was due. *)
Definition customer_ok (i : nat) (c : EventClass) : Prop :=
  injection_time (Z.of_nat i) < 90 /\
  match c with
  | Process (go_to_movies_start moviegoer) started _ =>
      moviegoer = Z.of_nat i /\ started = None
  | _ => exists t, started_at c = Some t /\ t == injection_time (Z.of_nat i)
  end.

(** *** The order of the queue *)

Lemma entry_le_total a b : entry_le a b = false -> entry_le b a = true.
Proof.
  unfold entry_le.
  destruct (Qcompare_spec (entry_time a) (entry_time b)) as [E|E|E];
    destruct (Qcompare_spec (entry_time b) (entry_time a)) as [E'|E'|E'];
    try discriminate; try reflexivity; try lra.
  destruct (Z.compare_spec (priority_value (entry_priority a))
              (priority_value (entry_priority b)));
    destruct (Z.compare_spec (priority_value (entry_priority b))
                (priority_value (entry_priority a)));
    try discriminate; try reflexivity; try lia.
  intros Hle. apply Nat.leb_gt in Hle. apply Nat.leb_le. lia.
Qed.

Lemma entry_le_trans a b c :
  entry_le a b = true -> entry_le b c = true -> entry_le a c = true.
Proof.
  unfold entry_le.
  destruct (Qcompare_spec (entry_time a) (entry_time b)) as [E|E|E];
    destruct (Qcompare_spec (entry_time b) (entry_time c)) as [E'|E'|E'];
    destruct (Qcompare_spec (entry_time a) (entry_time c)) as [E''|E''|E''];
    try discriminate; try reflexivity; try lra.
  destruct (Z.compare_spec (priority_value (entry_priority a))
              (priority_value (entry_priority b)));
    destruct (Z.compare_spec (priority_value (entry_priority b))
                (priority_value (entry_priority c)));
    destruct (Z.compare_spec (priority_value (entry_priority a))
                (priority_value (entry_priority c)));
    try discriminate; try reflexivity; try lia.
  intros Hab Hbc. apply Nat.leb_le in Hab, Hbc. apply Nat.leb_le. lia.
Qed.

(** [heappop] takes a least entry out of the queue. *)
Lemma heappop_spec x q m rest :
  heappop x q = (m, rest) ->
  x :: q ≡ₚ m :: rest /\ Forall (fun y => entry_le m y = true) rest.
Proof.
  revert x m rest. induction q as [|y q IH]; intros x m rest; cbn [heappop].
  - intros H. injection H as <- <-. split; [reflexivity | constructor].
  - destruct (heappop y q) as [m' rest'] eqn:E.
    destruct (IH _ _ _ E) as [P F].
    destruct (entry_le x m') eqn:L; intros H; injection H as <- <-.
    + split; [reflexivity|].
      rewrite P. constructor; [exact L|].
      eapply Forall_impl; [exact F|]. cbn. intros z Hz.
      eapply entry_le_trans; eassumption.
    + split.
      * rewrite P. apply perm_swap.
      * constructor; [apply entry_le_total; exact L | exact F].
Qed.

(** *** What leaves the arrivals alone *)

(** A callback that is not special, of a process that exists. *)
Definition plain (s : State) (cb : Callback) : Prop :=
  special s cb = false /\
  match cb with
  | Process_resume p => (p < length (objects s))%nat
  | _ => True
  end.

(** An event with no special callback. *)
Definition free (s : State) (e : nat) : Prop :=
  exists ev, objects s !! e = Some ev /\ Forall (plain s) (default [] (callbacks ev)).

(** The class of an object stays, or it is a process that goes on without a
    due time; a customer that starts does so when it is due. *)
Definition class_evolves (c c' : EventClass) : Prop :=
  c' = c \/
  match c, c' with
  | Process g st _, Process g' st' _ =>
      due g' = None /\ gi_code g' = gi_code g /\
      (forall t, st = Some t -> st' = Some t) /\
      (forall m, g = go_to_movies_start m ->
                 exists t, st' = Some t /\ t == injection_time m)
  | _, _ => False
  end.

Record evolves (s' : State) (ev ev' : Event) : Prop := mkEvolves {
  evolves_class : class_evolves (class ev) (class ev');
  evolves_value : value ev <> PENDING -> value ev' <> PENDING;
  evolves_callbacks :
    callbacks ev' = callbacks ev \/
    exists cbs more,
      callbacks ev = Some cbs /\ callbacks ev' = Some (cbs ++ more) /\
      Forall (plain s') (cbs ++ more)
}.

Definition newcomer (s' : State) (ev' : Event) : Prop :=
  due_of (class ev') = None /\ is_customer (class ev') = false /\
  is_run_theater (class ev') = false /\
  Forall (plain s') (default [] (callbacks ev')).

(** [quiet s s']: from [s] to [s'] the clock stays, the queue gets entries
    of free events only, the objects evolve and the new ones are neither
    customers nor have special callbacks. *)
Record quiet (s s' : State) : Prop := mkQuiet {
  quiet_now : now s' = now s;
  quiet_eid : (eid s <= eid s')%nat;
  quiet_queue : exists news,
    queue s' = news ++ queue s /\
    Forall (fun x => (eid s <= entry_eid x)%nat /\ free s' (entry_event x)) news;
  quiet_old : forall i ev, objects s !! i = Some ev ->
    exists ev', objects s' !! i = Some ev' /\ evolves s' ev ev';
  quiet_new : forall i ev', objects s' !! i = Some ev' ->
    (length (objects s) <= i)%nat -> newcomer s' ev'
}.

Lemma class_evolves_refl c : class_evolves c c.
Proof. left. reflexivity. Qed.

Lemma evolves_refl s ev : evolves s ev ev.
Proof. split; [apply class_evolves_refl | auto | left; reflexivity]. Qed.

Lemma class_evolves_trans c1 c2 c3 :
  class_evolves c1 c2 -> class_evolves c2 c3 -> class_evolves c1 c3.
Proof.
  intros [->|H12] [->|H23]; [left; reflexivity | right; exact H23 | right; exact H12 |].
  right. destruct c1 as [| | |g1 st1 rt1| |], c2 as [| | |g2 st2 rt2| |]; try contradiction.
  destruct c3 as [| | |g3 st3 rt3| |]; try contradiction.
  destruct H12 as (D2 & C2 & S2 & G2), H23 as (D3 & C3 & S3 & G3).
  split; [exact D3|]. split; [congruence|]. split; [auto|].
  intros m E. destruct (G2 m E) as (t & E2 & Ht). exists t. auto.
Qed.

Lemma quiet_length s s' : quiet s s' -> (length (objects s) <= length (objects s'))%nat.
Proof.
  intros Q. destruct (le_lt_dec (length (objects s)) (length (objects s'))) as [|L];
    [assumption|].
  apply lookup_lt_is_Some_2 in L as [ev E].
  destruct (quiet_old _ _ Q _ _ E) as (ev' & E' & _).
  apply lookup_lt_Some in E'. lia.
Qed.

(** A process that has a due time had it before. *)
Lemma duty_quiet s s' p d : quiet s s' -> duty s' p = Some d -> duty s p = Some d.
Proof.
  intros Q. unfold duty. destruct (objects s' !! p) as [ev'|] eqn:E'; [|discriminate].
  destruct (objects s !! p) as [ev|] eqn:E.
  - destruct (quiet_old _ _ Q _ _ E) as (ev2 & E2 & [C _ _]).
    rewrite E' in E2. injection E2 as <-.
    destruct C as [->|C]; [auto|].
    destruct (class ev) as [| | |g st rt| |], (class ev') as [| | |g' st' rt'| |];
      try contradiction.
    cbn. destruct C as (D & _). rewrite D. discriminate.
  - apply lookup_ge_None in E.
    destruct (quiet_new _ _ Q _ _ E' E) as (D & _). rewrite D. discriminate.
Qed.

Lemma special_quiet s s' cb : quiet s s' -> special s cb = false -> special s' cb = false.
Proof.
  intros Q. destruct cb as [p| | |]; cbn; auto.
  destruct (duty s' p) as [d|] eqn:D; [|reflexivity].
  rewrite (duty_quiet _ _ _ _ Q D). discriminate.
Qed.

Lemma plain_quiet s s' cb : quiet s s' -> plain s cb -> plain s' cb.
Proof.
  intros Q [S B]. split; [eapply special_quiet; eassumption|].
  destruct cb; auto. pose proof (quiet_length _ _ Q). lia.
Qed.

Lemma Forall_plain_quiet s s' cbs :
  quiet s s' -> Forall (plain s) cbs -> Forall (plain s') cbs.
Proof. intros Q F. eapply Forall_impl; [exact F|]. intros cb. apply plain_quiet, Q. Qed.

Lemma evolves_plain s' ev ev' :
  evolves s' ev ev' ->
  Forall (plain s') (default [] (callbacks ev)) ->
  Forall (plain s') (default [] (callbacks ev')).
Proof.
  intros [_ _ [->|(cbs & more & E & -> & F)]] H; [exact H | exact F].
Qed.

Lemma free_quiet s s' e : quiet s s' -> free s e -> free s' e.
Proof.
  intros Q (ev & E & F).
  destruct (quiet_old _ _ Q _ _ E) as (ev' & E' & V).
  exists ev'. split; [exact E'|].
  eapply evolves_plain; [exact V|]. eapply Forall_plain_quiet; eassumption.
Qed.

Lemma evolves_trans s2 s3 ev1 ev2 ev3 :
  quiet s2 s3 -> evolves s2 ev1 ev2 -> evolves s3 ev2 ev3 -> evolves s3 ev1 ev3.
Proof.
  intros Q [C12 V12 B12] [C23 V23 B23]. split.
  - eapply class_evolves_trans; eassumption.
  - auto.
  - destruct B23 as [->|(cbs & more & E2 & -> & F)].
    + destruct B12 as [->|(cbs & more & E1 & -> & F)]; [left; reflexivity|].
      right. exists cbs, more. repeat split; try assumption.
      eapply Forall_plain_quiet; eassumption.
    + destruct B12 as [<-|(cbs1 & more1 & E1 & E2' & F1)].
      * right. exists cbs, more. auto.
      * rewrite E2 in E2'. injection E2' as ->.
        right. exists cbs1, (more1 ++ more). rewrite app_assoc. auto.
Qed.

Lemma newcomer_evolves s2 s3 ev2 ev3 :
  quiet s2 s3 -> newcomer s2 ev2 -> evolves s3 ev2 ev3 -> newcomer s3 ev3.
Proof.
  intros Q (D & C & R & F) V.
  assert (F3 : Forall (plain s3) (default [] (callbacks ev3))).
  { eapply evolves_plain; [exact V|]. eapply Forall_plain_quiet; eassumption. }
  unfold newcomer.
  destruct V as [[E|V] _ _]; [rewrite E; repeat split; assumption|].
  destruct (class ev2) as [| | |g st rt| |], (class ev3) as [| | |g' st' rt'| |];
    try contradiction.
  destruct V as (D' & G & _). unfold is_customer, is_run_theater in *. cbn in *.
  rewrite G. auto.
Qed.

#[local] Instance quiet_preorder : PreOrder quiet.
Proof.
  split.
  - intros s. split; try reflexivity.
    + exists []. split; [reflexivity | constructor].
    + intros i ev E. exists ev. split; [exact E | apply evolves_refl].
    + intros i ev E L. apply lookup_lt_Some in E. lia.
  - intros s1 s2 s3 Q12 Q23. split.
    + rewrite (quiet_now _ _ Q23). apply Q12.
    + etransitivity; [apply Q12 | apply Q23].
    + destruct (quiet_queue _ _ Q12) as (n1 & E1 & F1).
      destruct (quiet_queue _ _ Q23) as (n2 & E2 & F2).
      exists (n2 ++ n1). split; [rewrite E2, E1, app_assoc; reflexivity|].
      apply Forall_app. split.
      * eapply Forall_impl; [exact F2|]. cbn. intros x [L F]. split; [|exact F].
        pose proof (quiet_eid _ _ Q12). lia.
      * eapply Forall_impl; [exact F1|]. cbn. intros x [L F]. split; [exact L|].
        eapply free_quiet; eassumption.
    + intros i ev1 E1.
      destruct (quiet_old _ _ Q12 _ _ E1) as (ev2 & E2 & V12).
      destruct (quiet_old _ _ Q23 _ _ E2) as (ev3 & E3 & V23).
      exists ev3. split; [exact E3|]. eapply evolves_trans; eassumption.
    + intros i ev3 E3 L.
      destruct (objects s2 !! i) as [ev2|] eqn:E2.
      * destruct (quiet_old _ _ Q23 _ _ E2) as (ev3' & E3' & V23).
        rewrite E3 in E3'. injection E3' as <-.
        eapply newcomer_evolves; [exact Q23 | | exact V23].
        eapply quiet_new; eassumption.
      * apply lookup_ge_None in E2. eapply quiet_new; eassumption.
Qed.

(** The callbacks are in order: a process they resume exists, and an event
    with a special callback has no other callback, has been triggered, is
    not a process, and has its entries in the queue timed for the
    callback. *)
Definition registered_ok (s : State) : Prop :=
  forall e ev cbs cb,
    objects s !! e = Some ev -> callbacks ev = Some cbs -> In cb cbs ->
    match cb with
    | Process_resume p => (p < length (objects s))%nat
    | _ => True
    end /\
    (special s cb = true ->
     cbs = [cb] /\ value ev <> PENDING /\ is_process (class ev) = false /\
     Forall (fun x => entry_event x = e -> timed s cb x) (queue s)).

Lemma plain_not_special s cbs cb :
  Forall (plain s) cbs -> In cb cbs -> special s cb = true -> False.
Proof.
  intros F I S. rewrite Forall_forall in F. apply list_elem_of_In in I.
  destruct (F _ I) as [S' _]. congruence.
Qed.

Lemma plain_bound s cbs p :
  Forall (plain s) cbs -> In (Process_resume p) cbs -> (p < length (objects s))%nat.
Proof.
  intros F I. rewrite Forall_forall in F. apply list_elem_of_In in I.
  destruct (F _ I) as [_ B]. exact B.
Qed.

Lemma timed_quiet s s' cb x : quiet s s' -> timed s cb x -> timed s' cb x.
Proof.
  intros Q. destruct cb as [p| | |]; cbn; auto.
  destruct (duty s' p) as [d|] eqn:D; [|auto].
  rewrite (duty_quiet _ _ _ _ Q D). auto.
Qed.

Lemma registered_ok_quiet s s' : registered_ok s -> quiet s s' -> registered_ok s'.
Proof.
  intros R Q e ev' cbs cb E' Ecb Hin.
  destruct (objects s !! e) as [ev|] eqn:E.
  - destruct (quiet_old _ _ Q _ _ E) as (ev2 & E2 & [C V B]).
    rewrite E' in E2. injection E2 as <-.
    destruct B as [B|(cbs0 & more & B0 & B1 & F)].
    + rewrite Ecb in B. symmetry in B.
      destruct (R _ _ _ _ E B Hin) as [Bd Sp]. split.
      * destruct cb; auto. pose proof (quiet_length _ _ Q). lia.
      * intros S'.
        assert (S : special s cb = true).
        { destruct (special s cb) eqn:S; [reflexivity|].
          rewrite (special_quiet _ _ _ Q S) in S'. discriminate. }
        destruct (Sp S) as (-> & Vl & P & T).
        split; [reflexivity|]. split; [auto|]. split.
        { destruct C as [->|C]; [exact P|].
          destruct (class ev); try discriminate P; contradiction. }
        destruct (quiet_queue _ _ Q) as (news & -> & N).
        apply Forall_app. split.
        { eapply Forall_impl; [exact N|]. cbn. intros x [_ (ev1 & E1 & F)] <-.
          rewrite E' in E1. injection E1 as <-. rewrite Ecb in F.
          destruct (plain_not_special _ _ _ F Hin S'). }
        eapply Forall_impl; [exact T|]. cbn. intros x Hx Ex.
        eapply timed_quiet; eauto.
    + rewrite Ecb in B1. injection B1 as ->. split.
      * destruct cb; auto. eapply plain_bound; eassumption.
      * intros S'. destruct (plain_not_special _ _ _ F Hin S').
  - apply lookup_ge_None in E.
    destruct (quiet_new _ _ Q _ _ E' E) as (_ & _ & _ & F). rewrite Ecb in F. split.
    + destruct cb; auto. eapply plain_bound; eassumption.
    + intros S'. destruct (plain_not_special _ _ _ F Hin S').
Qed.

(** [calm]: quiet, where the callbacks are in order. *)
Definition calm (s s' : State) : Prop := registered_ok s -> quiet s s'.

#[local] Instance calm_preorder : PreOrder calm.
Proof.
  split.
  - intros s _. reflexivity.
  - intros s1 s2 s3 C12 C23 R. etransitivity; [apply C12, R|].
    apply C23. eapply registered_ok_quiet; [exact R | apply C12, R].
Qed.

Lemma quiet_calm s s' : quiet s s' -> calm s s'.
Proof. intros Q _. exact Q. Qed.

(** An event that is pending, or is a process, is free. *)
Lemma registered_ok_free s e ev :
  registered_ok s -> objects s !! e = Some ev ->
  value ev = PENDING \/ is_process (class ev) = true ->
  free s e.
Proof.
  intros R E H. exists ev. split; [exact E|].
  destruct (callbacks ev) as [cbs|] eqn:Ecb; [|constructor]. cbn.
  apply Forall_forall. intros cb I. apply list_elem_of_In in I.
  destruct (R _ _ _ _ E Ecb I) as [B Sp]. split; [|exact B].
  destruct (special s cb) eqn:S; [|reflexivity].
  destruct (Sp eq_refl) as (_ & V & P & _). destruct H; congruence.
Qed.

(** *** The operations of the kernel are calm *)

Lemma duty_classes s s' p :
  class <$> objects s' = class <$> objects s -> duty s' p = duty s p.
Proof.
  intros E. unfold duty.
  pose proof (f_equal (fun l => l !! p) E) as L. cbn in L.
  rewrite !list_lookup_fmap in L.
  destruct (objects s' !! p), (objects s !! p); cbn in L; congruence.
Qed.

Lemma plain_classes s s' cb :
  class <$> objects s' = class <$> objects s -> plain s cb -> plain s' cb.
Proof.
  intros E [S B]. split.
  - destruct cb; cbn in *; auto. rewrite (duty_classes _ _ _ E). exact S.
  - destruct cb; auto.
    apply (f_equal length) in E. rewrite !length_fmap in E. lia.
Qed.

Lemma Forall_plain_classes s s' cbs :
  class <$> objects s' = class <$> objects s ->
  Forall (plain s) cbs -> Forall (plain s') cbs.
Proof. intros E F. eapply Forall_impl; [exact F|]. intros cb. apply plain_classes, E. Qed.

Lemma free_same_objects s s' e : objects s' = objects s -> free s e -> free s' e.
Proof.
  intros E (ev & L & F). exists ev. rewrite E. split; [exact L|].
  eapply Forall_plain_classes; [|exact F]. rewrite E. reflexivity.
Qed.

Lemma quiet_same s s' :
  now s' = now s -> eid s' = eid s -> queue s' = queue s -> objects s' = objects s ->
  quiet s s'.
Proof.
  intros N I Qu O. split.
  - exact N.
  - rewrite I. reflexivity.
  - exists []. split; [exact Qu | constructor].
  - intros i ev E. exists ev. rewrite O. split; [exact E | apply evolves_refl].
  - intros i ev E L. rewrite O in E. apply lookup_lt_Some in E. lia.
Qed.

Lemma quiet_schedule event priority delay s :
  free s event -> quiet s (final_state (schedule event priority delay s)).
Proof.
  intros F. unfold schedule, modify. cbn [final_state]. split; cbn.
  - reflexivity.
  - lia.
  - eexists [_]. split; [reflexivity|]. constructor; [|constructor].
    split; [cbn; lia|]. cbn. eapply free_same_objects; [|exact F]. reflexivity.
  - intros i ev E. exists ev. split; [exact E | apply evolves_refl].
  - intros i ev E L. apply lookup_lt_Some in E. lia.
Qed.

(** Replacing an object by one it evolves to. *)
Lemma quiet_insert s e ev ev' :
  objects s !! e = Some ev ->
  evolves (set_objects (<[e := ev']> (objects s)) s) ev ev' ->
  quiet s (set_objects (<[e := ev']> (objects s)) s).
Proof.
  intros E V. split; cbn.
  - reflexivity.
  - lia.
  - exists []. split; [reflexivity | constructor].
  - intros i ev0 E0. destruct (decide (e = i)) as [<-|Ne].
    + exists ev'. rewrite list_lookup_insert_eq by (eapply lookup_lt_Some; exact E).
      rewrite E in E0. injection E0 as <-. auto.
    + exists ev0. rewrite list_lookup_insert_ne by exact Ne.
      split; [exact E0 | apply evolves_refl].
  - intros i ev0 E0 L. apply lookup_lt_Some in E0. rewrite length_insert in E0. lia.
Qed.

(** An update that keeps the class and the callbacks, and does not make the
    event pending. *)
Lemma quiet_update_event e f s :
  (forall ev, class (f ev) = class ev /\ callbacks (f ev) = callbacks ev /\
              (value ev <> PENDING -> value (f ev) <> PENDING)) ->
  quiet s (final_state (update_event e f s)).
Proof.
  intros Hf. destruct (objects s !! e) as [ev|] eqn:E.
  - rewrite (update_event_Return _ _ _ _ E). cbn [final_state].
    apply (quiet_insert _ _ ev); [exact E|].
    destruct (Hf ev) as (C & B & V). split; [left; exact C | exact V | left; exact B].
  - unfold update_event, bind. rewrite get_event_unfold, E. reflexivity.
Qed.

(** Adding an object. *)
Lemma quiet_app s ev :
  newcomer (set_objects (objects s ++ [ev]) s) ev ->
  quiet s (set_objects (objects s ++ [ev]) s).
Proof.
  intros N. split; cbn.
  - reflexivity.
  - lia.
  - exists []. split; [reflexivity | constructor].
  - intros i ev0 E0. exists ev0. split; [|apply evolves_refl].
    apply lookup_app_l_Some. exact E0.
  - intros i ev0 E0 L. rewrite lookup_app_r in E0 by exact L.
    destruct (i - length (objects s))%nat as [|k]; cbn in E0; [|discriminate].
    injection E0 as <-. exact N.
Qed.

Lemma quiet_callbacks_append e cb s :
  free s e -> plain s cb -> quiet s (final_state (callbacks_append e cb s)).
Proof.
  intros (ev & E & F) P. unfold callbacks_append, bind.
  rewrite get_event_unfold, E.
  destruct (callbacks ev) as [cbs|] eqn:Ecb; [|reflexivity].
  rewrite (update_event_Return _ _ _ _ E). cbn [final_state].
  apply (quiet_insert _ _ ev); [exact E|]. split.
  - left. reflexivity.
  - auto.
  - right. exists cbs, [cb]. split; [exact Ecb|]. split; [reflexivity|].
    eapply Forall_plain_classes.
    + cbn. apply (class_insert_same _ _ ev); [exact E | reflexivity].
    + apply Forall_app. split; [exact F | constructor; [exact P | constructor]].
Qed.

Create HintDb calm discriminated.

Ltac calm_tac :=
  repeat first
    [ solve [eauto with calm]
    | effect_step
    | apply quiet_calm, quiet_same; reflexivity ].

(** A [bind] whose continuation may use what the first part has made. *)
Lemma quiet_bind {A B} (m : M A) (k : A -> M B) s :
  registered_ok s ->
  calm s (final_state (m s)) ->
  (forall a s', m s = Return a s' -> quiet s s' -> registered_ok s' ->
                quiet s' (final_state (k a s'))) ->
  quiet s (final_state (bind m k s)).
Proof.
  intros R Hm Hk. unfold bind. specialize (Hm R).
  destruct (m s) as [a s'|e s'|s'] eqn:E; cbn [final_state] in *; try exact Hm.
  etransitivity; [exact Hm|].
  apply (Hk a s' eq_refl Hm). eapply registered_ok_quiet; eassumption.
Qed.

Lemma calm_get_event event : effect calm (get_event event).
Proof. intros s. unfold get_event. calm_tac. Qed.
#[local] Hint Resolve calm_get_event : calm.

Lemma calm_get_theater : effect calm get_theater.
Proof. intros s. unfold get_theater. calm_tac. Qed.
#[local] Hint Resolve calm_get_theater : calm.

Lemma calm_get_resource r : effect calm (get_resource r).
Proof. intros s. unfold get_resource. calm_tac. Qed.
#[local] Hint Resolve calm_get_resource : calm.

Lemma calm_update_resource r f : effect calm (update_resource r f).
Proof. intros s. unfold update_resource. calm_tac. Qed.
#[local] Hint Resolve calm_update_resource : calm.

Lemma calm_succeed event : effect calm (succeed event).
Proof.
  intros s R. unfold succeed, bind. rewrite get_event_unfold.
  destruct (objects s !! event) as [ev|] eqn:E; [|reflexivity].
  unfold triggered. destruct (value ev) eqn:V; try reflexivity.
  rewrite (update_event_Return _ _ _ _ E).
  match goal with |- quiet s (final_state (schedule _ _ _ ?s')) => set (s1 := s') end.
  assert (Q1 : quiet s s1).
  { apply (quiet_insert _ _ ev); [exact E|].
    split; [left; reflexivity | cbn; discriminate | left; reflexivity]. }
  etransitivity; [exact Q1|]. apply quiet_schedule.
  eapply free_quiet; [exact Q1|].
  eapply registered_ok_free; [exact R | exact E | left; exact V].
Qed.
#[local] Hint Resolve calm_succeed : calm.

Lemma calm_do_put r event : effect calm (do_put r event).
Proof. intros s. unfold do_put. calm_tac. Qed.
#[local] Hint Resolve calm_do_put : calm.

Lemma calm_do_get r event : effect calm (do_get r event).
Proof. intros s. unfold do_get. calm_tac. Qed.
#[local] Hint Resolve calm_do_get : calm.

Lemma calm_trigger_put r : effect calm (trigger_put r).
Proof. intros s. unfold trigger_put. calm_tac. Qed.
#[local] Hint Resolve calm_trigger_put : calm.

Lemma calm_trigger_get r : effect calm (trigger_get r).
Proof. intros s. unfold trigger_get. calm_tac. Qed.
#[local] Hint Resolve calm_trigger_get : calm.

Lemma calm_randbelow n : effect calm (randbelow n).
Proof. intros s. unfold randbelow. calm_tac. Qed.
#[local] Hint Resolve calm_randbelow : calm.

Lemma calm_randint a b : effect calm (randint a b).
Proof. intros s. unfold randint. calm_tac. Qed.
#[local] Hint Resolve calm_randint : calm.

Lemma calm_choice : effect calm choice_True_False.
Proof. intros s. unfold choice_True_False. calm_tac. Qed.
#[local] Hint Resolve calm_choice : calm.

Lemma calm_wait_times_append x : effect calm (wait_times_append x).
Proof. intros s. unfold wait_times_append. calm_tac. Qed.
#[local] Hint Resolve calm_wait_times_append : calm.

Lemma lookup_snoc {A} (l : list A) x : (l ++ [x]) !! length l = Some x.
Proof. apply list_lookup_middle. reflexivity. Qed.

Lemma lookup_snoc2 {A} (l : list A) x y : ((l ++ [x]) ++ [y]) !! length l = Some x.
Proof. rewrite <- app_assoc. apply list_lookup_middle. reflexivity. Qed.

(** A new event with no callbacks. *)
Lemma quiet_new_event s c v d :
  is_process c = false ->
  let s1 := set_objects (objects s ++ [mkEvent c (Some []) v d]) s in
  quiet s s1 /\ free s1 (length (objects s)).
Proof.
  intros P s1. split.
  - apply quiet_app. destruct c; try discriminate P; repeat split; constructor.
  - eexists. split; [apply lookup_snoc | constructor].
Qed.

Lemma calm_env_timeout delay : effect calm (env_timeout delay).
Proof.
  intros s R. unfold env_timeout.
  destruct (Qcompare delay 0); try reflexivity;
    rewrite new_object_bind;
    destruct (quiet_new_event s (Timeout delay) succeeded false eq_refl) as [Q1 F1];
    (etransitivity; [exact Q1|]);
    unfold bind, ret;
    match goal with |- context [schedule ?e ?p ?d ?s1] =>
      pose proof (quiet_schedule e p d s1 F1) as Q2
    end; exact Q2.
Qed.
#[local] Hint Resolve calm_env_timeout : calm.

(** A new process with no due time, other than a customer. *)
Lemma calm_env_process g :
  due g = None -> gi_code g <> code_go_to_movies -> gi_code g <> code_run_theater ->
  effect calm (env_process g).
Proof.
  intros D C T s R. unfold env_process. rewrite !new_object_bind.
  set (pe := mkEvent (Process g None None) (Some []) PENDING false).
  set (s1 := set_objects (objects s ++ [pe]) s).
  set (ie := mkEvent (Initialize (length (objects s))) _ succeeded false).
  set (s2 := set_objects (objects s1 ++ [ie]) s1).
  assert (P2 : Forall (plain s2) [Process_resume (length (objects s))]).
  { constructor; [|constructor]. split.
    - unfold special, duty. cbn [objects s2 s1 set_objects].
      rewrite lookup_snoc2. cbn. rewrite D. reflexivity.
    - cbn. rewrite !length_app. cbn. lia. }
  assert (Q1 : quiet s s1).
  { apply quiet_app. unfold newcomer, is_customer, is_run_theater. cbn.
    repeat split; try assumption; try constructor;
      destruct (gi_code g); congruence. }
  assert (Q2 : quiet s1 s2).
  { apply quiet_app. repeat split; try reflexivity. exact P2. }
  etransitivity; [exact Q1|]. etransitivity; [exact Q2|].
  unfold bind, ret.
  match goal with |- context [schedule ?e ?p ?d s2] =>
    pose proof (quiet_schedule e p d s2) as Q3
  end.
  apply Q3. exists ie. split; [apply lookup_snoc | exact P2].
Qed.

Ltac to_calm R :=
  match goal with
  | |- quiet ?a ?b =>
      cut (calm a b); [let H := fresh in intros H; exact (H R) |]
  end.

Lemma calm_request r : effect calm (request r).
Proof.
  intros s R. unfold request. rewrite new_object_bind.
  destruct (quiet_new_event s (Request r) PENDING false eq_refl) as [Q1 F1].
  etransitivity; [exact Q1|].
  apply quiet_bind; [eapply registered_ok_quiet; eassumption | apply calm_update_resource |].
  intros _ s2 _ Q2 R2.
  apply quiet_bind; [exact R2 | |].
  - apply quiet_calm, quiet_callbacks_append.
    + eapply free_quiet; eassumption.
    + split; reflexivity.
  - intros _ s3 _ _ R3. to_calm R3. calm_tac.
Qed.
#[local] Hint Resolve calm_request : calm.

Lemma calm_release r req : effect calm (release r req).
Proof.
  intros s R. unfold release. rewrite new_object_bind.
  destruct (quiet_new_event s (Release r req) PENDING false eq_refl) as [Q1 F1].
  etransitivity; [exact Q1|].
  apply quiet_bind; [eapply registered_ok_quiet; eassumption | apply calm_update_resource |].
  intros _ s2 _ Q2 R2.
  apply quiet_bind; [exact R2 | |].
  - apply quiet_calm, quiet_callbacks_append.
    + eapply free_quiet; eassumption.
    + split; reflexivity.
  - intros _ s3 _ _ R3. to_calm R3. calm_tac.
Qed.
#[local] Hint Resolve calm_release : calm.

Lemma calm_Request_exit r req : effect calm (Request_exit r req).
Proof. intros s. unfold Request_exit. calm_tac. Qed.
#[local] Hint Resolve calm_Request_exit : calm.

#[local] Hint Extern 1 (calm _ (final_state (env_process _ _))) =>
  apply calm_env_process; [reflexivity | discriminate | discriminate] : calm.

Lemma calm_purchase_ticket g : effect calm (purchase_ticket g).
Proof. intros s. unfold purchase_ticket, stop_iteration. calm_tac. Qed.

Lemma calm_check_ticket g : effect calm (check_ticket g).
Proof. intros s. unfold check_ticket, stop_iteration. calm_tac. Qed.

Lemma calm_sell_food g : effect calm (sell_food g).
Proof. intros s. unfold sell_food, stop_iteration. calm_tac. Qed.

Lemma calm_go_to_movies g : effect calm (go_to_movies g).
Proof. intros s. unfold go_to_movies, stop_iteration. calm_tac. Qed.

Lemma calm_throw g e : effect calm (throw g e).
Proof. intros s. unfold throw. destruct g; calm_tac. Qed.


(** *** Resuming a process *)

(** What a generator other than [run_theater] yields is an event it has
    just made, and it goes on without a due time. *)
Lemma send_yield g s g' t s' :
  send g s = Return (g', Some t) s' ->
  due g = None \/ gi_code g = code_go_to_movies ->
  (length (objects s) <= t)%nat /\ due g' = None /\ gi_code g' = gi_code g.
Proof.
  intros H D. destruct (send_shape_holds _ _ _ _ _ H) as (P' & C' & P & _).
  split; [|split; [|exact C']].
  - unfold send in H.
    destruct g; cbn [gi_code] in H;
      try (destruct D as [D|D]; discriminate D);
      try (unfold purchase_ticket, check_ticket, sell_food, stop_iteration, ret in H;
           discriminate H).
    all: try (apply go_to_movies_step in H; unfold customer_step in H;
              try destruct (next_coin s);
              destruct H as (_ & _ & Y); try discriminate Y; injection Y as ->; lia).
    + destruct (purchase_ticket_Return moviegoer s) as (s0 & E & _).
      unfold send in E. cbn [gi_code] in E. rewrite E in H. injection H as _ <- _. lia.
    + destruct (check_ticket_Return moviegoer s) as (s0 & E & _).
      unfold send in E. cbn [gi_code] in E. rewrite E in H. injection H as _ <- _. lia.
    + destruct (sell_food_Return moviegoer s) as (s0 & E & _).
      unfold send in E. cbn [gi_code] in E. rewrite E in H. injection H as _ <- _. lia.
    + exfalso. apply P. reflexivity.
  - destruct g'; try discriminate P'; try reflexivity.
    cbn in C'. destruct g; cbn in C', P, D; try discriminate C';
      destruct D as [D|D]; try discriminate D; congruence.
Qed.

Lemma quiet_new_free s s' t ev :
  quiet s s' -> (length (objects s) <= t)%nat -> objects s' !! t = Some ev -> free s' t.
Proof.
  intros Q L E. exists ev. split; [exact E|].
  destruct (quiet_new _ _ Q _ _ E L) as (_ & _ & _ & F). exact F.
Qed.

(** A customer that starts has not started before and is due now. *)
Definition may_resume (s : State) (g : Generator) (st : option Q) : Prop :=
  forall m, g = go_to_movies_start m -> st = None /\ now s == injection_time m.

Lemma may_resume_evolves s g st rt g' rt' :
  may_resume s g st -> due g' = None -> gi_code g' = gi_code g ->
  class_evolves (Process g st rt) (Process g' (Some (default (now s) st)) rt').
Proof.
  intros M D C. right. split; [exact D|]. split; [exact C|]. split.
  - intros t ->. reflexivity.
  - intros m ->. destruct (M m eq_refl) as [-> N]. exists (now s). auto.
Qed.

(** The outcome of a resumption is quiet when the generator goes on
    without a due time: [r] is the result of resuming it in [s]. *)
Lemma quiet_process_outcome s p g st rt r :
  registered_ok s ->
  may_resume s g st ->
  quiet s (final_state r) ->
  (exists pe2, objects (final_state r) !! p = Some pe2 /\ class pe2 = Process g st rt) ->
  (forall g' t s2, r = Return (g', Some t) s2 ->
     (length (objects s) <= t)%nat /\ due g' = None /\ gi_code g' = gi_code g) ->
  (forall g' s2, r = Return (g', None) s2 -> g' = finished (gi_code g)) ->
  quiet s (final_state (process_outcome p g (Some (default (now s) st)) rt r)).
Proof.
  intros R M Q (pe2 & E2 & C2) Hy Hr.
  pose proof (registered_ok_quiet _ _ R Q) as R2.
  destruct r as [[g' [t|]] s2|e s2|s2]; cbn [process_outcome final_state] in *.
  - (* the generator yields *)
    destruct (Hy _ _ _ eq_refl) as (L & D' & C').
    unfold bind at 1. rewrite (update_event_Return _ _ _ _ E2).
    match goal with |- context [set_objects ?o s2] => set (s3 := set_objects o s2) end.
    assert (Q3 : quiet s2 s3).
    { apply (quiet_insert _ _ pe2); [exact E2|]. split; cbn.
      - rewrite C2. apply may_resume_evolves; assumption.
      - auto.
      - left. reflexivity. }
    assert (Q03 : quiet s s3) by (etransitivity; eassumption).
    etransitivity; [exact Q03|].
    unfold bind. rewrite get_event_unfold.
    destruct (objects s3 !! t) as [tv|] eqn:Et; [|reflexivity].
    destruct (callbacks tv); [|reflexivity].
    apply quiet_callbacks_append.
    + eapply quiet_new_free; eassumption.
    + split.
      * unfold special, duty. cbn [s3 objects set_objects].
        rewrite list_lookup_insert_eq by (eapply lookup_lt_Some; exact E2).
        cbn. rewrite D'. reflexivity.
      * cbn. rewrite length_insert. eapply lookup_lt_Some; exact E2.
  - (* the generator returns *)
    rewrite (Hr _ _ eq_refl).
    unfold bind at 1. rewrite (update_event_Return _ _ _ _ E2).
    match goal with |- context [set_objects ?o s2] => set (s3 := set_objects o s2) end.
    assert (Q3 : quiet s2 s3).
    { apply (quiet_insert _ _ pe2); [exact E2|]. split; cbn.
      - rewrite C2. apply may_resume_evolves; [assumption | reflexivity | reflexivity].
      - discriminate.
      - left. reflexivity. }
    etransitivity; [exact Q|]. etransitivity; [exact Q3|].
    apply quiet_schedule.
    eapply registered_ok_free;
      [ eapply registered_ok_quiet; eassumption
      | cbn [s3 objects set_objects];
        apply list_lookup_insert_eq; eapply lookup_lt_Some; exact E2
      | right; reflexivity ].
  - (* the generator raises *)
    unfold bind at 1. rewrite (update_event_Return _ _ _ _ E2).
    match goal with |- context [set_objects ?o s2] => set (s3 := set_objects o s2) end.
    assert (Q3 : quiet s2 s3).
    { apply (quiet_insert _ _ pe2); [exact E2|]. split; cbn.
      - rewrite C2. apply may_resume_evolves; [assumption | reflexivity | reflexivity].
      - discriminate.
      - left. reflexivity. }
    etransitivity; [exact Q|]. etransitivity; [exact Q3|].
    apply quiet_schedule.
    eapply registered_ok_free;
      [ eapply registered_ok_quiet; eassumption
      | cbn [s3 objects set_objects];
        apply list_lookup_insert_eq; eapply lookup_lt_Some; exact E2
      | right; reflexivity ].
  - exact Q.
Qed.

Lemma calm_send g :
  due g = None \/ gi_code g = code_go_to_movies -> effect calm (send g).
Proof.
  intros D s. unfold send.
  destruct g; cbn [gi_code]; try (destruct D as [D|D]; discriminate D);
    try apply calm_go_to_movies; try apply calm_purchase_ticket;
    try apply calm_check_ticket; try apply calm_sell_food.
  destruct code;
    [ unfold run_theater, stop_iteration; calm_tac
    | apply calm_go_to_movies | apply calm_purchase_ticket
    | apply calm_check_ticket | apply calm_sell_food ].
Qed.

(** The body of [Process._resume]: what it does to the objects, and that it
    returns only what [send] returns. *)
Lemma resume_body g s event (ev : Event) :
  let body :=
    match value ev with
    | failed e => update_event event set_defused >> throw g e
    | _ => send g
    end in
  send_effect g s (body s) /\
  (forall a s2, body s = Return a s2 -> send g s = Return a s2).
Proof.
  destruct (value ev) as [| |e]; cbn zeta;
    try (split; [apply send_effect_holds | auto]).
  assert (G : grows s (final_state ((update_event event set_defused >> throw g e) s))).
  { apply (effect_bind grows).
    - apply keeps_grows. apply keeps_update_event. intros []; reflexivity.
    - intros ? s1 _. apply throw_effect. }
  destruct ((update_event event set_defused >> throw g e) s)
    as [[g' y] s'|e' s'|s'] eqn:E.
  - apply bind_Return in E as (? & s1 & _ & E). destruct (throw_not_Return _ _ _ _ _ E).
  - split; [exact G | discriminate].
  - split; [exact G | discriminate].
Qed.

Lemma send_effect_lookup g s r p old :
  send_effect g s r ->
  (class <$> objects s) !! p = Some old ->
  exists pe2, objects (final_state r) !! p = Some pe2 /\ class pe2 = old.
Proof.
  intros H L. destruct r as [[g' y] s'|e s'|s']; cbn in *.
  - eapply grows_by_lookup; eassumption.
  - eapply grows_by_lookup; [apply grows_grows_by|]; eassumption.
  - eapply grows_by_lookup; [apply grows_grows_by|]; eassumption.
Qed.

(** Resuming a process other than [run_theater] is quiet. *)
Lemma quiet_resume p event s :
  registered_ok s ->
  (forall pe g st rt, objects s !! p = Some pe -> class pe = Process g st rt ->
     (due g = None \/ gi_code g = code_go_to_movies) /\ may_resume s g st) ->
  quiet s (final_state (resume p event s)).
Proof.
  intros R M. unfold resume. unfold bind at 1. rewrite get_event_unfold.
  destruct (objects s !! p) as [pe|] eqn:Hp; [|reflexivity].
  cbv beta iota. destruct (class pe) as [| | |g st rt| |] eqn:C; try reflexivity.
  unfold bind at 1, get at 1. cbv beta iota.
  unfold bind at 1. rewrite get_event_unfold.
  destruct (objects s !! event) as [ev|] eqn:He; [|reflexivity].
  cbv beta iota.
  destruct (M _ _ _ _ eq_refl C) as [D M'].
  assert (Hc : (class <$> objects s) !! p = Some (Process g st rt)).
  { rewrite list_lookup_fmap, Hp. cbn. congruence. }
  destruct (resume_body g s event ev) as [B1 B2]. cbn zeta in B1, B2.
  apply quiet_process_outcome; try assumption.
  - destruct (value ev) as [| |e]; try (apply calm_send; assumption).
    to_calm R. effect_step.
    + apply quiet_calm, quiet_update_event. intros []; cbn; auto.
    + apply calm_throw.
  - eapply send_effect_lookup; eassumption.
  - intros g' t s2 E. apply B2 in E. eapply send_yield; eassumption.
  - intros g' s2 E. apply B2 in E. apply send_shape_holds in E as [E _]. exact E.
Qed.

(** *** The invariant of the event loop *)

(** What the classes of the objects say about the arrivals: the customers
    are in order, [run_theater] has created as many customers as it has
    counted, and it is the first object. *)
Record classes_ok (s : State) : Prop := mkClassesOk {
  ok_customers : forall i c, customers s !! i = Some c -> customer_ok i c;
  ok_count : forall ev g st rt,
    objects s !! 0%nat = Some ev -> class ev = Process g st rt ->
    match g with
    | run_theater_start _ _ _ => customers s = []
    | run_theater_timeout moviegoer =>
        Z.of_nat (length (customers s)) = (moviegoer + 1)%Z /\ (2 <= moviegoer)%Z
    | _ => True
    end;
  ok_run_theater : forall p ev,
    objects s !! p = Some ev -> is_run_theater (class ev) = true -> p = 0%nat
}.

(** What the queue and the callbacks say: the callbacks are in order, a
    process with a due time waits for one event at most, the entries of the
    queue are for objects that exist, the event that stops the simulation
    is in the queue and every other entry comes before it, and the clock is
    before the horizon. *)
Record structure_ok (s : State) : Prop := mkStructureOk {
  inv_registered : registered_ok s;
  inv_unique : forall e1 e2 ev1 ev2 p,
    objects s !! e1 = Some ev1 -> objects s !! e2 = Some ev2 ->
    callbacks ev1 = Some [Process_resume p] ->
    callbacks ev2 = Some [Process_resume p] ->
    duty s p <> None -> e1 = e2;
  inv_queue : Forall (fun x => (entry_event x < length (objects s))%nat) (queue s);
  inv_eid : (2 <= eid s)%nat;
  inv_until :
    In until_entry (queue s) /\
    exists ev, objects s !! 2%nat = Some ev /\
               callbacks ev = Some [StopSimulation_callback];
  inv_horizon :
    Forall (fun x => x = until_entry \/ entry_time x < 90 \/ (1 < entry_eid x)%nat)
      (queue s);
  inv_now : now s < 90
}.

Record arrivals_inv (s : State) : Prop := mkArrivalsInv {
  inv_structure : structure_ok s;
  inv_classes : classes_ok s
}.

Lemma class_evolves_code c c' : class_evolves c c' -> code_of c' = code_of c.
Proof.
  intros [->|H]; [reflexivity|].
  destruct c as [| | |g st rt| |], c' as [| | |g' st' rt'| |]; try contradiction.
  cbn. destruct H as (_ & -> & _). reflexivity.
Qed.

Lemma customer_ok_evolves i c c' : class_evolves c c' -> customer_ok i c -> customer_ok i c'.
Proof.
  intros [->|H]; [auto|]. intros [B K]. split; [exact B|].
  destruct c as [| | |g st rt| |], c' as [| | |g' st' rt'| |]; try contradiction.
  destruct H as (D & _ & S & G).
  assert (X : exists t, st' = Some t /\ t == injection_time (Z.of_nat i)).
  { destruct g; try (destruct K as (t & E & Ht); cbn in E; exists t; auto; fail).
    destruct K as [-> _]. apply (G _ eq_refl). }
  destruct g'; try exact X. discriminate D.
Qed.

Lemma Forall2_filter {A} (R : A -> A -> Prop) (f : A -> bool) l k :
  (forall x y, R x y -> f y = f x) ->
  Forall2 R l k -> Forall2 R (List.filter f l) (List.filter f k).
Proof.
  intros Hf H. induction H as [|x y l k Hxy _ IH]; cbn; [constructor|].
  rewrite (Hf _ _ Hxy). destruct (f x); [constructor|]; assumption.
Qed.

(** The classes after a quiet change: those of the objects that were there,
    which have evolved, and those of the newcomers. *)
Lemma quiet_classes s s' :
  quiet s s' ->
  exists olds news,
    class <$> objects s' = olds ++ news /\
    Forall2 class_evolves (class <$> objects s) olds /\
    Forall (fun c => is_customer c = false /\ is_run_theater c = false) news.
Proof.
  intros Q. pose proof (quiet_length _ _ Q) as L.
  exists (take (length (objects s)) (class <$> objects s')),
         (drop (length (objects s)) (class <$> objects s')).
  split; [symmetry; apply take_drop|]. split.
  - apply Forall2_same_length_lookup_2.
    + rewrite length_take, !length_fmap. lia.
    + intros i c c' E E'.
      apply list_lookup_fmap_Some in E as (ev & -> & E).
      rewrite lookup_take_lt in E' by (eapply lookup_lt_Some; exact E).
      apply list_lookup_fmap_Some in E' as (ev' & -> & E').
      destruct (quiet_old _ _ Q _ _ E) as (ev2 & E2 & [C _ _]). congruence.
  - apply Forall_lookup_2. intros i c E.
    rewrite lookup_drop in E.
    apply list_lookup_fmap_Some in E as (ev' & -> & E').
    destruct (quiet_new _ _ Q _ _ E' ltac:(lia)) as (_ & C & T & _). auto.
Qed.

Lemma filter_none {A} (f : A -> bool) l :
  Forall (fun x => f x = false) l -> List.filter f l = [].
Proof. induction 1 as [|x l H _ IH]; cbn; [reflexivity|]. rewrite H. exact IH. Qed.

Lemma quiet_customers s s' :
  quiet s s' -> Forall2 class_evolves (customers s) (customers s').
Proof.
  intros Q. destruct (quiet_classes _ _ Q) as (olds & news & E & F2 & N).
  unfold customers. rewrite E, List.filter_app.
  rewrite (filter_none _ news), app_nil_r.
  - apply Forall2_filter; [|exact F2].
    intros c c' H. unfold is_customer. rewrite (class_evolves_code _ _ H). reflexivity.
  - eapply Forall_impl; [exact N|]. cbn. tauto.
Qed.

Lemma classes_ok_quiet s s' : classes_ok s -> quiet s s' -> classes_ok s'.
Proof.
  intros [K1 K2 K3] Q. pose proof (quiet_customers _ _ Q) as F. split.
  - intros i c' E'.
    destruct (Forall2_lookup_r _ _ _ _ _ F E') as (c & E & H).
    eapply customer_ok_evolves; [exact H | apply K1; exact E].
  - intros ev' g st rt E' C'.
    assert (D : match g with
                | run_theater_start _ _ _ | run_theater_timeout _ => True
                | _ => False
                end -> exists ev, objects s !! 0%nat = Some ev /\ class ev = class ev').
    { intros G. destruct (objects s !! 0%nat) as [ev|] eqn:E.
      - exists ev. split; [reflexivity|].
        destruct (quiet_old _ _ Q _ _ E) as (ev2 & E2 & [[Ev|Ev] _ _]);
          rewrite E' in E2; injection E2 as <-; [auto|].
        rewrite C' in Ev. destruct (class ev); try contradiction.
        destruct Ev as (Dg & _). destruct g; try contradiction; discriminate Dg.
      - apply lookup_ge_None in E.
        destruct (quiet_new _ _ Q _ _ E' E) as (Dg & _). rewrite C' in Dg.
        destruct g; try contradiction; discriminate Dg. }
    destruct g; try exact I.
    + destruct (D I) as (ev & E & C). rewrite C' in C.
      pose proof (K2 _ _ _ _ E C) as N. cbn in N. rewrite N in F.
      inversion F. reflexivity.
    + destruct (D I) as (ev & E & C). rewrite C' in C.
      pose proof (K2 _ _ _ _ E C) as N. cbn in N.
      rewrite <- (Forall2_length _ _ _ F). exact N.
  - intros p ev' E' T.
    destruct (objects s !! p) as [ev|] eqn:E.
    + destruct (quiet_old _ _ Q _ _ E) as (ev2 & E2 & [Ev _ _]).
      rewrite E' in E2. injection E2 as <-.
      apply (K3 _ _ E). unfold is_run_theater in *.
      rewrite <- (class_evolves_code _ _ Ev). exact T.
    + apply lookup_ge_None in E.
      destruct (quiet_new _ _ Q _ _ E' E) as (_ & _ & T' & _). congruence.
Qed.

(** An event with a special callback had it before. *)
Lemma quiet_special_callback s s' e ev' cb :
  quiet s s' -> objects s' !! e = Some ev' -> callbacks ev' = Some [cb] ->
  special s' cb = true ->
  exists ev, objects s !! e = Some ev /\ callbacks ev = Some [cb].
Proof.
  intros Q E' B' S'.
  destruct (objects s !! e) as [ev|] eqn:E.
  - exists ev. split; [reflexivity|].
    destruct (quiet_old _ _ Q _ _ E) as (ev2 & E2 & [_ _ B]).
    rewrite E' in E2. injection E2 as <-.
    destruct B as [B|(cbs & more & B0 & B1 & F)]; [congruence|].
    rewrite B' in B1. injection B1 as B1. rewrite <- B1 in F.
    destruct (plain_not_special _ _ _ F ltac:(left; reflexivity) S').
  - apply lookup_ge_None in E.
    destruct (quiet_new _ _ Q _ _ E' E) as (_ & _ & _ & F). rewrite B' in F.
    destruct (plain_not_special _ _ _ F ltac:(left; reflexivity) S').
Qed.

Lemma duty_special s p : duty s p <> None -> special s (Process_resume p) = true.
Proof. cbn. destruct (duty s p); [reflexivity | congruence]. Qed.

Lemma structure_ok_quiet s s' : structure_ok s -> quiet s s' -> structure_ok s'.
Proof.
  intros [I1 I2 I3 I4 I5 I6 I7] Q.
  destruct (quiet_queue _ _ Q) as (news & Eq & N).
  pose proof (quiet_length _ _ Q) as L.
  split.
  - eapply registered_ok_quiet; eassumption.
  - intros e1 e2 ev1 ev2 p E1 E2 B1 B2 D.
    pose proof (duty_special _ _ D) as S.
    destruct (quiet_special_callback _ _ _ _ _ Q E1 B1 S) as (ev1' & E1' & B1').
    destruct (quiet_special_callback _ _ _ _ _ Q E2 B2 S) as (ev2' & E2' & B2').
    apply (I2 _ _ _ _ p E1' E2' B1' B2').
    destruct (duty s' p) as [d|] eqn:D'; [|congruence].
    rewrite (duty_quiet _ _ _ _ Q D'). discriminate.
  - rewrite Eq. apply Forall_app. split.
    + eapply Forall_impl; [exact N|]. cbn. intros x [_ (ev & E & _)].
      eapply lookup_lt_Some; exact E.
    + eapply Forall_impl; [exact I3|]. cbn. intros x Hx. lia.
  - pose proof (quiet_eid _ _ Q). lia.
  - destruct I5 as [U (ev & E & B)]. split.
    + rewrite Eq. apply in_or_app. right. exact U.
    + destruct (quiet_old _ _ Q _ _ E) as (ev' & E' & [_ _ B']).
      exists ev'. split; [exact E'|].
      destruct B' as [B'|(cbs & more & B0 & B1 & F)]; [congruence|].
      rewrite B in B0. injection B0 as <-.
      destruct (plain_not_special _ _ StopSimulation_callback F
                  ltac:(left; reflexivity) eq_refl).
  - rewrite Eq. apply Forall_app. split; [|exact I6].
    eapply Forall_impl; [exact N|]. cbn. intros x [Hx _]. right. right. lia.
  - rewrite (quiet_now _ _ Q). exact I7.
Qed.

Lemma arrivals_inv_quiet s s' : arrivals_inv s -> quiet s s' -> arrivals_inv s'.
Proof.
  intros [I1 I2] Q. split.
  - eapply structure_ok_quiet; eassumption.
  - eapply classes_ok_quiet; eassumption.
Qed.

(** *** [run_theater] creates the customers *)

Definition unregistered (s : State) (p : nat) : Prop :=
  forall e ev cbs, objects s !! e = Some ev -> callbacks ev = Some cbs ->
                   ~ In (Process_resume p) cbs.

Lemma lookup_snoc_cases {A} (l : list A) a e x :
  (l ++ [a]) !! e = Some x -> l !! e = Some x \/ (e = length l /\ x = a).
Proof.
  intros H. destruct (le_lt_dec (length l) e) as [L|L].
  - right. rewrite lookup_app_r in H by exact L.
    destruct (e - length l)%nat as [|k] eqn:K; cbn in H; [|discriminate].
    injection H as <-. split; [lia | reflexivity].
  - left. rewrite lookup_app_l in H by exact L. exact H.
Qed.

Lemma lookup_snoc2_cases {A} (l : list A) a b e x :
  ((l ++ [a]) ++ [b]) !! e = Some x ->
  l !! e = Some x \/ (e = length l /\ x = a) \/ (e = S (length l) /\ x = b).
Proof.
  intros H. apply lookup_snoc_cases in H as [H|[-> ->]].
  - apply lookup_snoc_cases in H as [H|H]; auto.
  - right. right. rewrite length_app. cbn. split; [lia | reflexivity].
Qed.

Lemma duty_app_old s s' news q :
  objects s' = objects s ++ news -> (q < length (objects s))%nat ->
  duty s' q = duty s q.
Proof. intros E L. unfold duty. rewrite E, lookup_app_l by exact L. reflexivity. Qed.

Lemma timed_same_duty s s' cb x :
  (forall q, cb = Process_resume q -> duty s' q = duty s q) ->
  timed s cb x -> timed s' cb x.
Proof. intros H. destruct cb as [q| | |]; cbn; auto. rewrite (H q eq_refl). auto. Qed.

Lemma special_same_duty s s' cb :
  (forall q, cb = Process_resume q -> duty s' q = duty s q) ->
  special s' cb = special s cb.
Proof. intros H. destruct cb as [q| | |]; cbn; auto. rewrite (H q eq_refl). auto. Qed.

(** Creating a process that is due now keeps the structure. *)
Lemma structure_ok_env_process g d s :
  structure_ok s -> due g = Some d -> now s == d ->
  structure_ok (final_state (env_process g s)).
Proof.
  intros [I1 I2 I3 I4 I5 I6 I7] D N. rewrite env_process_Return. cbn [final_state].
  set (n := length (objects s)).
  set (pe := mkEvent (Process g None None) (Some []) PENDING false).
  set (ie := mkEvent (Initialize n) (Some [Process_resume n]) succeeded false).
  replace (length (objects s ++ [pe])) with (S n)
    by (rewrite length_app; cbn; unfold n; lia).
  match goal with |- structure_ok ?x => set (s' := x) end.
  assert (O : objects s' = objects s ++ [pe; ie]).
  { cbn. rewrite <- app_assoc. reflexivity. }
  assert (Lk : forall e ev, objects s' !! e = Some ev ->
            objects s !! e = Some ev \/ (e = n /\ ev = pe) \/ (e = S n /\ ev = ie)).
  { intros e ev. cbn. apply lookup_snoc2_cases. }
  assert (Dn : duty s' n = Some d).
  { unfold duty, n. cbn [s' objects set_eid set_queue set_objects].
    rewrite lookup_snoc2. exact D. }
  assert (Do : forall cb, match cb with
                          | Process_resume q => (q < n)%nat
                          | _ => True
                          end ->
                          forall q, cb = Process_resume q -> duty s' q = duty s q).
  { intros cb B q ->. eapply duty_app_old; eassumption. }
  assert (Len : length (objects s') = S (S n)).
  { rewrite O, length_app. cbn. lia. }
  split.
  - intros e ev cbs cb E B Hin.
    destruct (Lk _ _ E) as [E0|[[-> ->]|[-> ->]]].
    + destruct (I1 _ _ _ _ E0 B Hin) as [Bd Sp]. split.
      * destruct cb; auto. fold n in Bd. lia.
      * rewrite (special_same_duty s s' cb (Do cb Bd)). intros Hs.
        destruct (Sp Hs) as (-> & V & Pr & T). repeat split; try assumption.
        constructor.
        { cbn. intros <-. apply lookup_lt_Some in E0. fold n in E0. lia. }
        eapply Forall_impl; [exact T|]. cbn. intros x Hx Ex.
        eapply timed_same_duty; [exact (Do cb Bd) | auto].
    + injection B as <-. destruct Hin.
    + injection B as <-. destruct Hin as [<-|[]]. split; [lia|]. intros _.
      repeat split; try discriminate.
      constructor.
      { intros _. cbn [timed]. rewrite Dn. cbn. rewrite Qred_correct, N. ring. }
      eapply Forall_impl; [exact I3|]. cbn. intros x Hx Ex. fold n in Hx. lia.
  - intros e1 e2 ev1 ev2 q E1 E2 B1 B2 Dq.
    destruct (Lk _ _ E1) as [E1'|[[-> ->]|[-> ->]]]; [| discriminate B1 |];
      (destruct (Lk _ _ E2) as [E2'|[[-> ->]|[-> ->]]]; [| discriminate B2 |]).
    + destruct (I1 _ _ _ _ E1' B1 ltac:(left; reflexivity)) as [Bd _].
      apply (I2 _ _ _ _ q E1' E2' B1 B2).
      rewrite <- (duty_app_old _ _ _ _ O Bd). exact Dq.
    + injection B2 as <-.
      destruct (I1 _ _ _ _ E1' B1 ltac:(left; reflexivity)) as [Bd _]. fold n in Bd. lia.
    + injection B1 as <-.
      destruct (I1 _ _ _ _ E2' B2 ltac:(left; reflexivity)) as [Bd _]. fold n in Bd. lia.
    + reflexivity.
  - rewrite Len. constructor; [cbn; lia|].
    eapply Forall_impl; [exact I3|]. cbn. intros x Hx. fold n in Hx. lia.
  - cbn. lia.
  - destruct I5 as [U (ev & E & B)]. split; [right; exact U|].
    exists ev. split; [|exact B]. cbn. rewrite <- app_assoc.
    apply lookup_app_l_Some. exact E.
  - constructor; [|exact I6]. right. right. cbn. lia.
  - exact I7.
Qed.

(** A process that waits for nothing gets a new class and waits for a
    timeout that has no callback yet, whose entries are at the time the
    process is then due. *)
Lemma structure_ok_register s p t pe tv c' d' :
  structure_ok s ->
  objects s !! p = Some pe -> objects s !! t = Some tv ->
  is_process (class pe) = true -> unregistered s p ->
  callbacks tv = Some [] -> value tv <> PENDING -> is_process (class tv) = false ->
  due_of c' = Some d' ->
  Forall (fun x => entry_event x = t -> entry_time x == d') (queue s) ->
  structure_ok
    (set_objects (<[t := set_callbacks (Some [Process_resume p]) tv]>
                    (<[p := set_class c' pe]> (objects s))) s).
Proof.
  intros [I1 I2 I3 I4 I5 I6 I7] Ep Et Pp U Bt Vt Pt D' T.
  set (tv' := set_callbacks (Some [Process_resume p]) tv).
  set (pe' := set_class c' pe).
  match goal with |- structure_ok ?x => set (s' := x) end.
  assert (Npt : p <> t) by (intros ->; congruence).
  assert (Lp : (p < length (objects s))%nat) by (eapply lookup_lt_Some; exact Ep).
  assert (Len : length (objects s') = length (objects s)).
  { cbn. rewrite !length_insert. reflexivity. }
  assert (Lk : forall e ev, objects s' !! e = Some ev ->
            (e = t /\ ev = tv') \/ (e = p /\ ev = pe') \/
            (e <> t /\ e <> p /\ objects s !! e = Some ev)).
  { intros e ev. cbn. intros H.
    apply list_lookup_insert_Some in H as [(<- & <- & _)|[Ne H]]; [auto|].
    apply list_lookup_insert_Some in H as [(<- & <- & _)|[Ne' H]]; auto. }
  assert (Dp : duty s' p = Some d').
  { unfold duty. cbn [s' objects set_objects].
    rewrite list_lookup_insert_ne by auto.
    rewrite list_lookup_insert_eq by exact Lp. exact D'. }
  assert (Do : forall q, q <> p -> duty s' q = duty s q).
  { intros q Nq. unfold duty. cbn [s' objects set_objects].
    destruct (decide (t = q)) as [<-|Nt].
    - rewrite list_lookup_insert_eq by (rewrite length_insert; eapply lookup_lt_Some; exact Et).
      rewrite Et. reflexivity.
    - rewrite !list_lookup_insert_ne by auto. reflexivity. }
  assert (Old : forall e ev cbs, objects s' !! e = Some ev -> e <> t ->
            callbacks ev = Some cbs ->
            exists ev0, objects s !! e = Some ev0 /\ callbacks ev0 = Some cbs /\
                        value ev0 = value ev /\
                        (is_process (class ev0) = false -> class ev = class ev0)).
  { intros e ev cbs E Ne B.
    destruct (Lk _ _ E) as [[-> _]|[[-> ->]|(_ & _ & E0)]]; [congruence| |].
    - exists pe. repeat split; try assumption; try reflexivity. congruence.
    - exists ev. auto. }
  assert (Sd : forall e ev0 cbs cb, objects s !! e = Some ev0 ->
            callbacks ev0 = Some cbs -> In cb cbs ->
            forall q, cb = Process_resume q -> duty s' q = duty s q).
  { intros e ev0 cbs cb E0 B0 Hin q ->. apply Do. intros ->.
    exact (U _ _ _ E0 B0 Hin). }
  split.
  - intros e ev cbs cb E B Hin. destruct (decide (e = t)) as [->|Ne].
    + destruct (Lk _ _ E) as [[_ ->]|[[-> _]|(Ne & _)]]; try congruence.
      injection B as <-. destruct Hin as [<-|[]]. split; [rewrite Len; exact Lp|].
      intros _. repeat split; try assumption.
      eapply Forall_impl; [exact T|]. cbn. rewrite Dp. auto.
    + destruct (Old _ _ _ E Ne B) as (ev0 & E0 & B0 & V0 & C0).
      destruct (I1 _ _ _ _ E0 B0 Hin) as [Bd Sp]. split.
      * rewrite Len. exact Bd.
      * rewrite (special_same_duty s s' cb (Sd _ _ _ _ E0 B0 Hin)). intros Hs.
        destruct (Sp Hs) as (-> & V & Pr & Tm). repeat split.
        { congruence. }
        { rewrite (C0 Pr). exact Pr. }
        eapply Forall_impl; [exact Tm|]. cbn. intros x Hx Ex.
        eapply timed_same_duty; [exact (Sd _ _ _ _ E0 B0 Hin) | auto].
  - intros e1 e2 ev1 ev2 q E1 E2 B1 B2 Dq.
    destruct (decide (e1 = t)) as [->|N1]; destruct (decide (e2 = t)) as [->|N2];
      [reflexivity | | |].
    + exfalso. destruct (Lk _ _ E1) as [[_ ->]|[[-> _]|(Ne & _)]]; try congruence.
      injection B1 as <-.
      destruct (Old _ _ _ E2 N2 B2) as (ev0 & E0 & B0 & _).
      exact (U _ _ _ E0 B0 ltac:(left; reflexivity)).
    + exfalso. destruct (Lk _ _ E2) as [[_ ->]|[[-> _]|(Ne & _)]]; try congruence.
      injection B2 as <-.
      destruct (Old _ _ _ E1 N1 B1) as (ev0 & E0 & B0 & _).
      exact (U _ _ _ E0 B0 ltac:(left; reflexivity)).
    + destruct (Old _ _ _ E1 N1 B1) as (ev1' & E1' & B1' & _).
      destruct (Old _ _ _ E2 N2 B2) as (ev2' & E2' & B2' & _).
      apply (I2 _ _ _ _ q E1' E2' B1' B2').
      rewrite <- (Sd _ _ _ _ E1' B1' ltac:(left; reflexivity) q eq_refl). exact Dq.
  - rewrite Len. exact I3.
  - exact I4.
  - destruct I5 as [Un (ev & E & B)]. split; [exact Un|].
    exists ev. split; [|exact B]. cbn.
    destruct (I1 _ _ _ _ E B ltac:(left; reflexivity)) as [_ Sp].
    destruct (Sp eq_refl) as (_ & _ & Pr & _).
    rewrite !list_lookup_insert_ne; [exact E | congruence | congruence].
  - exact I6.
  - exact I7.
Qed.

(** [env.process] and [env.timeout] always return here; what they leave. *)
Lemma env_process_bind {B} g (k : nat -> M B) s :
  bind (env_process g) k s = k (length (objects s)) (final_state (env_process g s)).
Proof. unfold bind. rewrite env_process_Return. reflexivity. Qed.

Lemma env_process_objects g s :
  objects (final_state (env_process g s)) =
  objects s ++ [mkEvent (Process g None None) (Some []) PENDING false;
                mkEvent (Initialize (length (objects s)))
                  (Some [Process_resume (length (objects s))]) succeeded false].
Proof. rewrite env_process_Return. cbn. rewrite <- app_assoc. reflexivity. Qed.

Lemma env_process_now g s : now (final_state (env_process g s)) = now s.
Proof. reflexivity. Qed.

Lemma env_timeout_bind {B} delay (k : nat -> M B) s :
  0 <= delay ->
  bind (env_timeout delay) k s =
  k (length (objects s)) (final_state (env_timeout delay s)).
Proof. intros H. unfold bind. rewrite (env_timeout_Return _ _ H). reflexivity. Qed.

Lemma env_timeout_objects delay s :
  0 <= delay ->
  objects (final_state (env_timeout delay s)) =
  objects s ++ [mkEvent (Timeout delay) (Some []) succeeded false].
Proof. intros H. rewrite (env_timeout_Return _ _ H). reflexivity. Qed.

Lemma env_timeout_queue delay s :
  0 <= delay ->
  queue (final_state (env_timeout delay s)) =
  (Qred (now s + delay), NORMAL, eid s, length (objects s)) :: queue s.
Proof. intros H. rewrite (env_timeout_Return _ _ H). reflexivity. Qed.

Lemma unregistered_env_process g s p :
  unregistered s p -> (p < length (objects s))%nat ->
  unregistered (final_state (env_process g s)) p.
Proof.
  intros U L e ev cbs E B Hin. rewrite env_process_objects in E.
  change [?a; ?b] with ([a] ++ [b]) in E. rewrite app_assoc in E.
  apply lookup_snoc2_cases in E as [E|[[_ ->]|[_ ->]]].
  - exact (U _ _ _ E B Hin).
  - injection B as <-. destruct Hin.
  - injection B as <-. destruct Hin as [Hin|[]]. injection Hin as Hin. lia.
Qed.

Lemma unregistered_env_timeout delay s p :
  0 <= delay -> unregistered s p ->
  unregistered (final_state (env_timeout delay s)) p.
Proof.
  intros H U e ev cbs E B Hin. rewrite (env_timeout_objects _ _ H) in E.
  apply lookup_snoc_cases in E as [E|[_ ->]].
  - exact (U _ _ _ E B Hin).
  - injection B as <-. destruct Hin.
Qed.

(** The outcome of a resumption that yields a timeout with no callback
    yet. *)
Lemma process_outcome_register s p pe t tv g g' st rt :
  objects s !! p = Some pe -> objects s !! t = Some tv -> p <> t ->
  callbacks tv = Some [] ->
  process_outcome p g st rt (Return (g', Some t) s) =
  Return tt
    (set_objects (<[t := set_callbacks (Some [Process_resume p]) tv]>
                    (<[p := set_class (Process g' st rt) pe]> (objects s))) s).
Proof.
  intros Ep Et N B. cbn [process_outcome].
  unfold bind at 1. rewrite (update_event_Return _ _ _ _ Ep).
  assert (Et' : <[p := set_class (Process g' st rt) pe]> (objects s) !! t = Some tv).
  { rewrite list_lookup_insert_ne by exact N. exact Et. }
  unfold bind at 1. rewrite get_event_unfold. cbn [objects set_objects].
  rewrite Et', B. unfold callbacks_append, bind. rewrite get_event_unfold.
  cbn [objects set_objects]. rewrite Et', B.
  rewrite (update_event_Return _ _ _ tv) by exact Et'.
  reflexivity.
Qed.

(** The state after [env.process(go_to_movies(env, k, theater))] for the
    customers [ks], one after the other. *)
Fixpoint create (ks : list Z) (s : State) : State :=
  match ks with
  | [] => s
  | k :: ks => create ks (final_state (env_process (go_to_movies_start k) s))
  end.

Definition new_customer (k : Z) : EventClass := Process (go_to_movies_start k) None None.

Lemma create_now ks s : now (create ks s) = now s.
Proof. revert s. induction ks as [|k ks IH]; intros s; cbn [create]; [reflexivity|]. rewrite IH. reflexivity. Qed.

Lemma create_structure_ok ks s :
  structure_ok s -> Forall (fun k => now s == injection_time k) ks ->
  structure_ok (create ks s).
Proof.
  revert s. induction ks as [|k ks IH]; intros s I F; cbn [create]; [exact I|].
  apply Forall_cons in F as [Hk F]. apply IH.
  - eapply structure_ok_env_process; [exact I | reflexivity | exact Hk].
  - exact F.
Qed.

Lemma create_length ks s : (length (objects s) <= length (objects (create ks s)))%nat.
Proof.
  revert s. induction ks as [|k ks IH]; intros s; cbn [create]; [lia|].
  etransitivity; [|apply IH]. rewrite env_process_objects, length_app. lia.
Qed.

Lemma create_unregistered ks s p :
  unregistered s p -> (p < length (objects s))%nat -> unregistered (create ks s) p.
Proof.
  revert s. induction ks as [|k ks IH]; intros s U L; cbn [create]; [exact U|].
  apply IH.
  - apply unregistered_env_process; assumption.
  - rewrite env_process_objects, length_app. lia.
Qed.

Lemma create_lookup ks s p pe :
  objects s !! p = Some pe -> objects (create ks s) !! p = Some pe.
Proof.
  revert s. induction ks as [|k ks IH]; intros s E; cbn [create]; [exact E|].
  apply IH. rewrite env_process_objects. apply lookup_app_l_Some. exact E.
Qed.

Lemma create_classes ks s :
  exists added,
    class <$> objects (create ks s) = (class <$> objects s) ++ added /\
    Forall (fun c => is_run_theater c = false) added /\
    List.filter is_customer added = map new_customer ks.
Proof.
  revert s. induction ks as [|k ks IH]; intros s; cbn [create].
  - exists []. rewrite app_nil_r. repeat split. constructor.
  - destruct (IH (final_state (env_process (go_to_movies_start k) s)))
      as (added & E & F & C).
    rewrite env_process_objects, fmap_app in E. cbn [fmap list_fmap class] in E.
    eexists (_ :: _ :: added). split; [|split].
    + rewrite E, <- app_assoc. reflexivity.
    + repeat constructor. exact F.
    + cbn. rewrite C. reflexivity.
Qed.

Lemma filter_insert_same {A} (f : A -> bool) (l : list A) i x y :
  l !! i = Some x -> f x = false -> f y = false ->
  List.filter f (<[i := y]> l) = List.filter f l.
Proof.
  revert i. induction l as [|a l IH]; intros i E Hx Hy; [discriminate|].
  destruct i as [|i]; simpl in *.
  - injection E as ->. rewrite Hx, Hy. reflexivity.
  - rewrite (IH _ E Hx Hy). reflexivity.
Qed.

(** The classes after [run_theater] has created the customers [ks] and
    counts [moviegoer]. *)
Lemma classes_ok_run_theater s s' p pe g st rt added ks moviegoer st' :
  classes_ok s ->
  objects s !! p = Some pe -> class pe = Process g st rt ->
  gi_code g = code_run_theater ->
  class <$> objects s' =
    <[p := Process (run_theater_timeout moviegoer) st' rt]>
      ((class <$> objects s) ++ added) ->
  Forall (fun c => is_run_theater c = false) added ->
  List.filter is_customer added = map new_customer ks ->
  ks = map Z.of_nat (seq (length (customers s)) (length ks)) ->
  Forall (fun k => injection_time k < 90) ks ->
  Z.of_nat (length (customers s) + length ks) = (moviegoer + 1)%Z ->
  (2 <= moviegoer)%Z ->
  classes_ok s'.
Proof.
  intros [K1 K2 K3] Ep Cp G E F C Ks B Cnt M.
  assert (P0 : p = 0%nat).
  { apply (K3 _ _ Ep). unfold is_run_theater. rewrite Cp. cbn. rewrite G. reflexivity. }
  subst p.
  assert (Ec : (class <$> objects s) !! 0%nat = Some (Process g st rt)).
  { rewrite list_lookup_fmap, Ep. cbn. rewrite Cp. reflexivity. }
  assert (Cs : customers s' = customers s ++ map new_customer ks).
  { unfold customers. rewrite E.
    rewrite (filter_insert_same _ _ _ (Process g st rt)).
    - rewrite List.filter_app, C. reflexivity.
    - apply lookup_app_l_Some. exact Ec.
    - unfold is_customer. cbn. rewrite G. reflexivity.
    - reflexivity. }
  split.
  - intros i c Ei. rewrite Cs in Ei.
    apply lookup_app_Some in Ei as [Ei|[L Ei]]; [apply K1; exact Ei|].
    rewrite list_lookup_fmap in Ei.
    destruct (ks !! (i - length (customers s))%nat) as [k|] eqn:Ek; [|discriminate].
    injection Ei as <-.
    assert (Hk : k = Z.of_nat i).
    { rewrite Ks in Ek. rewrite list_lookup_fmap in Ek.
      destruct (seq _ _ !! _) as [j|] eqn:Ej; [|discriminate].
      injection Ek as <-. apply lookup_seq in Ej as [-> _]. f_equal. lia. }
    subst k. split.
    + rewrite Forall_forall in B. apply B. eapply list_elem_of_lookup_2. exact Ek.
    + cbn. auto.
  - intros ev g0 st0 rt0 E0 C0.
    assert (X : (class <$> objects s') !! 0%nat = Some (Process g0 st0 rt0)).
    { rewrite list_lookup_fmap, E0. cbn. rewrite C0. reflexivity. }
    rewrite E in X.
    rewrite list_lookup_insert_eq in X
      by (rewrite length_app, length_fmap; apply lookup_lt_Some in Ep; lia).
    injection X as <- <- <-.
    rewrite Cs, length_app, length_map. auto.
  - intros q ev Eq T. destruct q as [|q]; [reflexivity|]. exfalso.
    assert (X : (class <$> objects s') !! S q = Some (class ev)).
    { rewrite list_lookup_fmap, Eq. reflexivity. }
    rewrite E in X. rewrite list_lookup_insert_ne in X by discriminate.
    apply lookup_app_Some in X as [X|[_ X]].
    + apply list_lookup_fmap_Some in X as (ev0 & E0 & X).
      assert (S q = 0%nat); [|discriminate].
      apply (K3 _ _ X). rewrite <- E0. exact T.
    + rewrite Forall_forall in F.
      rewrite (F _ (list_elem_of_lookup_2 _ _ _ X)) in T. discriminate.
Qed.

(** The outcome of a resumption of [run_theater] that creates the customers
    [ks], waits for a timeout of 12/60 and then counts [moviegoer]; [s0] is
    [s], or [s] with the theater. *)
Lemma run_theater_outcome s s0 p pe g st rt ks moviegoer :
  arrivals_inv s ->
  structure_ok s0 -> objects s0 = objects s -> now s0 = now s ->
  objects s !! p = Some pe -> class pe = Process g st rt ->
  gi_code g = code_run_theater ->
  unregistered s p ->
  Forall (fun k => now s == injection_time k) ks ->
  ks = map Z.of_nat (seq (length (customers s)) (length ks)) ->
  Z.of_nat (length (customers s) + length ks) = (moviegoer + 1)%Z ->
  (2 <= moviegoer)%Z ->
  now s + 12 / 60 == inject_Z (moviegoer - 1) * (12 / 60) ->
  exists s4,
    process_outcome p g (Some (default (now s) st)) rt
      (Return (run_theater_timeout moviegoer, Some (length (objects (create ks s0))))
         (final_state (env_timeout (12 / 60) (create ks s0)))) = Return tt s4 /\
    arrivals_inv s4.
Proof.
  intros [I K] I0 O0 N0 Ep Cp G U Hks Ks Cnt M T.
  assert (D : 0 <= 12 / 60) by discriminate.
  set (s1 := create ks s0).
  assert (I1 : structure_ok s1).
  { apply create_structure_ok; [exact I0|].
    eapply Forall_impl; [exact Hks|]. cbn. intros k Hk. rewrite N0. exact Hk. }
  assert (Lp : (p < length (objects s))%nat) by (eapply lookup_lt_Some; exact Ep).
  assert (U1 : unregistered s1 p).
  { apply create_unregistered; [|rewrite O0; exact Lp].
    intros e ev cbs. rewrite O0. apply U. }
  assert (Ep1 : objects s1 !! p = Some pe).
  { apply create_lookup. rewrite O0. exact Ep. }
  set (s2 := final_state (env_timeout (12 / 60) s1)).
  assert (Q2 : quiet s1 s2) by (apply calm_env_timeout, I1).
  pose proof (structure_ok_quiet _ _ I1 Q2) as I2.
  pose proof (env_timeout_objects _ s1 D) as O2. fold s2 in O2.
  pose proof (env_timeout_queue _ s1 D) as Qu2. fold s2 in Qu2.
  set (tv := mkEvent (Timeout (12 / 60)) (Some []) succeeded false) in *.
  assert (Ep2 : objects s2 !! p = Some pe).
  { rewrite O2. apply lookup_app_l_Some. exact Ep1. }
  assert (Et2 : objects s2 !! length (objects s1) = Some tv).
  { rewrite O2. apply lookup_snoc. }
  assert (Npt : p <> length (objects s1)).
  { apply lookup_lt_Some in Ep1. lia. }
  rewrite (process_outcome_register _ _ pe _ tv) by (assumption || reflexivity).
  eexists. split; [reflexivity|]. split.
  - eapply (structure_ok_register s2 p _ pe tv _ (inject_Z (moviegoer - 1) * (12 / 60)));
      try assumption; try reflexivity; try discriminate.
    + rewrite Cp. reflexivity.
    + apply unregistered_env_timeout; assumption.
    + rewrite Qu2. constructor.
      * intros _. cbn. rewrite Qred_correct. unfold s1. rewrite create_now, N0. exact T.
      * eapply Forall_impl; [exact (inv_queue _ I1)|]. cbn. intros x Hx Ex. lia.
  - destruct (create_classes ks s0) as (added & E & F & C). fold s1 in E.
    eapply (classes_ok_run_theater s _ p pe g st rt (added ++ [Timeout (12 / 60)]) ks);
      try eassumption.
    + cbn [objects set_objects]. rewrite !list_fmap_insert. cbn [class set_callbacks set_class].
      rewrite (list_insert_id _ (length (objects s1))).
      * rewrite O2, fmap_app, E, O0, <- app_assoc. reflexivity.
      * rewrite list_lookup_insert_ne by exact Npt.
        rewrite list_lookup_fmap, Et2. reflexivity.
    + apply Forall_app. split; [exact F | repeat constructor].
    + rewrite List.filter_app, C. cbn. apply app_nil_r.
    + eapply Forall_impl; [exact Hks|]. cbn. intros k Hk.
      rewrite <- Hk. exact (inv_now _ I).
Qed.

Lemma bind_assoc {A B C} (m : M A) (f : A -> M B) (g : B -> M C) s :
  bind (bind m f) g s = bind m (fun x => bind (f x) g) s.
Proof. unfold bind. destruct (m s); reflexivity. Qed.

Lemma customers_bind {B} ks (k : M B) s :
  (for_ ks (fun moviegoer => env_process (go_to_movies_start moviegoer) >> ret tt) >> k) s =
  k (create ks s).
Proof.
  revert s. induction ks as [|k0 ks IH]; intros s; cbn [for_ create]; [reflexivity|].
  rewrite !bind_assoc, env_process_bind. unfold ret at 1. apply IH.
Qed.

(** [Theater.__init__] touches nothing: it returns or raises. *)
Lemma Theater_init_pure a b c s :
  (exists e, Theater_init a b c s = Raise e s) \/
  (exists t, Theater_init a b c s = Return t s).
Proof.
  unfold Theater_init, Resource_init, bind.
  destruct (a <=? 0)%Z; [left; eauto|].
  destruct (b <=? 0)%Z; [left; eauto|].
  destruct (c <=? 0)%Z; [left; eauto|].
  right. eauto.
Qed.

Lemma inject_Z_succ z : inject_Z (z + 1) == inject_Z z + 1.
Proof. rewrite inject_Z_plus. reflexivity. Qed.

(** Resuming [run_theater]: when the event has failed or the generator
    raises, the process fails quietly; otherwise the outcome is as [Ok]
    says. *)
Lemma resume_run_theater_with s p event pe g st rt :
  arrivals_inv s ->
  objects s !! p = Some pe -> class pe = Process g st rt ->
  gi_code g = code_run_theater ->
  ((forall a s2, send g s <> Return a s2) /\ quiet s (final_state (send g s)) \/
   exists s4,
     process_outcome p g (Some (default (now s) st)) rt (send g s) = Return tt s4 /\
     arrivals_inv s4) ->
  arrivals_inv (final_state (resume p event s)).
Proof.
  intros I Ep Cp G Ok.
  unfold resume. unfold bind at 1. rewrite get_event_unfold, Ep.
  cbv beta iota. rewrite Cp.
  unfold bind at 1, get at 1. cbv beta iota.
  unfold bind at 1. rewrite get_event_unfold.
  destruct (objects s !! event) as [ev|] eqn:He; [|exact I].
  cbv beta iota.
  assert (Hc : (class <$> objects s) !! p = Some (Process g st rt)).
  { rewrite list_lookup_fmap, Ep. cbn. congruence. }
  pose proof (inv_registered _ (inv_structure _ I)) as R.
  assert (M : may_resume s g st).
  { intros m ->. discriminate G. }
  assert (Fail : forall r, quiet s (final_state r) -> send_effect g s r ->
            (forall a s2, r <> Return a s2) ->
            arrivals_inv
              (final_state (process_outcome p g (Some (default (now s) st)) rt r))).
  { intros r Q Eff NR. eapply arrivals_inv_quiet; [exact I|].
    apply quiet_process_outcome; try assumption.
    - eapply send_effect_lookup; eassumption.
    - intros g' t s2 E. destruct (NR _ _ E).
    - intros g' s2 E. destruct (NR _ _ E). }
  assert (Send : arrivals_inv
            (final_state (process_outcome p g (Some (default (now s) st)) rt (send g s)))).
  { destruct Ok as [[NR Q]|(s4 & E4 & I4)].
    - apply Fail; [exact Q | apply send_effect_holds | exact NR].
    - rewrite E4. exact I4. }
  destruct (value ev) as [| |e] eqn:V; try exact Send.
  destruct (resume_body g s event ev) as [B1 _]. rewrite V in B1. cbn zeta in B1.
  apply Fail; [|exact B1|].
  - to_calm R. effect_step.
    + apply quiet_calm, quiet_update_event. intros []; cbn; auto.
    + apply calm_throw.
  - intros a s2 E. apply bind_Return in E as (? & s1 & _ & E).
    destruct (throw_not_Return _ _ _ _ _ E).
Qed.

(** [run_theater] starts at time 0: it creates the first three customers. *)
Lemma resume_run_theater_start s p event pe a b c st rt :
  arrivals_inv s ->
  objects s !! p = Some pe -> class pe = Process (run_theater_start a b c) st rt ->
  now s == 0 -> unregistered s p ->
  arrivals_inv (final_state (resume p event s)).
Proof.
  intros I Ep Cp N U.
  assert (P0 : p = 0%nat).
  { apply (ok_run_theater _ (inv_classes _ I) _ _ Ep).
    unfold is_run_theater. rewrite Cp. reflexivity. }
  pose proof (ok_count _ (inv_classes _ I) pe (run_theater_start a b c) st rt) as Cnt.
  rewrite <- P0 in Cnt. specialize (Cnt Ep Cp). cbn in Cnt.
  eapply resume_run_theater_with; try eassumption; [reflexivity|].
  unfold send. cbn [gi_code].
  destruct (Theater_init_pure a b c s) as [[e Ti]|[th Ti]].
  - assert (E : run_theater (run_theater_start a b c) s = Raise e s).
    { unfold run_theater, bind. rewrite Ti. reflexivity. }
    rewrite E. left. split; [discriminate | reflexivity].
  - set (s0 := set_theater (Some th) s).
    assert (E : run_theater (run_theater_start a b c) s =
                Return (run_theater_timeout 2, Some (length (objects (create (range 3) s0))))
                  (final_state (env_timeout (12 / 60) (create (range 3) s0)))).
    { unfold run_theater. unfold bind at 1. rewrite Ti.
      unfold bind at 1, modify at 1. cbv beta iota.
      rewrite customers_bind, (env_timeout_bind (12 / 60)) by discriminate.
      reflexivity. }
    rewrite E. right.
    apply (run_theater_outcome s s0 p pe
             (run_theater_start a b c) st rt (range 3) 2%Z); try assumption;
      try reflexivity.
    + eapply structure_ok_quiet; [exact (inv_structure _ I)|].
      apply quiet_same; reflexivity.
    + repeat constructor; rewrite N; reflexivity.
    + rewrite Cnt. reflexivity.
    + rewrite Cnt. reflexivity.
    + rewrite N. reflexivity.
Qed.

(** [run_theater] goes on when its timeout is over: it creates the next
    customer. *)
Lemma resume_run_theater_timeout s p event pe m st rt :
  arrivals_inv s ->
  objects s !! p = Some pe -> class pe = Process (run_theater_timeout m) st rt ->
  now s == inject_Z (m - 1) * (12 / 60) -> unregistered s p ->
  arrivals_inv (final_state (resume p event s)).
Proof.
  intros I Ep Cp N U.
  assert (P0 : p = 0%nat).
  { apply (ok_run_theater _ (inv_classes _ I) _ _ Ep).
    unfold is_run_theater. rewrite Cp. reflexivity. }
  pose proof (ok_count _ (inv_classes _ I) pe (run_theater_timeout m) st rt) as Cnt.
  rewrite <- P0 in Cnt. specialize (Cnt Ep Cp). cbn in Cnt. destruct Cnt as [Cnt Mg].
  eapply resume_run_theater_with; try eassumption; [reflexivity|].
  unfold send. cbn [gi_code].
  assert (E : run_theater (run_theater_timeout m) s =
              Return (run_theater_timeout (m + 1),
                      Some (length (objects (create [(m + 1)%Z] s))))
                (final_state (env_timeout (12 / 60) (create [(m + 1)%Z] s)))).
  { unfold run_theater.
    rewrite env_process_bind, (env_timeout_bind (12 / 60)) by discriminate.
    reflexivity. }
  rewrite E. right.
  apply (run_theater_outcome s s p pe (run_theater_timeout m) st rt
           [(m + 1)%Z] (m + 1)%Z); try assumption; try reflexivity.
  - exact (inv_structure _ I).
  - constructor; [|constructor]. rewrite N. unfold injection_time.
    destruct (Z.ltb_spec (m + 1) 3); [lia|].
    replace (m + 1 - 2)%Z with (m - 1)%Z by lia. reflexivity.
  - cbn [length map seq]. f_equal. lia.
  - cbn [length]. lia.
  - lia.
  - rewrite N. replace (m + 1 - 1)%Z with (m - 1 + 1)%Z by lia.
    rewrite inject_Z_succ. ring.
Qed.

(** *** A step of the event loop *)

Lemma classes_ok_classes s s' :
  class <$> objects s' = class <$> objects s -> classes_ok s -> classes_ok s'.
Proof.
  intros E [K1 K2 K3].
  assert (L : forall i ev', objects s' !! i = Some ev' ->
            exists ev, objects s !! i = Some ev /\ class ev = class ev').
  { intros i ev' E'.
    assert (X : (class <$> objects s') !! i = Some (class ev')).
    { rewrite list_lookup_fmap, E'. reflexivity. }
    rewrite E in X. apply list_lookup_fmap_Some in X as (ev & X1 & X2). eauto. }
  split.
  - unfold customers. rewrite E. exact K1.
  - intros ev' g st rt E' C'. destruct (L _ _ E') as (ev & E0 & C0).
    unfold customers. rewrite E. apply (K2 ev g st rt E0). congruence.
  - intros p ev' E' T. destruct (L _ _ E') as (ev & E0 & C0).
    apply (K3 _ _ E0). congruence.
Qed.

(** Taking the next event out of the queue, when it is not the one that
    stops the simulation. *)
Lemma pop_inv s m rest ev :
  arrivals_inv s -> m :: rest ≡ₚ queue s -> entry_time m < 90 ->
  In until_entry rest ->
  objects s !! entry_event m = Some ev ->
  callbacks ev <> Some [StopSimulation_callback] ->
  arrivals_inv
    (set_objects (<[entry_event m := set_callbacks None ev]> (objects s))
       (set_queue rest (set_now (entry_time m) s))).
Proof.
  intros [[I1 I2 I3 I4 I5 I6 I7] K] P Tm Un E B.
  match goal with |- arrivals_inv ?x => set (s' := x) end.
  assert (C : class <$> objects s' = class <$> objects s).
  { cbn. apply (class_insert_same _ _ ev); [exact E | reflexivity]. }
  assert (Old : forall e ev' cbs, objects s' !! e = Some ev' -> callbacks ev' = Some cbs ->
            e <> entry_event m /\ objects s !! e = Some ev').
  { intros e ev' cbs E' B'. cbn in E'.
    apply list_lookup_insert_Some in E' as [(<- & <- & _)|[Ne E']]; [discriminate B'|].
    auto. }
  assert (Sub : forall (Pr : Entry -> Prop), Forall Pr (queue s) -> Forall Pr rest).
  { intros Pr F. rewrite <- P in F. apply Forall_cons in F as [_ F]. exact F. }
  assert (Len : length (objects s') = length (objects s)).
  { cbn. apply length_insert. }
  split; [split|].
  - intros e ev' cbs cb E' B' Hin. destruct (Old _ _ _ E' B') as [Ne E0].
    destruct (I1 _ _ _ _ E0 B' Hin) as [Bd Sp]. split.
    + rewrite Len. exact Bd.
    + rewrite (special_same_duty s s' cb (fun q _ => duty_classes _ _ q C)). intros Hs.
      destruct (Sp Hs) as (-> & V & Pr & T). repeat split; try assumption.
      apply Sub. eapply Forall_impl; [exact T|]. cbn. intros x Hx Ex.
      eapply timed_same_duty; [intros q _; apply duty_classes, C | auto].
  - intros e1 e2 ev1 ev2 p E1 E2 B1 B2 D.
    destruct (Old _ _ _ E1 B1) as [_ E1'], (Old _ _ _ E2 B2) as [_ E2'].
    apply (I2 _ _ _ _ p E1' E2' B1 B2). rewrite <- (duty_classes _ _ p C). exact D.
  - rewrite Len. apply Sub. exact I3.
  - exact I4.
  - destruct I5 as [_ (ev2 & E2 & B2)]. split; [exact Un|].
    exists ev2. split; [|exact B2]. cbn.
    rewrite list_lookup_insert_ne; [exact E2|]. intros X. rewrite X, E2 in E.
    injection E as <-. contradiction.
  - apply Sub. exact I6.
  - exact Tm.
  - eapply classes_ok_classes; eassumption.
Qed.

(** Before the entry that stops the simulation come earlier entries
    only. *)
Lemma before_until m :
  entry_le m until_entry = true ->
  m = until_entry \/ entry_time m < 90 \/ (1 < entry_eid m)%nat ->
  m = until_entry \/ entry_time m < 90.
Proof.
  intros L [H|[H|H]]; auto. right. revert L. unfold entry_le.
  change (entry_time until_entry) with 90.
  destruct (Qcompare_spec (entry_time m) 90) as [E|E|E]; [|auto|discriminate].
  change (entry_priority until_entry) with URGENT.
  change (entry_eid until_entry) with 1%nat.
  destruct (entry_priority m); cbn.
  - intros L. apply Nat.leb_le in L. lia.
  - discriminate.
Qed.

(** The callbacks that are not special run quietly. *)
Lemma quiet_call cb event s :
  registered_ok s -> special s cb = false -> quiet s (final_state (call cb event s)).
Proof.
  intros R Sp. destruct cb as [p| | |]; cbn [call]; try discriminate Sp.
  - apply quiet_resume; [exact R|]. intros pe g st rt E C.
    assert (D : due g = None).
    { cbn in Sp. unfold duty in Sp. rewrite E, C in Sp. cbn in Sp.
      destruct (due g); [discriminate | reflexivity]. }
    split; [left; exact D|]. intros m ->. discriminate D.
  - apply calm_trigger_put, R.
  - apply calm_trigger_get, R.
Qed.

Lemma quiet_calls cbs event s :
  registered_ok s -> Forall (fun cb => special s cb = false) cbs ->
  quiet s (final_state (for_ cbs (fun cb => call cb event) s)).
Proof.
  revert s. induction cbs as [|cb cbs IH]; intros s R F; cbn [for_]; [reflexivity|].
  apply Forall_cons in F as [Hcb F].
  apply quiet_bind; [exact R | intros _; apply quiet_call; assumption|].
  intros _ s' _ Q R'. apply IH; [exact R'|].
  eapply Forall_impl; [exact F|]. cbn. intros c. apply special_quiet, Q.
Qed.

(** What holds after a step: the classes are in order, and the whole
    invariant holds when the step has returned. *)
Definition after (r : Result unit) : Prop :=
  classes_ok (final_state r) /\
  match r with
  | Return _ s' => arrivals_inv s'
  | _ => True
  end.

Lemma after_inv r : arrivals_inv (final_state r) -> after r.
Proof. intros I. split; [apply I | destruct r; auto]. Qed.

Lemma after_bind (m : M unit) (k : unit -> M unit) s :
  (forall a s', final_state (k a s') = s') ->
  arrivals_inv (final_state (m s)) -> after (bind m k s).
Proof.
  intros Hk I. apply after_inv. unfold bind.
  destruct (m s) as [a s'|e s'|s']; cbn [final_state] in *; try exact I.
  rewrite Hk. exact I.
Qed.

Lemma customer_lookup s p pe :
  objects s !! p = Some pe -> is_customer (class pe) = true ->
  exists i, customers s !! i = Some (class pe).
Proof.
  intros E C. apply list_elem_of_lookup_1, list_elem_of_In, filter_In.
  split; [|exact C]. apply list_elem_of_In, list_elem_of_fmap.
  exists pe. split; [reflexivity|]. eapply list_elem_of_lookup_2. exact E.
Qed.

Lemma final_state_then_ret (m : M unit) s :
  final_state ((m >> ret tt) s) = final_state (m s).
Proof. unfold bind. destruct (m s); reflexivity. Qed.

(** The next event: it stops the simulation; or it comes before the
    horizon, and either none of its callbacks is special, or it has the one
    callback of resuming a process that is due now and waits for nothing
    else. *)
Definition popped (s : State) (m : Entry) (rest : list Entry) (ev : Event) : State :=
  set_objects (<[entry_event m := set_callbacks None ev]> (objects s))
    (set_queue rest (set_now (entry_time m) s)).

Lemma pop_cases s m rest ev :
  arrivals_inv s -> m :: rest ≡ₚ queue s ->
  Forall (fun y => entry_le m y = true) rest ->
  objects s !! entry_event m = Some ev ->
  callbacks ev = Some [StopSimulation_callback] \/
  (arrivals_inv (popped s m rest ev) /\
   (Forall (fun cb => special (popped s m rest ev) cb = false) (default [] (callbacks ev)) \/
    exists p pe g st rt d,
      callbacks ev = Some [Process_resume p] /\
      objects (popped s m rest ev) !! p = Some pe /\ class pe = Process g st rt /\
      due g = Some d /\ now (popped s m rest ev) == d /\
      unregistered (popped s m rest ev) p)).
Proof.
  intros I P F E. set (sb := popped s m rest ev).
  assert (Cb : class <$> objects sb = class <$> objects s).
  { cbn. apply (class_insert_same _ _ ev); [exact E | reflexivity]. }
  assert (Hm : In m (queue s)) by (rewrite <- P; left; reflexivity).
  pose proof (inv_structure _ I) as J.
  destruct (inv_until _ J) as [Un (ev2 & E2 & B2)].
  assert (Hor : m = until_entry \/ entry_time m < 90 /\ In until_entry rest).
  { assert (Ur : m = until_entry \/ In until_entry rest).
    { rewrite <- P in Un. exact Un. }
    destruct Ur as [|Ur]; [auto|].
    pose proof (inv_horizon _ J) as H. rewrite Forall_forall in H, F.
    destruct (before_until m (F _ (proj2 (list_elem_of_In _ _) Ur))
                (H _ (proj2 (list_elem_of_In _ _) Hm))); auto. }
  destruct Hor as [->|[Tm Ur]]; [left; cbn in E; congruence|].
  destruct (Forall_Exists_dec (fun cb => special s cb = false)
              (fun cb => special s cb = true)
              (fun cb => match special s cb as b return {b = false} + {b = true} with
                         | true => right eq_refl
                         | false => left eq_refl
                         end)
              (default [] (callbacks ev))) as [Pl|Sp].
  - (* no special callback *)
    assert (NB : callbacks ev <> Some [StopSimulation_callback]).
    { intros X. rewrite X in Pl. apply Forall_cons in Pl as [Pl _]. discriminate Pl. }
    right. split; [exact (pop_inv s m rest ev I P Tm Ur E NB)|]. left.
    eapply Forall_impl; [exact Pl|]. cbn. intros cb Hcb.
    rewrite (special_same_duty s sb cb (fun q _ => duty_classes _ _ q Cb)). exact Hcb.
  - (* a special callback: it is the only one *)
    apply Exists_exists in Sp as (cb & Hin & Hs). apply list_elem_of_In in Hin.
    destruct (callbacks ev) as [cbs|] eqn:B; [|destruct Hin]. cbn in Hin.
    destruct (inv_registered _ J _ _ _ _ E B Hin) as [_ R].
    destruct (R Hs) as (-> & V & Pr & T).
    rewrite Forall_forall in T.
    pose proof (T _ (proj2 (list_elem_of_In _ _) Hm) eq_refl) as Tn. clear T R.
    destruct cb as [p| | |]; try discriminate Hs; [|left; reflexivity].
    right.
    assert (NB : Some [Process_resume p] <> Some [StopSimulation_callback])
      by discriminate.
    split; [exact (pop_inv s m rest ev I P Tm Ur E ltac:(rewrite B; exact NB))|]. right.
    cbn in Hs, Tn. destruct (duty s p) as [d|] eqn:D; [|discriminate Hs].
    unfold duty in D. destruct (objects s !! p) as [pe|] eqn:Ep; [|discriminate D].
    destruct (class pe) as [| | |g st rt| |] eqn:Cp; try discriminate D. cbn in D.
    assert (Npe : p <> entry_event m).
    { intros ->. rewrite E in Ep. injection Ep as <-. rewrite Cp in Pr. discriminate Pr. }
    exists p, pe, g, st, rt, d. repeat split; try assumption.
    + cbn. rewrite list_lookup_insert_ne by auto. exact Ep.
    + intros e ev' cbs E' B' Hin'. cbn in E'.
      apply list_lookup_insert_Some in E' as [(<- & <- & _)|[Ne E']]; [discriminate B'|].
      assert (Hsp : special s (Process_resume p) = true).
      { cbn. unfold duty. rewrite Ep, Cp. cbn. rewrite D. reflexivity. }
      destruct (inv_registered _ J _ _ _ _ E' B' Hin') as [_ R].
      destruct (R Hsp) as (-> & _).
      apply Ne. symmetry.
      apply (inv_unique _ J _ _ _ _ p E' E B' B).
      unfold duty. rewrite Ep, Cp. cbn. rewrite D. discriminate.
Qed.

(** [env.step()] from the queue [x :: q], as the callbacks of the next
    event, run in the state [popped]. *)
Lemma step_unfold s x q m rest ev :
  queue s = x :: q -> heappop x q = (m, rest) ->
  objects s !! entry_event m = Some ev ->
  step s =
  (for_ (default [] (callbacks ev)) (fun cb => call cb (entry_event m)) >>
   let* ev := get_event (entry_event m) in
   match value ev with
   | failed e => if defused ev then ret tt else raise e
   | _ => ret tt
   end) (popped s m rest ev).
Proof.
  intros Eq Hp E. unfold step. unfold bind at 1, get at 1. rewrite Eq, Hp.
  unfold bind at 1, modify at 1. cbv beta iota.
  unfold bind at 1. rewrite get_event_unfold.
  change (objects (set_queue rest (set_now (entry_time m) s))) with (objects s).
  rewrite E.
  unfold bind at 1.
  rewrite (update_event_Return _ _ (set_queue rest (set_now (entry_time m) s)) ev)
    by exact E.
  reflexivity.
Qed.

Lemma step_tail event (a : unit) s :
  final_state
    ((let* ev := get_event event in
      match value ev with
      | failed e => if defused ev then ret tt else raise e
      | _ => ret tt
      end) s) = s.
Proof.
  unfold bind. rewrite get_event_unfold.
  destruct (objects s !! event) as [ev'|]; [|reflexivity].
  destruct (value ev'); try reflexivity. destruct (defused ev'); reflexivity.
Qed.

(** A step of the event loop keeps the invariant. *)
Lemma step_arrivals s : arrivals_inv s -> after (step s).
Proof.
  intros I.
  destruct (queue s) as [|x q] eqn:Eq.
  { unfold step, bind, get. rewrite Eq. split; [apply I | exact Logic.I]. }
  destruct (heappop x q) as [m rest] eqn:Hp.
  destruct (heappop_spec _ _ _ _ Hp) as [P F]. rewrite <- Eq in P. symmetry in P.
  destruct (objects s !! entry_event m) as [ev|] eqn:E.
  2: { unfold step. unfold bind at 1, get at 1. rewrite Eq, Hp.
       unfold bind at 1, modify at 1. cbv beta iota.
       unfold bind at 1. rewrite get_event_unfold.
       change (objects (set_queue rest (set_now (entry_time m) s))) with (objects s).
       rewrite E.
       split; [eapply classes_ok_classes; [|apply I]; reflexivity | exact Logic.I]. }
  rewrite (step_unfold s x q m rest ev Eq Hp E).
  destruct (pop_cases s m rest ev I P F E)
    as [B|[Ib [Pl|(p & pe & g & st & rt & d & B & Ep & Cp & D & Nb & Ub)]]].
  - (* the simulation stops *)
    rewrite B. cbn [default from_option id for_ call].
    unfold bind at 1. unfold bind at 1. unfold bind at 1.
    rewrite get_event_unfold.
    assert (K : classes_ok (popped s m rest ev)).
    { eapply classes_ok_classes; [|apply I]. cbn.
      apply (class_insert_same _ _ ev); [exact E | reflexivity]. }
    destruct (objects (popped s m rest ev) !! entry_event m) as [ev'|]; [|split; [exact K | exact Logic.I]].
    destruct (value ev'); split; try exact K; exact Logic.I.
  - (* no special callback *)
    apply after_bind; [apply step_tail|].
    eapply arrivals_inv_quiet; [exact Ib|].
    apply quiet_calls; [apply Ib | exact Pl].
  - (* a process that is due *)
    rewrite B. cbn [default from_option id for_ call].
    apply after_bind; [apply step_tail|]. rewrite final_state_then_ret.
    destruct g; try discriminate D; cbn in D; injection D as <-.
    + eapply resume_run_theater_start; eassumption.
    + eapply resume_run_theater_timeout; eassumption.
    + eapply arrivals_inv_quiet; [exact Ib|].
      apply quiet_resume; [apply Ib|].
      intros pe' g' st' rt' Epb' Cp'. rewrite Ep in Epb'. injection Epb' as <-.
      rewrite Cp in Cp'. injection Cp' as <- <- <-.
      split; [right; reflexivity|].
      intros m0 Em0. injection Em0 as <-. split; [|exact Nb].
      destruct (customer_lookup _ p pe Ep) as (i & Ei).
      { rewrite Cp. reflexivity. }
      rewrite Cp in Ei.
      destruct (ok_customers _ (inv_classes _ Ib) _ _ Ei) as [_ [_ Hst]]. exact Hst.
Qed.

(** *** The run *)

Lemma step_loop_arrivals fuel s :
  arrivals_inv s -> classes_ok (final_state (step_loop fuel s)).
Proof.
  revert s. induction fuel as [|fuel IH]; intros s I; cbn [step_loop].
  - apply I.
  - destruct (step_arrivals s I) as [K A]. unfold bind.
    destruct (step s) as [[] s'|e s'|s']; cbn [final_state] in *; auto.
Qed.

Lemma classes_ok_empty s : objects s = [] -> classes_ok s.
Proof.
  intros O. split; unfold customers; rewrite O.
  - intros i c E. discriminate E.
  - intros ev g st rt E. discriminate E.
  - intros p ev E. discriminate E.
Qed.

(** The state in which the event loop starts: the process of [run_theater],
    the event that starts it, and the event that stops the simulation. *)
Definition starting (a b c : Z) (s : State) : State :=
  set_objects
    [mkEvent (Process (run_theater_start a b c) None None) (Some []) PENDING false;
     mkEvent (Initialize 0%nat) (Some [Process_resume 0%nat]) succeeded false;
     mkEvent Event_ (Some [StopSimulation_callback]) succeeded false]
    (set_eid 2%nat
       (set_queue [until_entry; (0, URGENT, 0%nat, 1%nat)] (fresh_environment s))).

Lemma run_unfold a b c fuel s :
  (env_process (run_theater_start a b c) >> run 90 fuel) (fresh_environment s) =
  match step_loop fuel (starting a b c s) with
  | Raise StopSimulation s' => Return tt s'
  | Raise EmptySchedule s' =>
      Raise (RuntimeError "No scheduled events left but until event was not triggered") s'
  | r => r
  end.
Proof. reflexivity. Qed.

Lemma starting_inv a b c s : arrivals_inv (starting a b c s).
Proof.
  assert (L : forall e ev, objects (starting a b c s) !! e = Some ev ->
            (e = 0%nat /\ callbacks ev = Some [] /\
             class ev = Process (run_theater_start a b c) None None) \/
            (e = 1%nat /\ ev = mkEvent (Initialize 0%nat) (Some [Process_resume 0%nat])
                                  succeeded false) \/
            (e = 2%nat /\ ev = mkEvent Event_ (Some [StopSimulation_callback])
                                  succeeded false)).
  { intros [|[|[|e]]] ev E; cbn in E; try discriminate E; injection E as <-; auto. }
  split; [split|].
  - intros e ev cbs cb E B Hin.
    destruct (L _ _ E) as [(-> & B0 & _)|[(-> & ->)|(-> & ->)]].
    + rewrite B0 in B. injection B as <-. destruct Hin.
    + injection B as <-. destruct Hin as [<-|[]]. split; [cbn; lia|]. intros _.
      repeat split; try discriminate.
      constructor; [discriminate|]. constructor; [|constructor].
      intros _. reflexivity.
    + injection B as <-. destruct Hin as [<-|[]]. split; [exact Logic.I|]. intros _.
      repeat split; try discriminate.
      constructor; [reflexivity|]. constructor; [discriminate | constructor].
  - intros e1 e2 ev1 ev2 p E1 E2 B1 B2 _.
    destruct (L _ _ E1) as [(-> & B0 & _)|[(-> & ->)|(-> & ->)]];
      destruct (L _ _ E2) as [(-> & B0' & _)|[(-> & ->)|(-> & ->)]];
      cbn in B1, B2; congruence.
  - repeat constructor.
  - reflexivity.
  - split; [left; reflexivity|]. eexists. split; reflexivity.
  - constructor; [left; reflexivity|]. constructor; [|constructor].
    right. left. reflexivity.
  - reflexivity.
  - split.
    + intros i cl E. discriminate E.
    + intros ev g st rt E C. cbn in E. injection E as <-. cbn in C.
      injection C as <- <- <-. reflexivity.
    + intros p ev E T. destruct (L _ _ E) as [(-> & _)|[(-> & ->)|(-> & ->)]];
        [reflexivity | discriminate T | discriminate T].
Qed.

Lemma run_arrivals a b c fuel s :
  classes_ok
    (final_state
       ((env_process (run_theater_start a b c) >> run 90 fuel) (fresh_environment s))).
Proof.
  rewrite run_unfold.
  pose proof (step_loop_arrivals fuel _ (starting_inv a b c s)) as K.
  destruct (step_loop fuel (starting a b c s)) as [[] s'|[] s'|s']; exact K.
Qed.

Lemma main_run_the_simulation_arrivals params fuel s :
  objects s = [] ->
  classes_ok (final_state (main_run_the_simulation params fuel s)).
Proof.
  intros O. unfold main_run_the_simulation.
  destruct params as [|a [|b [|c [|d l]]]]; try (apply classes_ok_empty, O).
  rewrite print_Environment_bind. apply run_arrivals.
Qed.

(** At every point of a run of [main], the classes of the objects are in
    order. *)
Lemma main_arrivals mt fuel s :
  objects s = [] -> classes_ok (final_state (main mt fuel s)).
Proof.
  intros O. rewrite main_unfold.
  pose proof (same_store_get_user_input (set_random (mt 0%Z) 0%nat s)) as S.
  destruct (get_user_input (set_random (mt 0%Z) 0%nat s)) as [params s1|e s1|s1];
    cbn [final_state] in S; destruct S as [_ O1]; cbn in O1; rewrite O in O1;
    try (apply classes_ok_empty, O1).
  pose proof (main_run_the_simulation_arrivals params fuel s1 O1) as K.
  unfold bind.
  destruct (main_run_the_simulation params fuel s1) as [[] s2|e s2|s2];
    cbn [final_state] in K; try exact K.
  destruct (same_store_main_view_the_results s2) as [_ O2].
  eapply classes_ok_classes; [|exact K]. rewrite O2. reflexivity.
Qed.

Lemma injection_time_initial (i : nat) :
  (i < 3)%nat -> injection_time (Z.of_nat i) == 0.
Proof.
  intros H. unfold injection_time.
  destruct (Z.ltb_spec (Z.of_nat i) 3); [reflexivity | lia].
Qed.

Lemma injection_time_interval (i : nat) :
  (3 <= i)%nat ->
  injection_time (Z.of_nat i) == injection_time (Z.of_nat (i - 1)) + 12 / 60.
Proof.
  intros H. unfold injection_time.
  destruct (Z.ltb_spec (Z.of_nat i) 3); [lia|].
  destruct (Z.ltb_spec (Z.of_nat (i - 1)) 3).
  - replace (Z.of_nat i - 2)%Z with 1%Z by lia. reflexivity.
  - replace (Z.of_nat i - 2)%Z with (Z.of_nat (i - 1) - 2 + 1)%Z by lia.
    rewrite inject_Z_succ. ring.
Qed.


(** The state after twelve steps of the event loop, with one cashier, one
    server and one usher and every draw 0. *)
Abbreviation twelve_steps :=
  (final_state (main (fun _ _ => 0%N) 12
                  (session (fun _ => 0%N) [Py.lit "1"; Py.lit "1"; Py.lit "1"]))).


(** ** The event loop ends *)

#[local] Set Warnings "-abstract-large-number".

(** What a generator may still add to the queue and the objects, counted as
    below: a customer goes through at most three resources, and
    [run_theater] creates a customer every 12/60 of a minute until the
    horizon, which the customer number 451 is the last to come before. *)
Definition weight (g : Generator) : nat :=
  match g with
  | run_theater_start _ _ _ => 9942
  | run_theater_timeout moviegoer => 22 * Z.to_nat (451 - moviegoer)
  | go_to_movies_start _ => 18
  | go_to_movies_cashier_request _ _ _ => 17
  | go_to_movies_cashier_process _ _ _ => 13
  | go_to_movies_usher_request _ _ _ => 11
  | go_to_movies_usher_process _ _ _ => 7
  | go_to_movies_server_request _ _ _ => 5
  | go_to_movies_server_process _ _ _ => 1
  | purchase_ticket_start _ | check_ticket_start _ | sell_food_start _ => 1
  | _ => 0
  end.

Definition is_resume (cb : Callback) : bool :=
  match cb with
  | Process_resume _ => true
  | _ => false
  end.

(** The number of processes that wait for an event. *)
Definition waiting (cbs : list Callback) : nat := length (List.filter is_resume cbs).

(** What an object stands for in the measure: an event that is still to be
    triggered, the processes to resume, and the weight of a generator. *)
Definition charge (ev : Event) : nat :=
  (match value ev with PENDING => 1 | _ => 0 end) +
  waiting (default [] (callbacks ev)) +
  (match class ev with Process g _ _ => weight g | _ => 0 end).

(** The measure of a state: a step of the event loop makes it smaller. *)
Definition measure (s : State) : nat :=
  length (queue s) + sum_list (charge <$> objects s).

(** [spent c s s']: from [s] to [s'] the measure grows by [c] at most. *)
Definition spent (c : nat) (s s' : State) : Prop := (measure s' <= measure s + c)%nat.

#[local] Instance spent_0_preorder : PreOrder (spent 0).
Proof. split; unfold spent; [intros s; lia | intros a b c; lia]. Qed.

Lemma spent_weaken c c' s s' : (c <= c')%nat -> spent c s s' -> spent c' s s'.
Proof. unfold spent. lia. Qed.

Lemma spent_bind c1 c2 c {A B} (m : M A) (k : A -> M B) s :
  (c1 + c2 <= c)%nat ->
  spent c1 s (final_state (m s)) ->
  (forall a s', m s = Return a s' -> spent c2 s' (final_state (k a s'))) ->
  spent c s (final_state (bind m k s)).
Proof.
  unfold spent. intros L Hm Hk. unfold bind.
  destruct (m s) as [a s'|e s'|s'] eqn:E; cbn [final_state] in *; try lia.
  specialize (Hk a s' eq_refl). lia.
Qed.

Lemma sum_list_insert {A} (f : A -> nat) (l : list A) i x y :
  l !! i = Some x ->
  (sum_list (f <$> <[i := y]> l) + f x = sum_list (f <$> l) + f y)%nat.
Proof.
  revert i. induction l as [|a l IH]; intros i E; [discriminate|].
  destruct i as [|i]; simpl in *.
  - injection E as ->. lia.
  - specialize (IH _ E). unfold fmap in IH. lia.
Qed.

Lemma measure_insert s e ev ev' :
  objects s !! e = Some ev ->
  (measure (set_objects (<[e := ev']> (objects s)) s) + charge ev =
   measure s + charge ev')%nat.
Proof.
  intros E. unfold measure. cbn [queue objects set_objects].
  pose proof (sum_list_insert charge _ _ _ ev' E). lia.
Qed.

Lemma sum_list_snoc (l : list nat) (n : nat) : sum_list (l ++ [n]) = (sum_list l + n)%nat.
Proof. induction l as [|a l IH]; simpl; [lia | rewrite IH; lia]. Qed.

Lemma measure_app s ev :
  measure (set_objects (objects s ++ [ev]) s) = (measure s + charge ev)%nat.
Proof.
  unfold measure. cbn [queue objects set_objects].
  rewrite fmap_app. cbn [fmap list_fmap]. rewrite sum_list_snoc. lia.
Qed.

Create HintDb thrifty discriminated.

Ltac thrifty_tac :=
  repeat first
    [ solve [eauto with thrifty]
    | effect_step
    | unfold spent, measure; cbn; lia ].

Lemma spent_schedule event priority delay : effect (spent 1) (schedule event priority delay).
Proof. intros s. unfold spent, measure. cbn. lia. Qed.

Lemma thrifty_get_event event : effect (spent 0) (get_event event).
Proof. intros s. unfold get_event. thrifty_tac. Qed.
#[local] Hint Resolve thrifty_get_event : thrifty.

Lemma spent_update_event c event f :
  (forall ev, charge (f ev) <= charge ev + c)%nat ->
  effect (spent c) (update_event event f).
Proof.
  intros Hf s. destruct (objects s !! event) as [ev|] eqn:E.
  - rewrite (update_event_Return _ _ _ _ E). cbn [final_state]. unfold spent.
    pose proof (measure_insert s event ev (f ev) E). specialize (Hf ev). lia.
  - unfold update_event, bind. rewrite get_event_unfold, E. unfold spent. cbn. lia.
Qed.

Lemma thrifty_get_theater : effect (spent 0) get_theater.
Proof. intros s. unfold get_theater. thrifty_tac. Qed.
#[local] Hint Resolve thrifty_get_theater : thrifty.

Lemma thrifty_get_resource r : effect (spent 0) (get_resource r).
Proof. intros s. unfold get_resource. thrifty_tac. Qed.
#[local] Hint Resolve thrifty_get_resource : thrifty.

Lemma thrifty_update_resource r f : effect (spent 0) (update_resource r f).
Proof. intros s. unfold update_resource. thrifty_tac. Qed.
#[local] Hint Resolve thrifty_update_resource : thrifty.

Lemma waiting_app cbs cbs' : waiting (cbs ++ cbs') = (waiting cbs + waiting cbs')%nat.
Proof. unfold waiting. rewrite List.filter_app, length_app. reflexivity. Qed.

Lemma spent_callbacks_append event cb :
  effect (spent (waiting [cb])) (callbacks_append event cb).
Proof.
  intros s. unfold callbacks_append, bind. rewrite get_event_unfold.
  destruct (objects s !! event) as [ev|] eqn:E; [|unfold spent; cbn; lia].
  destruct (callbacks ev) as [cbs|] eqn:B; [|unfold spent; cbn; lia].
  rewrite (update_event_Return _ _ _ _ E). cbn [final_state]. unfold spent.
  pose proof (measure_insert s event ev (set_callbacks (Some (cbs ++ [cb])) ev) E) as H.
  unfold charge in H. cbn [value callbacks class set_callbacks default from_option id] in H.
  rewrite B in H. cbn [default from_option id] in H. rewrite waiting_app in H. lia.
Qed.

(** [succeed] triggers an event that was pending and schedules it. *)
Lemma thrifty_succeed event : effect (spent 0) (succeed event).
Proof.
  intros s. unfold succeed, bind. rewrite get_event_unfold.
  destruct (objects s !! event) as [ev|] eqn:E; [|reflexivity].
  unfold triggered. destruct (value ev) eqn:V; try reflexivity.
  rewrite (update_event_Return _ _ _ _ E).
  match goal with |- spent 0 s (final_state (schedule _ _ _ ?s')) => set (s1 := s') end.
  pose proof (measure_insert s event ev (set_value succeeded ev) E) as H. fold s1 in H.
  unfold charge in H. cbn [value callbacks class set_value] in H. rewrite V in H.
  pose proof (spent_schedule event NORMAL 0 s1) as H1. unfold spent in *. lia.
Qed.
#[local] Hint Resolve thrifty_succeed : thrifty.

Lemma thrifty_do_put r event : effect (spent 0) (do_put r event).
Proof. intros s. unfold do_put. thrifty_tac. Qed.
#[local] Hint Resolve thrifty_do_put : thrifty.

Lemma thrifty_do_get r event : effect (spent 0) (do_get r event).
Proof. intros s. unfold do_get. thrifty_tac. Qed.
#[local] Hint Resolve thrifty_do_get : thrifty.

Lemma thrifty_trigger_put r : effect (spent 0) (trigger_put r).
Proof. intros s. unfold trigger_put. thrifty_tac. Qed.
#[local] Hint Resolve thrifty_trigger_put : thrifty.

Lemma thrifty_trigger_get r : effect (spent 0) (trigger_get r).
Proof. intros s. unfold trigger_get. thrifty_tac. Qed.
#[local] Hint Resolve thrifty_trigger_get : thrifty.

Lemma thrifty_randint a b : effect (spent 0) (randint a b).
Proof. intros s. unfold randint, randbelow. thrifty_tac. Qed.
#[local] Hint Resolve thrifty_randint : thrifty.

Lemma thrifty_choice : effect (spent 0) choice_True_False.
Proof. intros s. unfold choice_True_False, randbelow. thrifty_tac. Qed.
#[local] Hint Resolve thrifty_choice : thrifty.

Lemma spent_new_object ev : effect (spent (charge ev)) (new_object ev).
Proof.
  intros s. unfold new_object, bind, get, modify, ret. cbn [final_state].
  unfold spent. rewrite measure_app. lia.
Qed.

Ltac spent_new :=
  eapply spent_weaken; [|apply spent_new_object]; cbn; lia.

Lemma spent_env_timeout delay : effect (spent 1) (env_timeout delay).
Proof.
  intros s. unfold env_timeout.
  destruct (Qcompare delay 0); try (unfold spent; cbn; lia);
    (apply (spent_bind 0 1); [lia | spent_new | intros t s1 _]);
    (apply (spent_bind 1 0); [lia | apply spent_schedule | intros; reflexivity]).
Qed.

Lemma spent_env_process g : effect (spent (3 + weight g)) (env_process g).
Proof.
  intros s. unfold env_process.
  apply (spent_bind (1 + weight g) 2); [lia | spent_new | intros p s1 _].
  apply (spent_bind 1 1); [lia | spent_new | intros i s2 _].
  apply (spent_bind 1 0); [lia | apply spent_schedule | intros; reflexivity].
Qed.

Lemma spent_request r : effect (spent 1) (request r).
Proof.
  intros s. unfold request.
  apply (spent_bind 1 0); [lia | spent_new | intros req s1 _].
  effect_step; [apply thrifty_update_resource|].
  effect_step; [apply (spent_callbacks_append _ (Resource_trigger_get r))|].
  thrifty_tac.
Qed.

Lemma spent_release r req : effect (spent 1) (release r req).
Proof.
  intros s. unfold release.
  apply (spent_bind 1 0); [lia | spent_new | intros rel s1 _].
  effect_step; [apply thrifty_update_resource|].
  effect_step; [apply (spent_callbacks_append _ (Resource_trigger_put r))|].
  thrifty_tac.
Qed.

Lemma spent_Request_exit r req : effect (spent 1) (Request_exit r req).
Proof.
  intros s. unfold Request_exit.
  apply (spent_bind 0 1); [lia | apply thrifty_get_event | intros ev s1 _].
  apply (spent_bind 0 1); [lia | destruct (triggered ev); thrifty_tac | intros ? s2 _].
  apply (spent_bind 1 0); [lia | apply spent_release | intros; reflexivity].
Qed.

(** A resumption [r] from the state [s] pays for itself out of [budget]:
    what the generator may still do afterwards fits in the budget too. *)
Definition pays (budget : nat) (s : State) (r : Result (Generator * option nat)) : Prop :=
  match r with
  | Return (g', _) s' => (measure s' + weight g' <= measure s + budget)%nat
  | Raise _ s' | OutOfFuel s' => (measure s' <= measure s + budget)%nat
  end.

Lemma pays_ret budget s g' y : (weight g' <= budget)%nat -> pays budget s (ret (g', y) s).
Proof. unfold pays, ret. lia. Qed.

Lemma pays_raise budget s e : pays budget s (raise e s).
Proof. unfold pays, raise. lia. Qed.

Lemma pays_bind c budget {A} (m : M A) (k : A -> Resumption) s :
  (c <= budget)%nat ->
  spent c s (final_state (m s)) ->
  (forall a s', m s = Return a s' -> pays (budget - c) s' (k a s')) ->
  pays budget s (bind m k s).
Proof.
  unfold spent. intros L Hm Hk. unfold bind.
  destruct (m s) as [a s'|e s'|s'] eqn:E; cbn [final_state pays] in *; try lia.
  specialize (Hk a s' eq_refl). unfold pays in *.
  destruct (k a s') as [[g' y] s2|e s2|s2]; lia.
Qed.

Lemma pays_purchase_ticket g s : pays (weight g) s (purchase_ticket g s).
Proof.
  unfold purchase_ticket, stop_iteration. destruct g; try (apply pays_ret; cbn; lia).
  apply (pays_bind 0); [cbn; lia | apply thrifty_randint | intros d s1 _].
  apply (pays_bind 1); [cbn; lia | apply spent_env_timeout | intros t s2 _].
  apply pays_ret. cbn. lia.
Qed.

Lemma pays_check_ticket g s : pays (weight g) s (check_ticket g s).
Proof.
  unfold check_ticket, stop_iteration. destruct g; try (apply pays_ret; cbn; lia).
  apply (pays_bind 1); [cbn; lia | apply spent_env_timeout | intros t s2 _].
  apply pays_ret. cbn. lia.
Qed.

Lemma pays_sell_food g s : pays (weight g) s (sell_food g s).
Proof.
  unfold sell_food, stop_iteration. destruct g; try (apply pays_ret; cbn; lia).
  apply (pays_bind 0); [cbn; lia | apply thrifty_randint | intros d s1 _].
  apply (pays_bind 1); [cbn; lia | apply spent_env_timeout | intros t s2 _].
  apply pays_ret. cbn. lia.
Qed.

Lemma pays_leave budget s a :
  pays budget s ((let* s0 := get in
                  wait_times_append (now s0 - a) >> stop_iteration code_go_to_movies) s).
Proof. unfold pays, bind, get, wait_times_append, modify, stop_iteration, ret, measure. cbn. lia. Qed.

Lemma pays_go_to_movies g s : pays (weight g) s (go_to_movies g s).
Proof.
  unfold go_to_movies. destruct g; try (apply pays_ret; cbn; lia); cbn [weight].
  - unfold bind at 1, get at 1.
    apply (pays_bind 1); [lia | apply spent_request | intros req s1 _].
    apply pays_ret. cbn. lia.
  - apply (pays_bind 4); [lia | apply (spent_env_process (purchase_ticket_start _)) |
                          intros p s1 _].
    apply pays_ret. cbn. lia.
  - apply (pays_bind 1); [lia | apply spent_Request_exit | intros ? s1 _].
    apply (pays_bind 1); [lia | apply spent_request | intros req s2 _].
    apply pays_ret. cbn. lia.
  - apply (pays_bind 4); [lia | apply (spent_env_process (check_ticket_start _)) |
                          intros p s1 _].
    apply pays_ret. cbn. lia.
  - apply (pays_bind 1); [lia | apply spent_Request_exit | intros ? s1 _].
    apply (pays_bind 0); [lia | apply thrifty_choice | intros b s2 _].
    destruct b.
    + apply (pays_bind 1); [lia | apply spent_request | intros req s3 _].
      apply pays_ret. cbn. lia.
    + apply pays_leave.
  - apply (pays_bind 4); [lia | apply (spent_env_process (sell_food_start _)) |
                          intros p s1 _].
    apply pays_ret. cbn. lia.
  - apply (pays_bind 1); [lia | apply spent_Request_exit | intros ? s1 _].
    apply pays_leave.
Qed.

Lemma spent_customers ks :
  effect (spent (21 * length ks))
    (for_ ks (fun moviegoer => env_process (go_to_movies_start moviegoer) >> ret tt)).
Proof.
  induction ks as [|k ks IH]; intros s; cbn [for_ length]; [unfold spent; cbn; lia|].
  apply (spent_bind 21 (21 * length ks)); [lia | | intros ? s1 _; apply IH].
  apply (spent_bind 21 0); [lia | apply (spent_env_process (go_to_movies_start k)) |
                            intros; reflexivity].
Qed.

(** [run_theater] pays for itself while the customers it counts come before
    the horizon. *)
Lemma pays_run_theater g s :
  (forall m, g = run_theater_timeout m -> (m <= 450)%Z) ->
  pays (weight g) s (run_theater g s).
Proof.
  intros H. unfold run_theater, stop_iteration.
  destruct g; try (apply pays_ret; cbn; lia).
  - destruct (Theater_init_pure num_cashiers num_servers num_ushers s) as [[e Ti]|[th Ti]];
      unfold bind at 1; rewrite Ti; [unfold pays; lia|].
    apply (pays_bind 0); [lia | unfold spent, measure; cbn; lia | intros ? s1 _].
    apply (pays_bind 63); [cbn; lia | apply (spent_customers (range 3)) | intros ? s2 _].
    apply (pays_bind 1); [cbn; lia | apply spent_env_timeout | intros t s3 _].
    apply pays_ret. cbn. lia.
  - specialize (H _ eq_refl).
    apply (pays_bind 21); [cbn; lia | apply (spent_env_process (go_to_movies_start _)) |
                           intros ? s1 _].
    apply (pays_bind 1); [cbn; lia | apply spent_env_timeout | intros t s2 _].
    apply pays_ret. cbn. lia.
Qed.

Lemma pays_send g s :
  (forall m, g = run_theater_timeout m -> (m <= 450)%Z) ->
  pays (weight g) s (send g s).
Proof.
  intros H. unfold send. destruct (gi_code g).
  - apply pays_run_theater, H.
  - apply pays_go_to_movies.
  - apply pays_purchase_ticket.
  - apply pays_check_ticket.
  - apply pays_sell_food.
Qed.

Lemma spent_throw g e : effect (spent (weight g)) (throw g e).
Proof.
  intros s. unfold throw.
  destruct g; try (unfold spent; cbn; lia);
    (apply (spent_bind 1 0); [cbn; lia | apply spent_Request_exit | intros; reflexivity]).
Qed.

(** *** Nothing but the event loop runs out of fuel *)

Definition ends {A} (r : Result A) : Prop :=
  match r with
  | OutOfFuel _ => False
  | _ => True
  end.

Definition total {A} (m : M A) : Prop := forall s, ends (m s).

Lemma total_bind {A B} (m : M A) (k : A -> M B) :
  total m -> (forall a, total (k a)) -> total (bind m k).
Proof.
  intros Hm Hk s. unfold bind. specialize (Hm s).
  destruct (m s) as [a s'|e s'|s']; [apply Hk | exact I | exact Hm].
Qed.

Lemma total_ret {A} (a : A) : total (ret a).
Proof. intros s. exact I. Qed.

Lemma total_raise {A} e : total (@raise A e).
Proof. intros s. exact I. Qed.

Lemma total_get : total get.
Proof. intros s. exact I. Qed.

Lemma total_modify f : total (modify f).
Proof. intros s. exact I. Qed.

Lemma total_for {A} (l : list A) (body : A -> M unit) :
  (forall x, total (body x)) -> total (for_ l body).
Proof.
  intros H. induction l as [|x l IH]; cbn [for_]; [apply total_ret|].
  apply total_bind; [apply H | intros; exact IH].
Qed.

Create HintDb total discriminated.

Ltac total_tac :=
  repeat first
    [ solve [eauto with total]
    | apply total_ret | apply total_raise | apply total_get | apply total_modify
    | apply total_bind; [|intros ?]
    | apply total_for; intros ?
    | match goal with
      | |- total (match ?x with _ => _ end) => destruct x
      | |- total (lift ?t) => destruct t; cbn [lift]
      end ].

Lemma total_schedule event priority delay : total (schedule event priority delay).
Proof. unfold schedule. total_tac. Qed.
#[local] Hint Resolve total_schedule : total.

Lemma total_new_object ev : total (new_object ev).
Proof. unfold new_object. total_tac. Qed.
#[local] Hint Resolve total_new_object : total.

Lemma total_get_event event : total (get_event event).
Proof. unfold get_event. total_tac. Qed.
#[local] Hint Resolve total_get_event : total.

Lemma total_update_event event f : total (update_event event f).
Proof. unfold update_event. total_tac. Qed.
#[local] Hint Resolve total_update_event : total.

Lemma total_callbacks_append event cb : total (callbacks_append event cb).
Proof. unfold callbacks_append. total_tac. Qed.
#[local] Hint Resolve total_callbacks_append : total.

Lemma total_succeed event : total (succeed event).
Proof. unfold succeed. total_tac. Qed.
#[local] Hint Resolve total_succeed : total.

Lemma total_env_timeout delay : total (env_timeout delay).
Proof. unfold env_timeout. total_tac. Qed.
#[local] Hint Resolve total_env_timeout : total.

Lemma total_env_process g : total (env_process g).
Proof. unfold env_process. total_tac. Qed.
#[local] Hint Resolve total_env_process : total.

Lemma total_get_theater : total get_theater.
Proof. unfold get_theater. total_tac. Qed.
#[local] Hint Resolve total_get_theater : total.

Lemma total_get_resource r : total (get_resource r).
Proof. unfold get_resource. total_tac. Qed.
#[local] Hint Resolve total_get_resource : total.

Lemma total_update_resource r f : total (update_resource r f).
Proof. unfold update_resource. total_tac. Qed.
#[local] Hint Resolve total_update_resource : total.

Lemma total_do_put r event : total (do_put r event).
Proof. unfold do_put. total_tac. Qed.
#[local] Hint Resolve total_do_put : total.

Lemma total_do_get r event : total (do_get r event).
Proof. unfold do_get. total_tac. Qed.
#[local] Hint Resolve total_do_get : total.

Lemma total_trigger_put r : total (trigger_put r).
Proof. unfold trigger_put. total_tac. Qed.
#[local] Hint Resolve total_trigger_put : total.

Lemma total_trigger_get r : total (trigger_get r).
Proof. unfold trigger_get. total_tac. Qed.
#[local] Hint Resolve total_trigger_get : total.

Lemma total_request r : total (request r).
Proof. unfold request. total_tac. Qed.
#[local] Hint Resolve total_request : total.

Lemma total_release r req : total (release r req).
Proof. unfold release. total_tac. Qed.
#[local] Hint Resolve total_release : total.

Lemma total_Request_exit r req : total (Request_exit r req).
Proof. unfold Request_exit. total_tac. Qed.
#[local] Hint Resolve total_Request_exit : total.

Lemma total_randint a b : total (randint a b).
Proof. unfold randint, randbelow. total_tac. Qed.
#[local] Hint Resolve total_randint : total.

Lemma total_choice : total choice_True_False.
Proof. unfold choice_True_False, randbelow. total_tac. Qed.
#[local] Hint Resolve total_choice : total.

Lemma total_Theater_init a b c : total (Theater_init a b c).
Proof. unfold Theater_init, Resource_init. total_tac. Qed.
#[local] Hint Resolve total_Theater_init : total.

Lemma total_send g : total (send g).
Proof.
  unfold send. destruct (gi_code g);
    unfold run_theater, go_to_movies, purchase_ticket, check_ticket, sell_food,
      stop_iteration, wait_times_append;
    total_tac.
Qed.
#[local] Hint Resolve total_send : total.

Lemma total_throw g e : total (throw g e).
Proof. unfold throw. total_tac. Qed.
#[local] Hint Resolve total_throw : total.

Lemma ends_bind {A B} (m : M A) (k : A -> M B) s :
  total m -> (forall a, total (k a)) -> ends (bind m k s).
Proof. intros Hm Hk. apply (total_bind m k Hm Hk). Qed.

Lemma ends_process_outcome p g st rt r : ends r -> ends (process_outcome p g st rt r).
Proof.
  intros H. destruct r as [[g' [t|]] s|e s|s]; cbn [process_outcome]; try exact H.
  - apply ends_bind; [|intros ?]; total_tac.
  - apply ends_bind; [|intros ?]; total_tac.
  - apply ends_bind; [|intros ?]; total_tac.
Qed.

Lemma total_resume p event : total (resume p event).
Proof.
  unfold resume. total_tac.
  intros s. apply ends_process_outcome.
  match goal with |- ends (?m s) => assert (T : total m) by total_tac; apply T end.
Qed.
#[local] Hint Resolve total_resume : total.

Lemma total_call cb event : total (call cb event).
Proof. unfold call. total_tac. Qed.
#[local] Hint Resolve total_call : total.

Lemma total_step : total step.
Proof.
  unfold step. total_tac.
Qed.

(** The outcome of a resumption that pays for itself costs 1 at most: the
    new registration, or the entry of the process in the queue. *)
Lemma spent_process_outcome s p g st st' rt r :
  ends r -> pays (weight g) s r ->
  (exists pe2, objects (final_state r) !! p = Some pe2 /\ class pe2 = Process g st rt) ->
  spent 1 s (final_state (process_outcome p g st' rt r)).
Proof.
  intros En Py (pe2 & E2 & C2).
  assert (W : forall c v, (charge (set_value v (set_class c pe2)) + weight g <=
                           charge pe2 + match c with Process g' _ _ => weight g' | _ => 0 end
                           + match v with PENDING => 1 | _ => 0 end)%nat).
  { intros c v. unfold charge. cbn [value callbacks class set_value set_class].
    rewrite C2. destruct (value pe2), v; lia. }
  destruct r as [[g' [t|]] s2|e s2|s2]; cbn [process_outcome final_state pays] in *;
    try contradiction.
  - unfold bind at 1. rewrite (update_event_Return _ _ _ _ E2).
    match goal with |- context [set_objects ?o s2] => set (s3 := set_objects o s2) end.
    pose proof (measure_insert s2 p pe2 (set_class (Process g' st' rt) pe2) E2) as H.
    fold s3 in H.
    assert (Hc : (charge (set_class (Process g' st' rt) pe2) + weight g =
                  charge pe2 + weight g')%nat).
    { unfold charge. cbn [value callbacks class set_class]. rewrite C2. lia. }
    assert (H3 : spent 1 s3 (final_state
      ((let* tv := get_event t in
        match callbacks tv with
        | Some _ => callbacks_append t (Process_resume p)
        | None => raise (RuntimeError "yielded event was processed")
        end) s3))).
    { apply (spent_bind 0 1); [lia | apply thrifty_get_event | intros tv s4 _].
      destruct (callbacks tv); [apply (spent_callbacks_append t (Process_resume p))|].
      unfold spent. cbn. lia. }
    unfold spent in *. lia.
  - unfold bind at 1. rewrite (update_event_Return _ _ _ _ E2).
    match goal with |- context [set_objects ?o s2] => set (s3 := set_objects o s2) end.
    match goal with
    | s3 := set_objects (<[p := ?new]> _) _ |- _ =>
        pose proof (measure_insert s2 p pe2 new E2) as H
    end.
    fold s3 in H.
    match type of H with
    | context [charge (set_value ?v (set_class ?c pe2))] => pose proof (W c v) as Hw
    end.
    cbn beta iota in Hw.
    pose proof (spent_schedule p NORMAL 0 s3) as H1. unfold spent in *. lia.
  - unfold bind at 1. rewrite (update_event_Return _ _ _ _ E2).
    match goal with |- context [set_objects ?o s2] => set (s3 := set_objects o s2) end.
    match goal with
    | s3 := set_objects (<[p := ?new]> _) _ |- _ =>
        pose proof (measure_insert s2 p pe2 new E2) as H
    end.
    fold s3 in H.
    match type of H with
    | context [charge (set_value ?v (set_class ?c pe2))] => pose proof (W c v) as Hw
    end.
    cbn [weight] in Hw.
    pose proof (spent_schedule p NORMAL 0 s3) as H1. unfold spent in *. lia.
Qed.

Lemma pays_of_spent budget s (r : Result (Generator * option nat)) :
  spent budget s (final_state r) -> (forall a s', r <> Return a s') -> pays budget s r.
Proof.
  intros H N. destruct r as [[g' y] s'|e s'|s']; cbn in *; [|exact H|exact H].
  destruct (N _ _ eq_refl).
Qed.

(** Resuming a process costs 1 at most, while [run_theater] counts customers
    that come before the horizon. *)
Lemma spent_resume p event s :
  (forall pe m st rt, objects s !! p = Some pe ->
     class pe = Process (run_theater_timeout m) st rt -> (m <= 450)%Z) ->
  spent 1 s (final_state (resume p event s)).
Proof.
  intros H. unfold resume. unfold bind at 1. rewrite get_event_unfold.
  destruct (objects s !! p) as [pe|] eqn:Hp; [|unfold spent; cbn; lia].
  cbv beta iota.
  destruct (class pe) as [| | |g st rt| |] eqn:C; try (unfold spent; cbn; lia).
  unfold bind at 1, get at 1. cbv beta iota.
  unfold bind at 1. rewrite get_event_unfold.
  destruct (objects s !! event) as [ev|] eqn:He; [|unfold spent; cbn; lia].
  cbv beta iota.
  assert (Hc : (class <$> objects s) !! p = Some (Process g st rt)).
  { rewrite list_lookup_fmap, Hp. cbn. congruence. }
  assert (Hm : forall m, g = run_theater_timeout m -> (m <= 450)%Z).
  { intros m ->. exact (H _ _ _ _ eq_refl C). }
  destruct (resume_body g s event ev) as [B1 B2]. cbn zeta in B1, B2.
  apply (spent_process_outcome s p g st _ rt).
  - destruct (value ev); try apply total_send. apply ends_bind; [|intros ?]; total_tac.
  - destruct (value ev) as [| |e]; try (apply pays_send; exact Hm).
    apply pays_of_spent.
    + apply (spent_bind 0 (weight g)); [lia | | intros ? s1 _; apply spent_throw].
      apply spent_update_event. intros []; unfold charge; cbn; lia.
    + intros a s' E. apply bind_Return in E as (? & s1 & _ & E).
      destruct (throw_not_Return _ _ _ _ _ E).
  - eapply send_effect_lookup; eassumption.
Qed.

(** Calling a callback costs 1 when it resumes a process, and nothing
    otherwise. *)
Lemma spent_call cb event s :
  (forall p pe m st rt, cb = Process_resume p -> objects s !! p = Some pe ->
     class pe = Process (run_theater_timeout m) st rt -> (m <= 450)%Z) ->
  spent (waiting [cb]) s (final_state (call cb event s)).
Proof.
  intros H. destruct cb as [p|r|r|]; cbn [call].
  - apply spent_resume. intros pe m st rt. apply (H p). reflexivity.
  - apply thrifty_trigger_put.
  - apply thrifty_trigger_get.
  - unfold bind. rewrite get_event_unfold.
    destruct (objects s !! event) as [ev|]; [|reflexivity].
    destruct (value ev); reflexivity.
Qed.

Lemma waiting_cons cb cbs : waiting (cb :: cbs) = (waiting [cb] + waiting cbs)%nat.
Proof. unfold waiting. cbn. destruct (is_resume cb); reflexivity. Qed.

Lemma special_no_timeout s p pe m st rt :
  special s (Process_resume p) = false -> objects s !! p = Some pe ->
  class pe = Process (run_theater_timeout m) st rt -> False.
Proof. intros Sp E C. cbn in Sp. unfold duty in Sp. rewrite E, C in Sp. discriminate Sp. Qed.

Lemma spent_calls cbs event s :
  registered_ok s -> Forall (fun cb => special s cb = false) cbs ->
  spent (waiting cbs) s (final_state (for_ cbs (fun cb => call cb event) s)).
Proof.
  revert s. induction cbs as [|cb cbs IH]; intros s R F; cbn [for_]; [reflexivity|].
  apply Forall_cons in F as [Hcb F]. rewrite waiting_cons.
  apply (spent_bind (waiting [cb]) (waiting cbs)); [lia | |].
  - apply spent_call. intros p pe m st rt -> E C.
    destruct (special_no_timeout _ _ _ _ _ _ Hcb E C).
  - intros [] s' E.
    assert (Q : quiet s s').
    { pose proof (quiet_call cb event s R Hcb) as Q. rewrite E in Q. exact Q. }
    apply IH; [eapply registered_ok_quiet; eassumption|].
    eapply Forall_impl; [exact F|]. cbn. intros c. apply special_quiet, Q.
Qed.

(** Taking an event from the queue pays for the processes that wait for
    it. *)
Lemma measure_popped s m rest ev :
  m :: rest ≡ₚ queue s -> objects s !! entry_event m = Some ev ->
  (measure (popped s m rest ev) + 1 + waiting (default [] (callbacks ev)) =
   measure s)%nat.
Proof.
  intros P E. unfold popped.
  pose proof (measure_insert (set_queue rest (set_now (entry_time m) s)) (entry_event m)
                ev (set_callbacks None ev) E) as H.
  change (objects (set_queue rest (set_now (entry_time m) s))) with (objects s) in H.
  assert (M0 : (measure (set_queue rest (set_now (entry_time m) s)) + 1 = measure s)%nat).
  { unfold measure. cbn [queue objects set_queue set_now].
    apply Permutation_length in P. cbn [length] in P. lia. }
  assert (C : (charge (set_callbacks None ev) + waiting (default [] (callbacks ev)) =
               charge ev)%nat).
  { unfold charge. cbn. lia. }
  match type of H with (measure ?a + _ = _)%nat =>
    change (measure a) with
      (measure (set_objects (<[entry_event m:=set_callbacks None ev]> (objects s))
                 (set_queue rest (set_now (entry_time m) s)))) in H
  end.
  lia.
Qed.

Lemma due_before_horizon m d :
  due (run_theater_timeout m) = Some d -> d < 90 -> (m <= 450)%Z.
Proof.
  cbn. intros E L. injection E as <-.
  destruct (Z_le_gt_dec m 450) as [H|H]; [exact H|exfalso].
  assert (H2 : inject_Z 450 <= inject_Z (m - 1)) by (rewrite <- Zle_Qle; lia).
  set (q := inject_Z (m - 1)) in *. clearbody q.
  assert (H3 : inject_Z 450 == 450) by reflexivity. rewrite H3 in H2. clear H3.
  assert (K : q * (12 / 60) == q * (1 # 5)) by (apply Qmult_comp; reflexivity).
  rewrite K in L. lra.
Qed.

(** A step that returns makes the measure smaller. *)
Lemma step_measure s a s' :
  arrivals_inv s -> step s = Return a s' -> (measure s' < measure s)%nat.
Proof.
  intros I St.
  destruct (queue s) as [|x q] eqn:Eq.
  { unfold step, bind, get in St. rewrite Eq in St. discriminate St. }
  destruct (heappop x q) as [m rest] eqn:Hp.
  destruct (heappop_spec _ _ _ _ Hp) as [P F]. rewrite <- Eq in P. symmetry in P.
  destruct (objects s !! entry_event m) as [ev|] eqn:E.
  2: { unfold step in St. unfold bind at 1, get at 1 in St. rewrite Eq, Hp in St.
       unfold bind at 1, modify at 1 in St. cbv beta iota in St.
       unfold bind at 1 in St. rewrite get_event_unfold in St.
       change (objects (set_queue rest (set_now (entry_time m) s))) with (objects s) in St.
       rewrite E in St. discriminate St. }
  pose proof (measure_popped s m rest ev P E) as Mp.
  rewrite (step_unfold s x q m rest ev Eq Hp E) in St.
  assert (Sp : spent (waiting (default [] (callbacks ev))) (popped s m rest ev)
                 (final_state (for_ (default [] (callbacks ev))
                                 (fun cb => call cb (entry_event m)) (popped s m rest ev)))).
  { destruct (pop_cases s m rest ev I P F E)
      as [B|[Ib [Pl|(p & pe & g & st & rt & d & B & Ep & Cp & D & Nb & Ub)]]].
    - rewrite B. cbn [default from_option id for_].
      apply (spent_bind 0 0); [cbn; lia | | intros; reflexivity].
      apply (spent_call StopSimulation_callback). intros; discriminate.
    - apply spent_calls; [apply Ib | exact Pl].
    - rewrite B. cbn [default from_option id for_].
      apply (spent_bind 1 0); [cbn; lia | | intros; reflexivity].
      apply spent_resume. intros pe' m0 st' rt' Ep' Cp'.
      rewrite Ep in Ep'. injection Ep' as <-. rewrite Cp in Cp'. injection Cp' as -> _ _.
      apply (due_before_horizon m0 d D).
      pose proof (inv_now _ (inv_structure _ Ib)) as L. rewrite Nb in L. exact L. }
  apply bind_Return in St as ([] & s1 & St1 & St2).
  rewrite St1 in Sp. cbn [final_state] in Sp.
  pose proof (step_tail (entry_event m) tt s1) as T. rewrite St2 in T. cbn in T. subst s1.
  unfold spent in Sp. lia.
Qed.

(** The event loop cannot run for more steps than the measure. *)
Lemma step_loop_ends fuel s :
  arrivals_inv s -> (measure s < fuel)%nat -> ends (step_loop fuel s).
Proof.
  revert s. induction fuel as [|fuel IH]; intros s I L; [lia|].
  cbn [step_loop]. unfold bind.
  pose proof (total_step s) as T. pose proof (step_arrivals s I) as [_ A].
  destruct (step s) as [[] s1|e s1|s1] eqn:St; [|exact Logic.I|exact T].
  apply IH; [exact A|]. pose proof (step_measure s tt s1 I St). lia.
Qed.

Lemma measure_starting a b c s : measure (starting a b c s) = 9946%nat.
Proof. reflexivity. Qed.

Lemma total_write text : total (write text).
Proof. unfold write. total_tac. Qed.
#[local] Hint Resolve total_write : total.

Lemma total_input prompt : total (input prompt).
Proof. unfold input. total_tac. Qed.
#[local] Hint Resolve total_input : total.

Lemma total_get_user_input : total get_user_input.
Proof. unfold get_user_input, print2. total_tac. Qed.

Lemma total_main_view_the_results : total main_view_the_results.
Proof. unfold main_view_the_results, print. total_tac. Qed.

Lemma main_run_the_simulation_ends params fuel s :
  (measure (starting 0 0 0 s) < fuel)%nat -> ends (main_run_the_simulation params fuel s).
Proof.
  intros L. unfold main_run_the_simulation.
  destruct params as [|a [|b [|c [|d l]]]]; try exact Logic.I.
  rewrite print_Environment_bind, run_unfold.
  match goal with |- context [step_loop fuel ?s1] =>
    pose proof (step_loop_ends fuel s1 (starting_inv _ _ _ _) L) as E;
    destruct (step_loop fuel s1) as [[] s'|[] s'|s']; try exact Logic.I; exact E
  end.
Qed.

(** X1.  A run of [main] ends, whatever is typed, whatever the staffing and
    whatever [random] draws: the event loop processes 9946 events at most,
    so that with more fuel than that [main] returns or raises.  The bound
    counts, for each of the 452 customers that arrive before the horizon at
    most, the events the customer and [run_theater] can still schedule. *)
Theorem main_ends_within_9946_events (mt : Z -> nat -> N) (extra : nat) (s : State) :
  ending (main mt (9947 + extra) s) <> None.
Proof.
  assert (E : ends (main mt (9947 + extra) s)).
  { rewrite main_unfold.
    pose proof (total_get_user_input (set_random (mt 0%Z) 0%nat s)) as G.
    destruct (get_user_input (set_random (mt 0%Z) 0%nat s)) as [params s1|e s1|s1];
      [|exact Logic.I|exact G].
    apply ends_bind; [|intros _; apply total_main_view_the_results].
    intros s2. apply main_run_the_simulation_ends.
    rewrite measure_starting.
    apply Nat.lt_le_trans with 9947%nat; [apply Nat.lt_succ_diag_r | apply Nat.le_add_r]. }
  destruct (main mt (9947 + extra) s); [discriminate | discriminate | destruct E].
Qed.

(** ** [wait_times] is never reset *)

(** [appends s s']: the samples of [s] are the first samples of [s']. *)
Definition appends (s s' : State) : Prop := wait_times s `prefix_of` wait_times s'.

#[local] Instance appends_preorder : PreOrder appends.
Proof.
  split.
  - intros s. unfold appends. reflexivity.
  - intros a b c H1 H2. unfold appends in *. etransitivity; eassumption.
Qed.

Lemma same_appends s s' : wait_times s' = wait_times s -> appends s s'.
Proof. intros E. unfold appends. rewrite E. reflexivity. Qed.

Lemma keeps_appends s s' : keeps s s' -> appends s s'.
Proof. intros K. apply same_appends, K. Qed.

Lemma grows_appends s s' : grows s s' -> appends s s'.
Proof. intros G. apply same_appends, G. Qed.

Lemma send_effect_appends g s r : send_effect g s r -> appends s (final_state r).
Proof.
  destruct r as [[g' y] s'|e s'|s']; cbn; try apply grows_appends.
  intros [_ W _]. exists (appended g y (now s)). exact W.
Qed.

Ltac appends_tac :=
  repeat first [ effect_step | apply same_appends; reflexivity ].

Lemma appends_update_event event f : effect appends (update_event event f).
Proof. intros s. unfold update_event, get_event. appends_tac. Qed.

Lemma appends_process_outcome p g st rt r :
  appends (final_state r) (final_state (process_outcome p g st rt r)).
Proof.
  destruct r as [[g' [t|]] s|e s|s]; cbn [process_outcome final_state]; try reflexivity.
  - effect_step; [apply appends_update_event|].
    effect_step; [apply keeps_appends, keeps_get_event|].
    destruct (callbacks a0); [apply keeps_appends, keeps_callbacks_append | reflexivity].
  - effect_step; [apply appends_update_event | apply keeps_appends, keeps_schedule].
  - effect_step; [apply appends_update_event | apply keeps_appends, keeps_schedule].
Qed.

Lemma appends_resume p event : effect appends (resume p event).
Proof.
  intros s. unfold resume. unfold bind at 1. rewrite get_event_unfold.
  destruct (objects s !! p) as [pe|] eqn:Hp; [|reflexivity].
  cbv beta iota. destruct (class pe) as [| | |g st rt| |] eqn:C; try reflexivity.
  unfold bind at 1, get at 1. cbv beta iota.
  unfold bind at 1. rewrite get_event_unfold.
  destruct (objects s !! event) as [ev|] eqn:He; [|reflexivity].
  cbv beta iota.
  etransitivity; [|apply appends_process_outcome].
  eapply send_effect_appends. apply (resume_body g s event ev).
Qed.

Lemma appends_call cb event : effect appends (call cb event).
Proof.
  intros s. destruct cb; cbn [call].
  - apply appends_resume.
  - apply keeps_appends, keeps_trigger_put.
  - apply keeps_appends, keeps_trigger_get.
  - apply keeps_appends. keeps_tac.
Qed.

Lemma appends_step : effect appends step.
Proof.
  intros s. unfold step. effect_step.
  destruct (queue s) as [|x q]; [reflexivity|].
  destruct (heappop x q) as [m rest].
  effect_step; [apply same_appends; reflexivity|].
  effect_step; [apply keeps_appends, keeps_get_event|].
  effect_step; [apply appends_update_event|].
  effect_step; [apply (effect_for appends); intros cb; apply appends_call|].
  apply keeps_appends. keeps_tac.
Qed.

Lemma appends_step_loop fuel : effect appends (step_loop fuel).
Proof.
  induction fuel as [|fuel IH]; intros s; cbn [step_loop].
  - reflexivity.
  - effect_step; [apply appends_step | apply IH].
Qed.

Lemma appends_run until fuel : effect appends (run until fuel).
Proof.
  intros s. unfold run. effect_step.
  destruct (Qle_bool until (now s)); [reflexivity|].
  effect_step; [apply grows_appends, grows_new_object; exact I|].
  effect_step; [apply keeps_appends, keeps_schedule|].
  effect_step; [apply keeps_appends, keeps_callbacks_append|].
  match goal with
  | |- context [step_loop fuel ?s1] =>
      pose proof (appends_step_loop fuel s1) as L;
      destruct (step_loop fuel s1) as [[] s2|[] s2|s2]; exact L
  end.
Qed.

Lemma appends_main_run_the_simulation params fuel :
  effect appends (main_run_the_simulation params fuel).
Proof.
  intros s. unfold main_run_the_simulation.
  destruct params as [|a [|b [|c [|d l]]]]; try reflexivity.
  rewrite print_Environment_bind.
  match goal with
  | |- appends _ (final_state (bind _ _ ?s1)) =>
      transitivity s1; [apply same_appends; reflexivity|]
  end.
  effect_step; [apply grows_appends, grows_env_process; reflexivity | apply appends_run].
Qed.

(** X2.  [main] never empties the module-level list [wait_times]: the
    samples that were in it when [main] was called are still its first
    samples at the end, and at every point of the run ([fuel] is any number
    of steps of the event loop): the list is only ever appended to, so that
    the summary of a later call of [main] in the same session is computed
    over the samples of the earlier calls too. *)
Theorem main_keeps_earlier_samples (mt : Z -> nat -> N) (fuel : nat) (s : State) :
  wait_times s `prefix_of` wait_times (final_state (main mt fuel s)).
Proof.
  change (appends s (final_state (main mt fuel s))).
  unfold main, main_setup, random_seed.
  effect_step; [|effect_step].
  - effect_step; [apply same_appends; reflexivity|].
    pose proof (same_store_get_user_input s') as [W _]. apply same_appends, W.
  - apply appends_main_run_the_simulation.
  - pose proof (same_store_main_view_the_results s'0) as [W _]. apply same_appends, W.
Qed.

(** ** The pools never serve more requests than their capacity *)

(** A pool is in order: its capacity is positive, and the requests that
    hold a slot are not more than the capacity. *)
Definition pool_ok (res : Resource) : Prop :=
  (0 < capacity res)%Z /\ (Z.of_nat (length (users res)) <= capacity res)%Z.

(** The three pools of the theater, once it has been created. *)
Definition pools_ok (s : State) : Prop :=
  match theater s with
  | Some t => forall a, pool_ok (getattr a t)
  | None => True
  end.

Definition keeps_pools (s s' : State) : Prop := pools_ok s -> pools_ok s'.

#[local] Instance keeps_pools_preorder : PreOrder keeps_pools.
Proof. split; unfold keeps_pools; [intros s; auto | intros a b c; auto]. Qed.

Lemma same_pools s s' : theater s' = theater s -> keeps_pools s s'.
Proof. intros E. unfold keeps_pools, pools_ok. rewrite E. auto. Qed.

Create HintDb pools discriminated.

Ltac pools_tac :=
  repeat first
    [ solve [eauto with pools]
    | effect_step
    | apply same_pools; reflexivity ].

Lemma pools_schedule event priority delay : effect keeps_pools (schedule event priority delay).
Proof. intros s. unfold schedule. pools_tac. Qed.
#[local] Hint Resolve pools_schedule : pools.

Lemma pools_new_object ev : effect keeps_pools (new_object ev).
Proof. intros s. unfold new_object. pools_tac. Qed.
#[local] Hint Resolve pools_new_object : pools.

Lemma pools_get_event event : effect keeps_pools (get_event event).
Proof. intros s. unfold get_event. pools_tac. Qed.
#[local] Hint Resolve pools_get_event : pools.

Lemma pools_update_event event f : effect keeps_pools (update_event event f).
Proof. intros s. unfold update_event. pools_tac. Qed.
#[local] Hint Resolve pools_update_event : pools.

Lemma pools_callbacks_append event cb : effect keeps_pools (callbacks_append event cb).
Proof. intros s. unfold callbacks_append. pools_tac. Qed.
#[local] Hint Resolve pools_callbacks_append : pools.

Lemma pools_succeed event : effect keeps_pools (succeed event).
Proof. intros s. unfold succeed. pools_tac. Qed.
#[local] Hint Resolve pools_succeed : pools.

Lemma pools_env_timeout delay : effect keeps_pools (env_timeout delay).
Proof. intros s. unfold env_timeout. pools_tac. Qed.
#[local] Hint Resolve pools_env_timeout : pools.

Lemma pools_env_process g : effect keeps_pools (env_process g).
Proof. intros s. unfold env_process. pools_tac. Qed.
#[local] Hint Resolve pools_env_process : pools.

Lemma pools_get_theater : effect keeps_pools get_theater.
Proof. intros s. unfold get_theater. pools_tac. Qed.
#[local] Hint Resolve pools_get_theater : pools.

Lemma pools_get_resource r : effect keeps_pools (get_resource r).
Proof. intros s. unfold get_resource. pools_tac. Qed.
#[local] Hint Resolve pools_get_resource : pools.

#[local] Instance Attr_eq_dec : EqDecision Attr.
Proof. solve_decision. Defined.

Lemma getattr_setattr a r res t :
  getattr a (setattr r res t) = if decide (a = r) then res else getattr a t.
Proof. destruct a, r; reflexivity. Qed.

(** Changing a pool keeps the pools in order when the change does. *)
Lemma pools_update_resource_at r f s :
  (forall t, theater s = Some t -> pool_ok (getattr r t) -> pool_ok (f (getattr r t))) ->
  keeps_pools s (final_state (update_resource r f s)).
Proof.
  intros H P. unfold update_resource, get_theater, bind, get, modify.
  unfold pools_ok in P.
  destruct (theater s) as [t|] eqn:E; cbn [ret raise final_state]; unfold pools_ok;
    [|rewrite E; exact Logic.I].
  cbn. intros a. rewrite getattr_setattr.
  destruct (decide (a = r)) as [->|_]; [apply (H t eq_refl), P | apply P].
Qed.

Lemma pools_update_resource r f :
  (forall res, capacity (f res) = capacity res /\ users (f res) = users res) ->
  effect keeps_pools (update_resource r f).
Proof.
  intros H s. apply pools_update_resource_at. intros t _ [P1 P2].
  destruct (H (getattr r t)) as [C U]. unfold pool_ok. rewrite C, U. auto.
Qed.
#[local] Hint Extern 1 (keeps_pools _ (final_state (update_resource _ _ _))) =>
  apply pools_update_resource; intros ?; split; reflexivity : pools.

Lemma pools_do_put r event : effect keeps_pools (do_put r event).
Proof.
  intros s. unfold do_put. unfold bind at 1.
  unfold get_resource, get_theater, bind at 1, bind at 1, get at 1.
  destruct (theater s) as [t|] eqn:E; cbn [ret raise final_state]; [|reflexivity].
  destruct (Z.of_nat (length (users (getattr r t))) <? capacity (getattr r t))%Z eqn:L;
    [|reflexivity].
  effect_step; [|apply pools_succeed].
  apply pools_update_resource_at. intros t' E'. rewrite E in E'. injection E' as <-.
  intros [P1 P2]. split; [exact P1|]. cbn. rewrite length_app. cbn.
  apply Z.ltb_lt in L. lia.
Qed.
#[local] Hint Resolve pools_do_put : pools.

Lemma list_remove_length x l : (length (list_remove x l) <= length l)%nat.
Proof.
  induction l as [|y l IH]; cbn; [lia|]. destruct (x =? y)%nat; cbn; lia.
Qed.

Lemma pools_do_get r event : effect keeps_pools (do_get r event).
Proof.
  intros s. unfold do_get. effect_step; [apply pools_get_event|].
  destruct (class a) as [| | | | |r0 req]; try reflexivity.
  effect_step; [|apply pools_succeed].
  apply pools_update_resource_at. intros t _ [P1 P2]. split; [exact P1|]. cbn.
  pose proof (list_remove_length req (users (getattr r t))). lia.
Qed.
#[local] Hint Resolve pools_do_get : pools.

Lemma pools_trigger_put r : effect keeps_pools (trigger_put r).
Proof. intros s. unfold trigger_put. pools_tac. Qed.
#[local] Hint Resolve pools_trigger_put : pools.

Lemma pools_trigger_get r : effect keeps_pools (trigger_get r).
Proof. intros s. unfold trigger_get. pools_tac. Qed.
#[local] Hint Resolve pools_trigger_get : pools.

Lemma pools_request r : effect keeps_pools (request r).
Proof. intros s. unfold request. pools_tac. Qed.
#[local] Hint Resolve pools_request : pools.

Lemma pools_release r req : effect keeps_pools (release r req).
Proof. intros s. unfold release. pools_tac. Qed.
#[local] Hint Resolve pools_release : pools.

Lemma pools_Request_exit r req : effect keeps_pools (Request_exit r req).
Proof. intros s. unfold Request_exit. pools_tac. Qed.
#[local] Hint Resolve pools_Request_exit : pools.

Lemma pools_randint a b : effect keeps_pools (randint a b).
Proof. intros s. unfold randint, randbelow. pools_tac. Qed.
#[local] Hint Resolve pools_randint : pools.

Lemma pools_choice : effect keeps_pools choice_True_False.
Proof. intros s. unfold choice_True_False, randbelow. pools_tac. Qed.
#[local] Hint Resolve pools_choice : pools.

Lemma pools_wait_times_append x : effect keeps_pools (wait_times_append x).
Proof. intros s. unfold wait_times_append. pools_tac. Qed.
#[local] Hint Resolve pools_wait_times_append : pools.

(** [Theater.__init__] makes pools that are in order, or raises. *)
Lemma Theater_init_pools a b c s t s' :
  Theater_init a b c s = Return t s' -> s' = s /\ forall r, pool_ok (getattr r t).
Proof.
  unfold Theater_init, Resource_init, bind.
  destruct (a <=? 0)%Z eqn:A; [discriminate|].
  destruct (b <=? 0)%Z eqn:B; [discriminate|].
  destruct (c <=? 0)%Z eqn:C; [discriminate|].
  cbn. intros H. injection H as <- <-. split; [reflexivity|].
  apply Z.leb_gt in A, B, C. intros []; split; cbn; lia.
Qed.

Lemma pools_run_theater g : effect keeps_pools (run_theater g).
Proof.
  intros s. unfold run_theater. destruct g; try solve [unfold stop_iteration; pools_tac].
  unfold bind at 1.
  destruct (Theater_init num_cashiers num_servers num_ushers s) as [t s1|e s1|s1] eqn:T;
    cbn [final_state].
  - apply Theater_init_pools in T as [-> P].
    transitivity (set_theater (Some t) s); [intros _; exact P|].
    unfold bind at 1, modify at 1. pools_tac.
  - destruct (Theater_init_pure num_cashiers num_servers num_ushers s) as [[e' E]|[t E]];
      rewrite E in T; [injection T as <- <-; reflexivity | discriminate].
  - destruct (Theater_init_pure num_cashiers num_servers num_ushers s) as [[e' E]|[t E]];
      rewrite E in T; discriminate.
Qed.

Lemma pools_send g : effect keeps_pools (send g).
Proof.
  intros s. unfold send. destruct (gi_code g).
  - apply pools_run_theater.
  - unfold go_to_movies. destruct g; unfold stop_iteration; pools_tac.
  - unfold purchase_ticket. destruct g; unfold stop_iteration; pools_tac.
  - unfold check_ticket. destruct g; unfold stop_iteration; pools_tac.
  - unfold sell_food. destruct g; unfold stop_iteration; pools_tac.
Qed.
#[local] Hint Resolve pools_send : pools.

Lemma pools_throw g e : effect keeps_pools (throw g e).
Proof. intros s. unfold throw. destruct g; pools_tac. Qed.
#[local] Hint Resolve pools_throw : pools.

Lemma pools_process_outcome p g st rt r :
  keeps_pools (final_state r) (final_state (process_outcome p g st rt r)).
Proof.
  destruct r as [[g' [t|]] s|e s|s]; cbn [process_outcome final_state]; try reflexivity;
    pools_tac.
Qed.

Lemma pools_resume p event : effect keeps_pools (resume p event).
Proof.
  intros s. unfold resume. unfold bind at 1. rewrite get_event_unfold.
  destruct (objects s !! p) as [pe|] eqn:Hp; [|reflexivity].
  cbv beta iota. destruct (class pe) as [| | |g st rt| |] eqn:C; try reflexivity.
  unfold bind at 1, get at 1. cbv beta iota.
  unfold bind at 1. rewrite get_event_unfold.
  destruct (objects s !! event) as [ev|] eqn:He; [|reflexivity].
  cbv beta iota.
  etransitivity; [|apply pools_process_outcome].
  destruct (value ev); pools_tac.
Qed.
#[local] Hint Resolve pools_resume : pools.

Lemma pools_call cb event : effect keeps_pools (call cb event).
Proof. intros s. unfold call. destruct cb; pools_tac. Qed.
#[local] Hint Resolve pools_call : pools.

Lemma pools_step : effect keeps_pools step.
Proof. intros s. unfold step. pools_tac. Qed.

Lemma pools_step_loop fuel : effect keeps_pools (step_loop fuel).
Proof.
  induction fuel as [|fuel IH]; intros s; cbn [step_loop].
  - reflexivity.
  - effect_step; [apply pools_step | apply IH].
Qed.

Lemma pools_run until fuel : effect keeps_pools (run until fuel).
Proof.
  intros s. unfold run. effect_step.
  destruct (Qle_bool until (now s)); [reflexivity|].
  effect_step; [apply pools_new_object|].
  effect_step; [apply pools_schedule|].
  effect_step; [apply pools_callbacks_append|].
  match goal with
  | |- context [step_loop fuel ?s1] =>
      pose proof (pools_step_loop fuel s1) as L;
      destruct (step_loop fuel s1) as [[] s2|[] s2|s2]; exact L
  end.
Qed.

Lemma pools_main_run_the_simulation params fuel :
  effect keeps_pools (main_run_the_simulation params fuel).
Proof.
  intros s. unfold main_run_the_simulation.
  destruct params as [|a [|b [|c [|d l]]]]; try reflexivity.
  rewrite print_Environment_bind.
  match goal with
  | |- keeps_pools _ (final_state (bind _ _ ?s1)) =>
      transitivity s1; [intros _; exact Logic.I|]
  end.
  effect_step; [apply pools_env_process | apply pools_run].
Qed.

Lemma pools_main mt fuel : effect keeps_pools (main mt fuel).
Proof.
  intros s. rewrite main_unfold.
  assert (G : forall s0, keeps_pools s0 (final_state (get_user_input s0))).
  { intros s0. unfold get_user_input, input, print2, write. pools_tac. }
  specialize (G (set_random (mt 0%Z) 0%nat s)).
  destruct (get_user_input (set_random (mt 0%Z) 0%nat s)) as [params s1|e s1|s1];
    cbn [final_state] in *; try exact G.
  etransitivity; [exact G|].
  effect_step; [apply pools_main_run_the_simulation|].
  unfold main_view_the_results, print, write. pools_tac.
Qed.

(** X3.  At the end of [main], and at every point of its run ([fuel] is any
    number of steps of the event loop), each of the three pools of the
    theater has a positive capacity and no more requests holding a slot
    than its capacity: a cashier, an usher or a server never serves two
    customers at a time. *)
Theorem pools_never_exceed_their_capacity
    (mt : Z -> nat -> N) (fuel : nat) (tape : nat -> N) (typed : list Py.str) :
  match theater (final_state (main mt fuel (session tape typed))) with
  | Some t =>
      forall a, (0 < capacity (getattr a t))%Z /\
                (Z.of_nat (length (users (getattr a t))) <= capacity (getattr a t))%Z
  | None => True
  end.
Proof. apply (pools_main mt fuel (session tape typed)). exact Logic.I. Qed.

(** ** What [get_user_input] does with every three entries *)

(** A character with a decimal value, and the value. *)
Definition is_decimal (c : N) : bool :=
  match Py.to_decimal c with Some _ => true | None => false end.

Definition decimal_digit (c : N) : Z := Z.of_N (default 0%N (Py.to_decimal c)).

(** A string of decimal characters, at least one, and the number it spells
    in base 10. *)
Definition decimal_string (x : Py.str) : bool :=
  match x with
  | [] => false
  | _ => forallb is_decimal x
  end.

Definition decimal_value (x : Py.str) : Z :=
  fold_left (fun acc c => (10 * acc + decimal_digit c)%Z) x 0%Z.

Lemma to_decimal_in_Some runs c d :
  Py.to_decimal_in runs c = Some d ->
  exists first len, In (first, len) runs /\
    (first <= c < first + len)%N /\ d = ((c - first) mod 10)%N.
Proof.
  induction runs as [|[first len] runs IH]; cbn [Py.to_decimal_in]; [discriminate|].
  destruct ((first <=? c) && (c <? first + len))%N eqn:T.
  - intros H. injection H as <-. exists first, len.
    apply andb_true_iff in T as [T1 T2]. apply N.leb_le in T1. apply N.ltb_lt in T2.
    split; [left; reflexivity|]. split; [lia | reflexivity].
  - intros H. destruct (IH H) as (f & l & I & R). exists f, l. split; [right; exact I | exact R].
Qed.

(** The only decimal characters below 127 are the ASCII digits. *)
Lemma to_decimal_ascii c d :
  Py.to_decimal c = Some d -> (c < 127)%N -> (48 <= c <= 57)%N /\ d = (c - 48)%N.
Proof.
  intros H L. apply to_decimal_in_Some in H as (first & len & I & R & ->).
  assert (F : forallb (fun r => (fst r =? 48)%N && (snd r =? 10)%N || (127 <=? fst r)%N)
                Py.decimal_runs = true) by (vm_compute; reflexivity).
  rewrite forallb_forall in F. specialize (F _ I). cbn [fst snd] in F.
  apply orb_true_iff in F as [F|F].
  - apply andb_true_iff in F as [F1 F2]. apply N.eqb_eq in F1, F2. subst.
    split; [lia|]. apply N.mod_small. lia.
  - apply N.leb_le in F. lia.
Qed.

Lemma to_decimal_lt_10 c d : Py.to_decimal c = Some d -> (d < 10)%N.
Proof.
  intros H. apply to_decimal_in_Some in H as (first & len & _ & _ & ->).
  apply N.mod_lt. discriminate.
Qed.

Lemma isspace_char_In c : Py.isspace_char c = true -> In c Py.whitespace.
Proof.
  unfold Py.isspace_char. rewrite existsb_exists. intros (x & I & E).
  apply N.eqb_eq in E. subst. exact I.
Qed.

(** No whitespace character is a digit. *)
Lemma isspace_not_digit c : Py.isspace_char c = true -> Py.isdigit_char c = false.
Proof.
  intros H. apply isspace_char_In in H.
  assert (F : forallb (fun x => negb (Py.isdigit_char x)) Py.whitespace = true)
    by (vm_compute; reflexivity).
  rewrite forallb_forall in F. apply negb_true_iff, F, H.
Qed.

Lemma is_decimal_isdigit c : is_decimal c = true -> Py.isdigit_char c = true.
Proof. unfold is_decimal, Py.isdigit_char. destruct (Py.to_decimal c); [reflexivity | discriminate]. Qed.

(** A digit that is not decimal lies above the ASCII characters. *)
Lemma other_digit_above c :
  Py.isdigit_char c = true -> is_decimal c = false -> (127 <= c)%N.
Proof.
  unfold Py.isdigit_char, is_decimal. destruct (Py.to_decimal c); [discriminate|].
  rewrite existsb_exists. intros ([lo hi] & I & R) _.
  assert (F : forallb (fun r => (127 <=? fst r)%N) Py.digit_only_ranges = true)
    by (vm_compute; reflexivity).
  rewrite forallb_forall in F. specialize (F _ I). cbn in F. apply N.leb_le in F.
  unfold Py.in_range in R. cbn in R. apply andb_true_iff in R as [R _].
  apply N.leb_le in R. lia.
Qed.

(** What the first stage of [int] makes of a decimal character: the ASCII
    digit of the same value. *)
Definition to_ascii (c : N) : N := (48 + default 0 (Py.to_decimal c))%N.

Lemma transform_decimal c rest :
  is_decimal c = true ->
  Py.transform_decimal_and_space (c :: rest) =
    to_ascii c :: Py.transform_decimal_and_space rest.
Proof.
  unfold is_decimal, to_ascii. intros H.
  destruct (Py.to_decimal c) as [d|] eqn:D; [|discriminate]. cbn [default from_option id].
  cbn [Py.transform_decimal_and_space].
  destruct (c <? 127)%N eqn:L.
  - apply N.ltb_lt in L. destruct (to_decimal_ascii _ _ D L) as [R ->].
    f_equal. lia.
  - destruct (Py.isspace_char c) eqn:Sp.
    + apply isspace_not_digit in Sp. unfold Py.isdigit_char in Sp. rewrite D in Sp.
      discriminate.
    + rewrite D. reflexivity.
Qed.

Lemma ascii_digit_to_ascii c :
  is_decimal c = true -> Py.ascii_digit (to_ascii c) = Some (decimal_digit c).
Proof.
  unfold is_decimal, to_ascii, decimal_digit, Py.ascii_digit. intros H.
  destruct (Py.to_decimal c) as [d|] eqn:D; [|discriminate]. cbn [default from_option id].
  pose proof (to_decimal_lt_10 _ _ D) as L.
  replace ((48 <=? 48 + d) && (48 + d <=? 57))%N with true.
  - do 2 f_equal. lia.
  - symmetry. apply andb_true_iff. split; apply N.leb_le; lia.
Qed.

Lemma ascii_digit_range c d : Py.ascii_digit c = Some d -> (48 <= c <= 57)%N.
Proof.
  unfold Py.ascii_digit. destruct ((48 <=? c) && (c <=? 57))%N eqn:T; [|discriminate].
  intros _. apply andb_true_iff in T as [T1 T2]. apply N.leb_le in T1, T2. lia.
Qed.

(** The digit scan reads a run of ASCII digits to its end. *)
Lemma scan_digits_decimal x b acc :
  forallb is_decimal x = true ->
  (forall c rest, b = c :: rest -> (c =? 95)%N = false /\ Py.ascii_digit c = None) ->
  Py.scan_digits (map to_ascii x ++ b) acc false =
    Some (fold_left (fun acc c => (10 * acc + decimal_digit c)%Z) x acc, b).
Proof.
  revert acc. induction x as [|c x IH]; intros acc F Hb.
  - cbn. destruct b as [|c rest]; [reflexivity|].
    destruct (Hb c rest eq_refl) as [U D]. cbn [Py.scan_digits]. rewrite U, D. reflexivity.
  - cbn [forallb] in F. apply andb_true_iff in F as [Fc F].
    cbn [map app Py.scan_digits fold_left].
    pose proof (ascii_digit_to_ascii c Fc) as D. rewrite D.
    replace (to_ascii c =? 95)%N with false.
    + apply IH; assumption.
    + symmetry. apply N.eqb_neq. apply ascii_digit_range in D. lia.
Qed.

(** Blanks and signs are no digits. *)
Lemma long_from_string_digit c rest :
  (48 <= c <= 57)%N ->
  Py.long_from_string (c :: rest) =
    match Py.scan_digits (c :: rest) 0 false with
    | None => Raises Py.invalid_literal
    | Some (v, rest') =>
        match Py.skip_spaces rest' with
        | [] => Returns v
        | _ :: _ => Raises Py.invalid_literal
        end
    end.
Proof.
  intros R.
  assert (C : (c = 48 \/ c = 49 \/ c = 50 \/ c = 51 \/ c = 52 \/ c = 53 \/ c = 54 \/
               c = 55 \/ c = 56 \/ c = 57)%N) by lia.
  assert (E : forall v : Z, (1 * v = v)%Z) by (intros; lia).
  unfold Py.long_from_string.
  repeat (destruct C as [->|C]; [cbn [Py.skip_spaces Py.c_isspace Py.ascii_digit N.leb N.eqb
            N.compare Pos.compare Pos.compare_cont Pos.eqb andb orb];
          destruct (Py.scan_digits _ 0 false) as [[v r]|]; [|reflexivity];
          destruct (Py.skip_spaces r); [rewrite E|]; reflexivity|]).
  subst c. cbn [Py.skip_spaces Py.c_isspace Py.ascii_digit N.leb N.eqb
            N.compare Pos.compare Pos.compare_cont Pos.eqb andb orb].
  destruct (Py.scan_digits _ 0 false) as [[v r]|]; [|reflexivity].
  destruct (Py.skip_spaces r); [rewrite E|]; reflexivity.
Qed.

Lemma transform_decimals x b :
  forallb is_decimal x = true ->
  Py.transform_decimal_and_space (x ++ b) =
    map to_ascii x ++ Py.transform_decimal_and_space b.
Proof.
  induction x as [|c x IH]; [reflexivity|]. cbn [forallb app map]. intros F.
  apply andb_true_iff in F as [Fc F]. rewrite (transform_decimal _ _ Fc), (IH F).
  reflexivity.
Qed.

(** The first stage of [int] ends at a digit that is not decimal. *)
Lemma transform_other_digit c rest :
  Py.isdigit_char c = true -> is_decimal c = false ->
  Py.transform_decimal_and_space (c :: rest) = [63%N].
Proof.
  intros D N. pose proof (other_digit_above c D N) as L.
  cbn [Py.transform_decimal_and_space].
  replace (c <? 127)%N with false by (symmetry; apply N.ltb_ge; exact L).
  destruct (Py.isspace_char c) eqn:Sp.
  - apply isspace_not_digit in Sp. congruence.
  - unfold is_decimal in N. destruct (Py.to_decimal c); [discriminate | reflexivity].
Qed.

(** A string of digits is decimal, or has a first digit that is not. *)
Lemma first_other_digit x :
  forallb Py.isdigit_char x = true ->
  forallb is_decimal x = true \/
  exists pre c post,
    x = pre ++ c :: post /\ forallb is_decimal pre = true /\
    Py.isdigit_char c = true /\ is_decimal c = false.
Proof.
  induction x as [|c x IH]; [left; reflexivity|]. cbn [forallb]. intros F.
  apply andb_true_iff in F as [Fc F].
  destruct (is_decimal c) eqn:D.
  - destruct (IH F) as [A|(pre & c' & post & -> & P & Dc & Nc)]; [left; exact A|].
    right. exists (c :: pre), c', post. cbn [forallb app]. rewrite D, P. auto.
  - right. exists [], c, x. auto.
Qed.

Lemma to_ascii_range c : is_decimal c = true -> (48 <= to_ascii c <= 57)%N.
Proof. intros D. eapply ascii_digit_range, ascii_digit_to_ascii, D. Qed.

(** [int] on a string that [isdigit] accepts: the number that the string
    spells when all its characters are decimal, and ValueError otherwise. *)
Lemma int_isdigit x :
  Py.isdigit x = true ->
  Py.int x = if decimal_string x then Returns (decimal_value x)
             else Raises Py.invalid_literal.
Proof.
  unfold Py.isdigit, decimal_string, Py.int. destruct x as [|c0 x0]; [discriminate|].
  set (x := c0 :: x0). intros F.
  destruct (first_other_digit x F) as [A|(pre & c & post & E & P & Dc & Nc)].
  - rewrite A. rewrite <- (app_nil_r x), (transform_decimals x [] A).
    cbn [Py.transform_decimal_and_space]. unfold x at 1. cbn [map app].
    assert (A0 : is_decimal c0 = true).
    { unfold x in A. cbn [forallb] in A. apply andb_true_iff in A as [A _]. exact A. }
    rewrite (long_from_string_digit _ _ (to_ascii_range c0 A0)).
    change (to_ascii c0 :: map to_ascii x0 ++ []) with (map to_ascii x ++ []).
    rewrite (scan_digits_decimal x [] 0 A) by (intros ? ? H; discriminate H).
    rewrite app_nil_r. reflexivity.
  - replace (forallb is_decimal x) with false.
    2: { rewrite E, forallb_app. cbn [forallb]. rewrite Nc, andb_false_r. reflexivity. }
    rewrite E, (transform_decimals pre _ P), (transform_other_digit c post Dc Nc).
    destruct pre as [|p0 pre0]; [reflexivity|].
    assert (P0 : is_decimal p0 = true).
    { cbn [forallb] in P. apply andb_true_iff in P as [P _]. exact P. }
    cbn [map app]. rewrite (long_from_string_digit _ _ (to_ascii_range p0 P0)).
    change (to_ascii p0 :: map to_ascii pre0 ++ [63%N])
      with (map to_ascii (p0 :: pre0) ++ [63%N]).
    rewrite (scan_digits_decimal (p0 :: pre0) [63%N] 0 P).
    + reflexivity.
    + intros c1 r1 H. injection H as <- <-. split; reflexivity.
Qed.

Lemma decimal_string_isdigit x : decimal_string x = true -> Py.isdigit x = true.
Proof.
  unfold decimal_string, Py.isdigit. destruct x as [|c x]; [discriminate|].
  generalize (c :: x). clear. intros l F. induction l as [|a l IH]; [reflexivity|].
  cbn [forallb] in *. apply andb_true_iff in F as [Fa F].
  rewrite (is_decimal_isdigit a Fa), (IH F). reflexivity.
Qed.

Lemma decimal_value_nonneg x : (0 <= decimal_value x)%Z.
Proof.
  unfold decimal_value.
  assert (G : forall acc, (0 <= acc)%Z ->
            (0 <= fold_left (fun acc c => 10 * acc + decimal_digit c) x acc)%Z).
  { induction x as [|c x IH]; intros acc H; cbn [fold_left]; [exact H|].
    apply IH. unfold decimal_digit. lia. }
  apply G. lia.
Qed.

(** The three entries are parsed in turn; every failure of [int] is the
    same exception. *)
Lemma map_int_isdigit a b c :
  forallb Py.isdigit [a; b; c] = true ->
  map_int [a; b; c] =
    if forallb decimal_string [a; b; c]
    then Returns [decimal_value a; decimal_value b; decimal_value c]
    else Raises Py.invalid_literal.
Proof.
  cbn [forallb]. rewrite andb_true_r. intros F.
  apply andb_true_iff in F as [Fa F]. apply andb_true_iff in F as [Fb Fc].
  cbn [map_int]. rewrite (int_isdigit a Fa), (int_isdigit b Fb), (int_isdigit c Fc).
  destruct (decimal_string a), (decimal_string b), (decimal_string c); reflexivity.
Qed.

Lemma get_user_input_parses_decimal_entries_aux s a b c rest :
  stdin s = a :: b :: c :: rest ->
  forallb Py.isdigit [a; b; c] = true ->
  forallb decimal_string [a; b; c] = true ->
  get_user_input s =
    Return [decimal_value a; decimal_value b; decimal_value c]
      (set_stdin rest (set_stdout (stdout s ++ prompts) s)).
Proof.
  intros H F D. rewrite (get_user_input_unfold _ _ _ _ _ H).
  rewrite F, (map_int_isdigit a b c F), D. reflexivity.
Qed.



(** X5.  When the three entries pass [str.isdigit] and one of them has a
    character that is a digit without being decimal (a superscript, a
    circled digit, ...), [get_user_input] raises the ValueError of [int]:
    it returns nothing and prints no warning, whatever the other entries
    are. *)
Theorem get_user_input_raises_on_digits_that_are_not_decimal
    (s : State) (a b c : Py.str) (rest : list Py.str) :
  stdin s = a :: b :: c :: rest ->
  forallb Py.isdigit [a; b; c] = true ->
  forallb decimal_string [a; b; c] = false ->
  get_user_input s =
    Raise Py.invalid_literal (set_stdin rest (set_stdout (stdout s ++ prompts) s)).
Proof.
  intros H F D. rewrite (get_user_input_unfold _ _ _ _ _ H).
  rewrite F, (map_int_isdigit a b c F), D. reflexivity.
Qed.

(** One cashier, servers entered as the circled digit two (U+2461), 45
    ushers. *)
Lemma get_user_input_raises_on_digits_that_are_not_decimal_witness :
  get_user_input (session (fun _ => 0%N) [Py.lit "1"; [9313%N]; Py.lit "45"]) =
    Raise Py.invalid_literal (mkState [] prompts (fun _ => 0%N) 0%nat [] 0 [] 0%nat [] None).
Proof.
  exact (get_user_input_raises_on_digits_that_are_not_decimal
           (session (fun _ => 0%N) [Py.lit "1"; [9313%N]; Py.lit "45"])
           (Py.lit "1") [9313%N] (Py.lit "45") [] eq_refl eq_refl eq_refl).
Defined.

(** X6.  When one of the three entries fails [str.isdigit] (it is empty, or
    has a character that is no digit: a sign, a blank, a decimal point, a
    letter), [get_user_input] returns [1, 1, 1] and prints the warning
    after the prompts: the other two entries are dropped even when they are
    numbers. *)
Theorem get_user_input_falls_back_to_defaults
    (s : State) (a b c x : Py.str) (rest : list Py.str) :
  stdin s = a :: b :: c :: rest ->
  In x [a; b; c] -> Py.isdigit x = false ->
  get_user_input s =
    Return [1; 1; 1]%Z (set_stdout (stdout s ++ prompts ++ warning) (set_stdin rest s)).
Proof.
  intros H I D. apply (get_user_input_default s a b c rest H).
  apply not_true_is_false. intros F. rewrite forallb_forall in F.
  rewrite (F x I) in D. discriminate D.
Qed.

(** 4 cashiers, "-2" servers, 3 ushers. *)
Lemma get_user_input_falls_back_to_defaults_witness :
  get_user_input (session (fun _ => 0%N) [Py.lit "4"; Py.lit "-2"; Py.lit "3"]) =
    Return [1; 1; 1]%Z
      (mkState [] (prompts ++ warning) (fun _ => 0%N) 0%nat [] 0 [] 0%nat [] None).
Proof.
  exact (get_user_input_falls_back_to_defaults
           (session (fun _ => 0%N) [Py.lit "4"; Py.lit "-2"; Py.lit "3"])
           (Py.lit "4") (Py.lit "-2") (Py.lit "3") (Py.lit "-2") []
           eq_refl (or_intror (or_introl eq_refl)) eq_refl).
Defined.

Lemma get_user_input_EOF s :
  (length (stdin s) < 3)%nat -> exists s', get_user_input s = Raise EOFError s'.
Proof.
  intros L. unfold get_user_input, input, bind, write, modify, get, ret, raise. cbn.
  destruct (stdin s) as [|a [|b [|c rest]]]; cbn in *; try lia; eauto.
Qed.

(** X7.  Whatever is typed, the parameters that [get_user_input] returns
    are three integers none of which is negative: a sign fails
    [str.isdigit].  Zero is not excluded. *)
Theorem get_user_input_returns_three_naturals (s : State) (params : list Z) (s' : State) :
  get_user_input s = Return params s' ->
  exists num_cashiers num_servers num_ushers,
    params = [num_cashiers; num_servers; num_ushers] /\
    (0 <= num_cashiers)%Z /\ (0 <= num_servers)%Z /\ (0 <= num_ushers)%Z.
Proof.
  intros H. destruct (stdin s) as [|a [|b [|c rest]]] eqn:E.
  1-3: destruct (get_user_input_EOF s) as [s1 R]; [rewrite E; cbn; lia | congruence].
  destruct (forallb Py.isdigit [a; b; c]) eqn:F.
  - destruct (forallb decimal_string [a; b; c]) eqn:D.
    + rewrite (get_user_input_parses_decimal_entries_aux s a b c rest E F D) in H.
      injection H as <- _. do 3 eexists. split; [reflexivity|].
      repeat split; apply decimal_value_nonneg.
    + rewrite (get_user_input_unfold _ _ _ _ _ E), F, (map_int_isdigit a b c F), D in H.
      discriminate H.
  - rewrite (get_user_input_default s a b c rest E F) in H. injection H as <- _.
    exists 1%Z, 1%Z, 1%Z. repeat split; lia.
Qed.

Lemma get_user_input_returns_three_naturals_witness :
  exists num_cashiers num_servers num_ushers,
    [0; 20; 3]%Z = [num_cashiers; num_servers; num_ushers] /\
    (0 <= num_cashiers)%Z /\ (0 <= num_servers)%Z /\ (0 <= num_ushers)%Z.
Proof.
  exact (get_user_input_returns_three_naturals
           (session (fun _ => 0%N) [Py.lit "0"; Py.lit "20"; Py.lit "3"]) [0; 20; 3]%Z
           (mkState [] prompts (fun _ => 0%N) 0%nat [] 0 [] 0%nat [] None) eq_refl).
Defined.

(** *** Numbers as [str] prints them *)

Definition numeral (d : Decimal.uint) : Py.str := Py.lit (NilEmpty.string_of_uint d).

Lemma numeral_decimal d : forallb is_decimal (numeral d) = true.
Proof.
  unfold numeral, Py.lit.
  induction d; cbn [NilEmpty.string_of_uint list_ascii_of_string map forallb];
    [reflexivity | rewrite IHd; reflexivity ..].
Qed.

Lemma numeral_value_acc d acc :
  fold_left (fun acc c => (10 * acc + decimal_digit c)%Z) (numeral d) (Z.pos acc) =
    Z.pos (Pos.of_uint_acc d acc).
Proof.
  unfold numeral, Py.lit. revert acc.
  induction d; intros acc;
    cbn [NilEmpty.string_of_uint list_ascii_of_string map fold_left Pos.of_uint_acc];
    [reflexivity | rewrite <- IHd; f_equal ..].
  all: match goal with
       | |- (_ + decimal_digit ?c)%Z = _ =>
           let v := eval vm_compute in (decimal_digit c) in
           change (decimal_digit c) with v; lia
       end.
Qed.

Lemma numeral_value d : decimal_value (numeral d) = Z.of_N (Pos.of_uint d).
Proof.
  unfold decimal_value.
  induction d; [reflexivity | ..].
  - exact IHd.
  - exact (numeral_value_acc d 1).
  - exact (numeral_value_acc d 2).
  - exact (numeral_value_acc d 3).
  - exact (numeral_value_acc d 4).
  - exact (numeral_value_acc d 5).
  - exact (numeral_value_acc d 6).
  - exact (numeral_value_acc d 7).
  - exact (numeral_value_acc d 8).
  - exact (numeral_value_acc d 9).
Qed.

(** [str(n)] for a number that is not negative: a decimal string that
    spells [n]. *)
Lemma str_of_int_decimal n :
  (0 <= n)%Z ->
  decimal_string (Py.lit (Py.str_of_int n)) = true /\
  decimal_value (Py.lit (Py.str_of_int n)) = n.
Proof.
  intros H. destruct n as [|p|p]; [split; reflexivity | | lia].
  unfold Py.str_of_int. cbn [Z.to_int NilZero.string_of_int].
  pose proof (DecimalPos.Unsigned.of_to p) as E.
  assert (S : NilZero.string_of_uint (Pos.to_uint p) =
              NilEmpty.string_of_uint (Pos.to_uint p)).
  { destruct (Pos.to_uint p); [discriminate E | reflexivity ..]. }
  rewrite S. fold (numeral (Pos.to_uint p)). split.
  - unfold decimal_string. pose proof (numeral_decimal (Pos.to_uint p)) as D.
    destruct (numeral (Pos.to_uint p)) eqn:N; [|exact D].
    pose proof (numeral_value (Pos.to_uint p)) as V. rewrite N, E in V. discriminate V.
  - rewrite numeral_value, E. reflexivity.
Qed.



(** ** How far the reported time is from the mean *)

(** [round] moves a number by half a unit at most. *)
Lemma round_near (x : Q) : x - (1 # 2) <= inject_Z (round x) /\ inject_Z (round x) <= x + (1 # 2).
Proof.
  unfold round.
  pose proof (Qfloor_le x) as L. pose proof (Qlt_floor x) as U.
  rewrite inject_Z_plus in U. change (inject_Z 1) with 1 in U.
  destruct (Qcompare_spec (x - inject_Z (Qfloor x)) (1 # 2)) as [E|E|E].
  - destruct (Z.even (Qfloor x)); rewrite ?inject_Z_plus; change (inject_Z 1) with 1; lra.
  - lra.
  - rewrite inject_Z_plus. change (inject_Z 1) with 1. lra.
Qed.

Lemma calculate_wait_time_Returns samples minutes seconds :
  calculate_wait_time samples = Returns (minutes, seconds) ->
  samples <> [] /\
  minutes = Qfloor (arithmetic_mean samples) /\
  seconds = round (fractional_part (arithmetic_mean samples) * 60).
Proof.
  intros H. destruct samples as [|x l]; [discriminate H|].
  split; [discriminate|].
  rewrite calculate_wait_time_nonempty in H by discriminate.
  injection H as <- <-. split; [apply round_inject_Z | reflexivity].
Qed.




(** ** The clock and the samples stay within the horizon *)

(** [ticks s s']: the clock has not moved, and what has been added to the
    queue is scheduled for now or later. *)
Definition ticks (s s' : State) : Prop :=
  now s' = now s /\
  Forall (fun x => In x (queue s) \/ now s <= entry_time x) (queue s').

#[local] Instance ticks_preorder : PreOrder ticks.
Proof.
  split.
  - intros s. split; [reflexivity|]. apply Forall_forall. intros x I.
    left. apply list_elem_of_In, I.
  - intros a b c [N1 Q1] [N2 Q2]. split; [congruence|].
    rewrite Forall_forall in *. intros x I. destruct (Q2 x I) as [J|J].
    + apply Q1, list_elem_of_In, J.
    + right. rewrite <- N1. exact J.
Qed.

Lemma same_ticks s s' : now s' = now s -> queue s' = queue s -> ticks s s'.
Proof. intros N Q. split; [exact N|]. rewrite Q. apply (@reflexivity _ ticks _ s). Qed.

Create HintDb ticks discriminated.

Ltac ticks_tac :=
  repeat first
    [ solve [eauto with ticks]
    | effect_step
    | apply same_ticks; reflexivity ].

Lemma ticks_schedule event priority delay :
  0 <= delay -> effect ticks (schedule event priority delay).
Proof.
  intros D s. unfold schedule. cbn [final_state modify]. split; [reflexivity|].
  cbn [queue set_eid set_queue]. constructor.
  - right. cbn. rewrite Qred_correct. lra.
  - apply Forall_forall. intros x I. left. apply list_elem_of_In, I.
Qed.
#[local] Hint Extern 1 (ticks _ (final_state (schedule _ _ 0 _))) =>
  apply ticks_schedule; apply Qle_refl : ticks.

Lemma ticks_new_object ev : effect ticks (new_object ev).
Proof. intros s. unfold new_object. ticks_tac. Qed.
#[local] Hint Resolve ticks_new_object : ticks.

Lemma ticks_get_event event : effect ticks (get_event event).
Proof. intros s. unfold get_event. ticks_tac. Qed.
#[local] Hint Resolve ticks_get_event : ticks.

Lemma ticks_update_event event f : effect ticks (update_event event f).
Proof. intros s. unfold update_event. ticks_tac. Qed.
#[local] Hint Resolve ticks_update_event : ticks.

Lemma ticks_callbacks_append event cb : effect ticks (callbacks_append event cb).
Proof. intros s. unfold callbacks_append. ticks_tac. Qed.
#[local] Hint Resolve ticks_callbacks_append : ticks.

Lemma ticks_succeed event : effect ticks (succeed event).
Proof. intros s. unfold succeed. ticks_tac. Qed.
#[local] Hint Resolve ticks_succeed : ticks.

Lemma ticks_env_timeout delay : effect ticks (env_timeout delay).
Proof.
  intros s. unfold env_timeout.
  destruct (Qcompare_spec delay 0) as [E|E|E]; [|reflexivity|].
  - effect_step; [apply ticks_new_object|].
    effect_step; [apply ticks_schedule; lra | reflexivity].
  - effect_step; [apply ticks_new_object|].
    effect_step; [apply ticks_schedule; lra | reflexivity].
Qed.
#[local] Hint Resolve ticks_env_timeout : ticks.

Lemma ticks_env_process g : effect ticks (env_process g).
Proof. intros s. unfold env_process. ticks_tac. Qed.
#[local] Hint Resolve ticks_env_process : ticks.

Lemma ticks_get_theater : effect ticks get_theater.
Proof. intros s. unfold get_theater. ticks_tac. Qed.
#[local] Hint Resolve ticks_get_theater : ticks.

Lemma ticks_get_resource r : effect ticks (get_resource r).
Proof. intros s. unfold get_resource. ticks_tac. Qed.
#[local] Hint Resolve ticks_get_resource : ticks.

Lemma ticks_update_resource r f : effect ticks (update_resource r f).
Proof. intros s. unfold update_resource. ticks_tac. Qed.
#[local] Hint Resolve ticks_update_resource : ticks.

Lemma ticks_do_put r event : effect ticks (do_put r event).
Proof. intros s. unfold do_put. ticks_tac. Qed.
#[local] Hint Resolve ticks_do_put : ticks.

Lemma ticks_do_get r event : effect ticks (do_get r event).
Proof. intros s. unfold do_get. ticks_tac. Qed.
#[local] Hint Resolve ticks_do_get : ticks.

Lemma ticks_trigger_put r : effect ticks (trigger_put r).
Proof. intros s. unfold trigger_put. ticks_tac. Qed.
#[local] Hint Resolve ticks_trigger_put : ticks.

Lemma ticks_trigger_get r : effect ticks (trigger_get r).
Proof. intros s. unfold trigger_get. ticks_tac. Qed.
#[local] Hint Resolve ticks_trigger_get : ticks.

Lemma ticks_request r : effect ticks (request r).
Proof. intros s. unfold request. ticks_tac. Qed.
#[local] Hint Resolve ticks_request : ticks.

Lemma ticks_release r req : effect ticks (release r req).
Proof. intros s. unfold release. ticks_tac. Qed.
#[local] Hint Resolve ticks_release : ticks.

Lemma ticks_Request_exit r req : effect ticks (Request_exit r req).
Proof. intros s. unfold Request_exit. ticks_tac. Qed.
#[local] Hint Resolve ticks_Request_exit : ticks.

Lemma ticks_randint a b : effect ticks (randint a b).
Proof. intros s. unfold randint, randbelow. ticks_tac. Qed.
#[local] Hint Resolve ticks_randint : ticks.

Lemma ticks_choice : effect ticks choice_True_False.
Proof. intros s. unfold choice_True_False, randbelow. ticks_tac. Qed.
#[local] Hint Resolve ticks_choice : ticks.

Lemma ticks_wait_times_append x : effect ticks (wait_times_append x).
Proof. intros s. unfold wait_times_append. ticks_tac. Qed.
#[local] Hint Resolve ticks_wait_times_append : ticks.

Lemma ticks_Theater_init a b c : effect ticks (Theater_init a b c).
Proof. intros s. unfold Theater_init, Resource_init. ticks_tac. Qed.
#[local] Hint Resolve ticks_Theater_init : ticks.

Lemma ticks_send g : effect ticks (send g).
Proof.
  intros s. unfold send. destruct (gi_code g).
  - unfold run_theater. destruct g; unfold stop_iteration; ticks_tac.
  - unfold go_to_movies. destruct g; unfold stop_iteration; ticks_tac.
  - unfold purchase_ticket. destruct g; unfold stop_iteration; ticks_tac.
  - unfold check_ticket. destruct g; unfold stop_iteration; ticks_tac.
  - unfold sell_food. destruct g; unfold stop_iteration; ticks_tac.
Qed.
#[local] Hint Resolve ticks_send : ticks.

Lemma ticks_throw g e : effect ticks (throw g e).
Proof. intros s. unfold throw. destruct g; ticks_tac. Qed.
#[local] Hint Resolve ticks_throw : ticks.

Lemma ticks_process_outcome p g st rt r :
  ticks (final_state r) (final_state (process_outcome p g st rt r)).
Proof.
  destruct r as [[g' [t|]] s|e s|s]; cbn [process_outcome final_state]; try reflexivity;
    ticks_tac.
Qed.

Lemma ticks_resume p event : effect ticks (resume p event).
Proof.
  intros s. unfold resume. unfold bind at 1. rewrite get_event_unfold.
  destruct (objects s !! p) as [pe|] eqn:Hp; [|reflexivity].
  cbv beta iota. destruct (class pe) as [| | |g st rt| |] eqn:C; try reflexivity.
  unfold bind at 1, get at 1. cbv beta iota.
  unfold bind at 1. rewrite get_event_unfold.
  destruct (objects s !! event) as [ev|] eqn:He; [|reflexivity].
  cbv beta iota.
  etransitivity; [|apply ticks_process_outcome].
  destruct (value ev); ticks_tac.
Qed.
#[local] Hint Resolve ticks_resume : ticks.

Lemma ticks_call cb event : effect ticks (call cb event).
Proof. intros s. unfold call. destruct cb; ticks_tac. Qed.

(** A customer under way arrived between the start of the clock and
    [t]. *)
Definition arrival_ok (t : Q) (c : EventClass) : Prop :=
  match c with
  | Process g _ _ => forall a, arrival_of g = Some a -> 0 <= a /\ a <= t
  | _ => True
  end.

Definition sample_ok (w : Q) : Prop := 0 <= w /\ w <= 90.

(** The clock is within the horizon, nothing is scheduled for the past,
    the customers under way have arrived, and the samples are within the
    horizon. *)
Record bounded (s : State) : Prop := mkBounded {
  bounded_now : 0 <= now s /\ now s <= 90;
  bounded_queue : Forall (fun x => now s <= entry_time x) (queue s);
  bounded_arrivals : Forall (arrival_ok (now s)) (class <$> objects s);
  bounded_samples : Forall sample_ok (wait_times s)
}.

Definition keeps_bounds (s s' : State) : Prop := bounded s -> bounded s'.

#[local] Instance keeps_bounds_preorder : PreOrder keeps_bounds.
Proof. split; unfold keeps_bounds; [intros s; auto | intros a b c; auto]. Qed.

Lemma fresh_class_arrival_ok t c : fresh_class c -> arrival_ok t c.
Proof.
  destruct c as [| | |g st rt| |]; cbn; auto. intros (P & _ & _) a A.
  destruct g; discriminate.
Qed.

Lemma arrival_ok_later t t' c : t <= t' -> arrival_ok t c -> arrival_ok t' c.
Proof.
  intros L. destruct c as [| | |g st rt| |]; cbn; auto. intros H a A.
  destruct (H a A). split; [assumption | lra].
Qed.

Lemma bounded_grows_by w s s' :
  grows_by w s s' -> ticks s s' -> Forall sample_ok w -> keeps_bounds s s'.
Proof.
  intros [N W (news & E & F)] [_ T] Hw [B1 B2 B3 B4]. split.
  - rewrite N. exact B1.
  - rewrite N. rewrite Forall_forall in *. intros x I.
    destruct (T x I) as [J|J]; [apply B2, list_elem_of_In, J | exact J].
  - rewrite N, E. apply Forall_app. split; [exact B3|].
    eapply Forall_impl; [exact F|]. intros c. apply fresh_class_arrival_ok.
  - rewrite W. apply Forall_app. auto.
Qed.

Lemma bounded_grows s s' : grows s s' -> ticks s s' -> keeps_bounds s s'.
Proof.
  intros G T. apply (bounded_grows_by [] s s'); [apply grows_grows_by, G | exact T | constructor].
Qed.

Lemma bounded_keeps s s' : keeps s s' -> ticks s s' -> keeps_bounds s s'.
Proof. intros K. apply bounded_grows, keeps_grows, K. Qed.

Lemma bounded_ext s s' :
  now s' = now s -> queue s' = queue s ->
  class <$> objects s' = class <$> objects s -> wait_times s' = wait_times s ->
  keeps_bounds s s'.
Proof. intros N Q C W [B1 B2 B3 B4]. split; rewrite ?N, ?Q, ?C, ?W; assumption. Qed.

Lemma bounded_set_class s p ev' :
  arrival_ok (now s) (class ev') ->
  keeps_bounds s (set_objects (<[p := ev']> (objects s)) s).
Proof.
  intros A [B1 B2 B3 B4]. split; try assumption.
  cbn [objects set_objects now]. rewrite list_fmap_insert.
  apply Forall_insert; assumption.
Qed.

Lemma arrival_of_code g a : arrival_of g = Some a -> gi_code g = code_go_to_movies.
Proof. destruct g; try discriminate; reflexivity. Qed.

(** The first step of [process_outcome]: the new class is stored. *)
Ltac stored :=
  match goal with
  | |- keeps_bounds ?s0 (final_state (_ (set_objects (<[?p := ?ev']> _) _))) =>
      transitivity (set_objects (<[p := ev']> (objects s0)) s0);
      [apply bounded_set_class; cbn [class set_class set_value arrival_ok]|]
  end.

(** The outcome of a resumption keeps the bounds, when the generator that
    is stored has arrived. *)
Lemma bounded_process_outcome p g st rt r s2 pe2 :
  final_state r = s2 -> objects s2 !! p = Some pe2 ->
  (forall g' y, r = Return (g', y) s2 -> arrival_ok (now s2) (Process g' st rt)) ->
  keeps_bounds s2 (final_state (process_outcome p g st rt r)).
Proof.
  intros <- E A.
  destruct r as [[g' [t|]] s|e s|s]; cbn [process_outcome final_state] in *;
    try reflexivity.
  - unfold bind at 1. rewrite (update_event_Return _ _ _ _ E).
    stored. { exact (A g' (Some t) eq_refl). }
    effect_step; [apply bounded_keeps; [apply keeps_get_event | apply ticks_get_event]|].
    match goal with |- context [callbacks ?tv] => destruct (callbacks tv) end; [|reflexivity].
    apply bounded_keeps; [apply keeps_callbacks_append | apply ticks_callbacks_append].
  - unfold bind at 1. rewrite (update_event_Return _ _ _ _ E).
    stored. { exact (A g' None eq_refl). }
    apply bounded_keeps; [apply keeps_schedule | apply ticks_schedule, Qle_refl].
  - unfold bind at 1. rewrite (update_event_Return _ _ _ _ E).
    stored. { intros a; discriminate. }
    apply bounded_keeps; [apply keeps_schedule | apply ticks_schedule, Qle_refl].
Qed.

Lemma bounded_resume p event : effect keeps_bounds (resume p event).
Proof.
  intros s B. unfold resume. unfold bind at 1. rewrite get_event_unfold.
  destruct (objects s !! p) as [pe|] eqn:Hp; [|exact B].
  cbv beta iota. destruct (class pe) as [| | |g st rt| |] eqn:C; try exact B.
  unfold bind at 1, get at 1. cbv beta iota.
  unfold bind at 1. rewrite get_event_unfold.
  destruct (objects s !! event) as [ev|] eqn:He; [|exact B].
  cbv beta iota.
  assert (Hc : (class <$> objects s) !! p = Some (Process g st rt)).
  { rewrite list_lookup_fmap, Hp. cbn. congruence. }
  assert (Ag : arrival_ok (now s) (Process g st rt)).
  { pose proof (bounded_arrivals _ B) as F. rewrite Forall_lookup in F. exact (F _ _ Hc). }
  destruct (resume_body g s event ev) as [Eff Ret]. cbn zeta in Eff, Ret.
  set (body := match value ev with
               | failed e => update_event event set_defused >> throw g e
               | _ => send g
               end) in *.
  assert (T : ticks s (final_state (body s))).
  { unfold body. destruct (value ev); ticks_tac. }
  destruct (send_effect_lookup _ _ _ _ _ Eff Hc) as (pe2 & E2 & C2).
  pose proof (bounded_now _ B) as [N1 N2].
  assert (B2 : bounded (final_state (body s))).
  { destruct (body s) as [[g' y] s2|e s2|s2]; cbn [send_effect final_state] in *.
    - revert B. apply (bounded_grows_by _ _ _ Eff T).
      unfold appended. destruct y; [constructor|].
      destruct (arrival_of g) as [a|] eqn:A; [|constructor].
      constructor; [|constructor]. destruct (Ag a A) as [A1 A2].
      unfold sample_ok. split; lra.
    - revert B. apply (bounded_grows _ _ Eff T).
    - revert B. apply (bounded_grows _ _ Eff T). }
  revert B2. apply (bounded_process_outcome p g _ rt (body s) _ pe2 eq_refl E2).
  intros g' y R. specialize (Ret _ _ R).
  pose proof (send_shape_holds _ _ _ _ _ Ret) as Sh.
  rewrite R. cbn [final_state]. rewrite R in T. destruct T as [N _]. cbn [final_state] in N.
  rewrite N. intros a A. destruct y as [t|].
  - destruct Sh as (_ & Cg & _ & Sa). rewrite (arrival_of_code _ _ A) in Cg.
    rewrite (Sa (eq_sym Cg)) in A. injection A as <-.
    destruct (arrival_of g) as [a0|] eqn:A0; cbn [default from_option id].
    + apply (Ag a0 A0).
    + split; lra.
  - destruct Sh as [-> _]. discriminate A.
Qed.

Lemma bounded_call cb event : effect keeps_bounds (call cb event).
Proof.
  intros s. destruct cb; cbn [call].
  - apply bounded_resume.
  - apply bounded_keeps; [apply keeps_trigger_put | apply ticks_trigger_put].
  - apply bounded_keeps; [apply keeps_trigger_get | apply ticks_trigger_get].
  - apply bounded_keeps; [keeps_tac | ticks_tac].
Qed.

Lemma entry_le_time a b : entry_le a b = true -> entry_time a <= entry_time b.
Proof.
  unfold entry_le. destruct (Qcompare_spec (entry_time a) (entry_time b)) as [E|E|E];
    [intros _; lra | intros _; lra | discriminate].
Qed.

(** Taking the next event from the queue moves the clock forward, and not
    beyond the horizon. *)
Lemma bounded_popped s m rest ev :
  arrivals_inv s -> bounded s -> m :: rest ≡ₚ queue s ->
  Forall (fun y => entry_le m y = true) rest ->
  objects s !! entry_event m = Some ev ->
  bounded (popped s m rest ev).
Proof.
  intros I [B1 B2 B3 B4] P F E.
  assert (Lm : now s <= entry_time m).
  { rewrite Forall_forall in B2. apply B2. rewrite <- P. left. }
  assert (Um : entry_time m <= 90).
  { destruct (inv_until _ (inv_structure _ I)) as [U _].
    apply list_elem_of_In in U. rewrite <- P in U. apply elem_of_cons in U as [<-|U].
    - apply Qle_refl.
    - rewrite Forall_forall in F. exact (entry_le_time _ _ (F _ U)). }
  unfold popped. split; cbn [now queue objects wait_times set_objects set_queue set_now].
  - split; lra.
  - eapply Forall_impl; [exact F|]. intros y. apply entry_le_time.
  - rewrite list_fmap_insert. cbn [class set_callbacks].
    rewrite list_insert_id by (rewrite list_lookup_fmap, E; reflexivity).
    eapply Forall_impl; [exact B3|]. intros c. apply arrival_ok_later, Lm.
  - exact B4.
Qed.

(** A step of the event loop keeps the bounds. *)
Lemma step_bounded s : arrivals_inv s -> bounded s -> bounded (final_state (step s)).
Proof.
  intros I B.
  destruct (queue s) as [|x q] eqn:Eq.
  { unfold step, bind, get. rewrite Eq. exact B. }
  destruct (heappop x q) as [m rest] eqn:Hp.
  destruct (heappop_spec _ _ _ _ Hp) as [P F]. rewrite <- Eq in P. symmetry in P.
  destruct (objects s !! entry_event m) as [ev|] eqn:E.
  2: { pose proof (inv_queue _ (inv_structure _ I)) as Q. rewrite Forall_forall in Q.
       assert (L : (entry_event m < length (objects s))%nat).
       { apply Q. rewrite <- P. left. }
       apply lookup_lt_is_Some_2 in L as [ev E']. congruence. }
  rewrite (step_unfold s x q m rest ev Eq Hp E).
  pose proof (bounded_popped s m rest ev I B P F E) as Bp. revert Bp.
  apply (effect_bind keeps_bounds).
  - apply (effect_for keeps_bounds). intros cb. apply bounded_call.
  - intros a s1 _. rewrite step_tail; [reflexivity | exact tt].
Qed.

Lemma step_loop_bounded fuel s :
  arrivals_inv s -> bounded s -> bounded (final_state (step_loop fuel s)).
Proof.
  revert s. induction fuel as [|fuel IH]; intros s I B; cbn [step_loop]; [exact B|].
  pose proof (step_arrivals s I) as [_ A]. pose proof (step_bounded s I B) as Bs.
  unfold bind. destruct (step s) as [[] s1|e s1|s1]; cbn [final_state] in *; auto.
Qed.

Lemma starting_bounded a b c s :
  Forall sample_ok (wait_times s) -> bounded (starting a b c s).
Proof.
  intros W. split; cbn.
  - split; lra.
  - repeat constructor; cbn; lra.
  - constructor; [intros x X; discriminate X|]. repeat constructor.
  - exact W.
Qed.

Lemma main_run_the_simulation_bounded params fuel :
  effect keeps_bounds (main_run_the_simulation params fuel).
Proof.
  intros s B. unfold main_run_the_simulation.
  destruct params as [|a [|b [|c [|d l]]]]; try exact B.
  rewrite print_Environment_bind, run_unfold.
  match goal with
  | |- context [step_loop fuel ?s1] =>
      pose proof (step_loop_bounded fuel s1 (starting_inv _ _ _ _)
                    (starting_bounded _ _ _ (set_stdout _ s) (bounded_samples _ B))) as L;
      destruct (step_loop fuel s1) as [[] s2|[] s2|s2]; exact L
  end.
Qed.

(** X11.  At the end of [main], and at every point of its run ([fuel] is any
    number of steps of the event loop), the clock of the simulation is
    between 0 and the horizon of 90 minutes, and every sample in
    [wait_times] is between 0 and 90 minutes: no customer is recorded with
    a negative wait, or with a wait longer than the simulation. *)
Theorem clock_and_samples_stay_within_the_horizon
    (mt : Z -> nat -> N) (fuel : nat) (tape : nat -> N) (typed : list Py.str) :
  0 <= now (final_state (main mt fuel (session tape typed))) <= 90 /\
  Forall (fun w => 0 <= w <= 90)
    (wait_times (final_state (main mt fuel (session tape typed)))).
Proof.
  assert (B : bounded (final_state (main mt fuel (session tape typed)))).
  { assert (B0 : bounded (session tape typed)).
    { split; cbn; [split; lra | constructor ..]. }
    revert B0. change (keeps_bounds (session tape typed)
                         (final_state (main mt fuel (session tape typed)))).
    unfold main, main_setup, random_seed.
    effect_step; [|effect_step].
    - effect_step; [apply bounded_ext; reflexivity|].
      unfold get_user_input, input, print2, write.
      repeat first [effect_step | apply bounded_ext; reflexivity].
    - apply main_run_the_simulation_bounded.
    - unfold main_view_the_results, print, write.
      repeat first [effect_step | apply bounded_ext; reflexivity]. }
  destruct B as [B1 _ _ B4]. split; [exact B1 | exact B4].
Qed.

(** ** How many customers there can be *)

Lemma filter_length_le {A} (f g : A -> bool) (l : list A) :
  (forall x, f x = true -> g x = true) ->
  (length (List.filter f l) <= length (List.filter g l))%nat.
Proof.
  intros H. induction l as [|x l IH]; [reflexivity|]. cbn [List.filter].
  destruct (f x) eqn:F; [rewrite (H x F); cbn; lia|].
  destruct (g x); cbn; lia.
Qed.

Lemma processed_is_customer c : processed c = true -> is_customer c = true.
Proof.
  destruct c as [| | |g st rt| |]; try discriminate. unfold processed, is_customer. cbn.
  destruct rt; [|discriminate]. destruct (gi_code g); try discriminate. reflexivity.
Qed.

(** X12.  At the end of [main], and at every point of its run ([fuel] is any
    number of steps of the event loop), at most 452 customers have been
    created: the three that wait at time 0 and one for each of the 449
    intervals of 12/60 of a minute that end before the horizon.  As a
    customer records one sample at most, [wait_times] holds at most 452
    samples. *)
Theorem at_most_452_customers_and_samples
    (mt : Z -> nat -> N) (fuel : nat) (tape : nat -> N) (typed : list Py.str) :
  (length (customers (final_state (main mt fuel (session tape typed)))) <= 452)%nat /\
  (length (wait_times (final_state (main mt fuel (session tape typed)))) <= 452)%nat.
Proof.
  set (s' := final_state (main mt fuel (session tape typed))).
  assert (C : (length (customers s') <= 452)%nat).
  { destruct (le_lt_dec (length (customers s')) 452) as [L|L]; [exact L|exfalso].
    apply lookup_lt_is_Some_2 in L as [c E].
    destruct (ok_customers _ (main_arrivals mt fuel (session tape typed) eq_refl) _ _ E)
      as [B _].
    vm_compute in B. discriminate B. }
  split; [exact C|].
  destruct (main_inv mt fuel (session tape typed) eq_refl) as [W P]. fold s' in W, P.
  change (wait_times (session tape typed)) with (@nil Q) in W. rewrite app_nil_l in W.
  assert (A : Forall accounted (class <$> objects s')).
  { eapply Forall_impl; [exact P | apply process_ok_accounted]. }
  rewrite (Permutation_length W), (recorded_processed _ A).
  etransitivity; [apply (filter_length_le processed is_customer)|exact C].
  apply processed_is_customer.
Qed.

(** ** Staffing that is not positive *)

(** With a number of cashiers, servers or ushers that is not positive, the
    construction of the theater raises, the process of [run_theater] fails,
    and the second step of the event loop raises its exception. *)
Lemma main_run_the_simulation_invalid a b c fuel s :
  (a <= 0 \/ b <= 0 \/ c <= 0)%Z ->
  exists s',
    main_run_the_simulation [a; b; c] (S (S fuel)) s =
      Raise (ValueError "capacity must be > 0.") s' /\
    wait_times s' = wait_times s /\
    stdout s' = (stdout s ++ "Running simulation..." ++ newline)%string /\
    customers s' = [].
Proof.
  intros H. exists (final_state (main_run_the_simulation [a; b; c] (S (S fuel)) s)).
  destruct a as [|pa|pa], b as [|pb|pb], c as [|pc|pc];
    try (exfalso; lia); (split; [|split; [|split]]); vm_compute; reflexivity.
Qed.



(** ** The exceptions of the event loop stay inside *)

(** The exceptions that [env.run] uses for itself: StopSimulation ends the
    run, EmptySchedule becomes the RuntimeError of a queue that is empty
    before the horizon. *)
Definition reserved (e : Exception) : bool :=
  match e with
  | StopSimulation | EmptySchedule => true
  | RuntimeError msg =>
      String.eqb msg "No scheduled events left but until event was not triggered"
  | _ => false
  end.

(** No event has failed with a reserved exception. *)
Definition value_ok (ev : Event) : Prop :=
  match value ev with
  | failed e => reserved e = false
  | _ => True
  end.

Definition unreserved (s : State) : Prop := Forall value_ok (objects s).

(** [plain m]: [m] raises no reserved exception. *)
Definition plain_raise {A} (m : M A) : Prop :=
  forall s e s', m s = Raise e s' -> reserved e = false.

Lemma plain_bind {A B} (m : M A) (k : A -> M B) :
  plain_raise m -> (forall a, plain_raise (k a)) -> plain_raise (bind m k).
Proof.
  intros Hm Hk s e s'. unfold bind. destruct (m s) as [a s1|e1 s1|s1] eqn:E.
  - apply Hk.
  - intros H. injection H as <- <-. eapply Hm, E.
  - discriminate.
Qed.

Lemma plain_ret {A} (a : A) : plain_raise (ret a).
Proof. intros s e s' H. discriminate H. Qed.

Lemma plain_raise_unreserved {A} e : reserved e = false -> plain_raise (@raise A e).
Proof. intros H s e' s' E. injection E as <- _. exact H. Qed.

Lemma plain_get : plain_raise get.
Proof. intros s e s' H. discriminate H. Qed.

Lemma plain_modify f : plain_raise (modify f).
Proof. intros s e s' H. discriminate H. Qed.

Lemma plain_for_In {A} (l : list A) (body : A -> M unit) :
  (forall x, In x l -> plain_raise (body x)) -> plain_raise (for_ l body).
Proof.
  induction l as [|x l IH]; intros H; cbn [for_]; [apply plain_ret|].
  apply plain_bind; [apply H; left; reflexivity|].
  intros _. apply IH. intros y I. apply H. right. exact I.
Qed.

Lemma plain_for {A} (l : list A) (body : A -> M unit) :
  (forall x, plain_raise (body x)) -> plain_raise (for_ l body).
Proof. intros H. apply plain_for_In. intros x _. apply H. Qed.

Create HintDb plain discriminated.

Ltac plain_tac :=
  repeat first
    [ solve [eauto with plain]
    | apply plain_ret | apply plain_get | apply plain_modify
    | apply plain_raise_unreserved; reflexivity
    | apply plain_bind; [|intros ?]
    | apply plain_for; intros ?
    | match goal with
      | |- plain_raise (match ?x with _ => _ end) => destruct x
      end ].

Lemma plain_schedule event priority delay : plain_raise (schedule event priority delay).
Proof. unfold schedule. plain_tac. Qed.
#[local] Hint Resolve plain_schedule : plain.

Lemma plain_new_object ev : plain_raise (new_object ev).
Proof. unfold new_object. plain_tac. Qed.
#[local] Hint Resolve plain_new_object : plain.

Lemma plain_get_event event : plain_raise (get_event event).
Proof. unfold get_event. plain_tac. Qed.
#[local] Hint Resolve plain_get_event : plain.

Lemma plain_update_event event f : plain_raise (update_event event f).
Proof. unfold update_event. plain_tac. Qed.
#[local] Hint Resolve plain_update_event : plain.

Lemma plain_callbacks_append event cb : plain_raise (callbacks_append event cb).
Proof. unfold callbacks_append. plain_tac. Qed.
#[local] Hint Resolve plain_callbacks_append : plain.

Lemma plain_succeed event : plain_raise (succeed event).
Proof. unfold succeed. plain_tac. Qed.
#[local] Hint Resolve plain_succeed : plain.

Lemma plain_env_timeout delay : plain_raise (env_timeout delay).
Proof. unfold env_timeout. plain_tac. Qed.
#[local] Hint Resolve plain_env_timeout : plain.

Lemma plain_env_process g : plain_raise (env_process g).
Proof. unfold env_process. plain_tac. Qed.
#[local] Hint Resolve plain_env_process : plain.

Lemma plain_get_theater : plain_raise get_theater.
Proof. unfold get_theater. plain_tac. Qed.
#[local] Hint Resolve plain_get_theater : plain.

Lemma plain_get_resource r : plain_raise (get_resource r).
Proof. unfold get_resource. plain_tac. Qed.
#[local] Hint Resolve plain_get_resource : plain.

Lemma plain_update_resource r f : plain_raise (update_resource r f).
Proof. unfold update_resource. plain_tac. Qed.
#[local] Hint Resolve plain_update_resource : plain.

Lemma plain_do_put r event : plain_raise (do_put r event).
Proof. unfold do_put. plain_tac. Qed.
#[local] Hint Resolve plain_do_put : plain.

Lemma plain_do_get r event : plain_raise (do_get r event).
Proof. unfold do_get. plain_tac. Qed.
#[local] Hint Resolve plain_do_get : plain.

Lemma plain_trigger_put r : plain_raise (trigger_put r).
Proof. unfold trigger_put. plain_tac. Qed.
#[local] Hint Resolve plain_trigger_put : plain.

Lemma plain_trigger_get r : plain_raise (trigger_get r).
Proof. unfold trigger_get. plain_tac. Qed.
#[local] Hint Resolve plain_trigger_get : plain.

Lemma plain_request r : plain_raise (request r).
Proof. unfold request. plain_tac. Qed.
#[local] Hint Resolve plain_request : plain.

Lemma plain_release r req : plain_raise (release r req).
Proof. unfold release. plain_tac. Qed.
#[local] Hint Resolve plain_release : plain.

Lemma plain_Request_exit r req : plain_raise (Request_exit r req).
Proof. unfold Request_exit. plain_tac. Qed.
#[local] Hint Resolve plain_Request_exit : plain.

Lemma plain_randint a b : plain_raise (randint a b).
Proof. unfold randint, randbelow. plain_tac. Qed.
#[local] Hint Resolve plain_randint : plain.

Lemma plain_choice : plain_raise choice_True_False.
Proof. unfold choice_True_False, randbelow. plain_tac. Qed.
#[local] Hint Resolve plain_choice : plain.

Lemma plain_wait_times_append x : plain_raise (wait_times_append x).
Proof. unfold wait_times_append. plain_tac. Qed.
#[local] Hint Resolve plain_wait_times_append : plain.

Lemma plain_Theater_init a b c : plain_raise (Theater_init a b c).
Proof. unfold Theater_init, Resource_init. plain_tac. Qed.
#[local] Hint Resolve plain_Theater_init : plain.

Lemma plain_send g : plain_raise (send g).
Proof.
  unfold send. destruct (gi_code g).
  - unfold run_theater. destruct g; unfold stop_iteration; plain_tac.
  - unfold go_to_movies. destruct g; unfold stop_iteration; plain_tac.
  - unfold purchase_ticket. destruct g; unfold stop_iteration; plain_tac.
  - unfold check_ticket. destruct g; unfold stop_iteration; plain_tac.
  - unfold sell_food. destruct g; unfold stop_iteration; plain_tac.
Qed.
#[local] Hint Resolve plain_send : plain.

(** [throw] raises the exception it is given, or one of its own. *)
Lemma plain_throw g e : reserved e = false -> plain_raise (throw g e).
Proof. intros H. unfold throw. destruct g; plain_tac; apply plain_raise_unreserved, H. Qed.

Lemma plain_process_outcome p g st rt r e s' :
  process_outcome p g st rt r = Raise e s' -> reserved e = false.
Proof.
  destruct r as [[g' [t|]] s|e0 s|s]; cbn [process_outcome]; try discriminate.
  - revert s e s'.
    change (plain_raise
      (update_event p (set_class (Process g' st rt)) >>
       let* tv := get_event t in
       match callbacks tv with
       | Some _ => callbacks_append t (Process_resume p)
       | None => raise (RuntimeError "yielded event was processed")
       end)).
    plain_tac.
  - assert (P : forall f, plain_raise (update_event p f >> schedule p NORMAL 0))
      by (intros; plain_tac).
    intros H. exact (P _ _ _ _ H).
  - assert (P : forall f, plain_raise (update_event p f >> schedule p NORMAL 0))
      by (intros; plain_tac).
    intros H. exact (P _ _ _ _ H).
Qed.

(** A process keeps the exception of its generator: resuming it raises no
    reserved exception. *)
Lemma plain_resume p event : plain_raise (resume p event).
Proof.
  unfold resume. apply plain_bind; [apply plain_get_event | intros pe].
  destruct (class pe); try (apply plain_raise_unreserved; reflexivity).
  apply plain_bind; [apply plain_get | intros s0].
  apply plain_bind; [apply plain_get_event | intros ev].
  intros s e s'. apply plain_process_outcome.
Qed.

(** [clean s s']: from [s] to [s'] no event fails with a reserved
    exception. *)
Definition clean (s s' : State) : Prop := unreserved s -> unreserved s'.

#[local] Instance clean_preorder : PreOrder clean.
Proof. split; unfold clean; [intros s; auto | intros a b c; auto]. Qed.

Create HintDb clean discriminated.

Ltac clean_tac :=
  repeat first
    [ solve [eauto with clean]
    | effect_step
    | intros ?; assumption ].

Lemma clean_schedule event priority delay : effect clean (schedule event priority delay).
Proof. intros s. unfold schedule. clean_tac. Qed.
#[local] Hint Resolve clean_schedule : clean.

Lemma clean_new_object ev : value_ok ev -> effect clean (new_object ev).
Proof.
  intros H s. unfold new_object. effect_step. effect_step; [|reflexivity].
  cbn [final_state modify]. intros U. unfold unreserved in *. cbn.
  apply Forall_app. split; [exact U | constructor; [exact H | constructor]].
Qed.
#[local] Hint Extern 1 (clean _ (final_state (new_object _ _))) =>
  apply clean_new_object; exact Logic.I : clean.

Lemma clean_get_event event : effect clean (get_event event).
Proof. intros s. unfold get_event. clean_tac. Qed.
#[local] Hint Resolve clean_get_event : clean.

Lemma clean_update_event event f :
  (forall ev, value_ok ev -> value_ok (f ev)) -> effect clean (update_event event f).
Proof.
  intros H s. unfold update_event. unfold bind. rewrite get_event_unfold.
  destruct (objects s !! event) as [ev|] eqn:E; [|reflexivity].
  cbn [final_state modify]. intros U. unfold unreserved in *. cbn.
  apply Forall_insert; [exact U|]. apply H.
  rewrite Forall_lookup in U. exact (U _ _ E).
Qed.
#[local] Hint Extern 1 (clean _ (final_state (update_event _ _ _))) =>
  apply clean_update_event; first [intros ? ?; assumption | intros ? _; exact Logic.I]
  : clean.

Lemma clean_callbacks_append event cb : effect clean (callbacks_append event cb).
Proof. intros s. unfold callbacks_append. clean_tac. Qed.
#[local] Hint Resolve clean_callbacks_append : clean.

Lemma clean_succeed event : effect clean (succeed event).
Proof. intros s. unfold succeed. clean_tac. Qed.
#[local] Hint Resolve clean_succeed : clean.

Lemma clean_env_timeout delay : effect clean (env_timeout delay).
Proof. intros s. unfold env_timeout. clean_tac. Qed.
#[local] Hint Resolve clean_env_timeout : clean.

Lemma clean_env_process g : effect clean (env_process g).
Proof. intros s. unfold env_process. clean_tac. Qed.
#[local] Hint Resolve clean_env_process : clean.

Lemma clean_get_theater : effect clean get_theater.
Proof. intros s. unfold get_theater. clean_tac. Qed.
#[local] Hint Resolve clean_get_theater : clean.

Lemma clean_get_resource r : effect clean (get_resource r).
Proof. intros s. unfold get_resource. clean_tac. Qed.
#[local] Hint Resolve clean_get_resource : clean.

Lemma clean_update_resource r f : effect clean (update_resource r f).
Proof. intros s. unfold update_resource. clean_tac. Qed.
#[local] Hint Resolve clean_update_resource : clean.

Lemma clean_do_put r event : effect clean (do_put r event).
Proof. intros s. unfold do_put. clean_tac. Qed.
#[local] Hint Resolve clean_do_put : clean.

Lemma clean_do_get r event : effect clean (do_get r event).
Proof. intros s. unfold do_get. clean_tac. Qed.
#[local] Hint Resolve clean_do_get : clean.

Lemma clean_trigger_put r : effect clean (trigger_put r).
Proof. intros s. unfold trigger_put. clean_tac. Qed.
#[local] Hint Resolve clean_trigger_put : clean.

Lemma clean_trigger_get r : effect clean (trigger_get r).
Proof. intros s. unfold trigger_get. clean_tac. Qed.
#[local] Hint Resolve clean_trigger_get : clean.

Lemma clean_request r : effect clean (request r).
Proof. intros s. unfold request. clean_tac. Qed.
#[local] Hint Resolve clean_request : clean.

Lemma clean_release r req : effect clean (release r req).
Proof. intros s. unfold release. clean_tac. Qed.
#[local] Hint Resolve clean_release : clean.

Lemma clean_Request_exit r req : effect clean (Request_exit r req).
Proof. intros s. unfold Request_exit. clean_tac. Qed.
#[local] Hint Resolve clean_Request_exit : clean.

Lemma clean_randint a b : effect clean (randint a b).
Proof. intros s. unfold randint, randbelow. clean_tac. Qed.
#[local] Hint Resolve clean_randint : clean.

Lemma clean_choice : effect clean choice_True_False.
Proof. intros s. unfold choice_True_False, randbelow. clean_tac. Qed.
#[local] Hint Resolve clean_choice : clean.

Lemma clean_wait_times_append x : effect clean (wait_times_append x).
Proof. intros s. unfold wait_times_append. clean_tac. Qed.
#[local] Hint Resolve clean_wait_times_append : clean.

Lemma clean_Theater_init a b c : effect clean (Theater_init a b c).
Proof. intros s. unfold Theater_init, Resource_init. clean_tac. Qed.
#[local] Hint Resolve clean_Theater_init : clean.

Lemma clean_send g : effect clean (send g).
Proof.
  intros s. unfold send. destruct (gi_code g).
  - unfold run_theater. destruct g; unfold stop_iteration; clean_tac.
  - unfold go_to_movies. destruct g; unfold stop_iteration; clean_tac.
  - unfold purchase_ticket. destruct g; unfold stop_iteration; clean_tac.
  - unfold check_ticket. destruct g; unfold stop_iteration; clean_tac.
  - unfold sell_food. destruct g; unfold stop_iteration; clean_tac.
Qed.
#[local] Hint Resolve clean_send : clean.

Lemma clean_throw g e : effect clean (throw g e).
Proof. intros s. unfold throw. destruct g; clean_tac. Qed.
#[local] Hint Resolve clean_throw : clean.

Lemma clean_process_outcome p g st rt r :
  (forall e s', r = Raise e s' -> reserved e = false) ->
  clean (final_state r) (final_state (process_outcome p g st rt r)).
Proof.
  intros H.
  destruct r as [[g' [t|]] s|e s|s]; cbn [process_outcome final_state]; try reflexivity.
  - clean_tac.
  - clean_tac.
  - effect_step; [|apply clean_schedule].
    apply clean_update_event. intros ev _. unfold value_ok. cbn.
    eapply H. reflexivity.
Qed.

Lemma clean_resume p event : effect clean (resume p event).
Proof.
  intros s U. unfold resume. unfold bind at 1. rewrite get_event_unfold.
  destruct (objects s !! p) as [pe|] eqn:Hp; [|exact U].
  cbv beta iota. destruct (class pe) as [| | |g st rt| |] eqn:C; try exact U.
  unfold bind at 1, get at 1. cbv beta iota.
  unfold bind at 1. rewrite get_event_unfold.
  destruct (objects s !! event) as [ev|] eqn:He; [|exact U].
  cbv beta iota.
  assert (Ve : value_ok ev).
  { unfold unreserved in U. rewrite Forall_lookup in U. exact (U _ _ He). }
  set (body := match value ev with
               | failed e => update_event event set_defused >> throw g e
               | _ => send g
               end).
  assert (Cb : clean s (final_state (body s))).
  { unfold body. destruct (value ev); clean_tac. }
  assert (Pb : plain_raise body).
  { unfold body, value_ok in *. destruct (value ev) as [| |e0]; try apply plain_send.
    apply plain_bind; [apply plain_update_event | intros _; apply plain_throw, Ve]. }
  apply (clean_process_outcome p g _ rt (body s)); [|apply Cb, U].
  intros e s' E. eapply Pb, E.
Qed.
#[local] Hint Resolve clean_resume : clean.

Lemma clean_call cb event : effect clean (call cb event).
Proof. intros s. unfold call. destruct cb; clean_tac. Qed.

(** A callback other than the one that stops the simulation raises no
    reserved exception. *)
Lemma plain_call cb event : cb <> StopSimulation_callback -> plain_raise (call cb event).
Proof.
  intros H. destruct cb; cbn [call]; [apply plain_resume | plain_tac | plain_tac | congruence].
Qed.

(** What a step of the event loop may raise: a reserved exception is
    StopSimulation, raised at the horizon. *)
Definition stops_well (r : Result unit) : Prop :=
  unreserved (final_state r) /\
  match r with
  | Raise e s' => reserved e = true -> e = StopSimulation /\ now s' = 90
  | _ => True
  end.

Lemma stops_well_plain (r : Result unit) :
  unreserved (final_state r) ->
  (forall e s', r = Raise e s' -> reserved e = false) -> stops_well r.
Proof.
  intros U H. split; [exact U|]. destruct r as [a s'|e s'|s']; try exact Logic.I.
  intros R. rewrite (H e s' eq_refl) in R. discriminate R.
Qed.

Lemma step_tail_plain event s e s' :
  unreserved s ->
  (let* ev := get_event event in
   match value ev with
   | failed e => if defused ev then ret tt else raise e
   | _ => ret tt
   end) s = Raise e s' -> reserved e = false.
Proof.
  intros U. unfold bind. rewrite get_event_unfold.
  destruct (objects s !! event) as [ev|] eqn:E.
  - unfold unreserved in U. rewrite Forall_lookup in U. specialize (U _ _ E).
    unfold value_ok in U. destruct (value ev) as [| |e0]; try discriminate.
    destruct (defused ev); [discriminate|]. intros H. injection H as <- _. exact U.
  - intros H. injection H as <- _. reflexivity.
Qed.

Lemma unreserved_popped s m rest ev :
  unreserved s -> objects s !! entry_event m = Some ev -> unreserved (popped s m rest ev).
Proof.
  intros U E. unfold unreserved, popped in *. cbn.
  apply Forall_insert; [exact U|].
  rewrite Forall_lookup in U. exact (U _ _ E).
Qed.

Lemma step_stops s : arrivals_inv s -> unreserved s -> stops_well (step s).
Proof.
  intros I U.
  destruct (queue s) as [|x q] eqn:Eq.
  { destruct (inv_until _ (inv_structure _ I)) as [In0 _]. rewrite Eq in In0. destruct In0. }
  destruct (heappop x q) as [m rest] eqn:Hp.
  destruct (heappop_spec _ _ _ _ Hp) as [P F]. rewrite <- Eq in P. symmetry in P.
  destruct (objects s !! entry_event m) as [ev|] eqn:E.
  2: { pose proof (inv_queue _ (inv_structure _ I)) as Q. rewrite Forall_forall in Q.
       assert (L : (entry_event m < length (objects s))%nat).
       { apply Q. rewrite <- P. left. }
       apply lookup_lt_is_Some_2 in L as [ev E']. congruence. }
  rewrite (step_unfold s x q m rest ev Eq Hp E).
  pose proof (unreserved_popped s m rest ev U E) as Up.
  assert (Plain : forall cbs,
            Forall (fun cb => cb <> StopSimulation_callback) cbs ->
            stops_well
              ((for_ cbs (fun cb => call cb (entry_event m)) >>
                let* ev := get_event (entry_event m) in
                match value ev with
                | failed e => if defused ev then ret tt else raise e
                | _ => ret tt
                end) (popped s m rest ev))).
  { intros cbs Fc.
    assert (C1 : clean (popped s m rest ev)
                   (final_state (for_ cbs (fun cb => call cb (entry_event m))
                                   (popped s m rest ev)))).
    { apply (effect_for clean). intros cb. apply clean_call. }
    assert (P1 : plain_raise (for_ cbs (fun cb => call cb (entry_event m)))).
    { apply plain_for_In. intros cb Hin. apply plain_call.
      rewrite Forall_forall in Fc. apply Fc, list_elem_of_In, Hin. }
    unfold bind at 1.
    destruct (for_ cbs (fun cb => call cb (entry_event m)) (popped s m rest ev))
      as [[] s1|e1 s1|s1] eqn:E1; cbn [final_state] in C1.
    - apply stops_well_plain.
      + rewrite step_tail; [apply C1, Up | exact tt].
      + intros e s'. apply step_tail_plain, C1, Up.
    - apply stops_well_plain; [apply C1, Up|].
      intros e s' H. injection H as <- <-. eapply P1, E1.
    - split; [apply C1, Up | exact Logic.I]. }
  destruct (pop_cases s m rest ev I P F E)
    as [B|[Ib [Pl|(p & pe & g & st & rt & d & B & Ep & Cp & D & Nb & Ub)]]].
  - (* the simulation stops *)
    assert (Tm : m = until_entry).
    { destruct (inv_registered _ (inv_structure _ I) _ _ _ StopSimulation_callback E B)
        as [_ R]; [left; reflexivity|].
      destruct (R eq_refl) as (_ & _ & _ & T). rewrite Forall_forall in T.
      apply (T m); [rewrite <- P; left | reflexivity]. }
    rewrite B. cbn [default from_option id for_ call].
    unfold bind at 1. unfold bind at 1. unfold bind at 1. rewrite get_event_unfold.
    assert (Lk : objects (popped s m rest ev) !! entry_event m = Some (set_callbacks None ev)).
    { unfold popped. cbn. apply list_lookup_insert_eq. eapply lookup_lt_Some, E. }
    rewrite Lk. cbn [value set_callbacks].
    assert (Ve : value_ok ev).
    { unfold unreserved in U. rewrite Forall_lookup in U. exact (U _ _ E). }
    unfold value_ok in Ve. destruct (value ev) as [| |e0]; (split; [exact Up|]).
    + intros _. split; [reflexivity|]. rewrite Tm. reflexivity.
    + intros _. split; [reflexivity|]. rewrite Tm. reflexivity.
    + intros R. rewrite Ve in R. discriminate R.
  - (* no special callback *)
    apply Plain. eapply Forall_impl; [exact Pl|]. cbn. intros cb Sp ->. discriminate Sp.
  - (* a process that is due *)
    rewrite B. cbn [default from_option id]. apply Plain.
    constructor; [discriminate | constructor].
Qed.

(** The event loop never returns: it runs out of steps, or a step raises;
    a reserved exception it raises is StopSimulation at the horizon. *)
Lemma step_loop_stops fuel s :
  arrivals_inv s -> unreserved s ->
  match step_loop fuel s with
  | Return _ _ => False
  | Raise e s' => reserved e = true -> e = StopSimulation /\ now s' = 90
  | OutOfFuel _ => True
  end.
Proof.
  revert s. induction fuel as [|fuel IH]; intros s I U; cbn [step_loop]; [exact Logic.I|].
  pose proof (step_arrivals s I) as [_ A]. pose proof (step_stops s I U) as [Us W].
  unfold bind. destruct (step s) as [[] s1|e s1|s1]; cbn [final_state] in *.
  - apply IH; assumption.
  - exact W.
  - exact Logic.I.
Qed.

Lemma unreserved_starting a b c s : unreserved (starting a b c s).
Proof. unfold unreserved. cbn. repeat constructor. Qed.

Lemma reserved_cases e :
  reserved e = true ->
  e = StopSimulation \/ e = EmptySchedule \/
  e = RuntimeError "No scheduled events left but until event was not triggered".
Proof.
  destruct e; try discriminate; auto. cbn. intros H. apply String.eqb_eq in H. subst. auto.
Qed.

(** The run of the simulation returns at the horizon, and raises no
    reserved exception. *)
Lemma run_stops a b c fuel s :
  match (env_process (run_theater_start a b c) >> run 90 fuel) (fresh_environment s) with
  | Return _ s' => now s' = 90
  | Raise e _ => reserved e = false
  | OutOfFuel _ => True
  end.
Proof.
  rewrite run_unfold.
  pose proof (step_loop_stops fuel _ (starting_inv a b c s) (unreserved_starting a b c s))
    as H.
  destruct (step_loop fuel (starting a b c s)) as [[] s'|e s'|s']; [destruct H| |exact Logic.I].
  destruct (reserved e) eqn:R.
  - destruct (H eq_refl) as [-> N]. exact N.
  - destruct e; try exact R; discriminate R.
Qed.

Lemma get_user_input_cases s :
  match get_user_input s with
  | Return params _ => exists x y z, params = [x; y; z]
  | Raise e _ => reserved e = false
  | OutOfFuel _ => False
  end.
Proof.
  destruct (stdin s) as [|a [|b [|c rest]]] eqn:E.
  1-3: destruct (get_user_input_EOF s) as [s1 R]; [rewrite E; cbn; lia | rewrite R; reflexivity].
  rewrite (get_user_input_unfold _ _ _ _ _ E).
  destruct (forallb Py.isdigit [a; b; c]) eqn:F.
  - rewrite (map_int_isdigit a b c F).
    destruct (forallb decimal_string [a; b; c]); cbn; eauto.
  - cbn. eauto.
Qed.

Lemma main_view_the_results_cases s :
  match main_view_the_results s with
  | Return _ s' => now s' = now s /\ wait_times s' = wait_times s /\ wait_times s <> []
  | Raise e _ => reserved e = false
  | OutOfFuel _ => False
  end.
Proof.
  unfold main_view_the_results, bind, get.
  destruct (wait_times s) as [|x l] eqn:W; [reflexivity|].
  rewrite calculate_wait_time_nonempty by discriminate. cbn.
  rewrite W. repeat split. discriminate.
Qed.

(** How [main] can end. *)
Lemma main_cases mt fuel s :
  match main mt fuel s with
  | Return _ s' => now s' = 90 /\ wait_times s' <> []
  | Raise e _ => reserved e = false
  | OutOfFuel _ => True
  end.
Proof.
  rewrite main_unfold.
  pose proof (get_user_input_cases (set_random (mt 0%Z) 0%nat s)) as G.
  destruct (get_user_input (set_random (mt 0%Z) 0%nat s)) as [params s1|e s1|s1];
    [|exact G|destruct G].
  destruct G as (x & y & z & ->).
  unfold bind, main_run_the_simulation. rewrite print_Environment_bind.
  match goal with
  | |- context [(env_process _ >> run 90 fuel) (fresh_environment ?s2)] =>
      pose proof (run_stops x y z fuel s2) as R;
      destruct ((env_process (run_theater_start x y z) >> run 90 fuel)
                  (fresh_environment s2)) as [[] s3|e s3|s3]; [|exact R|exact Logic.I]
  end.
  pose proof (main_view_the_results_cases s3) as V.
  destruct (main_view_the_results s3) as [[] s4|e s4|s4]; [|exact V|destruct V].
  destruct V as (N & W & Ne). rewrite N, W. auto.
Qed.

(** The state at the end of a run with one cashier, one server and one
    usher, every draw of [random] being 0. *)
Abbreviation a_complete_run :=
  (main (fun _ _ => 0%N) 2500
     (session (fun _ => 0%N) [Py.lit "1"; Py.lit "1"; Py.lit "1"])).

(** X14.  When [main] returns, the clock of the simulation reads 90: the
    run goes on to the horizon, where the event of [until] stops it, and at
    least one customer has been recorded by then. *)
Theorem main_returns_at_the_horizon
    (mt : Z -> nat -> N) (fuel : nat) (s s' : State) :
  main mt fuel s = Return tt s' -> now s' = 90 /\ wait_times s' <> [].
Proof.
  intros H. pose proof (main_cases mt fuel s) as C. rewrite H in C. exact C.
Qed.

Lemma main_returns_at_the_horizon_witness :
  now (final_state a_complete_run) = 90 /\ wait_times (final_state a_complete_run) <> [].
Proof.
  assert (E : a_complete_run = Return tt (final_state a_complete_run))
    by (vm_compute; reflexivity).
  exact (main_returns_at_the_horizon (fun _ _ => 0%N) 2500
           (session (fun _ => 0%N) [Py.lit "1"; Py.lit "1"; Py.lit "1"]) _ E).
Defined.

(** X15.  The exceptions that the event loop uses for itself never leave
    [main]: whatever [main] raises, it is not StopSimulation, not
    EmptySchedule, and not the RuntimeError of [env.run] for a queue that
    is empty before the horizon. *)
Theorem main_raises_no_exception_of_the_event_loop
    (mt : Z -> nat -> N) (fuel : nat) (s : State) (e : Exception) (s' : State) :
  main mt fuel s = Raise e s' ->
  e <> StopSimulation /\ e <> EmptySchedule /\
  e <> RuntimeError "No scheduled events left but until event was not triggered".
Proof.
  intros H. pose proof (main_cases mt fuel s) as C. rewrite H in C.
  repeat split; intros ->; discriminate C.
Qed.

(** With no usher, [main] raises the ValueError of [simpy.Resource]. *)
Lemma main_raises_no_exception_of_the_event_loop_witness :
  ValueError "capacity must be > 0." <> StopSimulation /\
  ValueError "capacity must be > 0." <> EmptySchedule /\
  ValueError "capacity must be > 0." <>
    RuntimeError "No scheduled events left but until event was not triggered".
Proof.
  assert (E : main (fun _ _ => 0%N) 2
                (session (fun _ => 0%N) [Py.lit "1"; Py.lit "1"; Py.lit "0"]) =
              Raise (ValueError "capacity must be > 0.")
                (final_state (main (fun _ _ => 0%N) 2
                   (session (fun _ => 0%N) [Py.lit "1"; Py.lit "1"; Py.lit "0"]))))
    by (vm_compute; reflexivity).
  exact (main_raises_no_exception_of_the_event_loop _ _ _ _ _ E).
Defined.

(** ** What [main] prints *)

(** [silent s s']: nothing has been printed or read. *)
Definition silent (s s' : State) : Prop := stdout s' = stdout s /\ stdin s' = stdin s.

#[local] Instance silent_preorder : PreOrder silent.
Proof.
  split.
  - intros s. split; reflexivity.
  - intros a b c [] []. split; congruence.
Qed.

Create HintDb silent discriminated.

Ltac silent_tac :=
  repeat first
    [ solve [eauto with silent]
    | effect_step
    | split; reflexivity ].

Lemma silent_schedule event priority delay : effect silent (schedule event priority delay).
Proof. intros s. unfold schedule. silent_tac. Qed.
#[local] Hint Resolve silent_schedule : silent.

Lemma silent_new_object ev : effect silent (new_object ev).
Proof. intros s. unfold new_object. silent_tac. Qed.
#[local] Hint Resolve silent_new_object : silent.

Lemma silent_get_event event : effect silent (get_event event).
Proof. intros s. unfold get_event. silent_tac. Qed.
#[local] Hint Resolve silent_get_event : silent.

Lemma silent_update_event event f : effect silent (update_event event f).
Proof. intros s. unfold update_event. silent_tac. Qed.
#[local] Hint Resolve silent_update_event : silent.

Lemma silent_callbacks_append event cb : effect silent (callbacks_append event cb).
Proof. intros s. unfold callbacks_append. silent_tac. Qed.
#[local] Hint Resolve silent_callbacks_append : silent.

Lemma silent_succeed event : effect silent (succeed event).
Proof. intros s. unfold succeed. silent_tac. Qed.
#[local] Hint Resolve silent_succeed : silent.

Lemma silent_env_timeout delay : effect silent (env_timeout delay).
Proof. intros s. unfold env_timeout. silent_tac. Qed.
#[local] Hint Resolve silent_env_timeout : silent.

Lemma silent_env_process g : effect silent (env_process g).
Proof. intros s. unfold env_process. silent_tac. Qed.
#[local] Hint Resolve silent_env_process : silent.

Lemma silent_get_theater : effect silent get_theater.
Proof. intros s. unfold get_theater. silent_tac. Qed.
#[local] Hint Resolve silent_get_theater : silent.

Lemma silent_get_resource r : effect silent (get_resource r).
Proof. intros s. unfold get_resource. silent_tac. Qed.
#[local] Hint Resolve silent_get_resource : silent.

Lemma silent_update_resource r f : effect silent (update_resource r f).
Proof. intros s. unfold update_resource. silent_tac. Qed.
#[local] Hint Resolve silent_update_resource : silent.

Lemma silent_do_put r event : effect silent (do_put r event).
Proof. intros s. unfold do_put. silent_tac. Qed.
#[local] Hint Resolve silent_do_put : silent.

Lemma silent_do_get r event : effect silent (do_get r event).
Proof. intros s. unfold do_get. silent_tac. Qed.
#[local] Hint Resolve silent_do_get : silent.

Lemma silent_trigger_put r : effect silent (trigger_put r).
Proof. intros s. unfold trigger_put. silent_tac. Qed.
#[local] Hint Resolve silent_trigger_put : silent.

Lemma silent_trigger_get r : effect silent (trigger_get r).
Proof. intros s. unfold trigger_get. silent_tac. Qed.
#[local] Hint Resolve silent_trigger_get : silent.

Lemma silent_request r : effect silent (request r).
Proof. intros s. unfold request. silent_tac. Qed.
#[local] Hint Resolve silent_request : silent.

Lemma silent_release r req : effect silent (release r req).
Proof. intros s. unfold release. silent_tac. Qed.
#[local] Hint Resolve silent_release : silent.

Lemma silent_Request_exit r req : effect silent (Request_exit r req).
Proof. intros s. unfold Request_exit. silent_tac. Qed.
#[local] Hint Resolve silent_Request_exit : silent.

Lemma silent_randint a b : effect silent (randint a b).
Proof. intros s. unfold randint, randbelow. silent_tac. Qed.
#[local] Hint Resolve silent_randint : silent.

Lemma silent_choice : effect silent choice_True_False.
Proof. intros s. unfold choice_True_False, randbelow. silent_tac. Qed.
#[local] Hint Resolve silent_choice : silent.

Lemma silent_wait_times_append x : effect silent (wait_times_append x).
Proof. intros s. unfold wait_times_append. silent_tac. Qed.
#[local] Hint Resolve silent_wait_times_append : silent.

Lemma silent_Theater_init a b c : effect silent (Theater_init a b c).
Proof. intros s. unfold Theater_init, Resource_init. silent_tac. Qed.
#[local] Hint Resolve silent_Theater_init : silent.

Lemma silent_send g : effect silent (send g).
Proof.
  intros s. unfold send. destruct (gi_code g).
  - unfold run_theater. destruct g; unfold stop_iteration; silent_tac.
  - unfold go_to_movies. destruct g; unfold stop_iteration; silent_tac.
  - unfold purchase_ticket. destruct g; unfold stop_iteration; silent_tac.
  - unfold check_ticket. destruct g; unfold stop_iteration; silent_tac.
  - unfold sell_food. destruct g; unfold stop_iteration; silent_tac.
Qed.
#[local] Hint Resolve silent_send : silent.

Lemma silent_throw g e : effect silent (throw g e).
Proof. intros s. unfold throw. destruct g; silent_tac. Qed.
#[local] Hint Resolve silent_throw : silent.

Lemma silent_process_outcome p g st rt r :
  silent (final_state r) (final_state (process_outcome p g st rt r)).
Proof.
  destruct r as [[g' [t|]] s|e s|s]; cbn [process_outcome final_state]; try reflexivity;
    silent_tac.
Qed.

Lemma silent_resume p event : effect silent (resume p event).
Proof.
  intros s. unfold resume. unfold bind at 1. rewrite get_event_unfold.
  destruct (objects s !! p) as [pe|] eqn:Hp; [|reflexivity].
  cbv beta iota. destruct (class pe) as [| | |g st rt| |] eqn:C; try reflexivity.
  unfold bind at 1, get at 1. cbv beta iota.
  unfold bind at 1. rewrite get_event_unfold.
  destruct (objects s !! event) as [ev|] eqn:He; [|reflexivity].
  cbv beta iota.
  etransitivity; [|apply silent_process_outcome].
  destruct (value ev); silent_tac.
Qed.
#[local] Hint Resolve silent_resume : silent.

Lemma silent_call cb event : effect silent (call cb event).
Proof. intros s. unfold call. destruct cb; silent_tac. Qed.
#[local] Hint Resolve silent_call : silent.

Lemma silent_step : effect silent step.
Proof. intros s. unfold step. silent_tac. Qed.

Lemma silent_step_loop fuel : effect silent (step_loop fuel).
Proof.
  induction fuel as [|fuel IH]; intros s; cbn [step_loop].
  - reflexivity.
  - effect_step; [apply silent_step | apply IH].
Qed.

(** The simulation prints nothing and reads nothing. *)
Lemma silent_run until fuel : effect silent (run until fuel).
Proof.
  intros s. unfold run. effect_step.
  destruct (Qle_bool until (now s)); [reflexivity|].
  effect_step; [apply silent_new_object|].
  effect_step; [apply silent_schedule|].
  effect_step; [apply silent_callbacks_append|].
  match goal with
  | |- context [step_loop fuel ?s1] =>
      pose proof (silent_step_loop fuel s1) as L;
      destruct (step_loop fuel s1) as [[] s2|[] s2|s2]; exact L
  end.
Qed.

Lemma string_app_nil_r (a : string) : (a ++ "")%string = a.
Proof. induction a as [|ch a IH]; cbn; [reflexivity | now rewrite IH]. Qed.

Lemma get_user_input_console s a b c rest params s1 :
  stdin s = a :: b :: c :: rest ->
  get_user_input s = Return params s1 ->
  stdout s1 = (stdout s ++ prompts ++
               (if forallb Py.isdigit [a; b; c] then "" else warning))%string /\
  stdin s1 = rest.
Proof.
  intros E H. destruct (forallb Py.isdigit [a; b; c]) eqn:F.
  - rewrite (get_user_input_unfold _ _ _ _ _ E), F in H.
    destruct (map_int [a; b; c]) as [ps|e]; [|discriminate H].
    cbn in H. injection H as _ <-. split; [|reflexivity].
    cbn [stdout set_stdin set_stdout]. rewrite string_app_nil_r. reflexivity.
  - rewrite (get_user_input_default s a b c rest E F) in H. injection H as _ <-. auto.
Qed.

Lemma main_run_the_simulation_console params fuel s s2 :
  main_run_the_simulation params fuel s = Return tt s2 ->
  stdout s2 = (stdout s ++ "Running simulation..." ++ newline)%string /\
  stdin s2 = stdin s.
Proof.
  unfold main_run_the_simulation.
  destruct params as [|x [|y [|z [|d l]]]]; try discriminate.
  rewrite print_Environment_bind. intros H.
  match type of H with
  | bind ?m ?k ?s1 = _ =>
      assert (S : silent s1 (final_state (bind m k s1)))
        by (effect_step; [apply silent_env_process | apply silent_run])
  end.
  rewrite H in S. destruct S as [S1 S2]. cbn in S1, S2. auto.
Qed.

Lemma main_view_the_results_console s s' :
  main_view_the_results s = Return tt s' ->
  exists minutes seconds,
    calculate_wait_time (wait_times s) = Returns (minutes, seconds) /\
    s' = set_stdout (stdout s ++ summary minutes seconds) s.
Proof.
  intros H.
  destruct (calculate_wait_time (wait_times s)) as [[minutes seconds]|e] eqn:Cw.
  - assert (K : main_view_the_results s =
                Return tt (set_stdout (stdout s ++ summary minutes seconds) s)).
    { unfold main_view_the_results, bind, get. rewrite Cw.
      unfold lift, ret, print, write, modify, summary.
      rewrite !string_app_assoc. reflexivity. }
    rewrite K in H. injection H as <-. eauto.
  - unfold main_view_the_results, bind, get in H. rewrite Cw in H. discriminate H.
Qed.

(** X16.  When [main] returns, what it has printed is: the three prompts;
    the warning, when one of the three entries fails [str.isdigit];
    "Running simulation..."; and the summary line with the minutes and
    seconds that [calculate_wait_time] gives for the samples in
    [wait_times].  The simulation itself prints nothing, and [main] reads
    the three entries and no more. *)
Theorem main_prints_prompts_banner_and_summary
    (mt : Z -> nat -> N) (fuel : nat) (s : State) (a b c : Py.str) (rest : list Py.str)
    (s' : State) :
  stdin s = a :: b :: c :: rest ->
  main mt fuel s = Return tt s' ->
  exists minutes seconds,
    calculate_wait_time (wait_times s') = Returns (minutes, seconds) /\
    stdout s' =
      (stdout s ++ prompts ++ (if forallb Py.isdigit [a; b; c] then "" else warning) ++
       "Running simulation..." ++ newline ++ summary minutes seconds)%string /\
    stdin s' = rest.
Proof.
  intros E H. rewrite main_unfold in H.
  destruct (get_user_input (set_random (mt 0%Z) 0%nat s)) as [params s1|e s1|s1] eqn:G;
    try discriminate H.
  destruct (get_user_input_console (set_random (mt 0%Z) 0%nat s) a b c rest _ _ E G)
    as [O1 I1].
  change (stdout (set_random (mt 0%Z) 0%nat s)) with (stdout s) in O1.
  apply bind_Return in H as ([] & s2 & R & V).
  destruct (main_run_the_simulation_console _ _ _ _ R) as [O2 I2].
  destruct (main_view_the_results_console _ _ V) as (minutes & seconds & Cw & ->).
  exists minutes, seconds. split; [exact Cw|]. split.
  - cbn. rewrite O2, O1, !string_app_assoc. reflexivity.
  - cbn. congruence.
Qed.

Lemma main_prints_prompts_banner_and_summary_witness :
  exists minutes seconds,
    calculate_wait_time (wait_times (final_state a_complete_run)) =
      Returns (minutes, seconds) /\
    stdout (final_state a_complete_run) =
      ("" ++ prompts ++ "" ++ "Running simulation..." ++ newline ++
       summary minutes seconds)%string /\
    stdin (final_state a_complete_run) = [].
Proof.
  assert (E : a_complete_run = Return tt (final_state a_complete_run))
    by (vm_compute; reflexivity).
  exact (main_prints_prompts_banner_and_summary (fun _ _ => 0%N) 2500
           (session (fun _ => 0%N) [Py.lit "1"; Py.lit "1"; Py.lit "1"])
           (Py.lit "1") (Py.lit "1") (Py.lit "1") [] _ eq_refl E).
Defined.

(** ** Half seconds *)

Lemma round_half (k : Z) :
  round (inject_Z k + (1 # 2)) = if Z.even k then k else (k + 1)%Z.
Proof.
  unfold round.
  assert (F : Qfloor (inject_Z k + (1 # 2)) = k).
  { apply Qfloor_between; rewrite ?inject_Z_plus; change (inject_Z 1) with 1; lra. }
  rewrite F.
  destruct (Qcompare_spec (inject_Z k + (1 # 2) - inject_Z k) (1 # 2)) as [E|E|E];
    [reflexivity | lra | lra].
Qed.



(** ** A positive staffing: the simulation does not fail *)

(** The request that a customer waits for or holds. *)
Definition held (g : Generator) : option nat :=
  match g with
  | go_to_movies_cashier_request _ _ req | go_to_movies_cashier_process _ _ req
  | go_to_movies_usher_request _ _ req | go_to_movies_usher_process _ _ req
  | go_to_movies_server_request _ _ req | go_to_movies_server_process _ _ req => Some req
  | _ => None
  end.

(** A generator is [sound] among [n] objects: it is not the start of
    [run_theater], and its request exists. *)
Definition sound (n : nat) (g : Generator) : Prop :=
  match g with
  | run_theater_start _ _ _ => False
  | _ => forall req, held g = Some req -> (req < n)%nat
  end.

Definition is_process_at (objs : list Event) (p : nat) : Prop :=
  exists pe, objs !! p = Some pe /\ is_process (class pe) = true.

(** An event is in order among the objects [objs]: it has not failed, the
    processes that wait for it exist, and its generator is sound. *)
Record event_fine (objs : list Event) (ev : Event) : Prop := mkEventFine {
  ef_value : forall e, value ev <> failed e;
  ef_resume : forall cbs p, callbacks ev = Some cbs -> In (Process_resume p) cbs ->
                            is_process_at objs p;
  ef_sound : forall g st rt, class ev = Process g st rt -> sound (length objs) g
}.

(** A request waits for the pool [r]. *)
Definition waits_for (objs : list Event) (r : Attr) (e : nat) : Prop :=
  exists ev, objs !! e = Some ev /\ value ev = PENDING /\ class ev = Request r.

(** The pool [r] is at rest: no release waits, and the requests that wait
    are pending requests for [r], each once. *)
Record pool_fine (objs : list Event) (r : Attr) (res : Resource) : Prop := mkPoolFine {
  pf_get : get_queue res = [];
  pf_nodup : NoDup (put_queue res);
  pf_put : Forall (waits_for objs r) (put_queue res)
}.

Record fine (s : State) : Prop := mkFine {
  fine_events : Forall (event_fine (objects s)) (objects s);
  fine_theater : exists t, theater s = Some t /\ forall r, pool_fine (objects s) r (getattr r t);
  fine_queue : Forall (fun x => (entry_event x < length (objects s))%nat) (queue s)
}.

(** [m] returns from [s], in a state and with a result that satisfy [Q]. *)
Definition returns {A} (m : M A) (s : State) (Q : A -> State -> Prop) : Prop :=
  match m s with
  | Return a s' => Q a s'
  | _ => False
  end.

Lemma returns_weaken {A} (m : M A) s (Q1 Q : A -> State -> Prop) :
  returns m s Q1 -> (forall a s1, Q1 a s1 -> Q a s1) -> returns m s Q.
Proof. unfold returns. intros H1 H2. destruct (m s); try contradiction. auto. Qed.

(** The shape of an object: its class and its callbacks. *)
Definition shape (ev : Event) : EventClass * option (list Callback) := (class ev, callbacks ev).

(** *** How the objects may change *)

(** [older objs objs']: the objects of [objs] are still there, and the
    processes among them are still processes. *)
Definition older (objs objs' : list Event) : Prop :=
  (length objs <= length objs')%nat /\
  forall p, is_process_at objs p -> is_process_at objs' p.

#[local] Instance older_preorder : PreOrder older.
Proof.
  split.
  - intros l. split; auto.
  - intros a b c [L1 P1] [L2 P2]. split; [lia | auto].
Qed.

Lemma sound_le n n' g : (n <= n')%nat -> sound n g -> sound n' g.
Proof.
  intros L. destruct g; cbn; auto; intros H req E; specialize (H req E); lia.
Qed.

Lemma event_fine_older objs objs' ev : older objs objs' -> event_fine objs ev -> event_fine objs' ev.
Proof.
  intros [L P] [V R S]. split; [exact V | |].
  - intros cbs p C I. apply P. eapply R; eassumption.
  - intros g st rt C. eapply sound_le; [exact L | eapply S, C].
Qed.

Lemma older_app objs news : older objs (objs ++ news).
Proof.
  split; [rewrite length_app; lia|]. intros p (pe & E & Pp). exists pe.
  split; [apply lookup_app_l_Some, E | exact Pp].
Qed.

Lemma older_insert objs e ev ev' :
  objs !! e = Some ev -> (is_process (class ev) = true -> is_process (class ev') = true) ->
  older objs (<[e := ev']> objs).
Proof.
  intros E H. split; [rewrite length_insert; lia|]. intros p (pe & Ep & Pp).
  destruct (decide (p = e)) as [->|Ne].
  - exists ev'. split; [apply list_lookup_insert_eq; eapply lookup_lt_Some, E|].
    apply H. congruence.
  - exists pe. split; [rewrite list_lookup_insert_ne by congruence; exact Ep | exact Pp].
Qed.

Lemma waits_for_app objs news r e : waits_for objs r e -> waits_for (objs ++ news) r e.
Proof. intros (ev & E & V & C). exists ev. split; [apply lookup_app_l_Some, E | auto]. Qed.

Lemma waits_for_insert objs e0 ev0 ev' r e :
  objs !! e0 = Some ev0 ->
  (value ev0 = PENDING -> class ev0 = Request r -> value ev' = PENDING /\ class ev' = Request r) ->
  waits_for objs r e -> waits_for (<[e0 := ev']> objs) r e.
Proof.
  intros E0 H (ev & E & V & C). destruct (decide (e = e0)) as [->|Ne].
  - rewrite E0 in E. injection E as <-. destruct (H V C) as [V' C'].
    exists ev'. split; [apply list_lookup_insert_eq; eapply lookup_lt_Some, E0 | auto].
  - exists ev. split; [rewrite list_lookup_insert_ne by congruence; exact E | auto].
Qed.

Lemma pool_fine_impl objs objs' r res :
  (forall e, waits_for objs r e -> waits_for objs' r e) ->
  pool_fine objs r res -> pool_fine objs' r res.
Proof.
  intros H [G N P]. split; [exact G | exact N|]. eapply Forall_impl; [exact P | exact H].
Qed.

(** *** The changes of the state that keep it fine *)

Lemma fine_same s s' :
  objects s' = objects s -> theater s' = theater s -> queue s' = queue s -> fine s -> fine s'.
Proof. intros O T Q [F1 F2 F3]. split; rewrite ?O, ?T, ?Q; assumption. Qed.

Lemma fine_cons_queue s x :
  (entry_event x < length (objects s))%nat -> fine s -> fine (set_queue (x :: queue s) s).
Proof. intros L [F1 F2 F3]. split; try assumption. cbn. constructor; assumption. Qed.

(** A new object. *)
Lemma fine_push s ev :
  event_fine (objects s ++ [ev]) ev -> fine s -> fine (set_objects (objects s ++ [ev]) s).
Proof.
  intros Hev [F1 F2 F3]. split; cbn.
  - apply Forall_app. split; [|constructor; [exact Hev | constructor]].
    eapply Forall_impl; [exact F1|]. intros e. apply event_fine_older, older_app.
  - destruct F2 as (t & T & P). exists t. split; [exact T|]. intros r.
    eapply pool_fine_impl; [|apply P]. intros e. apply waits_for_app.
  - eapply Forall_impl; [exact F3|]. cbn. intros x L. rewrite length_app. lia.
Qed.

(** An object is changed: it stays a process if it was one, and a pending
    request if it was one. *)
Lemma fine_insert s e ev ev' :
  objects s !! e = Some ev ->
  (is_process (class ev) = true -> is_process (class ev') = true) ->
  (forall r, value ev = PENDING -> class ev = Request r ->
             value ev' = PENDING /\ class ev' = Request r) ->
  event_fine (<[e := ev']> (objects s)) ev' ->
  fine s -> fine (set_objects (<[e := ev']> (objects s)) s).
Proof.
  intros E Hp Hr Hev [F1 F2 F3]. split; cbn.
  - apply Forall_insert; [|exact Hev].
    eapply Forall_impl; [exact F1|]. intros x. apply event_fine_older.
    eapply older_insert; eassumption.
  - destruct F2 as (t & T & P). exists t. split; [exact T|]. intros r.
    eapply pool_fine_impl; [|apply P]. intros x. eapply waits_for_insert; [exact E | apply Hr].
  - rewrite length_insert. exact F3.
Qed.

(** A pool is changed. *)
Lemma fine_set_pool s t r res :
  theater s = Some t -> pool_fine (objects s) r res ->
  fine s -> fine (set_theater (Some (setattr r res t)) s).
Proof.
  intros T Pr [F1 F2 F3]. split; try assumption. cbn.
  destruct F2 as (t0 & T0 & P). rewrite T in T0. injection T0 as <-.
  eexists. split; [reflexivity|]. intros a. rewrite getattr_setattr.
  destruct (decide (a = r)) as [->|_]; [exact Pr | apply P].
Qed.

(** *** What the operations return *)

Lemma get_resource_Return r s t :
  theater s = Some t -> get_resource r s = Return (getattr r t) s.
Proof. intros T. unfold get_resource, get_theater, bind, get. rewrite T. reflexivity. Qed.

Lemma update_resource_Return r f s t :
  theater s = Some t ->
  update_resource r f s = Return tt (set_theater (Some (setattr r (f (getattr r t)) t)) s).
Proof. intros T. unfold update_resource, get_theater, bind, get. rewrite T. reflexivity. Qed.

Lemma getattr_setattr_same r res t : getattr r (setattr r res t) = res.
Proof. destruct r; reflexivity. Qed.

Lemma setattr_setattr r res res' t : setattr r res' (setattr r res t) = setattr r res' t.
Proof. destruct r; reflexivity. Qed.

(** The objects that an operation leaves: those there were, with the same
    class and callbacks, and new ones of the shapes [news]. *)
Definition leaves (s s' : State) (news : list (EventClass * option (list Callback))) : Prop :=
  shape <$> objects s' = (shape <$> objects s) ++ news.

Lemma leaves_refl s : leaves s s [].
Proof. unfold leaves. rewrite app_nil_r. reflexivity. Qed.

Lemma leaves_trans s s1 s2 n1 n2 :
  leaves s s1 n1 -> leaves s1 s2 n2 -> leaves s s2 (n1 ++ n2).
Proof. unfold leaves. intros -> ->. rewrite app_assoc. reflexivity. Qed.

Lemma leaves_same s s' : objects s' = objects s -> leaves s s' [].
Proof. unfold leaves. intros ->. rewrite app_nil_r. reflexivity. Qed.

Lemma leaves_length s s' news :
  leaves s s' news -> length (objects s') = (length (objects s) + length news)%nat.
Proof.
  unfold leaves. intros H. apply (f_equal length) in H.
  rewrite length_app, !length_fmap in H. exact H.
Qed.

Lemma leaves_lookup s s' news e ev :
  leaves s s' news -> objects s !! e = Some ev ->
  exists ev', objects s' !! e = Some ev' /\ class ev' = class ev /\ callbacks ev' = callbacks ev.
Proof.
  unfold leaves. intros H E.
  assert (L : (shape <$> objects s') !! e = Some (shape ev)).
  { rewrite H. apply lookup_app_l_Some. rewrite list_lookup_fmap, E. reflexivity. }
  rewrite list_lookup_fmap in L. destruct (objects s' !! e) as [ev'|]; [|discriminate L].
  cbn in L. injection L as Hc Hb. eauto.
Qed.

Lemma leaves_new s s' news i c cb :
  leaves s s' news -> news !! i = Some (c, cb) ->
  exists ev', objects s' !! (length (objects s) + i)%nat = Some ev' /\
              class ev' = c /\ callbacks ev' = cb.
Proof.
  unfold leaves. intros H E.
  assert (L : (shape <$> objects s') !! (length (objects s) + i)%nat = Some (c, cb)).
  { rewrite H, lookup_app_r by (rewrite length_fmap; lia).
    rewrite length_fmap. replace (length (objects s) + i - length (objects s))%nat with i by lia.
    exact E. }
  rewrite list_lookup_fmap in L.
  destruct (objects s' !! (length (objects s) + i)%nat) as [ev'|]; [|discriminate L].
  cbn in L. injection L as Hc Hb. eauto.
Qed.

Lemma leaves_older s s' news : leaves s s' news -> older (objects s) (objects s').
Proof.
  intros H. split; [rewrite (leaves_length _ _ _ H); lia|].
  intros p (pe & E & P). destruct (leaves_lookup _ _ _ _ _ H E) as (ev' & E' & C & _).
  exists ev'. split; [exact E' | congruence].
Qed.

Lemma leaves_insert s s' e ev ev' :
  objects s !! e = Some ev -> shape ev' = shape ev ->
  objects s' = <[e := ev']> (objects s) -> leaves s s' [].
Proof.
  intros E Sh O. unfold leaves. rewrite O, app_nil_r, list_fmap_insert, Sh.
  apply list_insert_id. rewrite list_lookup_fmap, E. reflexivity.
Qed.

(** A request is granted: it is triggered, scheduled, and taken from the
    queue of its pool. *)
Lemma fine_grant s s' t r res' h q ev x :
  fine s -> theater s = Some t -> put_queue (getattr r t) = h :: q ->
  objects s !! h = Some ev ->
  objects s' = <[h := set_value succeeded ev]> (objects s) ->
  theater s' = Some (setattr r res' t) ->
  put_queue res' = q -> get_queue res' = [] ->
  queue s' = x :: queue s -> entry_event x = h ->
  fine s'.
Proof.
  intros [F1 F2 F3] T Pq E O' T' Pq' Gq' Q' X.
  destruct F2 as (t0 & T0 & P). rewrite T in T0. injection T0 as <-.
  assert (Hh : waits_for (objects s) r h).
  { pose proof (pf_put _ _ _ (P r)) as W. rewrite Pq in W. apply Forall_cons in W as [W _].
    exact W. }
  assert (Old : older (objects s) (objects s')).
  { rewrite O'. eapply older_insert; [exact E | auto]. }
  split.
  - rewrite O'. apply Forall_insert.
    + eapply Forall_impl; [exact F1|]. intros y. rewrite <- O'. apply event_fine_older, Old.
    + rewrite Forall_lookup in F1. destruct (F1 _ _ E) as [V R S]. rewrite <- O'.
      split; cbn.
      * discriminate.
      * intros cbs p C I. apply Old. eapply R; eassumption.
      * intros g st rt C. eapply sound_le; [apply Old | eapply S, C].
  - exists (setattr r res' t). split; [exact T'|]. intros a. rewrite getattr_setattr.
    destruct (decide (a = r)) as [->|Ne].
    + pose proof (P r) as [G N W]. rewrite Pq in N, W.
      apply NoDup_cons in N as [Nh N]. apply Forall_cons in W as [_ W].
      split; [exact Gq' | rewrite Pq'; exact N|]. rewrite Pq'.
      rewrite Forall_forall in *. intros e I. destruct (W e I) as (ev1 & E1 & V1 & C1).
      exists ev1. split; [|auto]. rewrite O', list_lookup_insert_ne; [exact E1|].
      intros ->. apply Nh, I.
    + eapply pool_fine_impl; [|apply P]. intros e (ev1 & E1 & V1 & C1).
      exists ev1. split; [|auto]. rewrite O', list_lookup_insert_ne; [exact E1|].
      intros ->. destruct Hh as (ev2 & E2 & _ & C2). rewrite E in E2. injection E2 as <-.
      rewrite E1 in E. injection E as ->. congruence.
  - rewrite Q'. constructor.
    + rewrite X, O', length_insert. eapply lookup_lt_Some, E.
    + eapply Forall_impl; [exact F3|]. cbn. intros y. rewrite O', length_insert. auto.
Qed.

(** [trigger_put]: the first request that waits is granted, when there is
    a free slot. *)
Lemma trigger_put_fine r s :
  fine s -> returns (trigger_put r) s (fun _ s' => fine s' /\ leaves s s' []).
Proof.
  intros F. destruct (fine_theater _ F) as (t & T & P).
  unfold trigger_put, returns, bind. rewrite (get_resource_Return r s t T).
  destruct (put_queue (getattr r t)) as [|h q] eqn:Pq.
  { split; [exact F | apply leaves_refl]. }
  pose proof (pf_put _ _ _ (P r)) as W. rewrite Pq in W. apply Forall_cons in W as [W _].
  destruct W as (ev & E & V & C).
  unfold do_put, bind. rewrite (get_resource_Return r s t T).
  destruct (Z.of_nat (length (users (getattr r t))) <? capacity (getattr r t))%Z.
  - rewrite (update_resource_Return r _ s t T).
    unfold succeed, bind. rewrite get_event_unfold. cbn [objects set_theater]. rewrite E.
    unfold triggered. rewrite V.
    match goal with |- context [update_event h ?f ?s1] =>
      rewrite (update_event_Return h f s1 ev E) end.
    cbn [schedule modify]. rewrite get_event_unfold.
    cbn [objects set_eid set_queue set_objects set_theater].
    rewrite list_lookup_insert_eq by (eapply lookup_lt_Some, E). cbn [value set_value].
    match goal with |- context [update_resource r ?f ?s3] =>
      rewrite (update_resource_Return r f s3 _ eq_refl) end.
    rewrite getattr_setattr_same, setattr_setattr. cbn [put_queue get_queue users capacity tail].
    split.
    + eapply (fine_grant s _ t r _ h q ev); try eassumption; try reflexivity.
      * cbn. rewrite Pq. reflexivity.
      * cbn. apply (pf_get _ _ _ (P r)).
    + apply (leaves_insert s _ h ev (set_value succeeded ev) E); reflexivity.
  - cbn [ret]. rewrite get_event_unfold, E. unfold triggered. rewrite V.
    split; [exact F | apply leaves_refl].
Qed.

(** [trigger_get], when no release waits. *)
Lemma trigger_get_fine r s :
  fine s -> returns (trigger_get r) s (fun _ s' => s' = s).
Proof.
  intros F. destruct (fine_theater _ F) as (t & T & P).
  unfold trigger_get, returns, bind. rewrite (get_resource_Return r s t T).
  rewrite (pf_get _ _ _ (P r)). reflexivity.
Qed.

Lemma lookup_length_snoc {A} (l : list A) x : (l ++ [x]) !! length l = Some x.
Proof. apply list_lookup_middle. reflexivity. Qed.

Lemma insert_length_snoc {A} (l : list A) x y : <[length l := y]> (l ++ [x]) = l ++ [y].
Proof.
  rewrite insert_app_r_alt by lia. rewrite Nat.sub_diag. reflexivity.
Qed.

Lemma waits_for_lt objs r e : waits_for objs r e -> (e < length objs)%nat.
Proof. intros (ev & E & _). eapply lookup_lt_Some, E. Qed.

(** The state in which a new request waits for its pool. *)
Lemma fine_request_state s s' t r res' :
  fine s -> theater s = Some t ->
  objects s' =
    objects s ++ [mkEvent (Request r) (Some [Resource_trigger_get r]) PENDING false] ->
  theater s' = Some (setattr r res' t) ->
  put_queue res' = put_queue (getattr r t) ++ [length (objects s)] ->
  get_queue res' = get_queue (getattr r t) ->
  queue s' = queue s ->
  fine s'.
Proof.
  intros [F1 F2 F3] T O' T' Pq' Gq' Q'.
  destruct F2 as (t0 & T0 & P). rewrite T in T0. injection T0 as <-.
  split.
  - rewrite O'. apply Forall_app. split.
    + eapply Forall_impl; [exact F1|]. intros y. apply event_fine_older, older_app.
    + constructor; [|constructor]. split; cbn.
      * discriminate.
      * intros cbs p C I. injection C as <-. destruct I as [I|[]]. discriminate I.
      * discriminate.
  - exists (setattr r res' t). split; [exact T'|]. intros a. rewrite getattr_setattr.
    destruct (decide (a = r)) as [->|Ne].
    + pose proof (P r) as [G N W]. split.
      * rewrite Gq'. exact G.
      * rewrite Pq'. apply NoDup_app. split; [exact N|]. split; [|apply NoDup_singleton].
        intros e I J. apply list_elem_of_singleton in J. subst e.
        rewrite Forall_forall in W. pose proof (waits_for_lt _ _ _ (W _ I)). lia.
      * rewrite Pq', O'. apply Forall_app. split.
        -- eapply Forall_impl; [exact W|]. intros e. apply waits_for_app.
        -- constructor; [|constructor]. eexists. split; [apply lookup_length_snoc|].
           split; reflexivity.
    + rewrite O'. eapply pool_fine_impl; [|apply P]. intros e. apply waits_for_app.
  - rewrite Q', O'. eapply Forall_impl; [exact F3|]. cbn. intros y L. rewrite length_app. lia.
Qed.

(** [request]: the new request waits for its pool, or is granted at
    once. *)
Lemma request_fine r s :
  fine s ->
  returns (request r) s (fun req s' =>
    req = length (objects s) /\ fine s' /\
    leaves s s' [(Request r, Some [Resource_trigger_get r])]).
Proof.
  intros F. destruct (fine_theater _ F) as (t & T & P).
  unfold request. unfold returns. rewrite new_object_bind.
  unfold bind at 1.
  match goal with |- context [update_resource r ?f ?s1] =>
    rewrite (update_resource_Return r f s1 t T) end.
  unfold bind at 1. unfold callbacks_append. unfold bind at 1. rewrite get_event_unfold.
  cbn [objects set_theater set_objects]. rewrite lookup_length_snoc. cbn [callbacks].
  match goal with |- context [update_event ?e ?f ?s2] =>
    rewrite (update_event_Return e f s2 _ (lookup_length_snoc _ _)) end.
  cbn [objects set_theater set_objects set_callbacks class value defused callbacks app].
  rewrite insert_length_snoc. unfold bind.
  match goal with |- context [trigger_put r ?s3] =>
    assert (F3 : fine s3); [|pose proof (trigger_put_fine r s3 F3) as R;
      unfold returns in R; destruct (trigger_put r s3) as [[] s4| |]; try contradiction]
  end.
  { eapply (fine_request_state s _ t r); try eassumption; reflexivity. }
  destruct R as [F4 L4]. cbn [ret]. split; [reflexivity|]. split; [exact F4|].
  unfold leaves in *. rewrite L4, app_nil_r. cbn [objects set_objects]. rewrite fmap_app.
  reflexivity.
Qed.

(** The state in which a new release has been carried out. *)
Lemma fine_release_state s s' t r res' req x :
  fine s -> theater s = Some t ->
  objects s' =
    objects s ++ [mkEvent (Release r req) (Some [Resource_trigger_put r]) succeeded false] ->
  theater s' = Some (setattr r res' t) ->
  put_queue res' = put_queue (getattr r t) ->
  get_queue res' = [] ->
  queue s' = x :: queue s -> entry_event x = length (objects s) ->
  fine s'.
Proof.
  intros [F1 F2 F3] T O' T' Pq' Gq' Q' X.
  destruct F2 as (t0 & T0 & P). rewrite T in T0. injection T0 as <-.
  split.
  - rewrite O'. apply Forall_app. split.
    + eapply Forall_impl; [exact F1|]. intros y. apply event_fine_older, older_app.
    + constructor; [|constructor]. split; cbn.
      * discriminate.
      * intros cbs p C I. injection C as <-. destruct I as [I|[]]. discriminate I.
      * discriminate.
  - exists (setattr r res' t). split; [exact T'|]. intros a. rewrite getattr_setattr.
    destruct (decide (a = r)) as [->|Ne].
    + pose proof (P r) as [G N W]. split.
      * exact Gq'.
      * rewrite Pq'. exact N.
      * rewrite Pq', O'. eapply Forall_impl; [exact W|]. intros e. apply waits_for_app.
    + rewrite O'. eapply pool_fine_impl; [|apply P]. intros e. apply waits_for_app.
  - rewrite Q', O'. constructor; [rewrite X, length_app; cbn; lia|].
    eapply Forall_impl; [exact F3|]. cbn. intros y L. rewrite length_app. lia.
Qed.

(** [release]: the release is carried out at once. *)
Lemma release_fine r req s :
  fine s ->
  returns (release r req) s (fun rel s' =>
    rel = length (objects s) /\ fine s' /\
    leaves s s' [(Release r req, Some [Resource_trigger_put r])]).
Proof.
  intros F. destruct (fine_theater _ F) as (t & T & P).
  unfold release. unfold returns. rewrite new_object_bind.
  unfold bind at 1.
  match goal with |- context [update_resource r ?f ?s1] =>
    rewrite (update_resource_Return r f s1 t T) end.
  unfold bind at 1. unfold callbacks_append. unfold bind at 1. rewrite get_event_unfold.
  cbn [objects set_theater set_objects]. rewrite lookup_length_snoc. cbn [callbacks].
  match goal with |- context [update_event ?e ?f ?s2] =>
    rewrite (update_event_Return e f s2 _ (lookup_length_snoc _ _)) end.
  cbn [objects set_theater set_objects].
  rewrite insert_length_snoc. unfold set_callbacks at 1.
  cbn [class value defused callbacks app].
  unfold bind at 1.
  unfold trigger_get. unfold bind at 1.
  match goal with |- context [get_resource r ?s3] =>
    rewrite (get_resource_Return r s3 _ eq_refl) end.
  rewrite getattr_setattr_same. cbn [get_queue]. rewrite (pf_get _ _ _ (P r)). cbn [app].
  unfold bind at 1. unfold do_get. unfold bind at 1. rewrite get_event_unfold.
  cbn [objects set_theater set_objects]. rewrite lookup_length_snoc. cbn [class].
  unfold bind at 1.
  match goal with |- context [update_resource r ?f ?s3] =>
    rewrite (update_resource_Return r f s3 _ eq_refl) end.
  rewrite getattr_setattr_same, setattr_setattr.
  cbn [capacity users put_queue get_queue].
  unfold succeed. unfold bind at 1. rewrite get_event_unfold.
  cbn [objects set_theater set_objects]. rewrite lookup_length_snoc.
  unfold triggered at 1. cbn [value]. unfold bind at 1.
  match goal with |- context [update_event ?e ?f ?s2] =>
    rewrite (update_event_Return e f s2 _ (lookup_length_snoc _ _)) end.
  cbn [objects set_theater set_objects].
  rewrite insert_length_snoc. unfold set_value at 1.
  cbn [class value defused callbacks].
  cbn [schedule modify].
  unfold bind at 1. rewrite get_event_unfold.
  cbn [objects set_theater set_objects set_eid set_queue]. rewrite lookup_length_snoc.
  unfold triggered at 1. cbn [value].
  match goal with |- context [update_resource r ?f ?s3] =>
    rewrite (update_resource_Return r f s3 _ eq_refl) end.
  rewrite getattr_setattr_same, setattr_setattr.
  cbn [capacity users put_queue get_queue tail ret].
  split; [reflexivity|]. split.
  - eapply (fine_release_state s _ t r); try eassumption; reflexivity.
  - unfold leaves. cbn [objects set_theater set_objects set_eid set_queue].
    rewrite fmap_app. reflexivity.
Qed.

Lemma list_remove_In x y l : In y (list_remove x l) -> In y l.
Proof.
  induction l as [|z l IH]; cbn; [auto|]. destruct (x =? z)%nat; [auto|].
  intros [->|H]; auto.
Qed.

Lemma list_remove_NoDup x l : NoDup l -> NoDup (list_remove x l).
Proof.
  induction l as [|z l IH]; cbn; [auto|]. intros N. apply NoDup_cons in N as [Nz N].
  destruct (x =? z)%nat; [exact N|]. apply NoDup_cons. split; [|apply IH, N].
  intros I. apply Nz. apply list_elem_of_In. apply list_elem_of_In in I.
  eapply list_remove_In, I.
Qed.

Lemma list_remove_Forall {P : nat -> Prop} x l : Forall P l -> Forall P (list_remove x l).
Proof.
  induction l as [|z l IH]; cbn; [auto|]. intros F. apply Forall_cons in F as [Fz F].
  destruct (x =? z)%nat; [exact F|]. constructor; auto.
Qed.

(** [Request.__exit__]: a request that still waits leaves the queue, and
    the release is carried out. *)
Lemma Request_exit_fine r req s :
  fine s -> (req < length (objects s))%nat ->
  returns (Request_exit r req) s (fun _ s' =>
    fine s' /\ leaves s s' [(Release r req, Some [Resource_trigger_put r])]).
Proof.
  intros F L. destruct (fine_theater _ F) as (t & T & P).
  apply lookup_lt_is_Some_2 in L as [ev E].
  unfold Request_exit. unfold returns. unfold bind at 1. rewrite get_event_unfold, E.
  unfold bind at 1.
  assert (R : returns (if triggered ev then ret tt
                       else update_resource r (fun res =>
                              mkResource (capacity res) (users res)
                                (list_remove req (put_queue res)) (get_queue res))) s
                (fun _ s1 => fine s1 /\ objects s1 = objects s)).
  { destruct (triggered ev); [split; [exact F | reflexivity]|].
    unfold returns. rewrite (update_resource_Return r _ s t T). split; [|reflexivity].
    apply (fine_set_pool s t r); [exact T | | exact F].
    destruct (P r) as [G N W]. split; cbn; [exact G | apply list_remove_NoDup, N|].
    apply list_remove_Forall, W. }
  unfold returns in R.
  match goal with |- context [(if triggered ev then ?a else ?b) s] =>
    destruct ((if triggered ev then a else b) s) as [[] s1| |]; try contradiction end.
  destruct R as [F1 O1]. unfold bind.
  pose proof (release_fine r req s1 F1) as R. unfold returns in R.
  destruct (release r req s1) as [rel s2| |]; try contradiction.
  destruct R as (_ & F2 & L2). cbn [ret]. split; [exact F2|].
  unfold leaves in *. rewrite L2, O1. reflexivity.
Qed.

Lemma event_fine_plain objs ev :
  (forall e, value ev <> failed e) ->
  (forall cbs p, callbacks ev = Some cbs -> ~ In (Process_resume p) cbs) ->
  is_process (class ev) = false ->
  event_fine objs ev.
Proof.
  intros V C P. split; [exact V | |].
  - intros cbs p E I. destruct (C cbs p E I).
  - intros g st rt E. rewrite E in P. discriminate P.
Qed.

(** [env.process]: the process and the event that starts it. *)
Lemma env_process_fine g s :
  fine s -> sound (length (objects s)) g ->
  returns (env_process g) s (fun p s' =>
    p = length (objects s) /\ fine s' /\
    leaves s s' [(Process g None None, Some []);
                 (Initialize (length (objects s)), Some [Process_resume (length (objects s))])]).
Proof.
  intros F S. unfold returns. rewrite env_process_Return. cbv zeta.
  split; [reflexivity|]. split.
  - set (pe := mkEvent (Process g None None) (Some []) PENDING false).
    set (ie := mkEvent (Initialize (length (objects s)))
                 (Some [Process_resume (length (objects s))]) succeeded false).
    set (s1 := set_objects (objects s ++ [pe]) s).
    set (s2 := set_objects (objects s1 ++ [ie]) s1).
    match goal with |- fine (set_eid _ (set_queue (?x :: _) _)) =>
      apply (fine_same (set_queue (x :: queue s2) s2)); try reflexivity;
      apply fine_cons_queue
    end.
    { cbn. rewrite !length_app. cbn. lia. }
    apply fine_push.
    { split; cbn.
      - discriminate.
      - intros cbs p C I. injection C as <-. destruct I as [I|[]]. injection I as <-.
        exists pe. split; [|reflexivity].
        apply lookup_app_l_Some. apply lookup_length_snoc.
      - discriminate. }
    apply fine_push; [|exact F].
    split; cbn.
    + discriminate.
    + intros cbs p C I. injection C as <-. destruct I.
    + intros g0 st rt C. injection C as <- _ _. eapply sound_le; [|exact S].
      rewrite length_app. lia.
  - unfold leaves. cbn. rewrite !fmap_app, <- app_assoc. reflexivity.
Qed.

(** [env.timeout] with a delay that is not negative. *)
Lemma env_timeout_fine delay s :
  0 <= delay -> fine s ->
  returns (env_timeout delay) s (fun t s' =>
    t = length (objects s) /\ fine s' /\ leaves s s' [(Timeout delay, Some [])]).
Proof.
  intros D F. unfold returns. rewrite (env_timeout_Return delay s D).
  split; [reflexivity|]. split.
  - set (te := mkEvent (Timeout delay) (Some []) succeeded false).
    set (s1 := set_objects (objects s ++ [te]) s).
    match goal with |- fine (set_eid _ (set_queue (?x :: _) _)) =>
      apply (fine_same (set_queue (x :: queue s1) s1)); try reflexivity;
      apply fine_cons_queue
    end.
    { cbn. rewrite length_app. cbn. lia. }
    apply fine_push; [|exact F].
    apply event_fine_plain; cbn; [discriminate | | reflexivity].
    intros cbs p C I. injection C as <-. destruct I.
  - unfold leaves. cbn. rewrite fmap_app. reflexivity.
Qed.

(** *** The generators *)

(** The event that a generator yields exists and has not been processed. *)
Definition yields_ok (s' : State) (y : option nat) : Prop :=
  match y with
  | Some t => exists tv cbs, objects s' !! t = Some tv /\ callbacks tv = Some cbs
  | None => True
  end.

(** What holds when a generator has been resumed from [s]. *)
Definition send_post (s : State) (gy : Generator * option nat) (s' : State) : Prop :=
  fine s' /\ (exists news, leaves s s' news) /\
  sound (length (objects s')) (fst gy) /\ yields_ok s' (snd gy).

Ltac chain H :=
  let R := fresh "R" in
  pose proof H as R; unfold returns in R;
  match type of R with
  | match ?m ?s with _ => _ end => destruct (m s) as [? ?| |]; try contradiction
  end.

Lemma yields_new s s' news c cbs :
  leaves s s' ((c, Some cbs) :: news) -> yields_ok s' (Some (length (objects s))).
Proof.
  intros L. destruct (leaves_new s s' _ 0%nat c (Some cbs) L eq_refl) as (tv & E & _ & C).
  rewrite Nat.add_0_r in E. exists tv, cbs. auto.
Qed.

Lemma send_post_stop s code : fine s -> send_post s (finished code, None) s.
Proof.
  intros F. split; [exact F|]. split; [exists []; apply leaves_refl|].
  split; [cbn; discriminate | exact Logic.I].
Qed.

Lemma request_yields r s (k : nat -> Generator) :
  fine s -> (forall req, held (k req) = Some req) ->
  (forall req, match k req with run_theater_start _ _ _ => False | _ => True end) ->
  returns (let* req := request r in ret (k req, Some req)) s (send_post s).
Proof.
  intros F Hk Nk. unfold returns, bind. chain (request_fine r s F).
  destruct R as (-> & F1 & L1). cbn [ret]. split; [exact F1|].
  split; [eexists; exact L1|]. cbn [fst snd]. split; [|eapply yields_new, L1].
  specialize (Hk (length (objects s))). specialize (Nk (length (objects s))).
  destruct (k (length (objects s))); try contradiction; cbn in Hk |- *;
    try discriminate Hk; intros req E; rewrite Hk in E; injection E as <-;
    rewrite (leaves_length _ _ _ L1); cbn; lia.
Qed.

Lemma env_process_yields g s g' :
  fine s -> sound (length (objects s)) g -> sound (length (objects s)) g' ->
  returns (let* p := env_process g in ret (g', Some p)) s (send_post s).
Proof.
  intros F S S'. unfold returns, bind. chain (env_process_fine g s F S).
  destruct R as (-> & F1 & L1). cbn [ret]. split; [exact F1|].
  split; [eexists; exact L1|]. cbn [fst snd]. split; [|eapply yields_new, L1].
  eapply sound_le; [|exact S']. rewrite (leaves_length _ _ _ L1). lia.
Qed.

Lemma env_timeout_yields delay s g' :
  0 <= delay -> fine s -> sound (length (objects s)) g' ->
  returns (let* t := env_timeout delay in ret (g', Some t)) s (send_post s).
Proof.
  intros D F S'. unfold returns, bind. chain (env_timeout_fine delay s D F).
  destruct R as (-> & F1 & L1). cbn [ret]. split; [exact F1|].
  split; [eexists; exact L1|]. cbn [fst snd]. split; [|eapply yields_new, L1].
  eapply sound_le; [|exact S']. rewrite (leaves_length _ _ _ L1). lia.
Qed.

Lemma send_post_from s s1 gy s' :
  (exists news, leaves s s1 news) -> send_post s1 gy s' -> send_post s gy s'.
Proof.
  intros (n1 & L1) (F & (n2 & L2) & S & Y). split; [exact F|].
  split; [eexists; eapply leaves_trans; eassumption | auto].
Qed.

Lemma sound_held n g req : sound n g -> held g = Some req -> (req < n)%nat.
Proof. destruct g; cbn; try discriminate; intros H E; apply H, E. Qed.

Lemma go_to_movies_fine g s :
  fine s -> sound (length (objects s)) g -> gi_code g = code_go_to_movies ->
  returns (go_to_movies g) s (send_post s).
Proof.
  intros F Sg C.
  destruct g as [x y z|m|m|m a req|m a req|m a req|m a req|m a req|m a req|m|m|m|m|m|m|code];
    try discriminate C; unfold go_to_movies.
  - (* arrive, and ask for a cashier *)
    unfold bind at 1, get at 1.
    apply (request_yields attr_cashier s
             (fun r => go_to_movies_cashier_request m (now s) r) F);
      intros; reflexivity || exact Logic.I.
  - (* the cashier is there: buy the ticket *)
    apply env_process_yields; [exact F | cbn; discriminate | exact Sg].
  - (* the ticket is bought: leave the cashier, ask for an usher *)
    unfold returns. unfold bind at 1.
    chain (Request_exit_fine attr_cashier req s F (sound_held _ _ _ Sg eq_refl)).
    destruct R as [F1 L1].
    pose proof (request_yields attr_usher s0
                  (fun r => go_to_movies_usher_request m a r) F1) as R.
    unfold returns in R |- *.
    match type of R with _ -> _ -> match ?m ?s1 with _ => _ end =>
      destruct (m s1) as [gy s2| |]; try (apply R; intros; reflexivity || exact Logic.I) end.
    eapply send_post_from; [eexists; exact L1|]. apply R; intros; reflexivity || exact Logic.I.
  - apply env_process_yields; [exact F | cbn; discriminate | exact Sg].
  - (* the ticket is checked: leave the usher, and maybe ask for a server *)
    unfold returns. unfold bind at 1.
    chain (Request_exit_fine attr_usher req s F (sound_held _ _ _ Sg eq_refl)).
    destruct R as [F1 L1].
    unfold bind at 1. rewrite choice_True_False_Return.
    set (s1 := set_random (random_tape s0) (S (random_pos s0)) s0).
    assert (F2 : fine s1) by (apply (fine_same s0); try reflexivity; exact F1).
    assert (L2 : leaves s s1 [(Release attr_usher req, Some [Resource_trigger_put attr_usher])])
      by exact L1.
    destruct (next_coin s0).
    + pose proof (request_yields attr_server s1
                    (fun r => go_to_movies_server_request m a r) F2) as R.
      unfold returns in R.
      match type of R with _ -> _ -> match ?m ?s1 with _ => _ end =>
        destruct (m s1) as [gy s2| |]; try (apply R; intros; reflexivity || exact Logic.I) end.
      eapply send_post_from; [eexists; exact L2|]. apply R; intros; reflexivity || exact Logic.I.
    + unfold bind, get, wait_times_append, modify, stop_iteration, ret.
      eapply send_post_from; [eexists; exact L2|].
      match goal with |- send_post _ _ ?s3 =>
        assert (F3 : fine s3) by (apply (fine_same s1); try reflexivity; exact F2) end.
      split; [exact F3|]. split; [exists []; apply leaves_same; reflexivity|].
      split; [cbn; discriminate | exact Logic.I].
  - apply env_process_yields; [exact F | cbn; discriminate | exact Sg].
  - (* the food is bought: leave the server *)
    unfold returns. unfold bind at 1.
    chain (Request_exit_fine attr_server req s F (sound_held _ _ _ Sg eq_refl)).
    destruct R as [F1 L1].
    unfold bind, get, wait_times_append, modify, stop_iteration, ret.
    eapply send_post_from; [eexists; exact L1|].
    match goal with |- send_post _ _ ?s3 =>
      assert (F3 : fine s3) by (apply (fine_same s0); try reflexivity; exact F1) end.
    split; [exact F3|]. split; [exists []; apply leaves_same; reflexivity|].
    split; [cbn; discriminate | exact Logic.I].
  - apply send_post_stop, F.
Qed.

Lemma send_fine g s :
  fine s -> sound (length (objects s)) g -> returns (send g) s (send_post s).
Proof.
  intros F Sg. unfold send. destruct (gi_code g) eqn:C.
  - (* run_theater *)
    destruct g; try discriminate C; unfold run_theater; try (apply send_post_stop, F).
    + destruct Sg.
    + unfold returns. unfold bind at 1.
      chain (env_process_fine (go_to_movies_start (moviegoer + 1)) s F
               ltac:(cbn; discriminate)).
      destruct R as (-> & F1 & L1).
      pose proof (env_timeout_yields (12 / 60) s0 (run_theater_timeout (moviegoer + 1))
                    ltac:(discriminate) F1 ltac:(cbn; discriminate)) as R.
      unfold returns in R.
      match type of R with match ?m ?s1 with _ => _ end =>
        destruct (m s1) as [gy s2| |]; try contradiction end.
      eapply send_post_from; [eexists; exact L1 | exact R].
  - apply go_to_movies_fine; assumption.
  - destruct g; try discriminate C; unfold purchase_ticket; try (apply send_post_stop, F).
    unfold returns. unfold bind at 1. rewrite randint_Return.
    set (s1 := set_random (random_tape s) (S (random_pos s)) s).
    assert (F1 : fine s1) by (apply (fine_same s); try reflexivity; exact F).
    pose proof (next_draw_range s (3 - 1 + 1) ltac:(lia)) as D.
    pose proof (env_timeout_yields (inject_Z (1 + next_draw s (3 - 1 + 1))) s1
                  (purchase_ticket_timeout moviegoer)
                  ltac:(apply inject_Z_nonneg; lia) F1 ltac:(cbn; discriminate)) as R.
    unfold returns in R.
    match type of R with match ?m ?s1 with _ => _ end =>
      destruct (m s1) as [gy s2| |]; try contradiction end.
    eapply send_post_from; [exists []; apply leaves_same; reflexivity | exact R].
  - destruct g; try discriminate C; unfold check_ticket; try (apply send_post_stop, F).
    apply env_timeout_yields; [discriminate | exact F | cbn; discriminate].
  - destruct g; try discriminate C; unfold sell_food; try (apply send_post_stop, F).
    unfold returns. unfold bind at 1. rewrite randint_Return.
    set (s1 := set_random (random_tape s) (S (random_pos s)) s).
    assert (F1 : fine s1) by (apply (fine_same s); try reflexivity; exact F).
    pose proof (next_draw_range s (5 - 1 + 1) ltac:(lia)) as D.
    pose proof (env_timeout_yields (inject_Z (1 + next_draw s (5 - 1 + 1))) s1
                  (sell_food_timeout moviegoer)
                  ltac:(apply inject_Z_nonneg; lia) F1 ltac:(cbn; discriminate)) as R.
    unfold returns in R.
    match type of R with match ?m ?s1 with _ => _ end =>
      destruct (m s1) as [gy s2| |]; try contradiction end.
    eapply send_post_from; [exists []; apply leaves_same; reflexivity | exact R].
Qed.

(** *** Processes and the event loop *)

Lemma is_process_class c : is_process c = true -> exists g st rt, c = Process g st rt.
Proof. destruct c; try discriminate. eauto. Qed.

Lemma fine_event s e ev : fine s -> objects s !! e = Some ev -> event_fine (objects s) ev.
Proof. intros F E. pose proof (fine_events _ F) as H. rewrite Forall_lookup in H. eauto. Qed.

(** The class of a process is changed. *)
Lemma fine_set_process s p pe f g' st' rt' :
  fine s -> objects s !! p = Some pe -> is_process (class pe) = true ->
  class (f pe) = Process g' st' rt' -> callbacks (f pe) = callbacks pe ->
  (forall e, value (f pe) <> failed e) ->
  sound (length (objects s)) g' ->
  fine (set_objects (<[p := f pe]> (objects s)) s).
Proof.
  intros F E P C B V Sg. apply (fine_insert s p pe); try assumption.
  - intros _. rewrite C. reflexivity.
  - intros r _ Cr. rewrite Cr in P. discriminate P.
  - pose proof (fine_event _ _ _ F E) as [V0 R0 S0]. split.
    + exact V.
    + intros cbs q Cq I. rewrite B in Cq.
      eapply older_insert; [exact E | | eapply R0; eassumption].
      intros _. rewrite C. reflexivity.
    + intros g st rt Cg. rewrite C in Cg. injection Cg as <- _ _.
      rewrite length_insert. exact Sg.
Qed.

(** The outcome of a resumption that has returned. *)
Lemma process_outcome_fine p g st rt s gy s' :
  is_process_at (objects s) p -> send_post s gy s' ->
  returns (fun _ => process_outcome p g st rt (Return gy s')) s
    (fun _ s2 => fine s2 /\ older (objects s) (objects s2)).
Proof.
  intros (pe & E & P) (F & (news & L) & Sg & Y). unfold returns.
  destruct (leaves_lookup _ _ _ _ _ L E) as (pe' & E' & C' & B').
  assert (P' : is_process (class pe') = true) by congruence.
  pose proof (leaves_older _ _ _ L) as Old.
  destruct gy as [g' [t|]]; cbn [process_outcome fst snd] in *.
  - unfold bind at 1. rewrite (update_event_Return _ _ _ _ E').
    set (s1 := set_objects (<[p := set_class (Process g' st rt) pe']> (objects s')) s').
    assert (F1 : fine s1).
    { apply (fine_set_process s' p pe' _ g' st rt); try assumption; try reflexivity.
      apply (ef_value _ _ (fine_event _ _ _ F E')). }
    assert (O1 : older (objects s') (objects s1)).
    { eapply older_insert; [exact E' | reflexivity]. }
    destruct Y as (tv & cbs & Et & Ct).
    assert (Et1 : exists tv1, objects s1 !! t = Some tv1 /\ callbacks tv1 = Some cbs).
    { unfold s1. cbn. destruct (decide (t = p)) as [->|Ne].
      - rewrite E' in Et. injection Et as <-.
        eexists. split; [apply list_lookup_insert_eq; eapply lookup_lt_Some, E' | exact Ct].
      - exists tv. split; [rewrite list_lookup_insert_ne by congruence; exact Et | exact Ct]. }
    destruct Et1 as (tv1 & Et1 & Ct1).
    unfold bind at 1. rewrite get_event_unfold, Et1, Ct1.
    unfold callbacks_append, bind. rewrite get_event_unfold, Et1, Ct1.
    rewrite (update_event_Return _ _ _ _ Et1).
    assert (Pp : is_process_at (objects s1) p).
    { apply O1. exists pe'. auto. }
    split.
    + apply (fine_insert s1 t tv1); try assumption; try (intros; assumption).
      * intros r V Cr. auto.
      * pose proof (fine_event _ _ _ F1 Et1) as [V1 R1 S1].
        assert (O2 : older (objects s1)
                       (<[t := set_callbacks (Some (cbs ++ [Process_resume p])) tv1]> (objects s1))).
        { eapply older_insert; [exact Et1 | auto]. }
        split; cbn.
        -- exact V1.
        -- intros cbs0 q Cq I. injection Cq as <-. apply O2.
           apply in_app_or in I as [I|[I|[]]]; [eapply R1; eassumption|].
           injection I as <-. exact Pp.
        -- intros g0 st0 rt0 Cg. rewrite length_insert. eapply S1, Cg.
    + etransitivity; [exact Old|]. etransitivity; [exact O1|].
      eapply older_insert; [exact Et1 | auto].
  - unfold bind at 1.
    match goal with |- context [update_event p ?f s'] =>
      rewrite (update_event_Return p f s' pe' E');
      set (s1 := set_objects (<[p := f pe']> (objects s')) s')
    end.
    assert (F1 : fine s1).
    { unfold s1.
      match goal with |- fine (set_objects (<[p := ?x]> _) _) =>
        match x with context [Process ?a ?b ?c] =>
          apply (fine_set_process s' p pe'
                   (fun q => set_value succeeded (set_class (Process a b c) q)) a b c)
        end end;
        try assumption; try reflexivity.
      cbn. discriminate. }
    assert (O1 : older (objects s') (objects s1)).
    { eapply older_insert; [exact E' | reflexivity]. }
    cbn [schedule modify]. split.
    + match goal with |- fine (set_eid _ (set_queue (?x :: _) _)) =>
        apply (fine_same (set_queue (x :: queue s1) s1)); try reflexivity;
        apply fine_cons_queue; [|exact F1]
      end.
      cbn. rewrite length_insert. eapply lookup_lt_Some, E'.
    + etransitivity; [exact Old | exact O1].
Qed.

Lemma resume_fine p event s :
  fine s -> is_process_at (objects s) p -> (event < length (objects s))%nat ->
  returns (resume p event) s (fun _ s' => fine s' /\ older (objects s) (objects s')).
Proof.
  intros F Pp Le. pose proof Pp as (pe & E & P).
  apply lookup_lt_is_Some_2 in Le as [ev Ee].
  unfold returns, resume. unfold bind at 1. rewrite get_event_unfold, E.
  destruct (is_process_class _ P) as (g & st & rt & C). rewrite C.
  unfold bind at 1, get at 1. unfold bind at 1. rewrite get_event_unfold, Ee.
  pose proof (ef_value _ _ (fine_event _ _ _ F Ee)) as V.
  assert (Sg : sound (length (objects s)) g).
  { eapply (ef_sound _ _ (fine_event _ _ _ F E)), C. }
  assert (B : match value ev with
              | failed e => update_event event set_defused >> throw g e
              | _ => send g
              end = send g).
  { destruct (value ev) as [| |e]; try reflexivity. destruct (V e eq_refl). }
  rewrite B.
  pose proof (send_fine g s F Sg) as R. unfold returns in R.
  destruct (send g s) as [gy s'| |]; try contradiction.
  apply (process_outcome_fine p g _ rt s gy s' Pp R).
Qed.

Lemma call_fine cb event s :
  fine s -> cb <> StopSimulation_callback ->
  (forall p, cb = Process_resume p -> is_process_at (objects s) p) ->
  (event < length (objects s))%nat ->
  returns (call cb event) s (fun _ s' => fine s' /\ older (objects s) (objects s')).
Proof.
  intros F N Pp Le. destruct cb as [p|r|r|]; cbn [call].
  - apply resume_fine; auto.
  - eapply returns_weaken; [apply trigger_put_fine, F|].
    intros _ s1 [F1 L1]. split; [exact F1 | eapply leaves_older, L1].
  - eapply returns_weaken; [apply trigger_get_fine, F|].
    intros _ s1 ->. split; [exact F | reflexivity].
  - congruence.
Qed.

(** What a step of the event loop comes to, from a state that is fine: it
    returns in a state that is fine, or the simulation stops, or the queue
    is empty. *)
Definition goes_on (r : Result unit) : Prop :=
  match r with
  | Return _ s' => fine s'
  | Raise e _ => e = StopSimulation \/ e = EmptySchedule
  | OutOfFuel _ => False
  end.

Lemma calls_fine cbs event s :
  fine s ->
  (forall p, In (Process_resume p) cbs -> is_process_at (objects s) p) ->
  (event < length (objects s))%nat ->
  match for_ cbs (fun cb => call cb event) s with
  | Return _ s' => fine s' /\ older (objects s) (objects s')
  | Raise e _ => e = StopSimulation
  | OutOfFuel _ => False
  end.
Proof.
  revert s. induction cbs as [|cb cbs IH]; intros s F Pp Le; cbn [for_].
  { split; [exact F | reflexivity]. }
  unfold bind.
  assert (D : cb = StopSimulation_callback \/ cb <> StopSimulation_callback)
    by (destruct cb; (left; reflexivity) || (right; discriminate)).
  destruct D as [->|N].
  - cbn [call]. unfold bind. apply lookup_lt_is_Some_2 in Le as [ev Ee].
    rewrite get_event_unfold, Ee.
    pose proof (ef_value _ _ (fine_event _ _ _ F Ee)) as V.
    destruct (value ev) as [| |e]; try reflexivity. destruct (V e eq_refl).
  - pose proof (call_fine cb event s F N) as R. unfold returns in R.
    destruct (call cb event s) as [[] s1| |].
    + destruct R as [F1 O1]; [intros p ->; apply Pp; left; reflexivity | exact Le|].
      specialize (IH s1 F1).
      destruct (for_ cbs (fun cb0 => call cb0 event) s1) as [[] s2|e s2|s2].
      * destruct IH as [F2 O2].
        -- intros p I. apply O1, Pp. right. exact I.
        -- destruct O1 as [L1 _]. lia.
        -- split; [exact F2 | etransitivity; eassumption].
      * apply IH; [intros p I; apply O1, Pp; right; exact I | destruct O1 as [L1 _]; lia].
      * apply IH; [intros p I; apply O1, Pp; right; exact I | destruct O1 as [L1 _]; lia].
    + exfalso. apply R; [intros p ->; apply Pp; left; reflexivity | exact Le].
    + apply R; [intros p ->; apply Pp; left; reflexivity | exact Le].
Qed.

Lemma fine_popped s m rest ev :
  fine s -> m :: rest ≡ₚ queue s -> objects s !! entry_event m = Some ev ->
  fine (popped s m rest ev) /\ older (objects s) (objects (popped s m rest ev)).
Proof.
  intros F P E. unfold popped. split.
  - apply (fine_insert (set_queue rest (set_now (entry_time m) s)) (entry_event m) ev);
      try exact E; try (intros; assumption).
    + intros r V C. auto.
    + pose proof (fine_event _ _ _ F E) as [V R Sg]. split; cbn.
      * exact V.
      * discriminate.
      * intros g st rt C. rewrite length_insert. eapply Sg, C.
    + destruct F as [F1 F2 F3]. split; try assumption. cbn.
      rewrite Forall_forall in *. intros x I. apply F3. rewrite <- P. right. exact I.
  - cbn. eapply older_insert; [exact E | auto].
Qed.

Lemma step_goes_on s : fine s -> goes_on (step s).
Proof.
  intros F.
  destruct (queue s) as [|x q] eqn:Eq.
  { unfold step, bind, get. rewrite Eq. right. reflexivity. }
  destruct (heappop x q) as [m rest] eqn:Hp.
  destruct (heappop_spec _ _ _ _ Hp) as [P _]. rewrite <- Eq in P. symmetry in P.
  assert (Le : (entry_event m < length (objects s))%nat).
  { pose proof (fine_queue _ F) as Q. rewrite Forall_forall in Q. apply Q.
    rewrite <- P. left. }
  pose proof Le as Le'. apply lookup_lt_is_Some_2 in Le' as [ev E].
  rewrite (step_unfold s x q m rest ev Eq Hp E).
  destruct (fine_popped s m rest ev F P E) as [Fp Op].
  pose proof (calls_fine (default [] (callbacks ev)) (entry_event m) (popped s m rest ev) Fp)
    as R.
  unfold bind at 1.
  destruct (for_ (default [] (callbacks ev)) (fun cb => call cb (entry_event m))
              (popped s m rest ev)) as [[] s1|e s1|s1].
  - destruct R as [F1 O1].
    + intros p I. apply Op. destruct (callbacks ev) as [cbs|] eqn:C; [|destruct I].
      eapply (ef_resume _ _ (fine_event _ _ _ F E)); [exact C | exact I].
    + destruct Op as [L _]. lia.
    + assert (L1 : (entry_event m < length (objects s1))%nat).
      { destruct Op as [L _]. destruct O1 as [L1 _]. lia. }
      apply lookup_lt_is_Some_2 in L1 as [ev1 E1].
      unfold bind. rewrite get_event_unfold, E1.
      pose proof (ef_value _ _ (fine_event _ _ _ F1 E1)) as V.
      destruct (value ev1) as [| |e]; try exact F1. destruct (V e eq_refl).
  - left. apply R.
    + intros p I. apply Op. destruct (callbacks ev) as [cbs|] eqn:C; [|destruct I].
      eapply (ef_resume _ _ (fine_event _ _ _ F E)); [exact C | exact I].
    + destruct Op as [L _]. lia.
  - apply R.
    + intros p I. apply Op. destruct (callbacks ev) as [cbs|] eqn:C; [|destruct I].
      eapply (ef_resume _ _ (fine_event _ _ _ F E)); [exact C | exact I].
    + destruct Op as [L _]. lia.
Qed.

(** From a state that is fine, the event loop ends with StopSimulation or
    EmptySchedule, unless it runs out of steps. *)
Lemma step_loop_goes_on fuel s :
  fine s ->
  match step_loop fuel s with
  | Return _ _ => False
  | Raise e _ => e = StopSimulation \/ e = EmptySchedule
  | OutOfFuel _ => True
  end.
Proof.
  revert s. induction fuel as [|fuel IH]; intros s F; cbn [step_loop]; [exact Logic.I|].
  pose proof (step_goes_on s F) as G. unfold bind.
  destruct (step s) as [[] s1|e s1|s1]; cbn [goes_on] in G.
  - apply IH, G.
  - exact G.
  - destruct G.
Qed.

(** *** The first step *)

Ltac event_is_fine :=
  split; cbn;
  [ discriminate
  | intros cbs p C I; first
      [ discriminate C
      | injection C as <-;
        first [ destruct I as [I|[]]; first
                  [ discriminate I
                  | injection I as <-; eexists; split; reflexivity ]
              | destruct I ] ]
  | intros g st rt C; first [ discriminate C | injection C as <- _ _; cbn; discriminate ] ].

(** The first step of the event loop starts [run_theater], which creates
    the theater and the first three customers. *)
Lemma first_step_fine pa pb pc s :
  exists s1, step (starting (Z.pos pa) (Z.pos pb) (Z.pos pc) s) = Return tt s1 /\ fine s1.
Proof.
  exists (final_state (step (starting (Z.pos pa) (Z.pos pb) (Z.pos pc) s))).
  split; [vm_compute; reflexivity|].
  match goal with |- fine ?x =>
    let o := eval vm_compute in (objects x) in
    let q := eval vm_compute in (queue x) in
    let t := eval vm_compute in (theater x) in
    assert (O : objects x = o) by (vm_compute; reflexivity);
    assert (Q : queue x = q) by (vm_compute; reflexivity);
    assert (T : theater x = t) by (vm_compute; reflexivity)
  end.
  split.
  - rewrite O. repeat (constructor; [event_is_fine|]). constructor.
  - rewrite T, O. eexists. split; [reflexivity|].
    intros []; (split; cbn; [reflexivity | apply NoDup_nil_2 | constructor]).
  - rewrite Q, O. repeat (constructor; [cbn; lia|]). constructor.
Qed.

(** ** A positive staffing: a customer is served *)

(** As long as no customer has been served, one of the customers leads:
    no customer has asked for a pool that the leader has not asked for, so
    that the pools beyond are idle and grant a request at once; and the
    leader, or the service that is under way for it, is resumed by an
    event that is scheduled before minute 15.  A customer that gets ahead
    of the leader leads from then on.  The event that stops the run at the
    horizon is taken from the queue after the event that resumes the
    leader, so that a customer has been served when the run stops. *)

(** *** What is scheduled stays scheduled *)

(** [enqueues s s']: the queue of [s'] is the one of [s], with new entries
    in front. *)
Definition enqueues (s s' : State) : Prop := exists news, queue s' = news ++ queue s.

#[local] Instance enqueues_preorder : PreOrder enqueues.
Proof.
  split.
  - intros s. exists []. reflexivity.
  - intros a b c [n1 E1] [n2 E2]. exists (n2 ++ n1). rewrite E2, E1, app_assoc. reflexivity.
Qed.

Create HintDb enqueues discriminated.

Ltac enqueues_tac :=
  repeat first
    [ solve [eauto with enqueues]
    | effect_step
    | (exists []; reflexivity)
    | (eexists [_]; reflexivity) ].

Lemma enqueues_schedule event priority delay : effect enqueues (schedule event priority delay).
Proof. intros s. unfold schedule. enqueues_tac. Qed.
#[local] Hint Resolve enqueues_schedule : enqueues.

Lemma enqueues_new_object ev : effect enqueues (new_object ev).
Proof. intros s. unfold new_object. enqueues_tac. Qed.
#[local] Hint Resolve enqueues_new_object : enqueues.

Lemma enqueues_get_event event : effect enqueues (get_event event).
Proof. intros s. unfold get_event. enqueues_tac. Qed.
#[local] Hint Resolve enqueues_get_event : enqueues.

Lemma enqueues_update_event event f : effect enqueues (update_event event f).
Proof. intros s. unfold update_event. enqueues_tac. Qed.
#[local] Hint Resolve enqueues_update_event : enqueues.

Lemma enqueues_callbacks_append event cb : effect enqueues (callbacks_append event cb).
Proof. intros s. unfold callbacks_append. enqueues_tac. Qed.
#[local] Hint Resolve enqueues_callbacks_append : enqueues.

Lemma enqueues_succeed event : effect enqueues (succeed event).
Proof. intros s. unfold succeed. enqueues_tac. Qed.
#[local] Hint Resolve enqueues_succeed : enqueues.

Lemma enqueues_env_timeout delay : effect enqueues (env_timeout delay).
Proof. intros s. unfold env_timeout. enqueues_tac. Qed.
#[local] Hint Resolve enqueues_env_timeout : enqueues.

Lemma enqueues_env_process g : effect enqueues (env_process g).
Proof. intros s. unfold env_process. enqueues_tac. Qed.
#[local] Hint Resolve enqueues_env_process : enqueues.

Lemma enqueues_get_theater : effect enqueues get_theater.
Proof. intros s. unfold get_theater. enqueues_tac. Qed.
#[local] Hint Resolve enqueues_get_theater : enqueues.

Lemma enqueues_get_resource r : effect enqueues (get_resource r).
Proof. intros s. unfold get_resource. enqueues_tac. Qed.
#[local] Hint Resolve enqueues_get_resource : enqueues.

Lemma enqueues_update_resource r f : effect enqueues (update_resource r f).
Proof. intros s. unfold update_resource. enqueues_tac. Qed.
#[local] Hint Resolve enqueues_update_resource : enqueues.

Lemma enqueues_do_put r event : effect enqueues (do_put r event).
Proof. intros s. unfold do_put. enqueues_tac. Qed.
#[local] Hint Resolve enqueues_do_put : enqueues.

Lemma enqueues_do_get r event : effect enqueues (do_get r event).
Proof. intros s. unfold do_get. enqueues_tac. Qed.
#[local] Hint Resolve enqueues_do_get : enqueues.

Lemma enqueues_trigger_put r : effect enqueues (trigger_put r).
Proof. intros s. unfold trigger_put. enqueues_tac. Qed.
#[local] Hint Resolve enqueues_trigger_put : enqueues.

Lemma enqueues_trigger_get r : effect enqueues (trigger_get r).
Proof. intros s. unfold trigger_get. enqueues_tac. Qed.
#[local] Hint Resolve enqueues_trigger_get : enqueues.

Lemma enqueues_request r : effect enqueues (request r).
Proof. intros s. unfold request. enqueues_tac. Qed.
#[local] Hint Resolve enqueues_request : enqueues.

Lemma enqueues_release r req : effect enqueues (release r req).
Proof. intros s. unfold release. enqueues_tac. Qed.
#[local] Hint Resolve enqueues_release : enqueues.

Lemma enqueues_Request_exit r req : effect enqueues (Request_exit r req).
Proof. intros s. unfold Request_exit. enqueues_tac. Qed.
#[local] Hint Resolve enqueues_Request_exit : enqueues.

Lemma enqueues_randint a b : effect enqueues (randint a b).
Proof. intros s. unfold randint, randbelow. enqueues_tac. Qed.
#[local] Hint Resolve enqueues_randint : enqueues.

Lemma enqueues_choice : effect enqueues choice_True_False.
Proof. intros s. unfold choice_True_False, randbelow. enqueues_tac. Qed.
#[local] Hint Resolve enqueues_choice : enqueues.

Lemma enqueues_wait_times_append x : effect enqueues (wait_times_append x).
Proof. intros s. unfold wait_times_append. enqueues_tac. Qed.
#[local] Hint Resolve enqueues_wait_times_append : enqueues.

Lemma enqueues_Theater_init a b c : effect enqueues (Theater_init a b c).
Proof. intros s. unfold Theater_init, Resource_init. enqueues_tac. Qed.
#[local] Hint Resolve enqueues_Theater_init : enqueues.

Lemma enqueues_send g : effect enqueues (send g).
Proof.
  intros s. unfold send.
  destruct g; cbn [gi_code];
    unfold run_theater, go_to_movies, purchase_ticket, check_ticket, sell_food,
      stop_iteration; enqueues_tac.
Qed.

Lemma enqueues_In s s' x : enqueues s s' -> In x (queue s) -> In x (queue s').
Proof. intros [news ->] I. apply in_or_app. right. exact I. Qed.

(** *** How far the customers have come *)

(** The rank of a generator: the number of pools a customer has asked
    for, and 4 for a customer that has left. *)
Definition rank (g : Generator) : nat :=
  match g with
  | go_to_movies_cashier_request _ _ _ | go_to_movies_cashier_process _ _ _ => 1%nat
  | go_to_movies_usher_request _ _ _ | go_to_movies_usher_process _ _ _ => 2%nat
  | go_to_movies_server_request _ _ _ | go_to_movies_server_process _ _ _ => 3%nat
  | finished code_go_to_movies => 4%nat
  | _ => 0%nat
  end.

Definition rank_class (c : EventClass) : nat :=
  match c with
  | Process g _ _ => rank g
  | _ => 0%nat
  end.

Definition pool_rank (r : Attr) : nat :=
  match r with
  | attr_cashier => 1%nat
  | attr_usher => 2%nat
  | attr_server => 3%nat
  end.

(** A pool that nobody has asked for. *)
Definition idle (res : Resource) : Prop :=
  users res = [] /\ put_queue res = [] /\ (0 < capacity res)%Z.

(** No customer has come further than rank [k], and the pools beyond are
    idle. *)
Record behind (k : nat) (s : State) : Prop := mkBehind {
  behind_ranks : Forall (fun c => (rank_class c <= k)%nat) (class <$> objects s);
  behind_pools : forall r, (k < pool_rank r)%nat ->
    exists res, getattr r <$> theater s = Some res /\ idle res
}.

(** The process [p] stands at [g]. *)
Definition stands (s : State) (p : nat) (g : Generator) : Prop :=
  exists st rt, (class <$> objects s) !! p = Some (Process g st rt).

(** The event [e] has not been processed, and [cb] is one of its
    callbacks. *)
Definition live (s : State) (e : nat) (cb : Callback) : Prop :=
  exists ev cbs, objects s !! e = Some ev /\ callbacks ev = Some cbs /\ In cb cbs.

(** The event [e] is scheduled, for [t] at the latest. *)
Definition queued (s : State) (e : nat) (t : Q) : Prop :=
  exists x, In x (queue s) /\ entry_event x = e /\ entry_time x <= t.

(** An event that is scheduled for [t] at the latest will resume [p]. *)
Definition woken (s : State) (p : nat) (t : Q) : Prop :=
  exists e, live s e (Process_resume p) /\ queued s e t.

(** The same, where [cbs] are the callbacks that the step under way has
    still to call. *)
Definition wakes (s : State) (cbs : list Callback) (p : nat) (t : Q) : Prop :=
  woken s p t \/ In (Process_resume p) cbs.

Definition arriving (g : Generator) : bool :=
  match g with
  | go_to_movies_start _ => true
  | _ => false
  end.

(** The customer has asked for a pool and waits for it. *)
Definition asked (g : Generator) : bool :=
  match g with
  | go_to_movies_cashier_request _ _ _ | go_to_movies_usher_request _ _ _
  | go_to_movies_server_request _ _ _ => true
  | _ => false
  end.

(** The customer is being served. *)
Definition working (g : Generator) : bool :=
  match g with
  | go_to_movies_cashier_process _ _ _ | go_to_movies_usher_process _ _ _
  | go_to_movies_server_process _ _ _ => true
  | _ => false
  end.

Definition service_start (g : Generator) : bool :=
  match g with
  | purchase_ticket_start _ | check_ticket_start _ | sell_food_start _ => true
  | _ => false
  end.

Definition service_wait (g : Generator) : bool :=
  match g with
  | purchase_ticket_timeout _ | check_ticket_timeout _ | sell_food_timeout _ => true
  | _ => false
  end.

(** The time by which a customer of rank [n] is resumed, at the latest,
    when nobody is ahead of it: no service takes more than 5 minutes. *)
Definition base (n : nat) : Q :=
  match n with
  | 0%nat | 1%nat => 0
  | 2%nat => 5
  | 3%nat => 10
  | _ => 15
  end.

(** The customer [p], which stands at [g], is resumed by [base n]: by an
    event that is scheduled, or after the service that is under way for
    it. *)
Definition position (s : State) (cbs : list Callback) (p : nat) (g : Generator) (n : nat)
  : Prop :=
  ((arriving g || asked g = true) /\ n = rank g /\ wakes s cbs p (base n)) \/
  (working g = true /\
   ((n = S (rank g) /\ wakes s cbs p (base n)) \/
    exists q gq,
      stands s q gq /\ live s q (Process_resume p) /\ wakes s cbs q (base n) /\
      ((service_start gq = true /\ n = rank g) \/
       (service_wait gq = true /\ n = S (rank g))))).

(** A customer of rank [k] leads. *)
Definition lead (k : nat) (s : State) (cbs : list Callback) (n : nat) : Prop :=
  exists p g, stands s p g /\ rank g = k /\ position s cbs p g n.

Definition served (s : State) : Prop := wait_times s <> [].

(** Between two steps of the event loop: a customer has been served, or
    one leads and nobody is ahead of it. *)
Definition on_course (s : State) : Prop :=
  served s \/ exists k n, behind k s /\ lead k s [] n.

(** The same within a step that has still to call [cbs]. *)
Definition under_way (cbs : list Callback) (s : State) : Prop :=
  served s \/ exists k n, behind k s /\ lead k s cbs n /\ now s <= base n.

Lemma base_15 n : base n <= 15.
Proof. destruct n as [|[|[|[|n]]]]; cbn; discriminate || apply Qle_refl. Qed.

Lemma stands_fun s p g g' : stands s p g -> stands s p g' -> g' = g.
Proof. intros (st & rt & E) (st' & rt' & E'). congruence. Qed.

Lemma queued_le s e t t' : t <= t' -> queued s e t -> queued s e t'.
Proof.
  intros L (x & I & E & T). exists x. split; [exact I|]. split; [exact E|].
  eapply Qle_trans; eassumption.
Qed.

Lemma woken_le s p t t' : t <= t' -> woken s p t -> woken s p t'.
Proof. intros L (e & Lv & Qd). exists e. split; [exact Lv | eapply queued_le; eassumption]. Qed.

Lemma served_appends s s' : wait_times s `prefix_of` wait_times s' -> served s -> served s'.
Proof.
  intros [w E] S. unfold served in *. rewrite E. intros N.
  apply app_eq_nil in N as [N _]. exact (S N).
Qed.

(** [request], when the pool is idle: the request is granted at once. *)
Lemma request_idle r s res :
  getattr r <$> theater s = Some res -> idle res ->
  exists s', request r s = Return (length (objects s)) s' /\
             queued s' (length (objects s)) (now s).
Proof.
  intros T (U & P & C). destruct (theater s) as [t|] eqn:Et; [|discriminate T].
  cbn in T. injection T as <-.
  unfold request. rewrite new_object_bind.
  unfold bind at 1.
  match goal with |- context [update_resource r ?f ?s1] =>
    rewrite (update_resource_Return r f s1 t Et) end.
  unfold bind at 1. unfold callbacks_append. unfold bind at 1. rewrite get_event_unfold.
  cbn [objects set_theater set_objects]. rewrite lookup_length_snoc. cbn [callbacks].
  match goal with |- context [update_event ?e ?f ?s2] =>
    rewrite (update_event_Return e f s2 _ (lookup_length_snoc _ _)) end.
  cbn [objects set_theater set_objects].
  rewrite insert_length_snoc. unfold set_callbacks at 1.
  cbn [class value defused callbacks app]. unfold bind at 1.
  unfold trigger_put. unfold bind at 1.
  match goal with |- context [get_resource r ?s3] =>
    rewrite (get_resource_Return r s3 _ eq_refl) end.
  rewrite getattr_setattr_same. cbn [put_queue]. rewrite P. cbn [app].
  unfold bind at 1. unfold do_put. unfold bind at 1.
  match goal with |- context [get_resource r ?s3] =>
    rewrite (get_resource_Return r s3 _ eq_refl) end.
  rewrite getattr_setattr_same. cbn [users capacity]. rewrite U. cbn [length].
  assert (Lt : (Z.of_nat 0 <? capacity (getattr r t))%Z = true) by (apply Z.ltb_lt; exact C).
  rewrite Lt. unfold bind at 1.
  match goal with |- context [update_resource r ?f ?s3] =>
    rewrite (update_resource_Return r f s3 _ eq_refl) end.
  rewrite getattr_setattr_same, setattr_setattr. cbn [users capacity put_queue get_queue app].
  unfold succeed. unfold bind at 1. rewrite get_event_unfold.
  cbn [objects set_theater set_objects]. rewrite lookup_length_snoc.
  unfold triggered at 1. cbn [value]. unfold bind at 1.
  match goal with |- context [update_event ?e ?f ?s2] =>
    rewrite (update_event_Return e f s2 _ (lookup_length_snoc _ _)) end.
  cbn [objects set_theater set_objects]. rewrite insert_length_snoc.
  unfold set_value at 1. cbn [class value defused callbacks].
  cbn [schedule modify].
  unfold bind at 1. rewrite get_event_unfold.
  cbn [objects set_theater set_objects set_eid set_queue]. rewrite lookup_length_snoc.
  unfold triggered at 1. cbn [value].
  match goal with |- context [update_resource r ?f ?s3] =>
    rewrite (update_resource_Return r f s3 _ eq_refl) end.
  rewrite getattr_setattr_same, setattr_setattr.
  cbn [users capacity put_queue get_queue tail ret].
  eexists. split; [reflexivity|].
  eexists. split; [left; reflexivity|]. split; [reflexivity|].
  cbn. rewrite Qred_correct. rewrite Qplus_0_r. apply Qle_refl.
Qed.

(** *** What a resumption does *)

Lemma Qred_plus_0 t : Qred (t + 0) <= t.
Proof. rewrite Qred_correct, Qplus_0_r. apply Qle_refl. Qed.

Lemma request_next r sa req s2 :
  request r sa = Return req s2 ->
  now s2 = now sa /\ theater_only r sa s2 /\
  (forall res, getattr r <$> theater sa = Some res -> idle res -> queued s2 req (now sa)).
Proof.
  intros H.
  pose proof (frame_request r sa) as Fr. rewrite H in Fr. cbn [final_state] in Fr.
  pose proof (theater_request r sa) as Th. rewrite H in Th. cbn [final_state] in Th.
  split; [apply Fr|]. split; [exact Th|].
  intros res E Id. destruct (request_idle r sa res E Id) as (s' & E' & Qd).
  rewrite E' in H. injection H as <- <-. exact Qd.
Qed.

Lemma exit_next r req s u sa :
  Request_exit r req s = Return u sa ->
  now sa = now s /\ theater_only r s sa /\ wait_times sa = wait_times s.
Proof.
  intros H.
  pose proof (frame_Request_exit r req s) as Fr. rewrite H in Fr. cbn [final_state] in Fr.
  pose proof (theater_Request_exit r req s) as Th. rewrite H in Th. cbn [final_state] in Th.
  split; [apply Fr|]. split; [exact Th | apply Fr].
Qed.

Lemma env_process_moves g s p s2 :
  env_process g s = Return p s2 ->
  p = length (objects s) /\ now s2 = now s /\ theater s2 = theater s /\
  wait_times s2 = wait_times s /\ stands s2 p g /\ woken s2 p (now s).
Proof.
  rewrite env_process_Return. cbv zeta. intros H. injection H as <- <-.
  split; [reflexivity|]. split; [reflexivity|]. split; [reflexivity|].
  split; [reflexivity|]. split.
  - exists None, None. cbn [objects set_eid set_queue set_objects].
    rewrite list_lookup_fmap, lookup_app_l by (rewrite length_app; cbn; lia).
    rewrite lookup_length_snoc. reflexivity.
  - eexists. split.
    + eexists. eexists. cbn [objects set_eid set_queue set_objects].
      split; [apply lookup_length_snoc|]. split; [reflexivity|]. left. reflexivity.
    + eexists. split; [left; reflexivity|]. split; [reflexivity|]. apply Qred_plus_0.
Qed.

Lemma env_timeout_moves d s t s2 :
  0 <= d -> env_timeout d s = Return t s2 ->
  now s2 = now s /\ theater s2 = theater s /\ wait_times s2 = wait_times s /\
  queued s2 t (now s + d).
Proof.
  intros D. rewrite (env_timeout_Return d s D). intros H. injection H as <- <-.
  split; [reflexivity|]. split; [reflexivity|]. split; [reflexivity|].
  eexists. split; [left; reflexivity|]. split; [reflexivity|].
  cbn. rewrite Qred_correct. apply Qle_refl.
Qed.

(** What a generator of rank [k] at most has done when it has been
    resumed: a customer that waited for its pool has started its service;
    a customer that arrived or was served has asked for the next pool, or
    has left; a service has made a timeout of 5 minutes at most, or has
    returned. *)
Definition sent (k : nat) (g g' : Generator) (yt : option nat) (s s2 : State) : Prop :=
  if asked g then
    working g' = true /\ rank g' = rank g /\
    exists q gq, yt = Some q /\ (length (objects s) <= q)%nat /\ stands s2 q gq /\
      service_start gq = true /\ woken s2 q (now s)
  else if arriving g || working g then
    rank g' = 4%nat \/
    (asked g' = true /\ rank g' = S (rank g) /\
     ((k <= rank g)%nat -> exists t, yt = Some t /\ queued s2 t (now s)))
  else
    rank g' = 0%nat /\
    (service_start g = true ->
     service_wait g' = true /\ exists t, yt = Some t /\ queued s2 t (now s + 5)) /\
    (service_wait g = true -> yt = None).

Ltac sent_service H D :=
  unfold bind at 1 in H; rewrite randint_Return in H;
  apply bind_Return in H as (t & s' & Ht & H); unfold ret in H; injection H as <- <- <-;
  apply env_timeout_moves in Ht as (N & T & W & Qd); [|apply inject_Z_nonneg; lia];
  cbn [now theater wait_times set_random] in N, T, W, Qd;
  split; [exact N|]; split; [intros r _; rewrite T; reflexivity|];
  split; [cbn; discriminate|];
  unfold sent; cbn [asked arriving working orb service_start service_wait rank];
  split; [reflexivity|]; split; [|discriminate];
  intros _; split; [reflexivity|]; eexists; split; [reflexivity|];
  eapply queued_le; [|exact Qd];
  apply Qplus_le_r; unfold Qle; cbn; lia.

Lemma send_moves k g s g' yt s2 :
  behind k s -> sound (length (objects s)) g ->
  (rank g <= k)%nat -> (k <= 3)%nat ->
  send g s = Return (g', yt) s2 ->
  now s2 = now s /\
  (forall r, (Nat.max k (rank g') < pool_rank r)%nat ->
             getattr r <$> theater s2 = getattr r <$> theater s) /\
  (rank g' = 4%nat -> served s2) /\
  sent k g g' yt s s2.
Proof.
  intros B Sg Rk K3 H. unfold send in H.
  destruct g as [x y z|m|m|m a req|m a req|m a req|m a req|m a req|m a req|m|m|m|m|m|m|code];
    cbn [gi_code] in H.
  - destruct Sg.
  - (* run_theater: the next customer *)
    unfold run_theater in H.
    apply bind_Return in H as (p & sa & Hp & H).
    apply bind_Return in H as (t & sb & Ht & H). unfold ret in H. injection H as <- <- <-.
    apply env_process_moves in Hp as (_ & N1 & T1 & _).
    apply env_timeout_moves in Ht as (N2 & T2 & _); [|discriminate].
    split; [congruence|]. split; [intros r _; congruence|].
    split; [cbn; discriminate|].
    unfold sent; cbn. split; [reflexivity|]. split; discriminate.
  - (* a customer arrives *)
    unfold go_to_movies in H. unfold bind at 1, get at 1 in H.
    apply bind_Return in H as (r0 & s' & Hr & H). unfold ret in H. injection H as <- <- <-.
    destruct (request_next _ _ _ _ Hr) as (N & T & I).
    split; [exact N|]. split.
    { intros r Hr'. cbn [rank] in Hr'. apply T. intros ->. cbn in Hr'. lia. }
    split; [cbn; discriminate|].
    unfold sent; cbn [asked arriving working orb rank]. right.
    split; [reflexivity|]. split; [reflexivity|]. intros Hk.
    destruct (behind_pools _ _ B attr_cashier) as (res & E & Id); [cbn; lia|].
    eexists. split; [reflexivity|]. exact (I res E Id).
  - (* the cashier is there *)
    unfold go_to_movies in H.
    apply bind_Return in H as (p & s' & Hp & H). unfold ret in H. injection H as <- <- <-.
    apply env_process_moves in Hp as (-> & N & T & _ & St & Wk).
    split; [exact N|]. split; [intros r _; rewrite T; reflexivity|].
    split; [cbn; discriminate|].
    unfold sent; cbn [asked rank working]. split; [reflexivity|]. split; [reflexivity|].
    eexists. eexists. split; [reflexivity|]. split; [lia|]. split; [exact St|].
    split; [reflexivity | exact Wk].
  - (* the ticket is bought *)
    unfold go_to_movies in H.
    apply bind_Return in H as (u & sa & He & H).
    apply bind_Return in H as (r0 & s' & Hr & H). unfold ret in H. injection H as <- <- <-.
    destruct (exit_next _ _ _ _ _ He) as (N1 & T1 & _).
    destruct (request_next _ _ _ _ Hr) as (N2 & T2 & I).
    split; [congruence|]. split.
    { intros r Hr'. cbn [rank] in Hr'.
      rewrite (T2 r), (T1 r); [reflexivity | intros ->; cbn in Hr'; lia..]. }
    split; [cbn; discriminate|].
    unfold sent; cbn [asked arriving working orb rank]. right.
    split; [reflexivity|]. split; [reflexivity|]. intros Hk.
    destruct (behind_pools _ _ B attr_usher) as (res & E & Id); [cbn; lia|].
    eexists. split; [reflexivity|]. rewrite <- N1. apply (I res); [|exact Id].
    rewrite (T1 attr_usher) by discriminate. exact E.
  - (* the usher is there *)
    unfold go_to_movies in H.
    apply bind_Return in H as (p & s' & Hp & H). unfold ret in H. injection H as <- <- <-.
    apply env_process_moves in Hp as (-> & N & T & _ & St & Wk).
    split; [exact N|]. split; [intros r _; rewrite T; reflexivity|].
    split; [cbn; discriminate|].
    unfold sent; cbn [asked rank working]. split; [reflexivity|]. split; [reflexivity|].
    eexists. eexists. split; [reflexivity|]. split; [lia|]. split; [exact St|].
    split; [reflexivity | exact Wk].
  - (* the ticket is checked *)
    unfold go_to_movies in H.
    apply bind_Return in H as (u & sa & He & H).
    destruct (exit_next _ _ _ _ _ He) as (N1 & T1 & W1).
    unfold bind at 1 in H. rewrite choice_True_False_Return in H.
    destruct (next_coin sa).
    + apply bind_Return in H as (r0 & s' & Hr & H). unfold ret in H.
      injection H as <- <- <-.
      destruct (request_next _ _ _ _ Hr) as (N2 & T2 & I).
      cbn [now theater set_random] in N2, T2, I.
      split; [congruence|]. split.
      { intros r Hr'. cbn [rank] in Hr'.
        rewrite (T2 r); [apply (T1 r)|]; intros ->; cbn in Hr'; lia. }
      split; [cbn; discriminate|].
      unfold sent; cbn [asked arriving working orb rank]. right.
      split; [reflexivity|]. split; [reflexivity|]. intros Hk.
      destruct (behind_pools _ _ B attr_server) as (res & E & Id); [cbn; lia|].
      eexists. split; [reflexivity|]. rewrite <- N1. apply (I res); [|exact Id].
      change (getattr attr_server <$> theater sa = Some res).
      rewrite (T1 attr_server) by discriminate. exact E.
    + unfold bind, get, wait_times_append, modify, stop_iteration, ret in H.
      injection H as <- <- <-.
      split; [exact N1|]. split.
      { intros r Hr'. destruct r; cbn in Hr'; lia. }
      split.
      { intros _. unfold served. cbn. intros E. apply app_eq_nil in E as [_ E].
        discriminate E. }
      unfold sent; cbn [asked arriving working orb rank]. left. reflexivity.
  - (* the server is there *)
    unfold go_to_movies in H.
    apply bind_Return in H as (p & s' & Hp & H). unfold ret in H. injection H as <- <- <-.
    apply env_process_moves in Hp as (-> & N & T & _ & St & Wk).
    split; [exact N|]. split; [intros r _; rewrite T; reflexivity|].
    split; [cbn; discriminate|].
    unfold sent; cbn [asked rank working]. split; [reflexivity|]. split; [reflexivity|].
    eexists. eexists. split; [reflexivity|]. split; [lia|]. split; [exact St|].
    split; [reflexivity | exact Wk].
  - (* the food is bought *)
    unfold go_to_movies in H.
    apply bind_Return in H as (u & sa & He & H).
    destruct (exit_next _ _ _ _ _ He) as (N1 & T1 & W1).
    unfold bind, get, wait_times_append, modify, stop_iteration, ret in H.
    injection H as <- <- <-.
    split; [exact N1|]. split.
    { intros r Hr'. destruct r; cbn in Hr'; lia. }
    split.
    { intros _. unfold served. cbn. intros E. apply app_eq_nil in E as [_ E].
      discriminate E. }
    unfold sent; cbn [asked arriving working orb rank]. left. reflexivity.
  - unfold purchase_ticket in H.
    pose proof (next_draw_range s (3 - 1 + 1) ltac:(lia)) as D.
    sent_service H D.
  - unfold purchase_ticket, stop_iteration, ret in H. injection H as <- <- <-.
    split; [reflexivity|]. split; [reflexivity|]. split; [cbn; discriminate|].
    unfold sent; cbn. split; [reflexivity|]. split; [discriminate | reflexivity].
  - unfold check_ticket in H.
    apply bind_Return in H as (t & s' & Ht & H). unfold ret in H. injection H as <- <- <-.
    apply env_timeout_moves in Ht as (N & T & W & Qd); [|discriminate].
    split; [exact N|]. split; [intros r _; rewrite T; reflexivity|].
    split; [cbn; discriminate|].
    unfold sent; cbn [asked arriving working orb service_start service_wait rank].
    split; [reflexivity|]. split; [|discriminate].
    intros _. split; [reflexivity|]. eexists. split; [reflexivity|].
    eapply queued_le; [|exact Qd]. apply Qplus_le_r. discriminate.
  - unfold check_ticket, stop_iteration, ret in H. injection H as <- <- <-.
    split; [reflexivity|]. split; [reflexivity|]. split; [cbn; discriminate|].
    unfold sent; cbn. split; [reflexivity|]. split; [discriminate | reflexivity].
  - unfold sell_food in H.
    pose proof (next_draw_range s (5 - 1 + 1) ltac:(lia)) as D.
    sent_service H D.
  - unfold sell_food, stop_iteration, ret in H. injection H as <- <- <-.
    split; [reflexivity|]. split; [reflexivity|]. split; [cbn; discriminate|].
    unfold sent; cbn. split; [reflexivity|]. split; [discriminate | reflexivity].
  - assert (Nc : code <> code_go_to_movies) by (intros ->; cbn in Rk; lia).
    destruct code; try congruence;
      unfold run_theater, purchase_ticket, check_ticket, sell_food, stop_iteration, ret in H;
      injection H as <- <- <-;
      (split; [reflexivity|]; split; [reflexivity|]; split; [cbn; discriminate|];
       unfold sent; cbn; split; [reflexivity|]; split; discriminate).
Qed.

Lemma fresh_class_rank c : fresh_class c -> rank_class c = 0%nat.
Proof.
  destruct c as [| | |g st rt| |]; cbn; try reflexivity.
  intros (P & _). destruct g; try discriminate P; reflexivity.
Qed.

(** An object is replaced by one that has its callbacks, and maybe more:
    the callbacks that were live are live. *)
Lemma live_insert s s' e0 ev0 ev' :
  objects s !! e0 = Some ev0 ->
  (forall cbs cb, callbacks ev0 = Some cbs -> In cb cbs ->
                  exists cbs', callbacks ev' = Some cbs' /\ In cb cbs') ->
  objects s' = <[e0 := ev']> (objects s) ->
  forall e cb, live s e cb -> live s' e cb.
Proof.
  intros E0 Hc O' e cb (ev & cbs & E & C & I). unfold live. rewrite O'.
  destruct (decide (e = e0)) as [->|Ne].
  - rewrite E0 in E. injection E as ->. destruct (Hc cbs cb C I) as (cbs' & C' & I').
    exists ev', cbs'. split; [|auto]. apply list_lookup_insert_eq. eapply lookup_lt_Some, E0.
  - exists ev, cbs. split; [|auto]. rewrite list_lookup_insert_ne by congruence. exact E.
Qed.

Lemma live_leaves s s' news : leaves s s' news -> forall e cb, live s e cb -> live s' e cb.
Proof.
  intros L e cb (ev & cbs & E & C & I).
  destruct (leaves_lookup _ _ _ _ _ L E) as (ev' & E' & _ & C').
  exists ev', cbs. split; [exact E'|]. split; [congruence | exact I].
Qed.

Lemma queued_incl s s' :
  (forall x, In x (queue s) -> In x (queue s')) ->
  forall e t, queued s e t -> queued s' e t.
Proof. intros H e t (x & I & E & T). exists x. auto. Qed.

(** The outcome of a resumption that has returned: the process has its
    new generator, and it waits for the event that was yielded, or is
    scheduled. *)
Lemma process_outcome_moves y g st rt g' yt s2 s1 pe :
  objects s2 !! y = Some pe ->
  process_outcome y g st rt (Return (g', yt) s2) = Return tt s1 ->
  (exists rt', class <$> objects s1 = <[y := Process g' st rt']> (class <$> objects s2)) /\
  theater s1 = theater s2 /\ now s1 = now s2 /\ wait_times s1 = wait_times s2 /\
  (forall e cb, live s2 e cb -> live s1 e cb) /\
  (forall x, In x (queue s2) -> In x (queue s1)) /\
  match yt with
  | Some t => live s1 t (Process_resume y)
  | None => queued s1 y (now s2)
  end.
Proof.
  intros E H. destruct yt as [t|]; cbn [process_outcome] in H.
  - unfold bind at 1 in H. rewrite (update_event_Return _ _ _ _ E) in H.
    set (sa := set_objects (<[y := set_class (Process g' st rt) pe]> (objects s2)) s2) in H.
    unfold bind at 1 in H. rewrite get_event_unfold in H.
    destruct (objects sa !! t) as [tv|] eqn:Et; [|discriminate H].
    destruct (callbacks tv) as [cbs|] eqn:Ct; [|discriminate H].
    unfold callbacks_append, bind in H. rewrite get_event_unfold, Et, Ct in H.
    rewrite (update_event_Return _ _ _ _ Et) in H. injection H as <-.
    assert (La : forall e cb, live s2 e cb -> live sa e cb).
    { apply (live_insert s2 sa y pe (set_class (Process g' st rt) pe) E); [|reflexivity].
      intros cbs0 cb C I. exists cbs0. auto. }
    split.
    { exists rt. cbn [objects set_objects].
      rewrite (class_insert_same _ _ tv) by (exact Et || reflexivity).
      unfold sa. cbn [objects set_objects]. rewrite list_fmap_insert. reflexivity. }
    split; [reflexivity|]. split; [reflexivity|]. split; [reflexivity|]. split.
    { intros e cb Lv. apply La in Lv. revert e cb Lv.
      apply (live_insert sa _ t tv (set_callbacks (Some (cbs ++ [Process_resume y])) tv) Et);
        [|reflexivity].
      intros cbs0 cb C I. rewrite Ct in C. injection C as <-.
      eexists. split; [reflexivity|]. apply in_or_app. left. exact I. }
    split; [auto|].
    eexists. eexists. cbn [objects set_objects].
    split; [apply list_lookup_insert_eq; eapply lookup_lt_Some, Et|].
    split; [reflexivity|]. apply in_or_app. right. left. reflexivity.
  - unfold bind in H.
    match type of H with context [update_event y ?f s2] =>
      rewrite (update_event_Return y f s2 pe E) in H end.
    cbn [schedule modify] in H. injection H as <-.
    split.
    { eexists. cbn [objects set_objects set_eid set_queue].
      rewrite list_fmap_insert. reflexivity. }
    split; [reflexivity|]. split; [reflexivity|]. split; [reflexivity|]. split.
    { eapply (live_insert s2 _ y pe); [exact E | | reflexivity].
      intros cbs0 cb C I. exists cbs0. auto. }
    split; [intros x I; right; exact I|].
    eexists. split; [left; reflexivity|]. split; [reflexivity|]. apply Qred_plus_0.
Qed.

(** What a process of rank [k] at most has done when it has been
    resumed. *)
Definition moves (k : nat) (y : nat) (g g' : Generator) (s s1 : State) : Prop :=
  if asked g then
    working g' = true /\ rank g' = rank g /\
    exists q gq, stands s1 q gq /\ service_start gq = true /\
      live s1 q (Process_resume y) /\ woken s1 q (now s)
  else if arriving g || working g then
    rank g' = 4%nat \/
    (asked g' = true /\ rank g' = S (rank g) /\
     ((k <= rank g)%nat -> woken s1 y (now s)))
  else
    rank g' = 0%nat /\
    (service_start g = true -> service_wait g' = true /\ woken s1 y (now s + 5)) /\
    (service_wait g = true -> queued s1 y (now s)).

Lemma resume_moves k s y e' s1 :
  fine s -> behind k s -> (k <= 3)%nat ->
  resume y e' s = Return tt s1 ->
  exists g g',
    stands s y g /\ stands s1 y g' /\
    (forall p0 g0, p0 <> y -> stands s p0 g0 -> stands s1 p0 g0) /\
    (forall e cb, live s e cb -> live s1 e cb) /\
    (forall e t, queued s e t -> queued s1 e t) /\
    now s1 = now s /\
    behind (Nat.max k (rank g')) s1 /\
    (rank g' = 4%nat -> served s1) /\
    moves k y g g' s s1.
Proof.
  intros F B K3 H. unfold resume in H.
  unfold bind at 1 in H. rewrite get_event_unfold in H.
  destruct (objects s !! y) as [pe|] eqn:E; [|discriminate H].
  destruct (class pe) as [| | |g st rt| |] eqn:C; try discriminate H.
  unfold bind at 1, get at 1 in H. unfold bind at 1 in H. rewrite get_event_unfold in H.
  destruct (objects s !! e') as [ev|] eqn:Ee; [|discriminate H].
  pose proof (ef_value _ _ (fine_event _ _ _ F Ee)) as V.
  assert (Sg : sound (length (objects s)) g).
  { eapply (ef_sound _ _ (fine_event _ _ _ F E)), C. }
  assert (Bd : match value ev with
               | failed e => update_event e' set_defused >> throw g e
               | _ => send g
               end = send g).
  { destruct (value ev) as [| |e]; try reflexivity. destruct (V e eq_refl). }
  rewrite Bd in H. clear Bd.
  pose proof (send_fine g s F Sg) as R. unfold returns in R.
  destruct (send g s) as [[g' yt] s2| |] eqn:Hs; try contradiction.
  destruct R as (F2 & (news & L) & Sg' & Y).
  assert (Cy : (class <$> objects s) !! y = Some (Process g st rt)).
  { rewrite list_lookup_fmap, E. cbn. rewrite C. reflexivity. }
  assert (Rk : (rank g <= k)%nat).
  { pose proof (behind_ranks _ _ B) as Fr. rewrite Forall_lookup in Fr.
    exact (Fr _ _ Cy). }
  destruct (send_moves k g s g' yt s2 B Sg Rk K3 Hs) as (N2 & P2 & W2 & St).
  pose proof (send_effect_holds g s) as G. rewrite Hs in G. cbn [send_effect] in G.
  destruct G as [_ _ (cnews & Ec & Fc)].
  pose proof (enqueues_send g s) as En. rewrite Hs in En. cbn [final_state] in En.
  destruct (leaves_lookup _ _ _ _ _ L E) as (pe2 & E2 & C2 & _).
  destruct (process_outcome_moves _ _ _ _ _ _ _ _ _ E2 H)
    as ((rt' & Ec1) & T1 & N1 & W1 & L1 & Q1 & O1).
  assert (Ly : (y < length (class <$> objects s))%nat).
  { eapply lookup_lt_Some, Cy. }
  assert (Stands : forall p0 g0, p0 <> y -> stands s2 p0 g0 -> stands s1 p0 g0).
  { intros p0 g0 Ne (st0 & rt0 & E0). exists st0, rt0.
    rewrite Ec1, list_lookup_insert_ne by congruence. exact E0. }
  assert (Live : forall e cb, live s e cb -> live s1 e cb).
  { intros e cb Lv. apply L1. eapply live_leaves; eassumption. }
  assert (Queued : forall e t, queued s2 e t -> queued s1 e t).
  { apply queued_incl, Q1. }
  exists g, g'. split; [eexists; eexists; exact Cy|]. split.
  { eexists. eexists. rewrite Ec1. apply list_lookup_insert_eq.
    rewrite Ec, length_app. lia. }
  split.
  { intros p0 g0 Ne (st0 & rt0 & E0). apply Stands; [exact Ne|]. exists st0, rt0.
    rewrite Ec. apply lookup_app_l_Some. exact E0. }
  split; [exact Live|]. split.
  { intros e t Qd. apply Queued. revert Qd. apply queued_incl.
    intros x. apply enqueues_In, En. }
  split; [congruence|]. split.
  { split.
    - rewrite Ec1, Ec. apply Forall_insert.
      + apply Forall_app. split.
        * eapply Forall_impl; [apply (behind_ranks _ _ B)|]. cbn. intros c Hc. lia.
        * eapply Forall_impl; [exact Fc|]. cbn. intros c Hc.
          rewrite (fresh_class_rank _ Hc). lia.
      + cbn. lia.
    - intros r Hr. destruct (behind_pools _ _ B r) as (res & Er & Id); [lia|].
      exists res. split; [|exact Id]. rewrite T1, (P2 r Hr). exact Er. }
  split.
  { intros R4. unfold served. rewrite W1. apply W2, R4. }
  unfold moves. unfold sent in St.
  destruct (asked g).
  - destruct St as (Wg & Rg & q & gq & -> & Lq & Sq & Ss & Wq).
    split; [exact Wg|]. split; [exact Rg|]. exists q, gq.
    split; [apply Stands; [rewrite length_fmap in Ly; lia | exact Sq]|].
    split; [exact Ss|]. split; [exact O1|].
    destruct Wq as (e & Lv & Qd). exists e. split; [apply L1, Lv | apply Queued, Qd].
  - destruct (arriving g || working g).
    + destruct St as [R4|(Ag & Rg & Hk)]; [left; exact R4|]. right.
      split; [exact Ag|]. split; [exact Rg|]. intros Kr.
      destruct (Hk Kr) as (t & -> & Qd). exists t. split; [exact O1 | apply Queued, Qd].
    + destruct St as (R0 & Hs1 & Hs2). split; [exact R0|]. split.
      * intros S1. destruct (Hs1 S1) as (Sw & t & -> & Qd). split; [exact Sw|].
        exists t. split; [exact O1 | apply Queued, Qd].
      * intros S2. rewrite (Hs2 S2) in O1. rewrite <- N2. exact O1.
Qed.

(** *** A callback keeps the run under way *)

Lemma base_mono n m : (n <= m)%nat -> base n <= base m.
Proof.
  destruct n as [|[|[|[|n]]]], m as [|[|[|[|m]]]]; cbn; intros L; try lia;
    discriminate || apply Qle_refl.
Qed.

Lemma base_step k : (1 <= k <= 3)%nat -> base k + 5 <= base (S k).
Proof.
  intros L. destruct k as [|[|[|[|k]]]]; try lia; cbn; unfold Qle; cbn; lia.
Qed.

Lemma position_level s cbs p g n :
  position s cbs p g n ->
  (rank g <= 3)%nat /\ (n = rank g \/ n = S (rank g)) /\
  (asked g = true -> n = rank g) /\
  (asked g = false -> arriving g || working g = true) /\
  (working g = true -> (1 <= rank g)%nat).
Proof.
  intros [(Wt & En & _)|(Wg & Pos)].
  - destruct g; try discriminate Wt; cbn; repeat split; auto; try lia; discriminate.
  - assert (Ln : n = rank g \/ n = S (rank g)).
    { destruct Pos as [(En & _)|(q & gq & _ & _ & _ & [(_ & En)|(_ & En)])]; auto. }
    destruct g; try discriminate Wg; cbn; repeat split; auto; try lia; discriminate.
Qed.

Lemma lead_next k s cbs y g t :
  stands s y g -> asked g = true -> rank g = S k -> woken s y t -> t <= base (S k) ->
  lead (S k) s cbs (S k).
Proof.
  intros Sy Ag Rg Wk Le. exists y, g. split; [exact Sy|]. split; [exact Rg|].
  left. split; [rewrite Ag; apply orb_true_r|]. split; [congruence|].
  left. eapply woken_le; eassumption.
Qed.

Lemma resume_under_way y cbs e' s s1 :
  fine s -> under_way (Process_resume y :: cbs) s ->
  resume y e' s = Return tt s1 -> under_way cbs s1.
Proof.
  intros F U H.
  pose proof (appends_call (Process_resume y) e' s) as A. cbn [call] in A.
  rewrite H in A. cbn [final_state] in A.
  destruct U as [Sv|(k & n & B & (p & g & Sp & Rg & Pos) & Nw)];
    [left; eapply served_appends; eassumption|].
  destruct (position_level _ _ _ _ _ Pos) as (R3 & Ln & La & Law & Lw).
  assert (K3 : (k <= 3)%nat) by lia.
  destruct (resume_moves k s y e' s1 F B K3 H)
    as (gy & g' & Sy & Sy1 & St & Lv & Qd & N1 & B1 & W4 & Mv).
  assert (Rgy : (rank gy <= k)%nat).
  { pose proof (behind_ranks _ _ B) as Fr. rewrite Forall_lookup in Fr.
    destruct Sy as (st & rt & Ey). exact (Fr _ _ Ey). }
  assert (Nk : now s <= base (S k)).
  { eapply Qle_trans; [exact Nw|]. apply base_mono. lia. }
  assert (Next : asked gy = false -> arriving gy || working gy = true ->
                 (rank g' <> 4%nat -> rank gy = k) -> under_way cbs s1).
  { intros Ha Haw Rk. unfold moves in Mv. rewrite Ha, Haw in Mv.
    destruct Mv as [R4|(Ag & Rg' & Wk)]; [left; apply W4, R4|].
    assert (Ek : rank gy = k).
    { apply Rk. intros R4. destruct g'; try discriminate Ag; discriminate R4. }
    right. exists (S k), (S k). split; [|split].
    - replace (S k) with (Nat.max k (rank g')) by lia. exact B1.
    - eapply (lead_next k s1 cbs y g'); try eassumption; [lia | apply Wk; lia].
    - rewrite N1. exact Nk. }
  assert (Bk : (rank g' <= k)%nat -> behind k s1).
  { intros L. replace k with (Nat.max k (rank g')) by lia. exact B1. }
  destruct (decide (y = p)) as [->|Np].
  - (* the leader is resumed *)
    pose proof (stands_fun _ _ _ _ Sp Sy) as Eg. subst gy.
    destruct (asked g) eqn:Ha; [|apply Next; auto].
    unfold moves in Mv. rewrite Ha in Mv.
    destruct Mv as (Wg & Rg' & q & gq & Sq & Ss & Lq & Wq).
    right. exists k, n. split; [apply Bk; lia|]. split; [|rewrite N1; exact Nw].
    exists p, g'. split; [exact Sy1|]. split; [lia|]. right. split; [exact Wg|]. right.
    exists q, gq. split; [exact Sq|]. split; [exact Lq|].
    split; [left; eapply woken_le; [exact Nw | exact Wq]|].
    left. split; [exact Ss|]. rewrite Rg'. apply La. reflexivity.
  - (* another process is resumed *)
    assert (Np' : p <> y) by congruence.
    assert (Wf : forall q t, q <> y ->
              wakes s (Process_resume y :: cbs) q t -> wakes s1 cbs q t).
    { intros q t Nq [(e & Le & Qe)|I].
      - left. exists e. split; [apply Lv, Le | apply Qd, Qe].
      - destruct I as [I|I]; [injection I as I; congruence | right; exact I]. }
    assert (Over : (k < rank g')%nat -> under_way cbs s1).
    { intros Hk. destruct (asked gy) eqn:Ha.
      - unfold moves in Mv. rewrite Ha in Mv. destruct Mv as (_ & Rg' & _). lia.
      - destruct (arriving gy || working gy) eqn:Haw.
        + apply Next; auto. intros N4.
          unfold moves in Mv. rewrite Ha, Haw in Mv.
          destruct Mv as [R4|(_ & Rg' & _)]; [congruence | lia].
        + unfold moves in Mv. rewrite Ha, Haw in Mv. destruct Mv as (R0 & _). lia. }
    destruct Pos as [(Wt & En & Wk)|(Wg & [(En & Wk)|(q & gq & Sq & Lq & Wq & Kq)])].
    + destruct (le_lt_dec (rank g') k) as [L|L]; [|apply Over, L].
      right. exists k, n. split; [apply Bk, L|]. split; [|rewrite N1; exact Nw].
      exists p, g. split; [apply St; [exact Np' | exact Sp]|]. split; [exact Rg|].
      left. split; [exact Wt|]. split; [exact En|]. apply Wf; [exact Np' | exact Wk].
    + destruct (le_lt_dec (rank g') k) as [L|L]; [|apply Over, L].
      right. exists k, n. split; [apply Bk, L|]. split; [|rewrite N1; exact Nw].
      exists p, g. split; [apply St; [exact Np' | exact Sp]|]. split; [exact Rg|].
      right. split; [exact Wg|]. left. split; [exact En|]. apply Wf; [exact Np' | exact Wk].
    + destruct (decide (q = y)) as [->|Nq].
      * (* the service of the leader is resumed *)
        pose proof (stands_fun _ _ _ _ Sq Sy) as Eg. subst gy.
        assert (Ha : asked gq = false).
        { destruct Kq as [(Ss & _)|(Ss & _)]; destruct gq; try discriminate Ss; reflexivity. }
        assert (Haw : arriving gq || working gq = false).
        { destruct Kq as [(Ss & _)|(Ss & _)]; destruct gq; try discriminate Ss; reflexivity. }
        unfold moves in Mv. rewrite Ha, Haw in Mv. destruct Mv as (R0 & H1 & H2).
        specialize (Lw Wg).
        destruct Kq as [(Ss & En)|(Ss & En)].
        -- destruct (H1 Ss) as (Sw & Wk). right. exists k, (S (rank g)).
           split; [apply Bk; lia|]. split.
           ++ exists p, g. split; [apply St; [exact Np' | exact Sp]|]. split; [exact Rg|].
              right. split; [exact Wg|]. right. exists y, g'.
              split; [exact Sy1|]. split; [apply Lv, Lq|]. split.
              ** left. eapply woken_le; [|exact Wk].
                 eapply Qle_trans; [|apply base_step; lia].
                 apply Qplus_le_l. rewrite <- En. exact Nw.
              ** right. split; [exact Sw | reflexivity].
           ++ rewrite N1. eapply Qle_trans; [exact Nw|]. apply base_mono. lia.
        -- specialize (H2 Ss). right. exists k, n.
           split; [apply Bk; lia|]. split; [|rewrite N1; exact Nw].
           exists p, g. split; [apply St; [exact Np' | exact Sp]|]. split; [exact Rg|].
           right. split; [exact Wg|]. left. split; [exact En|].
           left. exists y. split; [apply Lv, Lq|]. eapply queued_le; [exact Nw | exact H2].
      * destruct (le_lt_dec (rank g') k) as [L|L]; [|apply Over, L].
        right. exists k, n. split; [apply Bk, L|]. split; [|rewrite N1; exact Nw].
        exists p, g. split; [apply St; [exact Np' | exact Sp]|]. split; [exact Rg|].
        right. split; [exact Wg|]. right. exists q, gq.
        split; [apply St; [exact Nq | exact Sq]|]. split; [apply Lv, Lq|].
        split; [apply Wf; [exact Nq | exact Wq] | exact Kq].
Qed.

Lemma trigger_put_idle r s res :
  getattr r <$> theater s = Some res -> put_queue res = [] ->
  trigger_put r s = Return tt s.
Proof.
  intros T P. destruct (theater s) as [t|] eqn:Et; [|discriminate T].
  cbn in T. injection T as <-.
  unfold trigger_put, bind. rewrite (get_resource_Return r s t Et), P. reflexivity.
Qed.

Lemma wakes_frame s s1 cb cbs p t :
  (forall e c, live s e c -> live s1 e c) ->
  (forall e t, queued s e t -> queued s1 e t) ->
  cb <> Process_resume p ->
  wakes s (cb :: cbs) p t -> wakes s1 cbs p t.
Proof.
  intros Lv Qd N [(e & Le & Qe)|I].
  - left. exists e. split; [apply Lv, Le | apply Qd, Qe].
  - destruct I as [I|I]; [congruence | right; exact I].
Qed.

(** A callback that resumes no process leaves the leader where it is. *)
Lemma lead_frame k s s1 cb cbs n :
  (forall p g, stands s p g -> stands s1 p g) ->
  (forall e c, live s e c -> live s1 e c) ->
  (forall e t, queued s e t -> queued s1 e t) ->
  (forall p, cb <> Process_resume p) ->
  lead k s (cb :: cbs) n -> lead k s1 cbs n.
Proof.
  intros St Lv Qd N (p & g & Sp & Rg & Pos). exists p, g.
  split; [apply St, Sp|]. split; [exact Rg|].
  destruct Pos as [(Wt & En & Wk)|(Wg & [(En & Wk)|(q & gq & Sq & Lq & Wq & Kq)])].
  - left. split; [exact Wt|]. split; [exact En|]. eapply wakes_frame; eauto.
  - right. split; [exact Wg|]. left. split; [exact En|]. eapply wakes_frame; eauto.
  - right. split; [exact Wg|]. right. exists q, gq. split; [apply St, Sq|].
    split; [apply Lv, Lq|]. split; [eapply wakes_frame; eauto | exact Kq].
Qed.

Lemma call_under_way cb cbs e' s s1 :
  fine s -> under_way (cb :: cbs) s -> call cb e' s = Return tt s1 -> under_way cbs s1.
Proof.
  intros F U H. destruct cb as [y|r|r|]; cbn [call] in H.
  - eapply resume_under_way; eassumption.
  - (* a release has been carried out: the next request is granted *)
    pose proof (trigger_put_fine r s F) as R. unfold returns in R. rewrite H in R.
    destruct R as [_ L].
    pose proof (keeps_trigger_put r s) as K. rewrite H in K. cbn [final_state] in K.
    destruct K as [_ _ _ _ Kw Kn Kc].
    pose proof (theater_trigger_put r s) as Th. rewrite H in Th. cbn [final_state] in Th.
    pose proof (enqueues_trigger_put r s) as En. rewrite H in En. cbn [final_state] in En.
    destruct U as [Sv|(k & n & B & Ld & Nw)].
    { left. unfold served. rewrite Kw. exact Sv. }
    right. exists k, n. split; [|split; [|rewrite Kn; exact Nw]].
    + split; [rewrite Kc; apply (behind_ranks _ _ B)|].
      intros r0 Hr0. destruct (behind_pools _ _ B r0 Hr0) as (res & E & Id).
      exists res. split; [|exact Id]. destruct (decide (r0 = r)) as [->|Ne].
      * rewrite (trigger_put_idle r s res E (proj1 (proj2 Id))) in H.
        injection H as <-. exact E.
      * rewrite (Th r0 Ne). exact E.
    + eapply lead_frame; [| | | |exact Ld].
      * intros p g. unfold stands. rewrite Kc. auto.
      * eapply live_leaves, L.
      * apply queued_incl. intros x. apply enqueues_In, En.
      * discriminate.
  - (* a request has been processed: no release waits *)
    pose proof (trigger_get_fine r s F) as R. unfold returns in R. rewrite H in R.
    subst s1. destruct U as [Sv|(k & n & B & Ld & Nw)]; [left; exact Sv|].
    right. exists k, n. split; [exact B|]. split; [|exact Nw].
    eapply lead_frame; [| | | |exact Ld]; auto; discriminate.
  - unfold bind in H. rewrite get_event_unfold in H.
    destruct (objects s !! e') as [ev|]; [|discriminate H].
    destruct (value ev); discriminate H.
Qed.

(** *** A step of the event loop *)

Lemma under_way_15 cbs s : under_way cbs s -> served s \/ now s <= 15.
Proof.
  intros [Sv|(k & n & _ & _ & Nw)]; [left; exact Sv|]. right.
  eapply Qle_trans; [exact Nw | apply base_15].
Qed.

Lemma under_way_on_course s : under_way [] s -> on_course s.
Proof.
  intros [Sv|(k & n & B & Ld & _)]; [left; exact Sv|]. right. exists k, n. auto.
Qed.

(** The next event is taken from the queue: the leader is resumed by one
    of its callbacks, or by an event that is still scheduled. *)
Lemma popped_under_way s m rest ev :
  on_course s -> m :: rest ≡ₚ queue s -> Forall (fun y => entry_le m y = true) rest ->
  objects s !! entry_event m = Some ev ->
  under_way (default [] (callbacks ev)) (popped s m rest ev).
Proof.
  intros [Sv|(k & n & B & (p & g & Sp & Rg & Pos))] P Mn E; [left; exact Sv|].
  set (sp := popped s m rest ev). set (cbs := default [] (callbacks ev)).
  assert (Cl : class <$> objects sp = class <$> objects s).
  { cbn. apply (class_insert_same _ _ ev); [exact E | reflexivity]. }
  assert (St : forall q gq, stands s q gq -> stands sp q gq).
  { intros q gq. unfold stands. rewrite Cl. auto. }
  assert (Bp : behind k sp).
  { split; [rewrite Cl; apply (behind_ranks _ _ B) | apply (behind_pools _ _ B)]. }
  assert (Lv : forall e c, live s e c ->
            (e <> entry_event m /\ live sp e c) \/ (e = entry_event m /\ In c cbs)).
  { intros e c (ev0 & l & E0 & C0 & I). destruct (decide (e = entry_event m)) as [->|Ne].
    - right. split; [reflexivity|]. rewrite E in E0. injection E0 as <-.
      unfold cbs. rewrite C0. exact I.
    - left. split; [exact Ne|]. exists ev0, l. split; [|auto].
      cbn. rewrite list_lookup_insert_ne by congruence. exact E0. }
  assert (Qd : forall e t, queued s e t ->
            entry_time m <= t /\ (e <> entry_event m -> queued sp e t)).
  { intros e t (x & I & Ex & T). rewrite <- P in I. destruct I as [<-|I].
    - split; [exact T | congruence].
    - rewrite Forall_forall in Mn.
      pose proof (entry_le_time _ _ (Mn _ (proj2 (list_elem_of_In _ _) I))) as Lt.
      split; [eapply Qle_trans; eassumption|]. intros _. exists x. auto. }
  assert (Wk : forall q t, wakes s [] q t -> entry_time m <= t /\ wakes sp cbs q t).
  { intros q t [(e & Le & Qe)|[]]. destruct (Qd _ _ Qe) as [T Qe'].
    split; [exact T|]. destruct (Lv _ _ Le) as [[Ne Le']|[-> I]].
    - left. exists e. split; [exact Le' | apply Qe', Ne].
    - right. exact I. }
  right.
  destruct Pos as [(Wt & En & Wp)|(Wg & [(En & Wp)|(q & gq & Sq & Lq & Wq & Kq)])].
  - destruct (Wk _ _ Wp) as [T Wp']. exists k, n. split; [exact Bp|]. split; [|exact T].
    exists p, g. split; [apply St, Sp|]. split; [exact Rg|]. left. auto.
  - destruct (Wk _ _ Wp) as [T Wp']. exists k, n. split; [exact Bp|]. split; [|exact T].
    exists p, g. split; [apply St, Sp|]. split; [exact Rg|]. right. split; [exact Wg|].
    left. auto.
  - destruct (Wk _ _ Wq) as [T Wq']. destruct (Lv _ _ Lq) as [[Ne Lq']|[-> I]].
    + exists k, n. split; [exact Bp|]. split; [|exact T].
      exists p, g. split; [apply St, Sp|]. split; [exact Rg|]. right. split; [exact Wg|].
      right. exists q, gq. split; [apply St, Sq|]. auto.
    + exists k, (S (rank g)). split; [exact Bp|]. split.
      * exists p, g. split; [apply St, Sp|]. split; [exact Rg|]. right.
        split; [exact Wg|]. left. split; [reflexivity|]. right. exact I.
      * eapply Qle_trans; [exact T|]. apply base_mono.
        destruct Kq as [(_ & ->)|(_ & ->)]; lia.
Qed.

Lemma calls_under_way cbs e' s :
  fine s -> under_way cbs s ->
  (forall p, In (Process_resume p) cbs -> is_process_at (objects s) p) ->
  (e' < length (objects s))%nat ->
  match for_ cbs (fun cb => call cb e') s with
  | Return _ s' => under_way [] s'
  | Raise _ s' => served s' \/ now s' <= 15
  | OutOfFuel _ => True
  end.
Proof.
  revert s. induction cbs as [|cb cbs IH]; intros s F U Pp Le; cbn [for_].
  { exact U. }
  unfold bind.
  assert (D : cb = StopSimulation_callback \/ cb <> StopSimulation_callback)
    by (destruct cb; (left; reflexivity) || (right; discriminate)).
  destruct D as [->|N].
  - cbn [call]. unfold bind. apply lookup_lt_is_Some_2 in Le as [ev Ee].
    rewrite get_event_unfold, Ee.
    destruct (value ev); apply (under_way_15 _ _ U).
  - pose proof (call_fine cb e' s F N) as R. unfold returns in R.
    destruct (call cb e' s) as [[] s1| |] eqn:Hc.
    + destruct R as [F1 O1]; [intros p ->; apply Pp; left; reflexivity | exact Le|].
      apply IH.
      * exact F1.
      * exact (call_under_way cb cbs e' s s1 F U Hc).
      * intros p I. apply O1, Pp. right. exact I.
      * destruct O1 as [L1 _]. lia.
    + exfalso. apply R; [intros p ->; apply Pp; left; reflexivity | exact Le].
    + exact Logic.I.
Qed.

Lemma on_course_queue s : on_course s -> queue s = [] -> served s.
Proof.
  intros [Sv|(k & n & _ & (p & g & _ & _ & Pos))] Q; [exact Sv|]. exfalso.
  assert (W : forall q t, wakes s [] q t -> False).
  { intros q t [(e & _ & (x & I & _))|[]]. rewrite Q in I. destruct I. }
  destruct Pos as [(_ & _ & Wp)|(_ & [(_ & Wp)|(q & gq & _ & _ & Wq & _)])]; eapply W; eauto.
Qed.

(** A step of the event loop keeps the run on course; when it stops the
    run, a customer has been served or it is not yet minute 15. *)
Lemma step_on_course s :
  fine s -> on_course s ->
  match step s with
  | Return _ s' => on_course s'
  | Raise _ s' => served s' \/ now s' <= 15
  | OutOfFuel _ => True
  end.
Proof.
  intros F U.
  destruct (queue s) as [|x q] eqn:Eq.
  { unfold step, bind, get. rewrite Eq. left. apply on_course_queue; assumption. }
  destruct (heappop x q) as [m rest] eqn:Hp.
  destruct (heappop_spec _ _ _ _ Hp) as [P Mn]. rewrite <- Eq in P. symmetry in P.
  assert (Le : (entry_event m < length (objects s))%nat).
  { pose proof (fine_queue _ F) as Q. rewrite Forall_forall in Q. apply Q.
    rewrite <- P. left. }
  pose proof Le as Le'. apply lookup_lt_is_Some_2 in Le' as [ev E].
  rewrite (step_unfold s x q m rest ev Eq Hp E).
  destruct (fine_popped s m rest ev F P E) as [Fp Op].
  pose proof (popped_under_way s m rest ev U P Mn E) as Up.
  pose proof (calls_under_way (default [] (callbacks ev)) (entry_event m)
                (popped s m rest ev) Fp Up) as R.
  unfold bind at 1.
  destruct (for_ (default [] (callbacks ev)) (fun cb => call cb (entry_event m))
              (popped s m rest ev)) as [[] s1|e s1|s1].
  - assert (U1 : under_way [] s1).
    { apply R; [|destruct Op as [L _]; lia].
      intros p I. apply Op. destruct (callbacks ev) as [cbs|] eqn:C; [|destruct I].
      eapply (ef_resume _ _ (fine_event _ _ _ F E)); [exact C | exact I]. }
    unfold bind. rewrite get_event_unfold.
    destruct (objects s1 !! entry_event m) as [ev1|];
      [|apply (under_way_15 _ _ U1)].
    destruct (value ev1); try (apply under_way_on_course, U1).
    destruct (defused ev1); [apply under_way_on_course, U1 | apply (under_way_15 _ _ U1)].
  - apply R; [|destruct Op as [L _]; lia].
    intros p I. apply Op. destruct (callbacks ev) as [cbs|] eqn:C; [|destruct I].
    eapply (ef_resume _ _ (fine_event _ _ _ F E)); [exact C | exact I].
  - exact Logic.I.
Qed.

Lemma step_loop_on_course fuel s :
  fine s -> on_course s ->
  match step_loop fuel s with
  | Raise _ s' => served s' \/ now s' <= 15
  | _ => True
  end.
Proof.
  revert s. induction fuel as [|fuel IH]; intros s F U; cbn [step_loop]; [exact Logic.I|].
  pose proof (step_goes_on s F) as G. pose proof (step_on_course s F U) as C.
  unfold bind. destruct (step s) as [[] s1|e s1|s1]; cbn [goes_on] in G.
  - apply IH; assumption.
  - exact C.
  - exact Logic.I.
Qed.

(** *** The run *)

(** After the first step of the event loop the first customer leads: it
    is about to arrive, and nobody has asked for a cashier. *)
Lemma first_step_on_course pa pb pc s :
  on_course (final_state (step (starting (Z.pos pa) (Z.pos pb) (Z.pos pc) s))).
Proof.
  match goal with |- on_course ?x =>
    let o := eval vm_compute in (objects x) in
    let q := eval vm_compute in (queue x) in
    let t := eval vm_compute in (theater x) in
    assert (O : objects x = o) by (vm_compute; reflexivity);
    assert (Q : queue x = q) by (vm_compute; reflexivity);
    assert (T : theater x = t) by (vm_compute; reflexivity)
  end.
  right. exists 0%nat, 0%nat. split.
  - split.
    + rewrite O. repeat (constructor; [cbn; lia|]). constructor.
    + intros r _. rewrite T.
      destruct r; (eexists; split; [reflexivity|]; split; [reflexivity|];
                   split; [reflexivity | cbn; lia]).
  - exists 3%nat, (go_to_movies_start 0). split; [|split; [reflexivity|]].
    + exists None, None. rewrite O. reflexivity.
    + left. split; [reflexivity|]. split; [reflexivity|]. left.
      exists 4%nat. split.
      * eexists. eexists. rewrite O. split; [reflexivity|]. split; [reflexivity|].
        left. reflexivity.
      * eexists. rewrite Q. split; [right; right; right; left; reflexivity|].
        split; [reflexivity|]. apply Qle_refl.
Qed.

(** With a positive staffing and enough steps, the run of the simulation
    returns at the horizon, and a customer has been served by then. *)
Lemma positive_run_serves a b c extra s :
  (0 < a)%Z -> (0 < b)%Z -> (0 < c)%Z ->
  exists s',
    (env_process (run_theater_start a b c) >> run 90 (9947 + extra))
      (fresh_environment s) = Return tt s' /\ now s' = 90 /\ served s'.
Proof.
  intros Ha Hb Hc. rewrite run_unfold.
  pose proof (step_loop_ends (9947 + extra) _ (starting_inv a b c s)) as En.
  pose proof (step_loop_stops (9947 + extra) _ (starting_inv a b c s)
                (unreserved_starting a b c s)) as St.
  assert (Go : match step_loop (9947 + extra) (starting a b c s) with
               | Return _ _ => False
               | Raise e s' =>
                   (e = StopSimulation \/ e = EmptySchedule) /\
                   (served s' \/ now s' <= 15)
               | OutOfFuel _ => True
               end).
  { clear En St. destruct a as [|pa|pa], b as [|pb|pb], c as [|pc|pc]; try lia.
    destruct (first_step_fine pa pb pc s) as (s1 & E1 & F1).
    pose proof (first_step_on_course pa pb pc s) as U1. rewrite E1 in U1.
    cbn [final_state] in U1.
    change (9947 + extra)%nat with (S (9946 + extra)). cbn [step_loop]. unfold bind.
    rewrite E1.
    pose proof (step_loop_on_course (9946 + extra) s1 F1 U1) as C.
    pose proof (step_loop_goes_on (9946 + extra) s1 F1) as G.
    destruct (step_loop (9946 + extra) s1) as [[] s2|e s2|s2]; auto. }
  destruct (step_loop (9947 + extra) (starting a b c s)) as [[] s'|e s'|s'].
  - destruct Go.
  - destruct Go as [[->| ->] C].
    + exists s'. split; [reflexivity|]. destruct (St eq_refl) as [_ N].
      split; [exact N|]. destruct C as [Sv|Lt]; [exact Sv|]. exfalso.
      rewrite N in Lt. exact (Lt eq_refl).
    + destruct (St eq_refl) as [St' _]. discriminate St'.
  - exfalso. apply En. rewrite measure_starting.
    apply Nat.lt_le_trans with 9947%nat; [apply Nat.lt_succ_diag_r | apply Nat.le_add_r].
Qed.


